(* ===== verification/_CoqProject ===== *)
-Q . S2P
Prelude.v
StdMap.v
IoStream.v
Doubles.v
ConsistentHash.v
Sha256.v
Chunks.v
Frames.v
Sockets.v
Proc.v
Handlers.v
StorageNode.v
Wire.v
MetadataNode.v
NodeConfig.v
Client.v
Records.v
Apps.v
Cluster.v
Network.v
Sessions.v
Integrity.v
Reliable.v
Divergence.v
Replication.v
Deployment.v
LocalCluster.v
Store.v
Repair.v
Faults.v
Schedule.v
Mutexes.v
Totality.v
Performance.v
SystemTests.v
Threads.v
Overlap.v
Calm.v
