(* ===== verification/Prelude.v ===== *)
(** * Verification of the distributed file store

    The program stores files in a cluster.  A client cuts a file into chunks of
    1 MiB, names each chunk by its SHA-256 digest, sends every chunk to two storage
    nodes chosen on a consistent-hash ring, and sends the file's record (name, size,
    digests in order) to the head of a chain of metadata nodes, which forward it to
    the tail.  To download, it asks the metadata nodes from the last to the first,
    fetches every chunk from one of its two nodes and writes the file back.  Nodes
    and client talk over TCP in length-prefixed messages; requests are words of text.

    This library models the C++ sources under [src/] and [apps/] as executable
    functions and step relations, and proves what each part promises.

    ** The files

    - [Prelude.v] (this file): integers of a fixed width with their wrap-around,
      bytes, shared lemmas and tactics, the hint databases [dfs].
    - [StdMap.v]: [std::map] with [int] keys, as a sorted association list.
    - [IoStream.v]: [std::istringstream] extraction, [std::getline],
      [std::to_string] and [std::stoi], with their failure rules; the words of a
      text, the reference notion the command parsers are compared with.
    - [Doubles.v]: the arithmetic of [double] and the two formats in which the reports
      write it.
    - [ConsistentHash.v]: [dht/consistent_hash.{hpp,cpp}].  The ring is the map from
      positions to addresses; [addNode], [removeNode], [getNodeForKey],
      [getNodesForKey] and the rest are the methods of the class, and [built]
      describes the rings the program can reach.  Theorems: replicas are the first
      distinct addresses clockwise from the key, nodes that come or go move only
      their own keys, the ring's invariant, and what the shipped hash function does
      with the shipped addresses.
    - [Sha256.v]: [common/sha256.cpp].  Theorems: the streaming function is padding
      followed by block compression, for every input and whatever the buffer held
      before; the word functions and the schedule are the standard's; the digest is
      64 hexadecimal digits; the published test vectors.
    - [Chunks.v]: [common/chunk.*], [file_utils.*], [hash_utils.*] and
      [client/verify_files.cpp], over a file system that is a finite map ([fs]).
      Theorems: cutting loses nothing, writing back restores the file from any
      permutation of its chunks, and exactly which chunk lists are refused.
    - [Frames.v]: the length-prefixed messages of [sendData] and [recvData].
      Theorems: messages arrive one by one, whole and in order, however the kernel
      cuts the stream; when a send succeeds; what happens from 4 GB on.
    - [Sockets.v]: [network/tcp_client.cpp] and [network/tcp_server.cpp]: the
      descriptors the objects hold, the table of clients, and the server's transfers
      on the sockets of [Frames.v].  Theorems: no leak but of the listening sockets of repeated
      starts, no double close, fresh identifiers, independent streams, for every behaviour of the
      kernel.
    - [Proc.v]: the language the remaining parts are written in.  [io S A] is a
      program over shared members [S] that reads and writes them one access at a
      time, takes mutexes (among them [clientsMutex_], which the server holds while it sends), and
      makes calls on the connection being served and on an outgoing connection.  [endpoint] is
      where [connect] goes: [inet_pton] and the cast of the port.  [run] executes it against a script of answers and gives
      the trace; [pool_step] interleaves threads; [pool_sound] is the rule by which
      invariants of all interleavings are proved, from a condition on the text of
      each thread ([safe]).
    - [Handlers.v]: [start] of both nodes after the socket is open: the accept loop,
      the counter of handlers and the condition variable at the end.  Theorems: [start] does not
      return while a handler serves; it returns, or waits for ever in one of two ways.
    - [StorageNode.v]: [storage/storage_node.*].  Theorems: a refinement of a map
      from digests to chunks over whole connections, the answer to every command,
      and the invariants of all interleavings.
    - [Wire.v]: [common/file_metadata.hpp] with the [PUT] and [FOUND] messages, both
      sides of each ([client.cpp] and [metadata_node.cpp]).  Theorems: round trips,
      and what becomes of names of two words.
    - [MetadataNode.v]: [metadata/metadata_node.*]: requests, forwarding, the health
      check and the repair of the chain.  Theorems: every branch of [PUT]; a stored
      record is served; what a failed successor causes; invariants of all
      interleavings of client threads and health check.
    - [NodeConfig.v]: [common/node_config.*], [common/node_info.hpp] and the mains of
      the nodes up to [start].  Theorems: the configuration is read back; the nodes
      form one chain in the order of their identifiers.
    - [Client.v]: [client/client.*].  Theorems: what a reported success of an upload
      and of a download means, exchange by exchange.
    - [Apps.v]: [apps/main_client.cpp] and [apps/main_verify_files.cpp].  Theorem: the
      verification tool accepts exactly the equal files, up to a SHA-256 collision.
    - [Records.v]: the chunks and the record of a file, and what of them survives
      the text of a [PUT].
    - [Cluster.v]: the client and the nodes run against each other, one program at a
      time.  A [world] maps addresses to nodes; every call a program makes on a
      connection is answered by the [handleClient] of the node there, run in the same
      world, to any depth of nested connections ([talk], [deliver]).  Theorem: an
      acknowledged [PUT] is on every node of the chain.
    - [Network.v]: the same programs all at once.  Any number of clients, handler
      threads and health checks take steps in any order, and the network may fail any
      call ([net_exec] executes a schedule, [net_reach] are the configurations of all
      schedules).  The class [Contract] says what nodes promise in their answers;
      [net_sound] is the rule by which programs that keep a contract ([safe]) are
      correct in every schedule.
    - [Sessions.v]: the contract of the two kinds of nodes, and the proof that
      [handleClient] of both and the health check keep it, for any sets of chunks and
      records the clients upload ([Uploads]).
    - [Integrity.v]: uploads and downloads in [Network.v].  Theorems, for every
      schedule: once an upload has reported success, each of its chunks is on one of
      its replicas and its name is known along the chain, from then on; a download
      that reports success has written a file that somebody uploaded under its name.
    - [Reliable.v]: a second contract for [Network.v], for the schedules in which no call
      fails ([calm]): every chunk is acknowledged, every record reaches the end of the
      chain, what is stored is found.  The nodes keep it, and the client's programs
      succeed under it.
    - [Divergence.v]: a schedule in which two clients upload different files of one
      name and the nodes of the chain end with different records.
    - [Replication.v]: [uploadFile] and [downloadFile] in [Cluster.v].  Theorem: a
      file that was uploaded is the file that is downloaded, also after the loss of
      one storage node.
    - [Deployment.v]: the world that the mains of the nodes make from a configuration
      file, in which each node binds its port.  Theorems: its metadata nodes are a chain and its storage nodes serve, and
      it is a world the theorems of [Integrity.v] start from.
    - [LocalCluster.v]: what the programs of [apps/] that run a cluster in their own
      process have in common: starting nodes as threads, killing them with [DIE],
      files and directories.  Theorems: the cluster is fresh after a restart, if the ports of the killed
      nodes are free by then; a connection that a stopped node accepts is as one it refuses.
    - [Store.v]: the specification of the cluster, a map from names to contents.
      Theorem: every sequence of uploads and downloads has the outcomes and effects the
      map gives, also when metadata nodes at the ends of the list are gone.
    - [Repair.v]: health checks as steps of the world.  Theorems: they come to the same
      in every order; after the loss of the tail the cluster still is the same map; after
      the loss of a node in the middle an overwritten file comes back; the repair that
      [SET_SKIP] prepares joins the chain.
    - [Faults.v]: histories of requests, losses of nodes and health checks.  Theorem: the
      cluster goes on as the map of [Store.v] as long as every key keeps a replica and
      metadata nodes are lost only at the ends of the chain.
    - [Schedule.v]: the two ways to run the cluster compared.  Theorem: what [Cluster.v]
      executes, one program after the other, is one of the schedules of [Network.v] and
      comes to the same.
    - [Mutexes.v]: the mutexes of the nodes and of their servers in [Network.v].  Theorem:
      mutual exclusion, and every mutex that is taken can become free, in every schedule.
    - [Totality.v]: when a program waits for ever in [Cluster.v].  Theorems: requests end,
      whatever state the nodes are in; a download without a name does not.
    - [Performance.v]: [apps/main_performance_evaluation.cpp] and
      [apps/main_performance_experiments.cpp], with the text of their reports.  Theorems:
      every test of the evaluation finds its file again; every line of the experiments has a success
      rate of 100 whatever the cluster does, and latencies of 0 when nothing answers; a
      fast upload has an infinite throughput.
    - [SystemTests.v]: [apps/main_system_tests.cpp].  Theorems: all three tests
      pass if the ports of killed nodes are free when the next test starts, and the second fails if
      those of the metadata nodes are not; a client of the second that reports no failure downloaded
      what it had uploaded.
    - [Threads.v]: the threads of one program on one disk, beside [Network.v].  Theorem:
      threads with files of their own do what their programs do alone.
    - [Overlap.v]: the threads of the second system test and of the experiments in every
      interleaving.  Theorems: the verdict of a thread is right; the test leaves nothing
      on the disk; [runWorkload] of [Performance.v] covers every interleaving.
    - [Calm.v]: what [Reliable.v] means for threads.  Theorems: whenever no call fails,
      every client that has come to the end of uploading a file and downloading it again
      has succeeded, on any chain of living nodes and in every order of steps; and so
      the second system test passes.

    ** How the code is represented

    Integers are [Z], with [u32], [u64] and [i32] where the code's arithmetic wraps
    or converts.  Signed overflow is undefined in the language; where the code relies
    on it ([hashKey]) there is a version that wraps and a checked one that reports
    it.  [std::string] is [string], a vector of bytes is [list byte].  Undefined
    behaviour, accesses outside a vector and uncaught exceptions are [None].  What
    the kernel answers (descriptors, counts of bytes, failures of calls) is always an
    argument, never assumed, except where a theorem says so ([fresh_fd], [patient]).  Two of its
    choices have names: whether [::close] wakes a thread that is blocked in [accept] ([wakes] in
    [Handlers.v]; on Linux it does not), and so which ports of stopped nodes are free again when a
    program has slept ([freed] in [LocalCluster.v]).

    Loops that are not structural take fuel: [read_chunks] one unit per chunk and two
    for the end ([read_fuel]), [collect] one unit per ring entry, [getlines] one per
    character, [digits] one per binary digit, the padding loops of [sha256] one per
    byte of a block.  The lemmas that characterise these functions show that the fuel
    is never used up.  [run_loop] counts turns of a handler's loop, and its theorem
    holds for every sufficient number.  [deliver] counts the depth of nested
    connections; the length of the chain is enough ([chain_ends] measures it in
    any world).

    ** What is not modelled

    Output to [std::cout] and [std::cerr]; the readings of the clock and the random bytes
    of the programs that measure and test, which are arguments; sleeping, and with it everything
    that depends on time: the health check may run at any moment.  One IPv4 address is one
    machine.  [SIGPIPE], which a send on a connection that the peer has reset raises and nothing
    handles, ends a process: only [Performance.v] models that; elsewhere a send that fails is one the
    process survives, and the theorems speak of runs that no signal ends.  Messages between the
    programs are shorter than 4 GB ([Frames.v] says what happens beyond), memory suffices, and a
    file that could be created can be written.  The mains of these programs run their threads one after
    the other; [Overlap.v] and [Calm.v] treat their interleavings, without the order in
    which the threads report.  The plotting script draws pictures and is not modelled.
    Accesses to members without their mutex are a data race in the code; here such a read
    sees the value of some moment.  In [Sockets.v] a method of [TCPServer] is one atomic operation;
    that it holds [clientsMutex_] is in [Proc.v].

    In [Cluster.v], and so in the files after it but [Network.v] to [Divergence.v],
    [Schedule.v], [Mutexes.v], [Threads.v], [Overlap.v] and [Calm.v], one program runs at a
    time: the exchanges of one client are sequential, and a health check falls between the
    requests, not into them.  A message that is sent
    to a node whose connection has ended is answered by nothing, as in the code, where
    the next [recv] then fails.  A node that was stopped refuses connections there ([dial]).  [Network.v]
    has no such restrictions.  There a node
    that is killed stays in the map with its [running_] flag down, so that the threads
    it still has go on, as in the code. *)

From Stdlib Require Export ZArith Lia.
From Stdlib Require Export Ascii Init.Byte.
From Stdlib Require Strings.Byte Strings.String.
From stdpp Require Export base tactics numbers list gmap strings sorting.

#[local] Open Scope Z_scope.

(** ** Notations

    [Z] is the carrier of every machine integer; the notations below name the
    arithmetic of the widths the program uses. *)
Declare Scope dfs_scope.
Delimit Scope dfs_scope with dfs.

(** Unsigned arithmetic wraps modulo a power of two. *)
Definition uwrap (w z : Z) : Z := z `mod` 2 ^ w.

(** Two's complement reading of the low [w] bits. *)
Definition swrap (w z : Z) : Z := (z + 2 ^ (w - 1)) `mod` 2 ^ w - 2 ^ (w - 1).

Abbreviation u32 := (uwrap 32).
Abbreviation u64 := (uwrap 64).
Abbreviation i32 := (swrap 32).

(** [uint32_t] addition. *)
Notation "x +u y" := (u32 (x + y)) (at level 50, left associativity) : dfs_scope.

(** The ranges of [int] and of [int64_t]. *)
Definition INT_MIN : Z := - 2 ^ 31.
Definition INT_MAX : Z := 2 ^ 31 - 1.
Definition INT64_MIN : Z := - 2 ^ 63.
Definition INT64_MAX : Z := 2 ^ 63 - 1.

Definition in_int (z : Z) : Prop := INT_MIN <= z <= INT_MAX.
#[export] Instance in_int_dec z : Decision (in_int z).
Proof. unfold in_int. apply _. Defined.

(** ** Bytes: [uint8_t] is [byte], a [std::vector<uint8_t>] is [list byte] and a
    [std::string] is [string]. *)
Abbreviation bytes := (list byte).

#[export] Instance byte_eq_dec : EqDecision byte := Strings.Byte.byte_eq_dec.

Definition u8 (b : byte) : Z := Z.of_N (Strings.Byte.to_N b).

Definition byte_of_Z (z : Z) : byte :=
  match Strings.Byte.of_N (Z.to_N (uwrap 8 z)) with Some b => b | None => x00 end.

(** [std::string(data.begin(), data.end())] and the cast back in
    [sendMessage]. *)
Abbreviation string_of_bytes := String.string_of_list_byte.
Abbreviation bytes_of_string := String.list_byte_of_string.

(** A [size_t] cut of a byte sequence, counted in [Z] so that it computes on
    large sizes. *)
Fixpoint split_at {A} (n : Z) (l : list A) : list A * list A :=
  match l with
  | [] => ([], [])
  | x :: l' => if bool_decide (n <= 0) then ([], l)
               else let '(a, b) := split_at (n - 1) l' in (x :: a, b)
  end.

Definition zlen {A} (l : list A) : Z := Z.of_nat (length l).

(** ** Tactics *)

(** Decide every [bool_decide] and [decide] that a hypothesis settles. *)
Ltac dfs_decide :=
  repeat match goal with
  | |- context [bool_decide ?P] =>
      first [ rewrite (bool_decide_eq_true_2 P) by (assumption || lia)
            | rewrite (bool_decide_eq_false_2 P) by (assumption || lia) ]
  | |- context [decide ?P] =>
      first [ rewrite (decide_True (P:=P)) by (assumption || lia)
            | rewrite (decide_False (P:=P)) by (assumption || lia) ]
  end.

(** Split a goal on the scrutinee of its outermost match and simplify. *)
Ltac dfs_cases := repeat (case_match; simplify_eq/=).

Create HintDb dfs discriminated.
Create Rewrite HintDb dfs.

(** ** Integers *)

Lemma pow2_pos w : 0 <= w -> 0 < 2 ^ w.
Proof. intros. apply Z.pow_pos_nonneg; lia. Qed.

Lemma uwrap_range w z : 0 <= w -> 0 <= uwrap w z < 2 ^ w.
Proof. intros. apply Z.mod_pos_bound, pow2_pos; done. Qed.

Lemma uwrap_small w z : 0 <= z < 2 ^ w -> uwrap w z = z.
Proof. apply Z.mod_small. Qed.

Lemma uwrap_idem w z : uwrap w (uwrap w z) = uwrap w z.
Proof. apply Zmod_mod. Qed.

Lemma swrap_range w z : 0 < w -> - 2 ^ (w - 1) <= swrap w z < 2 ^ (w - 1).
Proof.
  intros. unfold swrap.
  assert (2 ^ w = 2 * 2 ^ (w - 1)) by (rewrite <- Z.pow_succ_r by lia; f_equal; lia).
  pose proof (Z.mod_pos_bound (z + 2 ^ (w - 1)) (2 ^ w) ltac:(apply pow2_pos; lia)). lia.
Qed.

Lemma swrap_small w z : 0 < w -> - 2 ^ (w - 1) <= z < 2 ^ (w - 1) -> swrap w z = z.
Proof.
  intros. unfold swrap.
  assert (2 ^ w = 2 * 2 ^ (w - 1)) by (rewrite <- Z.pow_succ_r by lia; f_equal; lia).
  rewrite Z.mod_small; lia.
Qed.

Lemma i32_in_int z : in_int (i32 z).
Proof. pose proof (swrap_range 32 z ltac:(lia)). unfold in_int, INT_MIN, INT_MAX. lia. Qed.

Lemma i32_small z : in_int z -> i32 z = z.
Proof. unfold in_int, INT_MIN, INT_MAX. intros. apply swrap_small; lia. Qed.

(** ** Bytes *)

Lemma u8_range b : 0 <= u8 b < 256.
Proof. unfold u8. pose proof (Strings.Byte.to_N_bounded b). lia. Qed.

Lemma byte_of_Z_u8 b : byte_of_Z (u8 b) = b.
Proof. unfold byte_of_Z. destruct b; reflexivity. Qed.

Lemma u8_byte_of_Z z : u8 (byte_of_Z z) = uwrap 8 z.
Proof.
  unfold byte_of_Z. pose proof (uwrap_range 8 z ltac:(lia)) as Hr.
  change (2 ^ 8) with 256 in Hr.
  destruct (Strings.Byte.of_N (Z.to_N (uwrap 8 z))) as [b|] eqn:E.
  - apply Strings.Byte.to_of_N in E. unfold u8. rewrite E. lia.
  - apply Strings.Byte.of_N_None_iff in E. lia.
Qed.

Lemma u8_inj b c : u8 b = u8 c -> b = c.
Proof. intros H. rewrite <- (byte_of_Z_u8 b), H. apply byte_of_Z_u8. Qed.

Lemma string_bytes_id s : string_of_bytes (bytes_of_string s) = s.
Proof. apply String.string_of_list_byte_of_string. Qed.

Lemma bytes_string_id l : bytes_of_string (string_of_bytes l) = l.
Proof. apply String.list_byte_of_string_of_list_byte. Qed.

Lemma bytes_of_string_nil s : bytes_of_string s = [] <-> s = EmptyString.
Proof.
  split; [|intros ->; done]. intros H. rewrite <- (string_bytes_id s), H. done.
Qed.

Lemma string_of_bytes_iff b s : string_of_bytes b = s <-> b = bytes_of_string s.
Proof.
  split; [intros <-; by rewrite bytes_string_id|intros ->; apply string_bytes_id].
Qed.

(** ** Lists *)

Lemma zlen_nonneg {A} (l : list A) : 0 <= zlen l.
Proof. unfold zlen. lia. Qed.

Lemma zlen_app {A} (k l : list A) : zlen (k ++ l) = zlen k + zlen l.
Proof. unfold zlen. rewrite length_app. lia. Qed.

Lemma zlen_cons {A} (x : A) l : zlen (x :: l) = zlen l + 1.
Proof. unfold zlen. simpl. lia. Qed.

Lemma split_at_spec {A} n (l : list A) :
  split_at n l = (take (Z.to_nat n) l, drop (Z.to_nat n) l).
Proof.
  revert n. induction l as [|x l IH]; intros n; simpl.
  - by rewrite take_nil, drop_nil.
  - case_bool_decide.
    + by replace (Z.to_nat n) with 0%nat by lia.
    + rewrite IH. by replace (Z.to_nat n) with (S (Z.to_nat (n - 1))) by lia.
Qed.

Lemma list_insert_middle {A} (p : list A) (x y : A) (s : list A) :
  <[length p := y]> (p ++ x :: s) = p ++ y :: s.
Proof. rewrite insert_app_r_alt, Nat.sub_diag by lia. done. Qed.

#[export] Hint Resolve u8_range zlen_nonneg i32_in_int : dfs.
#[export] Hint Rewrite @zlen_app @zlen_cons string_bytes_id bytes_string_id : dfs.
