(* ===== verification/StdMap.v ===== *)
(** * [std::map<int, V>]

    The two tables the program walks in key order, the hash ring
    ([ConsistentHash::ring_]) and the table of accepted connections
    ([TCPServer::clients_]), are [std::map]s keyed by [int].  Such a map is a list
    of pairs in strictly ascending key order; the operations below are the ones
    the program calls.  [sorted m] is the representation invariant, and every
    operation keeps it. *)
From S2P Require Import Prelude.

#[local] Open Scope Z_scope.

Section StdMap.
Context {V : Type}.
Implicit Types (m : list (Z * V)) (k : Z) (v : V).

(** ** Operations *)

(** [m.find(k)], [m.at(k)] *)
Fixpoint find k m : option V :=
  match m with
  | [] => None
  | (k', v') :: m' => if bool_decide (k = k') then Some v' else find k m'
  end.

(** [m[k] = v]: overwrite the value of an existing key, insert otherwise. *)
Fixpoint set_at k v m : list (Z * V) :=
  match m with
  | [] => [(k, v)]
  | (k', v') :: m' =>
      if bool_decide (k < k') then (k, v) :: m
      else if bool_decide (k = k') then (k, v) :: m'
      else (k', v') :: set_at k v m'
  end.

(** [m.erase(k)] *)
Fixpoint erase k m : list (Z * V) :=
  match m with
  | [] => []
  | (k', v') :: m' => if bool_decide (k = k') then m' else (k', v') :: erase k m'
  end.

(** [m.lower_bound(k)]: the first entry whose key is not below [k]; [None] is
    [m.end()]. *)
Fixpoint lower_bound k m : option (Z * V) :=
  match m with
  | [] => None
  | (k', v') :: m' => if bool_decide (k <= k') then Some (k', v') else lower_bound k m'
  end.

(** ** Invariant *)

Definition keys m : list Z := m.*1.

Definition sorted m : Prop := StronglySorted Z.lt (keys m).

(** Every key of the map is an [int]. *)
Definition int_keys m : Prop := Forall in_int (keys m).

(** ** Lookups *)

Lemma find_Some_in k v m : find k m = Some v -> (k, v) ∈ m.
Proof.
  induction m as [|[k' v'] m IH]; simpl; [done|]. case_bool_decide.
  - intros [= ->]. subst. left.
  - intros. right. auto.
Qed.

Lemma in_keys k m : k ∈ keys m <-> exists v, (k, v) ∈ m.
Proof.
  unfold keys. rewrite list_elem_of_fmap. split.
  - intros ([? v] & -> & ?). eauto.
  - intros [v ?]. exists (k, v). eauto.
Qed.

Lemma sorted_cons_inv k v m : sorted ((k, v) :: m) -> sorted m /\ Forall (Z.lt k) (keys m).
Proof. unfold sorted. simpl. intros H. inversion H; subst. done. Qed.

Lemma sorted_cons k v m : sorted m -> Forall (Z.lt k) (keys m) -> sorted ((k, v) :: m).
Proof. intros. unfold sorted. simpl. by constructor. Qed.

Lemma sorted_lt_notin k m : Forall (Z.lt k) (keys m) -> k ∉ keys m.
Proof. rewrite Forall_forall. intros H Hk. specialize (H _ Hk). lia. Qed.

Lemma keys_NoDup m : sorted m -> NoDup (keys m).
Proof.
  induction m as [|[k v] m IH]; [constructor|].
  intros [Hs Hlt]%sorted_cons_inv. simpl. constructor; [by apply sorted_lt_notin|auto].
Qed.

Lemma in_find k v m : sorted m -> (k, v) ∈ m -> find k m = Some v.
Proof.
  induction m as [|[k' v'] m IH]; [by intros _ ?%not_elem_of_nil|].
  intros [Hs Hlt]%sorted_cons_inv Hin. simpl. case_bool_decide as E.
  - subst k'. apply elem_of_cons in Hin as [[= ->]|Hin]; [done|].
    destruct (sorted_lt_notin _ _ Hlt). apply in_keys. eauto.
  - apply elem_of_cons in Hin as [[= -> ->]|Hin]; [done|auto].
Qed.

Lemma find_is_Some k m : is_Some (find k m) <-> k ∈ keys m.
Proof.
  rewrite in_keys. split.
  - intros [v ?%find_Some_in]. eauto.
  - intros [v Hin]. induction m as [|[k' v'] m IH]; [by apply not_elem_of_nil in Hin|].
    simpl. case_bool_decide; [eauto|].
    apply elem_of_cons in Hin as [[= -> ->]|Hin]; [done|auto].
Qed.

Lemma find_set_at_eq k v m : find k (set_at k v m) = Some v.
Proof.
  induction m as [|[k' v'] m IH]; simpl; [by dfs_decide|].
  repeat case_bool_decide; simpl; repeat case_bool_decide; done || lia.
Qed.

Lemma find_set_at_ne k k' v m : k <> k' -> find k (set_at k' v m) = find k m.
Proof.
  intros Hne. induction m as [|[k1 v1] m IH]; simpl; [by dfs_decide|].
  repeat case_bool_decide; simpl; repeat case_bool_decide; simplify_eq; done || lia.
Qed.

Lemma find_erase_ne k k' m : k <> k' -> find k (erase k' m) = find k m.
Proof.
  intros Hne. induction m as [|[k1 v1] m IH]; simpl; [done|].
  repeat case_bool_decide; simpl; repeat case_bool_decide; simplify_eq; done || lia.
Qed.

Lemma find_erase_eq k m : sorted m -> find k (erase k m) = None.
Proof.
  induction m as [|[k1 v1] m IH]; simpl; [done|].
  intros [Hs Hlt]%sorted_cons_inv. case_bool_decide; simpl.
  - subst. apply eq_None_not_Some. rewrite find_is_Some. by apply sorted_lt_notin.
  - dfs_decide. auto.
Qed.

(** ** The keys after an update, and preservation of the invariant *)

Lemma keys_set_at k v m : forall i, i ∈ keys (set_at k v m) <-> i = k \/ i ∈ keys m.
Proof.
  intros i. unfold keys. induction m as [|[k' v'] m IH]; simpl.
  - rewrite list_elem_of_singleton. set_solver.
  - repeat case_bool_decide; simpl; subst; rewrite ?elem_of_cons, ?IH; naive_solver.
Qed.

Lemma keys_erase_subseteq k m : keys (erase k m) ⊆ keys m.
Proof.
  unfold keys. induction m as [|[k' v'] m IH]; simpl; [done|].
  case_bool_decide; simpl; set_solver.
Qed.

(** As multisets: a new key is added, a present one is taken out. *)
Lemma set_at_Permutation k v m : k ∉ keys m -> set_at k v m ≡ₚ (k, v) :: m.
Proof.
  unfold keys. induction m as [|[k' v'] m IH]; simpl; [done|]. intros [Hne Hn]%not_elem_of_cons.
  repeat case_bool_decide; [done|done|]. rewrite IH by done. constructor.
Qed.

Lemma erase_Permutation k v m : find k m = Some v -> m ≡ₚ (k, v) :: erase k m.
Proof.
  induction m as [|[k' v'] m IH]; simpl; [done|]. case_bool_decide.
  - intros [= ->]. by subst.
  - intros E. rewrite (IH E) at 1. constructor.
Qed.

Lemma set_at_sorted k v m : sorted m -> sorted (set_at k v m).
Proof.
  induction m as [|[k' v'] m IH]; intros Hs; simpl.
  - apply sorted_cons; [done|constructor].
  - pose proof (sorted_cons_inv _ _ _ Hs) as [Hm Hlt]. repeat case_bool_decide.
    + apply sorted_cons; [done|]. simpl. constructor; [lia|].
      eapply Forall_impl; [exact Hlt|]. simpl. lia.
    + subst. by apply sorted_cons.
    + apply sorted_cons; [auto|]. apply Forall_forall. intros i [->|Hi]%keys_set_at; [lia|].
      by eapply Forall_forall in Hlt.
Qed.

Lemma erase_sorted k m : sorted m -> sorted (erase k m).
Proof.
  induction m as [|[k' v'] m IH]; intros Hs; simpl; [done|].
  pose proof (sorted_cons_inv _ _ _ Hs) as [Hm Hlt]. case_bool_decide; [done|].
  apply sorted_cons; [auto|]. apply Forall_forall. intros i Hi%keys_erase_subseteq.
  by eapply Forall_forall in Hlt.
Qed.

Lemma set_at_int_keys k v m : in_int k -> int_keys m -> int_keys (set_at k v m).
Proof.
  unfold int_keys. rewrite !Forall_forall. intros Hk Hm i [->|Hi]%keys_set_at; auto.
Qed.

Lemma erase_int_keys k m : int_keys m -> int_keys (erase k m).
Proof.
  unfold int_keys. rewrite !Forall_forall. intros Hm i Hi%keys_erase_subseteq. auto.
Qed.

(** ** [lower_bound] *)

Lemma lower_bound_Some k k' v m :
  sorted m -> lower_bound k m = Some (k', v) ->
  (k', v) ∈ m /\ k <= k' /\ forall i, i ∈ keys m -> k <= i -> k' <= i.
Proof.
  induction m as [|[k1 v1] m IH]; simpl; [done|].
  intros [Hs Hlt]%sorted_cons_inv. case_bool_decide.
  - intros [= -> ->]. split_and!; [left|done|]. intros i [->|Hi]%elem_of_cons _; [lia|].
    eapply Forall_forall in Hlt; [|done]. lia.
  - intros Hlb. destruct (IH Hs Hlb) as (Hin & Hle & Hmin).
    split_and!; [by right|done|]. intros i [->|Hi]%elem_of_cons ?; [lia|auto].
Qed.

Lemma lower_bound_None k m : lower_bound k m = None <-> Forall (fun i => i < k) (keys m).
Proof.
  induction m as [|[k1 v1] m IH]; simpl; [by split|].
  case_bool_decide.
  - split; [done|]. inversion 1; subst. lia.
  - rewrite IH. split; [constructor; [lia|done]|]. by inversion 1.
Qed.

(** Two maps that answer every lookup alike are the same list. *)
Lemma sorted_ext m1 m2 :
  sorted m1 -> sorted m2 -> (forall k, find k m1 = find k m2) -> m1 = m2.
Proof.
  revert m2. induction m1 as [|[k1 v1] m1 IH]; intros [|[k2 v2] m2] Hs1 Hs2 Hf.
  - done.
  - specialize (Hf k2). simpl in Hf. by case_bool_decide.
  - specialize (Hf k1). simpl in Hf. by case_bool_decide.
  - apply sorted_cons_inv in Hs1 as [Hs1 H1]. apply sorted_cons_inv in Hs2 as [Hs2 H2].
    assert (Hn1 : forall k, k <= k1 -> find k m1 = None).
    { intros k Hk. apply eq_None_not_Some. rewrite find_is_Some. intros Hin.
      eapply Forall_forall in H1; [|done]. lia. }
    assert (Hn2 : forall k, k <= k2 -> find k m2 = None).
    { intros k Hk. apply eq_None_not_Some. rewrite find_is_Some. intros Hin.
      eapply Forall_forall in H2; [|done]. lia. }
    assert (k1 = k2 /\ v1 = v2) as [-> ->].
    { pose proof (Hf k1) as F1. pose proof (Hf k2) as F2. simpl in F1, F2.
      repeat case_bool_decide; simplify_eq; try lia; try done.
      destruct (Z.lt_ge_cases k1 k2); [rewrite Hn2 in F1 by lia|rewrite Hn1 in F2 by lia]; done. }
    f_equal. apply IH; [done..|]. intros k. specialize (Hf k). simpl in Hf.
    case_bool_decide; [|done]. subst. by rewrite Hn1, Hn2 by lia.
Qed.
End StdMap.

#[export] Hint Resolve set_at_sorted erase_sorted set_at_int_keys erase_int_keys : dfs.
