(* ===== verification/IoStream.v ===== *)
(** * Text streams: [std::istringstream], [std::getline] and [std::to_string]

    The wire messages and the configuration file are read with [operator>>] and
    [std::getline] and written with [std::to_string].  This file models the part
    of those the program uses, in the "C" locale: the end-of-file and fail bits,
    white-space skipping, the value written on a failed conversion, and the
    clamping of integers that do not fit. *)
From S2P Require Import Prelude.

#[local] Open Scope Z_scope.

(** ** Strings *)

Fixpoint str_all (p : ascii -> bool) (s : string) : bool :=
  match s with
  | EmptyString => true
  | String a s' => p a && str_all p s'
  end.

(** The longest prefix whose characters satisfy [p], and the rest. *)
Fixpoint span (p : ascii -> bool) (s : string) : string * string :=
  match s with
  | EmptyString => (EmptyString, EmptyString)
  | String a s' => if p a then let '(w, r) := span p s' in (String a w, r)
                   else (EmptyString, s)
  end.

Definition not_space (a : ascii) : bool := negb (Ascii.is_space a).

(** A word [operator>>] reads back whole. *)
Definition token (w : string) : Prop := w <> EmptyString /\ str_all not_space w = true.
#[export] Instance token_dec w : Decision (token w).
Proof. unfold token. apply _. Defined.

(** ** The stream state *)

Record istream := IStream { rest : string; eofbit : bool; failbit : bool }.

(** [std::istringstream iss(s)] *)
Definition istringstream (s : string) : istream := IStream s false false.

Definition good (i : istream) : bool := negb (eofbit i) && negb (failbit i).

Definition set_fail (i : istream) : istream := IStream (rest i) (eofbit i) true.

(** The sentry of a formatted extraction: refuse a stream that is not good, skip
    white space, and fail at the end of the input. *)
Definition sentry (i : istream) : bool * istream :=
  if good i then
    match (span Ascii.is_space (rest i)).2 with
    | EmptyString => (false, IStream EmptyString true true)
    | r => (true, IStream r false false)
    end
  else (false, set_fail i).

(** [iss >> word]: the word written, if any, and the stream afterwards. *)
Definition extract_string (i : istream) : option string * istream :=
  match sentry i with
  | (false, i') => (None, i')
  | (true, i') =>
      let '(w, r) := span not_space (rest i') in
      (Some w, IStream r (bool_decide (r = EmptyString)) false)
  end.

(** Decimal digits *)
Definition is_digit (a : ascii) : bool :=
  let n := Z.of_N (N_of_ascii a) in (48 <=? n) && (n <=? 57).

Definition digit_val (a : ascii) : Z := Z.of_N (N_of_ascii a) - 48.

Fixpoint digits_val (acc : Z) (s : string) : Z :=
  match s with
  | EmptyString => acc
  | String a s' => digits_val (10 * acc + digit_val a) s'
  end.

(** The optional sign of a number: (is it negative, what follows). *)
Definition read_sign (s : string) : bool * string :=
  match s with
  | String "-" s' => (true, s')
  | String "+" s' => (false, s')
  | _ => (false, s)
  end.

(** [iss >> n] for a signed integer with the range [lo .. hi]: 0 is written when
    there are no digits, the nearest bound when the number does not fit, and both
    set the fail bit. *)
Definition extract_int (lo hi : Z) (i : istream) : option Z * istream :=
  match sentry i with
  | (false, i') => (None, i')
  | (true, i') =>
      let '(neg, s) := read_sign (rest i') in
      let '(ds, r) := span is_digit s in
      let eof := bool_decide (r = EmptyString) in
      let d := digits_val 0 ds in
      let v := if neg : bool then - d else d in
      if bool_decide (ds = EmptyString) then (Some 0, IStream r eof true)
      else if bool_decide (v < lo) then (Some lo, IStream r eof true)
      else if bool_decide (hi < v) then (Some hi, IStream r eof true)
      else (Some v, IStream r eof false)
  end.

Abbreviation extract_i32 := (extract_int INT_MIN INT_MAX).
Abbreviation extract_i64 := (extract_int INT64_MIN INT64_MAX).

(** [std::stoi(s)]; [None] is the exception. *)
Definition stoi (s : string) : option Z :=
  let '(neg, s) := read_sign (span Ascii.is_space s).2 in
  let '(ds, _) := span is_digit s in
  let v := if neg : bool then - digits_val 0 ds else digits_val 0 ds in
  if bool_decide (ds = EmptyString) then None
  else if bool_decide (in_int v) then Some v else None.

(** [std::getline(is, line, delim)]: the delimiter is consumed and not stored;
    extracting nothing at all sets the fail bit. *)
Definition getline (delim : ascii) (i : istream) : string * istream :=
  if good i then
    match span (fun a => negb (bool_decide (a = delim))) (rest i) with
    | (w, String _ r) => (w, IStream r false false)
    | (w, EmptyString) => (w, IStream EmptyString true (bool_decide (w = EmptyString)))
    end
  else (EmptyString, set_fail i).

(** [while (std::getline(is, line, delim)) lines.push_back(line);], with one unit
    of fuel per call. *)
Fixpoint getlines (delim : ascii) (fuel : nat) (i : istream) : list string :=
  match fuel with
  | O => []
  | S fuel' =>
      let '(w, i') := getline delim i in
      if failbit i' then [] else w :: getlines delim fuel' i'
  end.

(** Every successful call consumes a character of the stream, so this fuel is
    never used up. *)
Definition all_lines (delim : ascii) (s : string) : list string :=
  getlines delim (S (String.length s)) (istringstream s).

Lemma string_app_assoc (a b c : string) : (a +:+ b) +:+ c = a +:+ (b +:+ c).
Proof. induction a as [|x a IH]; [done|]. change (String x ((a +:+ b) +:+ c) = String x (a +:+ (b +:+ c))). by rewrite IH. Qed.

(** ** [std::to_string] *)

Definition digit_char (d : Z) : ascii := ascii_of_N (Z.to_N (48 + d)).

Fixpoint digits_aux (fuel : nat) (n : Z) (acc : string) : string :=
  match fuel with
  | O => acc
  | S fuel' =>
      let acc' := String (digit_char (n `mod` 10)) acc in
      if bool_decide (n < 10) then acc' else digits_aux fuel' (n `div` 10) acc'
  end.

Definition digits (n : Z) : string := digits_aux (S (Z.to_nat (Z.log2 n))) n EmptyString.

Definition to_string (z : Z) : string :=
  if bool_decide (z < 0) then String "-" (digits (- z)) else digits z.

(** ** Reference splitting *)

(** The pieces of [s] between occurrences of [c]. *)
Fixpoint split_on (c : ascii) (s : string) : list string :=
  match s with
  | EmptyString => [EmptyString]
  | String a s' =>
      if bool_decide (a = c) then EmptyString :: split_on c s'
      else match split_on c s' with
           | w :: ws => String a w :: ws
           | [] => [String a EmptyString]
           end
  end.

(** [pieces] joined with [c] in between, as the program's loops write them. *)
Fixpoint join_with (c : ascii) (pieces : list string) : string :=
  match pieces with
  | [] => EmptyString
  | [w] => w
  | w :: ws => w +:+ String c (join_with c ws)
  end.

(** The words of [s]: its maximal runs of characters that are not white space. *)
Fixpoint words (s : string) : list string :=
  match s with
  | EmptyString => []
  | String a s' =>
      if Ascii.is_space a then words s'
      else match s' with
           | String b _ =>
               if Ascii.is_space b then String a EmptyString :: words s'
               else match words s' with
                    | w :: ws => String a w :: ws
                    | [] => [String a EmptyString]
                    end
           | EmptyString => [String a EmptyString]
           end
  end.

Definition nonempty (w : string) : bool := negb (bool_decide (w = EmptyString)).

(** ** Strings and spans *)

Lemma str_app_cons a s t : String a s +:+ t = String a (s +:+ t).
Proof. done. Qed.

Lemma str_app_nil_r s : s +:+ EmptyString = s.
Proof. induction s as [|a s IH]; [done|]. by rewrite str_app_cons, IH. Qed.

Lemma str_app_assoc s t r : (s +:+ t) +:+ r = s +:+ (t +:+ r).
Proof. induction s as [|a s IH]; [done|]. by rewrite !str_app_cons, IH. Qed.

Lemma str_length_app s t : String.length (s +:+ t) = (String.length s + String.length t)%nat.
Proof. induction s as [|a s IH]; [done|]. rewrite str_app_cons. simpl. by rewrite IH. Qed.

Lemma str_all_app p s t : str_all p (s +:+ t) = str_all p s && str_all p t.
Proof.
  induction s as [|a s IH]; [done|]. rewrite str_app_cons. simpl.
  by rewrite IH, andb_assoc.
Qed.

Lemma str_all_impl (p q : ascii -> bool) s :
  (forall a, p a = true -> q a = true) -> str_all p s = true -> str_all q s = true.
Proof.
  intros Hpq. induction s as [|a s IH]; simpl; [done|].
  intros [??]%andb_prop. rewrite (Hpq a) by done. auto.
Qed.

(** A character at which a span with [p] stops. *)
Definition stops (p : ascii -> bool) (r : string) : Prop :=
  match r with EmptyString => True | String a _ => p a = false end.

Lemma span_app p w r : str_all p w = true -> stops p r -> span p (w +:+ r) = (w, r).
Proof.
  intros Hw Hr. induction w as [|a w IH]; simpl in Hw.
  - change (EmptyString +:+ r) with r. destruct r as [|b r]; simpl; [done|].
    simpl in Hr. by rewrite Hr.
  - apply andb_prop in Hw as [Ha Hw]. rewrite str_app_cons. simpl.
    by rewrite Ha, IH.
Qed.

Lemma span_all p w : str_all p w = true -> span p w = (w, EmptyString).
Proof. intros. rewrite <- (str_app_nil_r w) at 1. by apply span_app. Qed.

Lemma span_spec p s w r :
  span p s = (w, r) -> s = w +:+ r /\ str_all p w = true /\ stops p r.
Proof.
  revert w r. induction s as [|a s IH]; simpl; intros w r.
  - intros [= <- <-]. done.
  - destruct (p a) eqn:Ha.
    + destruct (span p s) as [w' r'] eqn:E. intros [= <- <-].
      destruct (IH w' r' eq_refl) as (-> & Hw & Hr). simpl. by rewrite Ha, Hw.
    + intros [= <- <-]. done.
Qed.

Lemma token_cons w : token w ->
  exists a w', w = String a w' /\ Ascii.is_space a = false.
Proof.
  intros [Hne Hall]. destruct w as [|a w']; [done|]. simpl in Hall.
  apply andb_prop in Hall as [Ha _]. exists a, w'. split; [done|].
  unfold not_space in Ha. by destruct (Ascii.is_space a).
Qed.

Lemma token_app w1 w2 : token w1 -> str_all not_space w2 = true -> token (w1 +:+ w2).
Proof.
  intros [Hne H1] H2. split; [by destruct w1|]. by rewrite str_all_app, H1, H2.
Qed.

(** ** Extraction of words *)

(** A delimiter or the end of the text. *)
Definition ends_word (r : string) : Prop := stops not_space r.

Lemma ends_word_nil : ends_word EmptyString.
Proof. done. Qed.

Lemma ends_word_space r : ends_word (String " " r).
Proof. done. Qed.

Lemma sentry_token w r :
  token w -> sentry (IStream (w +:+ r) false false) = (true, IStream (w +:+ r) false false).
Proof.
  intros (a & w' & -> & Ha)%token_cons. unfold sentry. rewrite str_app_cons. simpl.
  by rewrite Ha.
Qed.

Lemma sentry_space s :
  sentry (IStream (String " " s) false false) = sentry (IStream s false false).
Proof. unfold sentry. simpl. by destruct (span Ascii.is_space s) as [? [|??]]. Qed.

Lemma extract_string_space s :
  extract_string (IStream (String " " s) false false) = extract_string (IStream s false false).
Proof. unfold extract_string. by rewrite sentry_space. Qed.

Lemma extract_int_space lo hi s :
  extract_int lo hi (IStream (String " " s) false false) =
  extract_int lo hi (IStream s false false).
Proof. unfold extract_int. by rewrite sentry_space. Qed.

Lemma extract_string_token w r :
  token w -> ends_word r ->
  extract_string (IStream (w +:+ r) false false) =
  (Some w, IStream r (bool_decide (r = EmptyString)) false).
Proof.
  intros Hw Hr. unfold extract_string. rewrite sentry_token by done. simpl.
  rewrite span_app; [done|apply Hw|done].
Qed.

(** Extraction from an exhausted stream fails and writes nothing. *)
Lemma sentry_eof r f : sentry (IStream r true f) = (false, IStream r true true).
Proof. done. Qed.

(** Nothing is ever read from a stream with the fail bit set. *)
Lemma sentry_failed i : failbit i = true -> sentry i = (false, set_fail i).
Proof. destruct i as [r e f]; simpl. intros ->. unfold sentry, good. simpl. by rewrite andb_false_r. Qed.

Lemma extract_string_failed i :
  failbit i = true -> extract_string i = (None, set_fail i).
Proof. intros. unfold extract_string. by rewrite sentry_failed. Qed.

Lemma extract_int_failed lo hi i :
  failbit i = true -> extract_int lo hi i = (None, set_fail i).
Proof. intros. unfold extract_int. by rewrite sentry_failed. Qed.

Lemma extract_string_fail_iff i o i' :
  extract_string i = (o, i') -> (failbit i' = true <-> o = None).
Proof.
  unfold extract_string, sentry. destruct (good i); [|by intros [= <- <-]].
  destruct (span Ascii.is_space (rest i)).2 as [|a r]; [by intros [= <- <-]|].
  simpl. destruct (not_space a); [destruct (span not_space r)|]; by intros [= <- <-].
Qed.

(** Every word that is extracted is a token. *)
Lemma extract_string_Some i w i' : extract_string i = (Some w, i') -> token w.
Proof.
  unfold extract_string, sentry. destruct (good i); [|done].
  destruct (span Ascii.is_space (rest i)) as [sp s] eqn:E. simpl.
  apply span_spec in E as (_ & _ & Hs). destruct s as [|a r]; [done|]. simpl in Hs.
  simpl. unfold not_space at 1. rewrite Hs. simpl.
  destruct (span not_space r) as [w' r'] eqn:E. apply span_spec in E as (_ & Hw & _).
  intros [= <- _]. split; [done|]. simpl. unfold not_space at 1. by rewrite Hs.
Qed.

(** ** Numbers *)

Lemma N_of_digit_char d : (0 <= d < 10) -> Z.of_N (N_of_ascii (digit_char d)) = 48 + d.
Proof. intros. unfold digit_char. rewrite N_ascii_embedding by lia. lia. Qed.

Lemma digit_val_char d : (0 <= d < 10) -> digit_val (digit_char d) = d.
Proof. intros. unfold digit_val. rewrite N_of_digit_char by done. lia. Qed.

Lemma is_digit_char d : (0 <= d < 10) -> is_digit (digit_char d) = true.
Proof. intros. unfold is_digit. rewrite N_of_digit_char by done. lia. Qed.

Lemma digits_val_app a s t : digits_val a (s +:+ t) = digits_val (digits_val a s) t.
Proof. revert a. induction s as [|c s IH]; intros a; [done|]. rewrite str_app_cons. simpl. apply IH. Qed.

Lemma digits_aux_spec fuel n acc :
  0 <= n < 2 ^ Z.of_nat fuel -> (0 < fuel)%nat ->
  exists s, digits_aux fuel n acc = s +:+ acc /\ digits_val 0 s = n /\
            str_all is_digit s = true /\ s <> EmptyString.
Proof.
  revert n acc. induction fuel as [|fuel IH]; [lia|]. intros n acc Hn _. cbn [digits_aux].
  pose proof (Z.mod_pos_bound n 10 ltac:(lia)) as Hm. case_bool_decide.
  - exists (String (digit_char (n `mod` 10)) EmptyString). split_and!; [done| |..|done].
    + simpl. rewrite digit_val_char by done. rewrite Z.mod_small; lia.
    + simpl. by rewrite is_digit_char.
  - assert (Hf : (0 < fuel)%nat).
    { destruct fuel; [|lia]. simpl in Hn. lia. }
    destruct (IH (n `div` 10) (String (digit_char (n `mod` 10)) acc)) as (s & -> & Hv & Hd & Hne).
    { split; [apply Z.div_pos; lia|]. apply Z.div_lt_upper_bound; [lia|].
      rewrite Nat2Z.inj_succ, Z.pow_succ_r in Hn by lia. lia. }
    { done. }
    exists (s +:+ String (digit_char (n `mod` 10)) EmptyString). split_and!.
    + by rewrite str_app_assoc.
    + rewrite digits_val_app, Hv. simpl. rewrite digit_val_char by done.
      rewrite (Z.div_mod n 10) at 3 by lia. lia.
    + rewrite str_all_app, Hd. simpl. by rewrite is_digit_char.
    + by destruct s.
Qed.

Lemma digits_spec n :
  0 <= n -> digits_val 0 (digits n) = n /\ str_all is_digit (digits n) = true /\
            digits n <> EmptyString.
Proof.
  intros Hn. destruct (digits_aux_spec (S (Z.to_nat (Z.log2 n))) n EmptyString)
    as (s & Heq & Hs); [|lia|].
  - split; [done|]. rewrite Nat2Z.inj_succ, Z2Nat.id by apply Z.log2_nonneg.
    destruct (decide (n = 0)) as [->|]; [done|]. apply Z.log2_spec. lia.
  - unfold digits. by rewrite Heq, str_app_nil_r.
Qed.

Lemma digit_not_space a : is_digit a = true -> not_space a = true.
Proof. destruct a as [[] [] [] [] [] [] [] []]; done. Qed.

Lemma to_string_token z : token (to_string z).
Proof.
  unfold to_string. case_bool_decide.
  - destruct (digits_spec (- z) ltac:(lia)) as (_ & Hd & _). split; [done|]. simpl.
    eapply str_all_impl, Hd. apply digit_not_space.
  - destruct (digits_spec z ltac:(lia)) as (_ & Hd & Hne). split; [done|].
    eapply str_all_impl, Hd. apply digit_not_space.
Qed.

Lemma read_sign_digit s r :
  str_all is_digit s = true -> s <> EmptyString -> read_sign (s +:+ r) = (false, s +:+ r).
Proof.
  destruct s as [|a s]; [done|]. intros [Ha _]%andb_prop _. rewrite str_app_cons.
  by destruct a as [[] [] [] [] [] [] [] []].
Qed.

(** A delimiter that also ends a number. *)
Definition ends_number (r : string) : Prop := stops is_digit r.

(** [operator>>] reads back what [std::to_string] printed. *)
Lemma extract_int_to_string lo hi z r :
  lo <= z <= hi -> ends_number r ->
  extract_int lo hi (IStream (to_string z +:+ r) false false) =
  (Some z, IStream r (bool_decide (r = EmptyString)) false).
Proof.
  intros Hz Hr. unfold extract_int. rewrite sentry_token by apply to_string_token.
  cbn [rest]. unfold to_string. case_bool_decide as Hneg.
  - destruct (digits_spec (- z) ltac:(lia)) as (Hv & Hd & Hne). simpl.
    rewrite span_app, Hv by done.
    rewrite (bool_decide_eq_false_2 (digits (- z) = _)) by done.
    rewrite Z.opp_involutive, !bool_decide_eq_false_2 by lia. done.
  - destruct (digits_spec z ltac:(lia)) as (Hv & Hd & Hne).
    rewrite read_sign_digit, span_app, Hv by done.
    rewrite (bool_decide_eq_false_2 (digits z = _)) by done.
    rewrite !(bool_decide_eq_false_2 (_ < _)) by lia. done.
Qed.

Lemma stoi_to_string z : in_int z -> stoi (to_string z) = Some z.
Proof.
  intros Hz. unfold stoi.
  assert ((span Ascii.is_space (to_string z)).2 = to_string z) as ->.
  { destruct (token_cons _ (to_string_token z)) as (a & w & -> & Ha). simpl. by rewrite Ha. }
  unfold to_string. case_bool_decide as Hneg.
  - destruct (digits_spec (- z) ltac:(lia)) as (Hv & Hd & Hne). simpl.
    rewrite span_all, Hv by done. rewrite (bool_decide_eq_false_2 (digits (- z) = _)) by done.
    by rewrite Z.opp_involutive, bool_decide_eq_true_2.
  - destruct (digits_spec z ltac:(lia)) as (Hv & Hd & Hne).
    rewrite <- (str_app_nil_r (digits z)) at 1. rewrite read_sign_digit by done.
    rewrite str_app_nil_r, span_all, Hv by done.
    by rewrite (bool_decide_eq_false_2 (digits z = _)), bool_decide_eq_true_2.
Qed.

(** The value an extraction leaves in the variable is always in range. *)
Lemma extract_int_range lo hi i v i' :
  lo <= 0 <= hi -> extract_int lo hi i = (Some v, i') -> lo <= v <= hi.
Proof.
  intros ?. unfold extract_int. destruct (sentry i) as [[] i1]; [|done].
  destruct (read_sign (rest i1)) as [neg s]. destruct (span is_digit s) as [ds r].
  repeat case_bool_decide; intros [= <- _]; lia.
Qed.

(** ** Lines *)

Lemma getlines_split c fuel s :
  (String.length s < fuel)%nat ->
  filter nonempty (getlines c fuel (istringstream s)) = filter nonempty (split_on c s).
Proof.
  revert s. induction fuel as [|fuel IH]; [lia|]. intros s Hlen.
  cbn [getlines]. unfold getline. cbn [good istringstream rest eofbit failbit negb andb].
  destruct (span _ s) as [w r] eqn:E. apply span_spec in E as (-> & Hw & Hr).
  destruct r as [|a r]; cbn [failbit].
  - rewrite str_app_nil_r. clear IH Hlen Hr.
    assert (split_on c w = [w]) as ->.
    { induction w as [|a w IH]; [done|]. simpl in Hw. apply andb_prop in Hw as [Ha Hw].
      simpl. destruct (bool_decide (a = c)); [done|]. by rewrite IH. }
    case_bool_decide; [by subst|]. destruct fuel; [done|]. by simpl.
  - simpl in Hr. apply negb_false_iff, bool_decide_eq_true_1 in Hr. subst a.
    assert (split_on c (w +:+ String c r) = w :: split_on c r) as ->.
    { clear IH Hlen. induction w as [|a w IH]; simpl.
      - by rewrite bool_decide_eq_true_2.
      - simpl in Hw. apply andb_prop in Hw as [Ha Hw]. rewrite ?str_app_cons. simpl.
        destruct (bool_decide (a = c)); [done|]. by rewrite IH. }
    rewrite str_length_app in Hlen. simpl in Hlen.
    cbn [filter list_filter]. change (IStream r false false) with (istringstream r).
    destruct (decide (nonempty w)); rewrite IH by lia; done.
Qed.

(** The loop that keeps the non-empty pieces, against the reference splitting. *)
Lemma all_lines_split c s :
  filter nonempty (all_lines c s) = filter nonempty (split_on c s).
Proof. apply getlines_split. lia. Qed.

Lemma split_on_no_sep c w :
  str_all (fun a => negb (bool_decide (a = c))) w = true -> split_on c w = [w].
Proof.
  induction w as [|a w IH]; [done|]. simpl. intros [Ha Hw]%andb_prop.
  destruct (bool_decide (a = c)); [done|]. by rewrite IH.
Qed.

Lemma split_on_app c w s :
  str_all (fun a => negb (bool_decide (a = c))) w = true ->
  split_on c (w +:+ String c s) = w :: split_on c s.
Proof.
  induction w as [|a w IH]; simpl.
  - by rewrite bool_decide_eq_true_2.
  - intros [Ha Hw]%andb_prop. rewrite ?str_app_cons. simpl.
    destruct (bool_decide (a = c)); [done|]. by rewrite IH.
Qed.

(** Splitting undoes joining, when no piece contains the separator. *)
Lemma split_join c ws :
  ws <> [] -> Forall (fun w => str_all (fun a => negb (bool_decide (a = c))) w = true) ws ->
  split_on c (join_with c ws) = ws.
Proof.
  intros Hne Hall. induction Hall as [|w ws Hw Hws IH]; [done|].
  destruct ws as [|w' ws]; [by apply split_on_no_sep|].
  change (join_with c (w :: w' :: ws)) with (w +:+ String c (join_with c (w' :: ws))).
  rewrite split_on_app by done. by rewrite IH.
Qed.

Lemma all_lines_join c ws :
  ws <> [] ->
  Forall (fun w => w <> EmptyString /\
                   str_all (fun a => negb (bool_decide (a = c))) w = true) ws ->
  filter nonempty (all_lines c (join_with c ws)) = ws.
Proof.
  intros Hne Hall. rewrite all_lines_split, split_join; [|done|].
  - clear Hne. induction Hall as [|w ws [Hw _] _ IH]; [done|]. cbn [filter list_filter].
    rewrite decide_True; [by f_equal|]. unfold nonempty. by rewrite bool_decide_eq_false_2.
  - eapply Forall_impl; [exact Hall|]. naive_solver.
Qed.

#[export] Hint Resolve ends_word_nil ends_word_space to_string_token : dfs.
#[export] Hint Rewrite str_app_nil_r str_app_assoc : dfs.

(** ** Extraction word by word *)

Lemma words_skip sp r : str_all Ascii.is_space sp = true -> words (sp +:+ r) = words r.
Proof.
  induction sp as [|a sp IH]; [done|]. intros [Ha Hs]%andb_prop. simpl. rewrite Ha. auto.
Qed.

Lemma words_token w r : token w -> ends_word r -> words (w +:+ r) = w :: words r.
Proof.
  intros [Hne Hw] Hr. induction w as [|a w IH]; [done|]. simpl in Hw.
  apply andb_prop in Hw as [Ha Hw]. apply negb_true_iff in Ha. rewrite str_app_cons. simpl.
  rewrite Ha. destruct w as [|b w].
  - change (EmptyString +:+ r) with r. destruct r as [|c r]; [done|].
    unfold ends_word, stops, not_space in Hr. simpl in *. apply negb_false_iff in Hr. by rewrite Hr.
  - rewrite (IH ltac:(done) Hw), str_app_cons. simpl in Hw. apply andb_prop in Hw as [Hb _].
    apply negb_true_iff in Hb. by rewrite Hb.
Qed.

(** The stream left by successful extractions: what remains is unread text. *)
Definition clean (i : istream) : Prop :=
  failbit i = false /\ (eofbit i = true -> rest i = EmptyString).

Lemma clean_new s : clean (istringstream s).
Proof. done. Qed.

(** [operator>>] into a string reads the words one after the other. *)
Lemma extract_string_words i :
  clean i ->
  match words (rest i) with
  | [] => exists i', extract_string i = (None, i') /\ failbit i' = true
  | w :: ws => exists i', extract_string i = (Some w, i') /\ clean i' /\ words (rest i') = ws
  end.
Proof.
  destruct i as [s e f]. unfold clean. simpl. intros [-> He]. destruct e; simpl in *.
  { rewrite He by done. simpl. eauto. }
  unfold extract_string, sentry. simpl. destruct (span Ascii.is_space s) as [sp r] eqn:E. simpl.
  apply span_spec in E as (-> & Hsp & Hr). rewrite words_skip by done.
  destruct r as [|a r]; [simpl; eauto|]. simpl in Hr.
  destruct (span not_space (String a r)) as [w r'] eqn:E. apply span_spec in E as (Ea & Hw & Hr').
  rewrite Ea. destruct w as [|b w].
  { change (EmptyString +:+ r') with r' in Ea. subst r'. unfold stops, not_space in Hr'.
    apply negb_false_iff in Hr'. congruence. }
  rewrite words_token by done. cbn [rest]. rewrite span_app by done.
  eexists. split; [done|]. split; [|done]. split; [done|]. simpl. by intros ?%bool_decide_eq_true.
Qed.
