(* ===== verification/ConsistentHash.v ===== *)
(** * The hash ring: [src/dht/consistent_hash.{hpp,cpp}]

    [ring_] is a [std::map<int, std::string>] from ring positions to node
    addresses; each method of the class is a definition below on that map.  The
    reference notions are [walk], the addresses met clockwise from a key, and
    [nub], which keeps first occurrences.

    The theorems: the representation invariant [ring_wf], the owner of a key as
    its clockwise successor, the replica list as the first [k] distinct addresses
    of the walk, and the two statements of minimal data movement. *)
From S2P Require Import Prelude StdMap IoStream.

#[local] Open Scope Z_scope.

(** [std::map<int, std::string> ring_] *)
Abbreviation ring := (list (Z * string)).

(** ** The hash of a key

    [h = 31 * h + static_cast<int>(c)] is [int] arithmetic.  Where it overflows the
    standard gives it no meaning; the compilers the program is built with wrap.
    [hashKey] is the wrapping reading, which the rest of the model uses;
    [hashKey_checked] is [None] as soon as an intermediate result leaves [int]. *)
Definition char_val (c : ascii) : Z := Z.of_N (N_of_ascii c).

Fixpoint hashKey_from (h : Z) (key : string) : Z :=
  match key with
  | EmptyString => h
  | String c key' => hashKey_from (i32 (31 * h + char_val c)) key'
  end.

Definition hashKey (key : string) : Z := hashKey_from 0 key.

Fixpoint hashKey_checked_from (h : Z) (key : string) : option Z :=
  match key with
  | EmptyString => Some h
  | String c key' =>
      if bool_decide (in_int (31 * h)) && bool_decide (in_int (31 * h + char_val c))
      then hashKey_checked_from (31 * h + char_val c) key'
      else None
  end.

Definition hashKey_checked (key : string) : option Z := hashKey_checked_from 0 key.

(** ** The methods *)

Definition addNode (nodeAddress : string) (r : ring) : ring :=
  set_at (hashKey nodeAddress) nodeAddress r.

Definition removeNode (nodeAddress : string) (r : ring) : ring :=
  erase (hashKey nodeAddress) r.

(** [it = ring_.lower_bound(pos); if (it == ring_.end()) it = ring_.begin();] on a
    ring that is not empty. *)
Definition owner_entry (first : Z * string) (r : ring) (pos : Z) : Z * string :=
  match lower_bound pos r with
  | Some it => it
  | None => first
  end.

Definition getNodeForKey (r : ring) (key : string) : string :=
  match r with
  | [] => EmptyString
  | first :: _ => (owner_entry first r (hashKey key)).2
  end.

(** [for (i = 0; ...; ++i) if (keys[i] == k) { startIndex = i; break; }] *)
Fixpoint find_index (k : Z) (ks : list Z) (i : nat) : nat :=
  match ks with
  | [] => 0
  | k' :: ks' => if bool_decide (k' = k) then i else find_index k ks' (S i)
  end.

(** The loop that collects the replicas.  [None] stands for the exception of
    [ring_.at] and for an index past the end of [keys]. *)
Fixpoint collect (r : ring) (ks : list Z) (startIndex : nat) (k : Z)
    (fuel i : nat) (nodes : list string) : option (list string) :=
  match fuel with
  | O => Some nodes
  | S fuel' =>
      if bool_decide (i < length ks)%nat && bool_decide (zlen nodes < k) then
        match ks !! ((startIndex + i) `mod` length ks)%nat with
        | None => None
        | Some key =>
            match find key r with
            | None => None
            | Some node =>
                collect r ks startIndex k fuel' (S i)
                  (if bool_decide (node ∈ nodes) then nodes else nodes ++ [node])
            end
        end
      else Some nodes
  end.

(** The loop runs at most once per key, so [length ks] is enough fuel. *)
Definition getNodesForKey (r : ring) (key : string) (k : Z) : option (list string) :=
  match r with
  | [] => Some []
  | first :: _ =>
      let it := owner_entry first r (hashKey key) in
      let ks := keys r in
      let startIndex := find_index it.1 ks 0 in
      collect r ks startIndex k (length ks) 0 []
  end.

Definition getAllNodes (r : ring) : list string := r.*2.

Definition getNodeCount (r : ring) : Z := i32 (zlen r).

Definition hasNode (r : ring) (nodeAddress : string) : bool :=
  match find (hashKey nodeAddress) r with Some _ => true | None => false end.

Definition printRing (r : ring) : string :=
  "=== Consistent Hash Ring ===" +:+ String "010" ("Nodes: " +:+ to_string (zlen r) +:+
  String "010" (foldr (fun p out => "  Position " +:+ to_string p.1 +:+ " -> " +:+ p.2
                                      +:+ String "010" out)
                      ("=============================" +:+ String "010" EmptyString) r)).

(** ** Reference notions *)

(** Each entry sits at the hash of its address. *)
Definition ring_wf (r : ring) : Prop :=
  sorted r /\ Forall (fun e => e.1 = hashKey e.2) r.

(** The rings the program can build. *)
Inductive built : ring -> Prop :=
| built_empty : built []
| built_add n r : built r -> built (addNode n r)
| built_remove n r : built r -> built (removeNode n r).

(** First occurrences only. *)
Fixpoint nub (l : list string) : list string :=
  match l with
  | [] => []
  | x :: l' => x :: filter (fun y => y <> x) (nub l')
  end.

(** The entries clockwise from the owner of a key, once around. *)
Definition walk_entries (r : ring) (key : string) : ring :=
  match r with
  | [] => []
  | first :: _ =>
      let start := find_index (owner_entry first r (hashKey key)).1 (keys r) 0 in
      drop start r ++ take start r
  end.

Definition walk (r : ring) (key : string) : list string := (walk_entries r key).*2.

(** Declaratively: the position that owns the ring position [pos] is the least
    one not below it, or the least one of all when there is none. *)
Definition owns (r : ring) (pos p : Z) : Prop :=
  p ∈ keys r /\
  ((pos <= p /\ forall q, q ∈ keys r -> pos <= q -> p <= q) \/
   (forall q, q ∈ keys r -> q < pos /\ p <= q)).

(** ** The hash function *)

Lemma hashKey_from_int h key : in_int h -> in_int (hashKey_from h key).
Proof. revert h. induction key; simpl; auto using i32_in_int. Qed.

Lemma hashKey_int key : in_int (hashKey key).
Proof. by apply hashKey_from_int. Qed.

Lemma hashKey_checked_from_eq h key h' :
  hashKey_checked_from h key = Some h' -> hashKey_from h key = h'.
Proof.
  revert h. induction key as [|c key IH]; simpl; intros h; [congruence|].
  case_match eqn:E; [|done]. apply andb_prop in E as [_ E%bool_decide_eq_true_1].
  rewrite i32_small by done. apply IH.
Qed.

Lemma char_val_range c : 0 <= char_val c < 256.
Proof. unfold char_val. pose proof (N_ascii_bounded c). lia. Qed.

(** ** The owner of a position *)

Lemma owns_functional r pos p q : owns r pos p -> owns r pos q -> p = q.
Proof.
  intros [Hp [[? Hp']|Hp']] [Hq [[? Hq']|Hq']].
  - specialize (Hp' q Hq). specialize (Hq' p Hp). lia.
  - destruct (Hq' p Hp). lia.
  - destruct (Hp' q Hq). lia.
  - destruct (Hp' q Hq), (Hq' p Hp). lia.
Qed.

Lemma owner_entry_owns first r pos :
  sorted (first :: r) ->
  owner_entry first (first :: r) pos ∈ first :: r /\
  owns (first :: r) pos (owner_entry first (first :: r) pos).1.
Proof.
  intros Hs. unfold owner_entry. destruct (lower_bound pos (first :: r)) as [[p n]|] eqn:E.
  - apply lower_bound_Some in E as (Hin & Hle & Hmin); [|done]. split; [done|].
    split; [apply in_keys; eauto|]. left. by split.
  - apply lower_bound_None in E. split; [by left|]. split.
    { apply in_keys. exists first.2. destruct first. by left. }
    right. intros q Hq. split; [by eapply Forall_forall in E|].
    destruct first as [p n]. apply sorted_cons_inv in Hs as [_ Hlt].
    apply elem_of_cons in Hq as [->|Hq]; simpl; [lia|].
    eapply Forall_forall in Hlt; [|done]. lia.
Qed.

(** The address returned is the one stored at the owning position. *)
Lemma getNodeForKey_spec r key p n :
  sorted r -> owns r (hashKey key) p -> find p r = Some n -> getNodeForKey r key = n.
Proof.
  intros Hs Ho Hf. destruct r as [|first r]; [done|]. unfold getNodeForKey.
  destruct (owner_entry_owns first r (hashKey key) Hs) as [Hin Ho'].
  destruct (owner_entry first (first :: r) (hashKey key)) as [p' n']. cbn [fst snd] in *.
  rewrite (owns_functional _ _ _ _ Ho Ho') in Hf.
  rewrite (in_find _ _ _ Hs Hin) in Hf. by simplify_eq.
Qed.

Lemma getNodeForKey_owner r key :
  sorted r -> r <> [] ->
  exists p, owns r (hashKey key) p /\ find p r = Some (getNodeForKey r key).
Proof.
  intros Hs Hne. destruct r as [|first r]; [done|].
  destruct (owner_entry_owns first r (hashKey key) Hs) as [Hin Ho].
  eexists. split; [done|]. apply in_find; [done|]. simpl.
  by destruct (owner_entry first (first :: r) (hashKey key)).
Qed.

(** Owners after an insertion: the new position, or the old owner. *)
Lemma owns_set_at k n r pos p :
  owns (set_at k n r) pos p -> p = k \/ owns r pos p.
Proof.
  intros [Hp Ho]. apply keys_set_at in Hp as [->|Hp]; [by left|]. right. split; [done|].
  destruct Ho as [[? Ho]|Ho]; [left; split; [done|]|right]; intros q Hq; apply Ho;
    apply keys_set_at; auto.
Qed.

Lemma keys_erase k (r : ring) i : sorted r -> i ∈ keys (erase k r) <-> i <> k /\ i ∈ keys r.
Proof.
  intros Hs. rewrite <- !find_is_Some. split.
  - intros Hi. destruct (decide (i = k)) as [->|Hne].
    + rewrite find_erase_eq in Hi by done. by destruct Hi.
    + by rewrite find_erase_ne in Hi.
  - intros [Hne Hi]. by rewrite find_erase_ne.
Qed.

Lemma owns_erase k r pos p : sorted r -> owns r pos p -> p <> k -> owns (erase k r) pos p.
Proof.
  intros Hs [Hp Ho] Hne. split; [by apply keys_erase|].
  destruct Ho as [[? Ho]|Ho]; [left; split; [done|]|right];
    intros q [_ Hq]%keys_erase; auto.
Qed.

(** ** The invariant *)

Lemma ring_wf_nil : ring_wf [].
Proof. split; constructor. Qed.

Lemma set_at_elem k (v : string) r e : e ∈ set_at k v r -> e = (k, v) \/ e ∈ r.
Proof.
  induction r as [|[k' v'] r IH]; simpl; [by rewrite list_elem_of_singleton; left|].
  repeat case_bool_decide; rewrite !elem_of_cons; naive_solver.
Qed.

Lemma erase_elem k (r : ring) e : e ∈ erase k r -> e ∈ r.
Proof.
  induction r as [|[k' v'] r IH]; simpl; [done|].
  case_bool_decide; rewrite !elem_of_cons; naive_solver.
Qed.

Lemma addNode_wf n r : ring_wf r -> ring_wf (addNode n r).
Proof.
  intros [Hs Hh]. split; [by apply set_at_sorted|]. apply Forall_forall.
  intros e [->|He]%set_at_elem; [done|]. by eapply Forall_forall in Hh.
Qed.

Lemma removeNode_wf n r : ring_wf r -> ring_wf (removeNode n r).
Proof.
  intros [Hs Hh]. split; [by apply erase_sorted|]. apply Forall_forall.
  intros e He%erase_elem. by eapply Forall_forall in Hh.
Qed.

Lemma built_ring_wf r : built r -> ring_wf r.
Proof. induction 1; auto using ring_wf_nil, addNode_wf, removeNode_wf. Qed.

(** On a well-formed ring no address occurs twice. *)
Lemma ring_wf_NoDup r : ring_wf r -> NoDup (getAllNodes r).
Proof.
  intros [Hs Hh]. unfold getAllNodes. pose proof (keys_NoDup _ Hs) as Hnd. unfold keys in Hnd.
  assert (r.*1 = hashKey <$> r.*2) as Heq.
  { clear Hs Hnd. induction Hh as [|e r He _ IH]; [done|]. simpl. by f_equal. }
  rewrite Heq in Hnd. by apply NoDup_fmap_1 in Hnd.
Qed.

#[export] Hint Resolve ring_wf_nil addNode_wf removeNode_wf built_ring_wf : dfs.

(** ** First occurrences *)

Lemma elem_of_nub x l : x ∈ nub l <-> x ∈ l.
Proof.
  induction l as [|y l IH]; simpl; [done|].
  rewrite !elem_of_cons, list_elem_of_filter, IH. destruct (decide (x = y)); naive_solver.
Qed.

Lemma NoDup_nub l : NoDup (nub l).
Proof.
  induction l as [|x l IH]; simpl; constructor; [|by apply NoDup_filter].
  rewrite list_elem_of_filter. naive_solver.
Qed.

Lemma filter_all (P : string -> Prop) `{forall x, Decision (P x)} l :
  Forall P l -> filter P l = l.
Proof.
  induction 1 as [|x l Hx _ IH]; [done|].
  rewrite filter_cons_True by done. by f_equal.
Qed.

Lemma nub_NoDup_id l : NoDup l -> nub l = l.
Proof.
  induction 1 as [|x l Hx _ IH]; simpl; [done|]. rewrite IH. f_equal.
  apply filter_all, Forall_forall. by intros y Hy ->.
Qed.

Lemma length_nub l : length (nub l) = size (list_to_set (C:=gset string) l).
Proof.
  rewrite <- (size_list_to_set (C:=gset string) (nub l)) by apply NoDup_nub.
  f_equal. apply set_eq. intros x. by rewrite !elem_of_list_to_set, elem_of_nub.
Qed.

(** ** The replica list *)

(** The collecting loop, on the entries it still has to visit. *)
Fixpoint gather (k : Z) (nodes l : list string) : list string :=
  match l with
  | [] => nodes
  | x :: l' =>
      if bool_decide (zlen nodes < k)
      then gather k (if bool_decide (x ∈ nodes) then nodes else nodes ++ [x]) l'
      else nodes
  end.

Lemma find_index_spec k (ks : list Z) i :
  k ∈ ks -> exists j, find_index k ks i = (i + j)%nat /\ ks !! j = Some k.
Proof.
  revert i. induction ks as [|k' ks IH]; intros i; [by intros ?%not_elem_of_nil|].
  simpl. case_bool_decide; [subst; exists 0%nat; split; [lia|done]|].
  intros [?|Hin]%elem_of_cons; [congruence|]. destruct (IH (S i) Hin) as (j & -> & ?).
  exists (S j). split; [lia|done].
Qed.

Lemma rotation_lookup (r : ring) s i :
  (s < length r)%nat -> (i < length r)%nat ->
  (drop s r ++ take s r) !! i = r !! ((s + i) `mod` length r)%nat.
Proof.
  intros Hs Hi. destruct (decide (i < length r - s)%nat).
  - rewrite lookup_app_l by (rewrite length_drop; lia).
    by rewrite lookup_drop, Nat.mod_small by lia.
  - rewrite lookup_app_r by (rewrite length_drop; lia).
    rewrite length_drop, lookup_take by lia. rewrite decide_True by lia. f_equal.
    replace (s + i)%nat with (i - (length r - s) + 1 * length r)%nat by lia.
    rewrite Nat.Div0.mod_add, Nat.mod_small; lia.
Qed.

Lemma collect_gather r s k fuel i nodes :
  sorted r -> (s < length r)%nat -> (i + fuel = length r)%nat ->
  collect r (keys r) s k fuel i nodes =
  Some (gather k nodes (drop i (drop s r ++ take s r).*2)).
Proof.
  intros Hsort Hs. revert i nodes. induction fuel as [|fuel IH]; intros i nodes Hi; simpl.
  - rewrite drop_ge; [done|]. rewrite length_fmap, length_app, length_drop, length_take. lia.
  - assert (length (keys r) = length r) as -> by apply length_fmap.
    rewrite (bool_decide_eq_true_2 (i < length r)%nat) by lia. simpl.
    assert (is_Some (r !! ((s + i) `mod` length r)%nat)) as [[p n] He].
    { apply lookup_lt_is_Some. apply Nat.mod_upper_bound. lia. }
    assert ((drop s r ++ take s r).*2 !! i = Some n) as Hw.
    { rewrite list_lookup_fmap, rotation_lookup, He by lia. done. }
    rewrite (drop_S _ _ _ Hw). simpl. case_bool_decide; [|done].
    unfold keys. rewrite list_lookup_fmap, He. simpl.
    rewrite (in_find p n r) by (done || by eapply list_elem_of_lookup_2). apply IH. lia.
Qed.

Lemma gather_spec k nodes l :
  zlen nodes <= Z.max 0 k ->
  gather k nodes l = take (Z.to_nat k) (nodes ++ filter (fun y => y ∉ nodes) (nub l)).
Proof.
  unfold zlen. revert nodes. induction l as [|x l IH]; intros nodes Hk; simpl.
  - cbn. rewrite app_nil_r, take_ge; [done|]. lia.
  - case_bool_decide as Hlt; unfold zlen in Hlt.
    2: { rewrite take_app_le, take_ge by lia. done. }
    case_bool_decide as Hx.
    + rewrite IH, filter_cons_False by naive_solver.
      rewrite list_filter_filter. do 2 f_equal. apply list_filter_iff.
      intros y. split; [|tauto]. intros Hy. split; [done|]. by intros ->.
    + rewrite IH, filter_cons_True by (done || rewrite length_app; simpl; lia).
      rewrite list_filter_filter, <- app_assoc. simpl. do 3 f_equal. apply list_filter_iff.
      intros y. rewrite elem_of_app, list_elem_of_singleton. tauto.
Qed.

Lemma start_index first r key :
  sorted (first :: r) ->
  let s := find_index (owner_entry first (first :: r) (hashKey key)).1 (keys (first :: r)) 0 in
  (first :: r) !! s = Some (owner_entry first (first :: r) (hashKey key)).
Proof.
  intros Hs s. destruct (owner_entry_owns first r (hashKey key) Hs) as [Hin [Hk _]].
  set (e := owner_entry first (first :: r) (hashKey key)) in *.
  destruct (find_index_spec e.1 _ 0 Hk) as (j & Hj & Hl). unfold s. rewrite Hj. simpl.
  unfold keys in Hl. rewrite list_lookup_fmap in Hl.
  destruct ((first :: r) !! j) as [[p n]|] eqn:E; simpl in Hl; simplify_eq.
  f_equal. apply list_elem_of_lookup_2 in E. destruct e as [p' n']. simpl in *.
  f_equal. apply in_find in E; [|done]. apply in_find in Hin; [|done]. congruence.
Qed.

(** The loop computes the first [k] distinct addresses of the walk. *)
Lemma getNodesForKey_eq r key k :
  sorted r -> getNodesForKey r key k = Some (take (Z.to_nat k) (nub (walk r key))).
Proof.
  intros Hs. destruct r as [|first r]; [by destruct (Z.to_nat k)|].
  pose proof (start_index first r key Hs) as Hst. cbv zeta in Hst.
  apply lookup_lt_Some in Hst. unfold getNodesForKey. cbv zeta.
  rewrite collect_gather by (done || unfold keys; rewrite ?length_fmap; lia).
  rewrite drop_0, gather_spec by (unfold zlen; simpl; lia). rewrite app_nil_l.
  rewrite filter_all; [done|]. apply Forall_forall. intros y _. apply not_elem_of_nil.
Qed.

Lemma walk_head r key :
  sorted r -> r <> [] -> exists l, walk r key = getNodeForKey r key :: l.
Proof.
  intros Hs Hne. destruct r as [|first r]; [done|].
  pose proof (start_index first r key Hs) as Hst. cbv zeta in Hst.
  unfold walk, walk_entries, getNodeForKey.
  rewrite (drop_S _ _ _ Hst). simpl. eauto.
Qed.

Lemma elem_of_walk r key n : n ∈ walk r key <-> n ∈ getAllNodes r.
Proof.
  unfold walk, walk_entries, getAllNodes. destruct r as [|first r]; [done|].
  set (s := find_index _ _ _). rewrite fmap_app, fmap_drop, fmap_take.
  rewrite <- (take_drop s ((first :: r).*2)) at 3. rewrite !elem_of_app. tauto.
Qed.

(** How many addresses are returned: [k], or all the distinct ones. *)
Lemma getNodesForKey_length r key k nodes :
  sorted r -> getNodesForKey r key k = Some nodes ->
  length nodes = (Z.to_nat k `min` size (list_to_set (C:=gset string) (getAllNodes r)))%nat.
Proof.
  intros Hs. rewrite getNodesForKey_eq by done. intros [= <-].
  rewrite length_take, length_nub. do 2 f_equal. apply set_eq. intros n.
  by rewrite !elem_of_list_to_set, elem_of_walk.
Qed.

(** Which addresses: a prefix of the walk, without repetition. *)
Lemma getNodesForKey_wf r key k :
  ring_wf r ->
  exists nodes, getNodesForKey r key k = Some nodes /\ nodes = take (Z.to_nat k) (walk r key) /\
    NoDup nodes /\ length nodes = (Z.to_nat k `min` length r)%nat /\
    (forall n, n ∈ nodes -> n ∈ getAllNodes r).
Proof.
  intros Hb. pose proof (ring_wf_NoDup r Hb) as Hnd. destruct Hb as [Hs _].
  assert (walk r key ≡ₚ getAllNodes r) as Hp.
  { unfold walk, walk_entries, getAllNodes. destruct r as [|first r]; [done|].
    set (s := find_index _ _ _). rewrite fmap_app, Permutation_app_comm, <- fmap_app.
    by rewrite take_drop. }
  assert (NoDup (walk r key)) as Hw by by rewrite Hp.
  rewrite getNodesForKey_eq, nub_NoDup_id by done.
  eexists. split_and!; [done..| | |].
  - apply (sublist_NoDup _ (walk r key)); [done|]. apply sublist_take.
  - rewrite length_take, Hp. unfold getAllNodes. by rewrite length_fmap.
  - intros n Hn. apply elem_of_walk with (key := key). revert Hn. apply subseteq_take.
Qed.

(** ** Properties *)

(** C34. However the ring was built, its positions are strictly ascending [int]s,
    every address sits at its own hash, and no address occurs twice. *)
Theorem ring_invariant r :
  built r ->
  sorted r /\ int_keys r /\ Forall (fun e => e.1 = hashKey e.2) r /\ NoDup (getAllNodes r).
Proof.
  intros [Hs Hh]%built_ring_wf. split_and!; [done| |done|by apply ring_wf_NoDup].
  unfold int_keys, keys. apply Forall_forall. intros p [e [-> He]]%list_elem_of_fmap.
  eapply Forall_forall in Hh as ->; [|done]. apply hashKey_int.
Qed.

Lemma ring_invariant_witness :
  let r := removeNode "c" (addNode "127.0.0.1:8002" (addNode "127.0.0.1:8001" [])) in
  int_keys r /\ NoDup (getAllNodes r).
Proof.
  intros r. destruct (ring_invariant r) as (_ & ? & _ & ?); [|done].
  unfold r. repeat constructor.
Defined.

(** A key is owned by its clockwise successor: the address [getNodeForKey]
    returns sits at the least position that is not below the key's hash, or at the
    least position of the ring when every position is below it. *)
Theorem getNodeForKey_successor r key :
  built r -> r <> [] ->
  owns r (hashKey key) (hashKey (getNodeForKey r key)) /\
  getNodeForKey r key ∈ getAllNodes r.
Proof.
  intros [Hs Hh]%built_ring_wf Hne.
  destruct (getNodeForKey_owner r key Hs Hne) as (p & Ho & Hin%find_Some_in).
  pose proof Hin as Hp. eapply Forall_forall in Hp; [|exact Hh]. simpl in Hp. subst p.
  split; [done|]. apply list_elem_of_fmap. by eexists (_, _).
Qed.

Lemma getNodeForKey_successor_witness :
  let r := addNode "127.0.0.1:8002" (addNode "127.0.0.1:8001" []) in
  owns r (hashKey "chunk") (hashKey (getNodeForKey r "chunk")).
Proof.
  intros r. apply (getNodeForKey_successor r "chunk"); [|done].
  unfold r. repeat constructor.
Defined.

(** C20. The replicas of a key are the first [k] addresses met clockwise from its
    owner: [min k n] different nodes of the ring, the owner first, and the loop
    never leaves the bounds of its vectors. *)
Theorem getNodesForKey_replicas r key k :
  built r ->
  exists nodes,
    getNodesForKey r key k = Some nodes /\
    nodes = take (Z.to_nat k) (walk r key) /\
    NoDup nodes /\
    length nodes = (Z.to_nat k `min` length r)%nat /\
    (0 < k -> r <> [] -> head nodes = Some (getNodeForKey r key)).
Proof.
  intros Hb%built_ring_wf. destruct (getNodesForKey_wf r key k Hb) as (nodes & ? & -> & ? & ? & _).
  eexists. split_and!; [done..|]. intros Hk Hne. destruct Hb as [Hs _].
  destruct (walk_head r key Hs Hne) as [l ->]. by destruct (Z.to_nat k) eqn:?; [lia|].
Qed.

Lemma getNodesForKey_replicas_witness :
  let r := addNode "127.0.0.1:8002" (addNode "127.0.0.1:8001" []) in
  exists nodes, getNodesForKey r "chunk" 2 = Some nodes /\ NoDup nodes /\ length nodes = 2%nat.
Proof.
  intros r. destruct (getNodesForKey_replicas r "chunk" 2) as (nodes & ? & _ & ? & ? & _).
  - unfold r. repeat constructor.
  - exists nodes. split_and!; done.
Defined.

(** C33. Adding a node moves keys only to that node: every other key keeps its
    owner. *)
Theorem addNode_moves_only_to_new r n key :
  built r -> r <> [] ->
  getNodeForKey (addNode n r) key = getNodeForKey r key \/
  getNodeForKey (addNode n r) key = n.
Proof.
  intros [Hs Hh]%built_ring_wf Hne.
  assert (Hs' : sorted (addNode n r)) by by apply set_at_sorted.
  destruct (getNodeForKey_owner (addNode n r) key Hs') as (p & Ho & Hf).
  { destruct r as [|[??] ?]; [done|]. unfold addNode. simpl. by repeat case_bool_decide. }
  unfold addNode in Ho, Hf. destruct (decide (p = hashKey n)) as [->|Hp].
  - rewrite find_set_at_eq in Hf. right. by simplify_eq.
  - left. rewrite find_set_at_ne in Hf by done.
    apply owns_set_at in Ho as [?|Ho]; [done|]. symmetry. by eapply getNodeForKey_spec.
Qed.

Lemma addNode_moves_only_to_new_witness :
  let r := addNode "b" (addNode "m" []) in
  getNodeForKey (addNode "x" r) "t" = getNodeForKey r "t" \/
  getNodeForKey (addNode "x" r) "t" = "x".
Proof.
  intros r. apply (addNode_moves_only_to_new r "x" "t"); [|done]. unfold r. repeat constructor.
Defined.

(** Removing a node moves only the keys it owned: a key with another owner
    keeps it. *)
Theorem removeNode_keeps_others r n key :
  built r -> getNodeForKey r key <> n -> n ∈ getAllNodes r ->
  getNodeForKey (removeNode n r) key = getNodeForKey r key.
Proof.
  intros [Hs Hh]%built_ring_wf Hne Hn.
  assert (r <> []) as Hr by by intros ->; apply not_elem_of_nil in Hn.
  destruct (getNodeForKey_owner r key Hs Hr) as (p & Ho & Hf).
  apply list_elem_of_fmap in Hn as ([p' n'] & -> & Hin). simpl in *.
  pose proof Hin as Hp. eapply Forall_forall in Hp; [|exact Hh]. simpl in Hp. subst p'.
  apply in_find in Hin; [|done].
  assert (p <> hashKey n') as Hp by (intros ->; congruence).
  eapply getNodeForKey_spec; [by apply erase_sorted|by apply owns_erase|].
  unfold removeNode. by rewrite find_erase_ne.
Qed.

Lemma removeNode_keeps_others_witness :
  let r := addNode "x" (addNode "b" (addNode "m" [])) in
  getNodeForKey (removeNode "b" r) "f" = getNodeForKey r "f".
Proof.
  intros r. apply (removeNode_keeps_others r "b" "f").
  - unfold r. repeat constructor.
  - by vm_compute.
  - apply (bool_decide_unpack _). by vm_compute.
Defined.

(** [hasNode] answers for the position and not for the address: it is true
    exactly when some node of the ring has the address's hash, and registering an
    address that collides with another replaces that node while [hasNode] still
    reports it. *)
Lemma hasNode_by_position r a b :
  built r ->
  (hasNode r a = true <-> exists n, n ∈ getAllNodes r /\ hashKey n = hashKey a) /\
  (hashKey a = hashKey b -> a <> b ->
   let r' := addNode b (addNode a r) in hasNode r' a = true /\ a ∉ getAllNodes r').
Proof.
  intros Hb. assert (Hg : forall r, ring_wf r ->
    (hasNode r a = true <-> exists n, n ∈ getAllNodes r /\ hashKey n = hashKey a)).
  { clear. intros r [Hs Hh]. unfold hasNode, getAllNodes.
    setoid_rewrite list_elem_of_fmap. split.
    - destruct (find (hashKey a) r) as [n|] eqn:E; [|done]. intros _.
      apply find_Some_in in E. exists n. split; [by eexists (_, _)|].
      eapply Forall_forall in Hh; [|done]. done.
    - intros (n & ([p n'] & -> & Hin) & Heq). simpl in *. pose proof Hin as Hp.
      eapply Forall_forall in Hp; [|exact Hh]. simpl in Hp. subst p.
      rewrite Heq in Hin. by rewrite (in_find _ _ _ Hs Hin). }
  apply built_ring_wf in Hb. split; [by apply Hg|].
  intros Hab Hne r'. assert (Hwf : ring_wf r') by by apply addNode_wf, addNode_wf.
  assert (Hf : find (hashKey a) r' = Some b).
  { unfold r', addNode. rewrite Hab. apply find_set_at_eq. }
  split; [unfold hasNode; by rewrite Hf|].
  unfold getAllNodes. intros ([p n] & -> & Hin)%list_elem_of_fmap. simpl in *.
  pose proof Hin as Hp. eapply Forall_forall in Hp; [|apply Hwf]. simpl in Hp. subst p.
  apply in_find in Hin; [|apply Hwf]. congruence.
Qed.

Lemma hasNode_by_position_witness :
  let r' := addNode "BB" (addNode "Aa" []) in
  hasNode r' "Aa" = true /\ "Aa" ∉ getAllNodes r'.
Proof.
  refine (proj2 (hasNode_by_position [] "Aa" "BB" _) _ _); [constructor|by vm_compute|done].
Defined.

(** The hash of a key of at most five bytes never overflows [int], so its
    value is defined by the language and is the one the model uses. *)
Lemma hashKey_short_defined key :
  (String.length key <= 5)%nat -> hashKey_checked key = Some (hashKey key).
Proof.
  intros Hlen. enough (is_Some (hashKey_checked key)) as [h Hh].
  { rewrite Hh. f_equal. symmetry. by apply hashKey_checked_from_eq. }
  unfold hashKey_checked.
  assert (forall key n h, 0 <= h -> (31 ^ n * h + 255 * ((31 ^ n - 1) / 30) <= INT_MAX) ->
    0 <= n -> Z.of_nat (String.length key) <= n -> is_Some (hashKey_checked_from h key)) as Hgen.
  { clear. induction key as [|c key IH]; intros n h Hh Hb Hn Hl; [by eexists|].
    cbn [String.length] in Hl. pose proof (char_val_range c) as Hc.
    assert (31 ^ n = 31 * 31 ^ (n - 1)) as Hpow.
    { rewrite <- Z.pow_succ_r by lia. f_equal. lia. }
    pose proof (Z.pow_pos_nonneg 31 (n - 1) ltac:(lia) ltac:(lia)) as Hpos.
    assert ((31 ^ n - 1) / 30 = 31 ^ (n - 1) + (31 ^ (n - 1) - 1) / 30) as Hdiv.
    { rewrite Hpow. replace (31 * 31 ^ (n - 1) - 1) with (31 ^ (n - 1) - 1 + 31 ^ (n - 1) * 30) by lia.
      rewrite Z.div_add by lia. lia. }
    assert (0 <= (31 ^ (n - 1) - 1) / 30) by (apply Z.div_pos; lia).
    cbn [hashKey_checked_from].
    assert (31 * h + char_val c <= INT_MAX) as Hle by (unfold INT_MAX in *; nia).
    rewrite !bool_decide_eq_true_2 by (unfold in_int, INT_MIN, INT_MAX in *; lia).
    simpl. apply (IH (n - 1)); [lia| |lia|lia]. unfold INT_MAX in *. nia. }
  apply (Hgen key 5 0); [lia|by vm_compute|lia|lia].
Qed.

Lemma hashKey_short_defined_witness : hashKey_checked "n:80" = Some (hashKey "n:80").
Proof. apply (hashKey_short_defined "n:80"). vm_compute. lia. Defined.

(** C35. On the addresses of the shipped cluster the hash overflows [int], so its
    value is not defined by the language; and with the wrapped values the two
    storage nodes are neighbours on the ring, so that the first of them is the
    primary of every key but those that hash to one single position. *)
Theorem default_ring_unbalanced key :
  hashKey_checked "127.0.0.1:8001" = None /\ hashKey_checked "127.0.0.1:8002" = None /\
  (getNodeForKey (addNode "127.0.0.1:8002" (addNode "127.0.0.1:8001" [])) key =
   if bool_decide (hashKey key = hashKey "127.0.0.1:8001" + 1)
   then "127.0.0.1:8002" else "127.0.0.1:8001").
Proof.
  split_and!; [by vm_compute..|].
  assert (addNode "127.0.0.1:8002" (addNode "127.0.0.1:8001" []) =
    [(-35736874, "127.0.0.1:8001"); (-35736873, "127.0.0.1:8002")]) as -> by by vm_compute.
  assert (hashKey "127.0.0.1:8001" = -35736874) as -> by by vm_compute.
  unfold getNodeForKey. generalize (hashKey key). intros h. unfold owner_entry. simpl.
  repeat case_bool_decide; (reflexivity || lia).
Qed.
