(* ===== verification/Sha256.v ===== *)
(** * SHA-256: [src/common/sha256.cpp]

    Words are [Z] kept in 32 bits by the operations themselves; the 64-byte
    [block] buffer is a list of byte values that the loops overwrite in place, as
    in the code, and its contents before the first [memcpy] are an argument
    ([block0]), since the array is not initialised.

    The reference is the padding rule of the standard, [pad], followed by the
    compression of one 64-byte block after another.  The theorems: the streaming
    code computes the reference digest whatever the buffer held, the message
    schedule satisfies its recurrence, the bit functions do what their names say,
    the digest is 64 lower-case hexadecimal characters, and the published test
    vectors. *)
From S2P Require Import Prelude IoStream.

#[local] Open Scope Z_scope.
#[local] Open Scope dfs_scope.

(** ** Constants and word functions *)

(** The first 32 bits of the fractional parts of the cube roots of the first 64
    primes. *)
Definition k : list Z :=
  [0x428a2f98; 0x71374491; 0xb5c0fbcf; 0xe9b5dba5; 0x3956c25b; 0x59f111f1; 0x923f82a4; 0xab1c5ed5] ++
  [0xd807aa98; 0x12835b01; 0x243185be; 0x550c7dc3; 0x72be5d74; 0x80deb1fe; 0x9bdc06a7; 0xc19bf174] ++
  [0xe49b69c1; 0xefbe4786; 0x0fc19dc6; 0x240ca1cc; 0x2de92c6f; 0x4a7484aa; 0x5cb0a9dc; 0x76f988da] ++
  [0x983e5152; 0xa831c66d; 0xb00327c8; 0xbf597fc7; 0xc6e00bf3; 0xd5a79147; 0x06ca6351; 0x14292967] ++
  [0x27b70a85; 0x2e1b2138; 0x4d2c6dfc; 0x53380d13; 0x650a7354; 0x766a0abb; 0x81c2c92e; 0x92722c85] ++
  [0xa2bfe8a1; 0xa81a664b; 0xc24b8b70; 0xc76c51a3; 0xd192e819; 0xd6990624; 0xf40e3585; 0x106aa070] ++
  [0x19a4c116; 0x1e376c08; 0x2748774c; 0x34b0bcb5; 0x391c0cb3; 0x4ed8aa4a; 0x5b9cca4f; 0x682e6ff3] ++
  [0x748f82ee; 0x78a5636f; 0x84c87814; 0x8cc70208; 0x90befffa; 0xa4506ceb; 0xbef9a3f7; 0xc67178f2].

Definition rotr (x n : Z) : Z := Z.lor (Z.shiftr x n) (u32 (Z.shiftl x (32 - n))).

Definition ch (x y z : Z) : Z := Z.lxor (Z.land x y) (Z.land (u32 (Z.lnot x)) z).

Definition maj (x y z : Z) : Z := Z.lxor (Z.lxor (Z.land x y) (Z.land x z)) (Z.land y z).

Definition sig0 (x : Z) : Z := Z.lxor (Z.lxor (rotr x 2) (rotr x 13)) (rotr x 22).
Definition sig1 (x : Z) : Z := Z.lxor (Z.lxor (rotr x 6) (rotr x 11)) (rotr x 25).
Definition gam0 (x : Z) : Z := Z.lxor (Z.lxor (rotr x 7) (rotr x 18)) (Z.shiftr x 3).
Definition gam1 (x : Z) : Z := Z.lxor (Z.lxor (rotr x 17) (rotr x 19)) (Z.shiftr x 10).

(** ** The compression function *)

(** [uint32_t state[8]], and the eight working variables of a round. *)
Record words := Words { wa : Z; wb : Z; wc : Z; wd : Z; we : Z; wf : Z; wg : Z; wh : Z }.

Definition words_list (s : words) : list Z := [wa s; wb s; wc s; wd s; we s; wf s; wg s; wh s].

(** [w[i] = (block[i*4] << 24) | ... | block[i*4+3]] *)
Definition load_word (block : list Z) (i : nat) : Z :=
  Z.lor (Z.lor (Z.lor (Z.shiftl (block !!! (i * 4)%nat) 24)
                      (Z.shiftl (block !!! (i * 4 + 1)%nat) 16))
               (Z.shiftl (block !!! (i * 4 + 2)%nat) 8))
        (block !!! (i * 4 + 3)%nat).

(** [for (i = 16; i < 64; ++i) w[i] = ...]: one step appends [w[i]]. *)
Definition extend_schedule (w : list Z) (i : nat) : list Z :=
  w ++ [gam1 (w !!! (i - 2)%nat) +u w !!! (i - 7)%nat +u gam0 (w !!! (i - 15)%nat)
          +u w !!! (i - 16)%nat].

Definition schedule (block : list Z) : list Z :=
  foldl extend_schedule (load_word block <$> seq 0 16) (seq 16 48).

(** The body of the loop of 64 rounds. *)
Definition round (w : list Z) (v : words) (i : nat) : words :=
  let t1 := wh v +u sig1 (we v) +u ch (we v) (wf v) (wg v) +u (k !!! i) +u (w !!! i) in
  let t2 := sig0 (wa v) +u maj (wa v) (wb v) (wc v) in
  Words (t1 +u t2) (wa v) (wb v) (wc v) (wd v +u t1) (we v) (wf v) (wg v).

Definition sha256_transform (state : words) (block : list Z) : words :=
  let w := schedule block in
  let v := foldl (round w) state (seq 0 64) in
  Words (wa state +u wa v) (wb state +u wb v) (wc state +u wc v) (wd state +u wd v)
        (we state +u we v) (wf state +u wf v) (wg state +u wg v) (wh state +u wh v).

(** ** The streaming hash *)

Definition initial_state : words :=
  Words 0x6a09e667 0xbb67ae85 0x3c6ef372 0xa54ff53a
        0x510e527f 0x9b05688c 0x1f83d9ab 0x5be0cd19.

(** [memcpy(block, src, n)] *)
Definition memcpy (block : list Z) (src : bytes) (n : nat) : list Z :=
  (u8 <$> take n src) ++ drop n block.

(** [while (i + 64 <= len) { ... i += 64; }]; [src] is [data + i]. *)
Fixpoint absorb (fuel : nat) (state : words) (block : list Z) (src : bytes)
    : words * list Z * bytes :=
  match fuel with
  | O => (state, block, src)
  | S fuel' =>
      if bool_decide (64 <= length src)%nat then
        let block' := memcpy block src 64 in
        absorb fuel' (sha256_transform state block') block' (drop 64 src)
      else (state, block, src)
  end.

(** [while (rem < limit) block[rem++] = 0;] *)
Definition fill (block : list Z) (rem limit : nat) : list Z :=
  foldl (fun b i => <[i := 0]> b) block (seq rem (limit - rem)).

(** [for (j = 7; j >= 0; --j) { block[56 + j] = (uint8_t)bitLen; bitLen >>= 8; }] *)
Definition put_length (block : list Z) (bitLen : Z) : list Z :=
  (foldl (fun '(b, n) j => (<[(56 + j)%nat := uwrap 8 n]> b, Z.shiftr n 8))
         (block, bitLen) [7; 6; 5; 4; 3; 2; 1; 0]%nat).1.

(** Two lower-case hexadecimal digits, zero padded. *)
Definition hex_digit (n : Z) : ascii :=
  ascii_of_N (Z.to_N (if bool_decide (n < 10) then 48 + n else 87 + n)).

Definition hex_byte (n : Z) (out : string) : string :=
  String (hex_digit (n / 16)) (String (hex_digit (n mod 16)) out).

(** The eight bytes of each word, most significant first. *)
Definition hex_word (v : Z) (out : string) : string :=
  foldr (fun j out => hex_byte (Z.land (Z.shiftr v (j * 8)) 0xff) out) out [3; 2; 1; 0].

Definition hex_digest (state : words) : string :=
  foldr hex_word EmptyString (words_list state).

(** [sha256(data, len)], with the initial contents of [block]. *)
Definition sha256_with (block0 : list Z) (data : bytes) : string :=
  let '(state, block, src) :=
    absorb (S (length data / 64)) initial_state block0 data in
  let rem := length src in
  let block := memcpy block src rem in
  let block := <[rem := 0x80]> block in
  let rem := S rem in
  let '(state, block, rem) :=
    if bool_decide (56 < rem)%nat then
      let block := fill block rem 64 in (sha256_transform state block, block, 0%nat)
    else (state, block, rem) in
  let block := fill block rem 56 in
  let bitLen := u64 (zlen data * 8) in
  let block := put_length block bitLen in
  hex_digest (sha256_transform state block).

(** The buffer is not initialised; [sha256_any_buffer] below shows that what it
    holds does not matter. *)
Definition sha256 (data : bytes) : string := sha256_with (replicate 64 0) data.

(** ** Reference: the padding rule and block-by-block compression *)

(** [n] as eight bytes, most significant first. *)
Definition be64 (n : Z) : list Z :=
  (fun j => Z.shiftr n (8 * j) mod 256) <$> [7; 6; 5; 4; 3; 2; 1; 0].

(** One 1 bit, the fewest zero bits that leave room for the length, the length. *)
Definition pad (data : bytes) : list Z :=
  (u8 <$> data) ++ 0x80 :: replicate (Z.to_nat ((55 - zlen data) mod 64)) 0
    ++ be64 (u64 (zlen data * 8)).

Fixpoint blocks (n : nat) (l : list Z) : list (list Z) :=
  match n with O => [] | S n' => take 64 l :: blocks n' (drop 64 l) end.

Definition sha256_spec (data : bytes) : string :=
  let m := pad data in
  hex_digest (foldl sha256_transform initial_state (blocks (length m / 64) m)).

(** The recurrence of the message schedule. *)
Fixpoint schedule_word (fuel : nat) (block : list Z) (t : nat) : Z :=
  match fuel with
  | O => 0
  | S fuel' =>
      if bool_decide (t < 16)%nat then load_word block t
      else gam1 (schedule_word fuel' block (t - 2)) +u schedule_word fuel' block (t - 7)
             +u gam0 (schedule_word fuel' block (t - 15)) +u schedule_word fuel' block (t - 16)
  end.

Definition is_hex (a : ascii) : bool :=
  let n := Z.of_N (N_of_ascii a) in
  ((48 <=? n) && (n <=? 57)) || ((97 <=? n) && (n <=? 102)).

(** ** The buffer *)

Lemma length_memcpy block src n :
  length block = 64%nat -> (n <= 64)%nat -> (n <= length src)%nat ->
  length (memcpy block src n) = 64%nat.
Proof. intros. unfold memcpy. rewrite length_app, length_fmap, length_take, length_drop. lia. Qed.

Lemma memcpy_full block src :
  length block = 64%nat -> memcpy block src 64 = u8 <$> take 64 src.
Proof. intros. unfold memcpy. by rewrite drop_ge, app_nil_r by lia. Qed.

Lemma fill_spec p s n :
  (n <= length s)%nat ->
  fill (p ++ s) (length p) (length p + n) = p ++ replicate n 0 ++ drop n s.
Proof.
  unfold fill. replace (length p + n - length p)%nat with n by lia.
  revert p s. induction n as [|n IH]; intros p s Hn; simpl; [by rewrite drop_0|].
  destruct s as [|x s]; simpl in Hn; [lia|].
  rewrite list_insert_middle. specialize (IH (p ++ [0]) s ltac:(lia)).
  rewrite length_app, <- app_assoc in IH. simpl in IH. rewrite Nat.add_1_r in IH.
  rewrite IH, <- app_assoc. done.
Qed.

Lemma fill_upto p s limit :
  (length p <= limit <= length p + length s)%nat ->
  fill (p ++ s) (length p) limit =
  p ++ replicate (limit - length p) 0 ++ drop (limit - length p) s.
Proof. intros. rewrite <- fill_spec by lia. f_equal. lia. Qed.

Lemma length_fill block rem limit : length (fill block rem limit) = length block.
Proof.
  unfold fill. generalize (seq rem (limit - rem)). intros l. revert block.
  induction l as [|i l IH]; intros block; simpl; [done|]. by rewrite IH, length_insert.
Qed.

Lemma put_length_spec block n :
  length block = 64%nat -> put_length block n = take 56 block ++ be64 n.
Proof.
  intros Hlen. rewrite <- (take_drop 56 block) at 1.
  assert (length (take 56 block) = 56%nat) as Hp by (rewrite length_take; lia).
  assert (length (drop 56 block) = 8%nat) as Hs by (rewrite length_drop; lia).
  revert Hp Hs. generalize (take 56 block), (drop 56 block). intros p s Hp Hs.
  do 8 (destruct s as [|? s]; [done|]). destruct s; [clear Hs|done].
  assert (Hins : forall j v s, <[(56 + j)%nat := v]> (p ++ s) = p ++ <[j := v]> s).
  { intros. rewrite <- Hp. apply insert_app_r. }
  unfold put_length. cbn [foldl]. rewrite !Hins. cbn [fst list_insert insert].
  rewrite !Z.shiftr_shiftr by lia. unfold be64, uwrap. simpl. by rewrite Z.shiftr_0_r.
Qed.

Lemma length_be64 n : length (be64 n) = 8%nat.
Proof. done. Qed.

(** ** Blocks *)

Lemma blocks_app n l1 l2 :
  (64 * n <= length l1)%nat -> blocks n (l1 ++ l2) = blocks n l1.
Proof.
  revert l1. induction n as [|n IH]; intros l1 Hn; [done|]. cbn [blocks].
  rewrite take_app_le, drop_app_le by lia. f_equal. apply IH. rewrite length_drop. lia.
Qed.

Lemma blocks_add n m l : blocks (n + m) l = blocks n l ++ blocks m (drop (64 * n) l).
Proof.
  revert l. induction n as [|n IH]; intros l; [by rewrite drop_0|].
  cbn [blocks Nat.add app]. rewrite IH. do 3 f_equal. rewrite drop_drop. f_equal. lia.
Qed.

Lemma absorb_spec fuel state block src :
  (length src / 64 < fuel)%nat -> length block = 64%nat ->
  exists block', length block' = 64%nat /\
    absorb fuel state block src =
    (foldl sha256_transform state (blocks (length src / 64) (u8 <$> src)), block',
     drop (64 * (length src / 64)) src).
Proof.
  revert state block src. induction fuel as [|fuel IH]; intros state block src Hf Hb; [lia|].
  cbn [absorb]. case_bool_decide as Hlen.
  - assert (length src / 64 = S (length (drop 64 src) / 64))%nat as Hdiv.
    { rewrite length_drop. replace (length src) with (length src - 64 + 1 * 64)%nat at 1 by lia.
      rewrite Nat.div_add by lia. lia. }
    destruct (IH (sha256_transform state (memcpy block src 64)) (memcpy block src 64)
                 (drop 64 src)) as (block' & Hb' & ->).
    { lia. } { by rewrite length_memcpy. }
    exists block'. split; [done|]. rewrite Hdiv, memcpy_full by done. cbn [blocks foldl].
    rewrite <- fmap_take, fmap_drop, drop_drop. do 2 f_equal. lia.
  - assert (length src / 64 = 0)%nat as -> by (apply Nat.div_small; lia).
    exists block. by rewrite drop_0.
Qed.

(** The end of the message [p], with its mark, in one block. *)
Lemma one_block state p s n :
  (length p <= 56)%nat -> (length s = 64 - length p)%nat ->
  let tail := p ++ replicate (56 - length p) 0 ++ be64 n in
  sha256_transform state (put_length (fill (p ++ s) (length p) 56) n) =
  foldl sha256_transform state (blocks (length tail / 64) tail).
Proof.
  intros Hp Hs. cbv zeta. rewrite fill_upto by lia.
  rewrite put_length_spec by (rewrite !length_app, length_replicate, length_drop; lia).
  rewrite !(app_assoc p (replicate (56 - length p) 0)).
  rewrite take_app_length' by (rewrite length_app, length_replicate; lia).
  assert (length ((p ++ replicate (56 - length p) 0) ++ be64 n) = 64%nat) as Hl.
  { rewrite !length_app, length_replicate, length_be64. lia. }
  rewrite Hl. change (64 / 64)%nat with 1%nat. cbn [blocks foldl].
  by rewrite take_ge by (rewrite Hl; lia).
Qed.

(** ... or in two, when the length field does not fit after the mark. *)
Lemma two_blocks state p s n :
  (56 < length p <= 64)%nat -> (length s = 64 - length p)%nat ->
  let b := fill (p ++ s) (length p) 64 in
  let tail := p ++ replicate (120 - length p) 0 ++ be64 n in
  sha256_transform (sha256_transform state b) (put_length (fill b 0 56) n) =
  foldl sha256_transform state (blocks (length tail / 64) tail).
Proof.
  intros Hp Hs. cbv zeta. rewrite fill_upto, (drop_ge s), app_nil_r by lia.
  set (b := p ++ replicate (64 - length p) 0).
  assert (length b = 64%nat) as Hb by (unfold b; rewrite length_app, length_replicate; lia).
  assert (fill b 0 56 = replicate 56 0 ++ drop 56 b) as ->.
  { apply (fill_upto [] b 56). simpl. lia. }
  rewrite put_length_spec by (rewrite length_app, length_replicate, length_drop; lia).
  rewrite take_app_le, take_ge by (rewrite length_replicate; lia).
  replace (p ++ replicate (120 - length p) 0 ++ be64 n) with (b ++ replicate 56 0 ++ be64 n).
  2: { unfold b. replace (120 - length p)%nat with (64 - length p + 56)%nat by lia.
       by rewrite replicate_add, <- !app_assoc. }
  assert (length (b ++ replicate 56 0 ++ be64 n) = 128%nat) as ->.
  { rewrite !length_app, Hb. done. }
  change (128 / 64)%nat with (1 + 1)%nat. rewrite blocks_add, blocks_app by lia.
  change (64 * 1)%nat with 64%nat.
  rewrite drop_app_length' by done. cbn [blocks app foldl]. by rewrite (take_ge b) by lia.
Qed.

(** The last one or two blocks the code builds in its buffer, for the [r] bytes
    that are left and a length field [n]. *)
Lemma last_blocks state block r n :
  length block = 64%nat -> (length r < 64)%nat ->
  let b := <[length r := 0x80]> (memcpy block r (length r)) in
  (let '(state, b, rem) :=
     if bool_decide (56 < S (length r))%nat then
       let b := fill b (S (length r)) 64 in (sha256_transform state b, b, 0%nat)
     else (state, b, S (length r)) in
   sha256_transform state (put_length (fill b rem 56) n)) =
  let tail := (u8 <$> r) ++ 0x80 :: replicate (Z.to_nat ((55 - zlen r) mod 64)) 0 ++ be64 n in
  foldl sha256_transform state (blocks (length tail / 64) tail).
Proof.
  intros Hb Hr b.
  assert (b = ((u8 <$> r) ++ [0x80]) ++ drop (S (length r)) block) as ->.
  { unfold b, memcpy. rewrite take_ge, <- app_assoc by done.
    destruct (drop (length r) block) as [|x s] eqn:E.
    { apply (f_equal length) in E. rewrite length_drop in E. simpl in E. lia. }
    rewrite <- (length_fmap u8 r) at 1. rewrite list_insert_middle. simpl. do 2 f_equal.
    change s with (drop 1 (x :: s)). rewrite <- E, drop_drop. f_equal. lia. }
  set (p := (u8 <$> r) ++ [0x80]). set (s := drop (S (length r)) block).
  assert (length p = S (length r)) as Hp.
  { unfold p. rewrite length_app, length_fmap. simpl. lia. }
  assert (length s = 63 - length r)%nat as Hs by (unfold s; rewrite length_drop; lia).
  set (z := Z.to_nat ((55 - zlen r) mod 64)).
  replace ((u8 <$> r) ++ 0x80 :: replicate z 0 ++ be64 n)
    with (p ++ replicate z 0 ++ be64 n) by (unfold p; by rewrite <- app_assoc).
  assert (Hz : z = if bool_decide (length r <= 55)%nat then (55 - length r)%nat
                   else (119 - length r)%nat).
  { unfold z, zlen. case_bool_decide; [rewrite Z.mod_small; lia|].
    rewrite <- (Z.mod_add _ 1), Z.mod_small by lia. lia. }
  clearbody p s z. rewrite <- Hp. case_bool_decide as Hc; rewrite Hz; clear Hz; case_bool_decide; try lia.
  - replace (55 - length r)%nat with (56 - length p)%nat by lia. apply one_block; lia.
  - replace (119 - length r)%nat with (120 - length p)%nat by lia. apply two_blocks; lia.
Qed.

(** The code computes the reference digest, from any contents of the buffer. *)
Lemma sha256_with_spec block0 data :
  length block0 = 64%nat -> sha256_with block0 data = sha256_spec data.
Proof.
  intros Hb. unfold sha256_with, sha256_spec. cbv zeta.
  set (q := (length data / 64)%nat).
  destruct (absorb_spec (S q) initial_state block0 data ltac:(lia) Hb) as (block & Hl & ->).
  fold q. set (r := drop (64 * q) data). set (st := foldl _ _ _).
  pose proof (Nat.div_mod_eq (length data) 64) as Hdm. fold q in Hdm.
  pose proof (Nat.mod_upper_bound (length data) 64 ltac:(lia)) as Hub.
  assert (length r = length data mod 64)%nat as Hr by (unfold r; rewrite length_drop; lia).
  pose proof (last_blocks st block r (u64 (zlen data * 8)) Hl ltac:(lia)) as Hlast.
  cbv zeta in Hlast.
  set (tail := (u8 <$> r) ++ 0x80 :: _) in Hlast.
  assert (pad data = (u8 <$> take (64 * q) data) ++ tail) as ->.
  { unfold pad, tail, r. rewrite app_assoc, <- fmap_app, take_drop. do 4 f_equal. f_equal.
    unfold zlen. fold r. rewrite Hr, Nat2Z.inj_mod, Zminus_mod_idemp_r. done. }
  assert (length (u8 <$> take (64 * q) data) = (64 * q)%nat) as Hh.
  { rewrite length_fmap, length_take. lia. }
  rewrite length_app, Hh.
  replace ((64 * q + length tail) / 64)%nat with (q + length tail / 64)%nat
    by (rewrite (Nat.mul_comm 64), Nat.div_add_l by lia; done).
  rewrite blocks_add, foldl_app, blocks_app by lia.
  rewrite drop_app_length' by done.
  assert (blocks q (u8 <$> take (64 * q) data) = blocks q (u8 <$> data)) as ->.
  { rewrite <- (take_drop (64 * q) data) at 2. rewrite fmap_app, blocks_app; [done|]. lia. }
  fold st. rewrite <- Hlast. by case_bool_decide.
Qed.

(** ** Bits *)

Definition is_word (x : Z) : Prop := 0 <= x < 2 ^ 32.

Lemma word_bits_high x i : is_word x -> 32 <= i -> Z.testbit x i = false.
Proof. intros Hx Hi. rewrite <- (Z.mod_small x (2 ^ 32)) by done. apply Z.mod_pow2_bits_high. lia. Qed.

Lemma rotr_bits x n i :
  is_word x -> 0 < n < 32 -> 0 <= i < 32 ->
  Z.testbit (rotr x n) i = Z.testbit x ((i + n) mod 32).
Proof.
  intros Hx Hn Hi. unfold rotr, uwrap.
  rewrite Z.lor_spec, Z.shiftr_spec, Z.mod_pow2_bits_low, Z.shiftl_spec by lia.
  destruct (decide (i + n < 32)).
  - rewrite (Z.testbit_neg_r x (i - _)), orb_false_r, Z.mod_small by lia. done.
  - rewrite (word_bits_high x (i + n)) by (done || lia). simpl. f_equal.
    rewrite <- (Z.mod_add _ (-1)), Z.mod_small; lia.
Qed.

Lemma ch_bits x y z i :
  0 <= i < 32 -> Z.testbit (ch x y z) i = if Z.testbit x i then Z.testbit y i else Z.testbit z i.
Proof.
  intros Hi. unfold ch, uwrap.
  rewrite Z.lxor_spec, !Z.land_spec, Z.mod_pow2_bits_low, Z.lnot_spec by lia.
  by destruct (Z.testbit x i), (Z.testbit y i), (Z.testbit z i).
Qed.

Lemma maj_bits x y z i :
  Z.testbit (maj x y z) i =
  if Bool.eqb (Z.testbit x i) (Z.testbit y i) then Z.testbit x i else Z.testbit z i.
Proof.
  unfold maj. rewrite !Z.lxor_spec, !Z.land_spec.
  by destruct (Z.testbit x i), (Z.testbit y i), (Z.testbit z i).
Qed.

(** ** The message schedule *)

Lemma schedule_word_fuel fuel fuel' block t :
  (t < fuel)%nat -> (t < fuel')%nat ->
  schedule_word fuel block t = schedule_word fuel' block t.
Proof.
  revert fuel' t. induction fuel as [|fuel IH]; intros [|fuel'] t ??; [lia..|].
  cbn [schedule_word]. case_bool_decide; [done|].
  by rewrite !(IH fuel') by lia.
Qed.

Lemma schedule_word_low fuel block t :
  (t < 16)%nat -> schedule_word (S fuel) block t = load_word block t.
Proof. intros. cbn [schedule_word]. by rewrite bool_decide_eq_true_2. Qed.

Lemma schedule_word_high fuel block t :
  (16 <= t)%nat ->
  schedule_word (S fuel) block t =
  gam1 (schedule_word fuel block (t - 2)) +u schedule_word fuel block (t - 7)
    +u gam0 (schedule_word fuel block (t - 15)) +u schedule_word fuel block (t - 16).
Proof. intros. cbn [schedule_word]. by rewrite bool_decide_eq_false_2 by lia. Qed.

(** One step of the loop, on an array that satisfies the recurrence so far. *)
Lemma extend_schedule_step block w i :
  (16 <= i)%nat -> length w = i ->
  (forall t, (t < i)%nat -> w !!! t = schedule_word (S t) block t) ->
  forall t, (t < S i)%nat -> extend_schedule w i !!! t = schedule_word (S t) block t.
Proof.
  intros Hi Hl Hw t Ht. unfold extend_schedule. destruct (decide (t < i)%nat) as [Hlt|Hge].
  - rewrite lookup_total_app_l by lia. by apply Hw.
  - assert (t = i) as -> by lia. rewrite list_lookup_total_middle by done.
    rewrite schedule_word_high, !Hw by lia.
    by rewrite !(schedule_word_fuel (S (i - _)) i) by lia.
Qed.

Lemma schedule_prefix block n :
  (n <= 48)%nat ->
  let w := foldl extend_schedule (load_word block <$> seq 0 16) (seq 16 n) in
  length w = (16 + n)%nat /\
  forall t, (t < 16 + n)%nat -> w !!! t = schedule_word (S t) block t.
Proof.
  induction n as [|n IH]; intros Hn; cbv zeta.
  - split; [done|]. intros t Ht. rewrite schedule_word_low by lia.
    change (seq 16 0) with (@nil nat). cbn [foldl].
    rewrite list_lookup_total_alt, list_lookup_fmap, lookup_seq_lt by lia. done.
  - destruct IH as [Hl Hw]; [lia|]. rewrite (seq_S n 16), foldl_app. cbn [foldl].
    set (w0 := foldl _ _ (seq 16 n)) in *. clearbody w0. split.
    + unfold extend_schedule. rewrite length_app. simpl. lia.
    + intros t Ht. apply extend_schedule_step; [lia|done|done|lia].
Qed.

(** ** The digest *)

Lemma hex_digit_is_hex n : 0 <= n < 16 -> is_hex (hex_digit n) = true.
Proof.
  intros. unfold is_hex, hex_digit.
  case_bool_decide; rewrite N_ascii_embedding, Z2N.id by lia; cbv zeta;
    [apply orb_true_intro; left|apply orb_true_intro; right]; lia.
Qed.

Lemma hex_byte_is_hex n out :
  0 <= n < 256 -> str_all is_hex (hex_byte n out) = str_all is_hex out.
Proof.
  intros Hn. unfold hex_byte. cbn [str_all].
  rewrite hex_digit_is_hex; [rewrite hex_digit_is_hex; [done|]|].
  - apply Z.mod_pos_bound. lia.
  - split; [apply Z.div_pos; lia|apply Z.div_lt_upper_bound; lia].
Qed.

Lemma land_byte_range v : 0 <= Z.land v 0xff < 256.
Proof. change 0xff with (Z.ones 8). rewrite Z.land_ones by lia. by apply Z.mod_pos_bound. Qed.

Lemma hex_digest_shape state :
  String.length (hex_digest state) = 64%nat /\ str_all is_hex (hex_digest state) = true.
Proof.
  unfold hex_digest, words_list, hex_word. cbn [foldr].
  split; [done|]. by rewrite !hex_byte_is_hex by apply land_byte_range.
Qed.

Lemma sha256_shape data :
  String.length (sha256 data) = 64%nat /\ str_all is_hex (sha256 data) = true.
Proof.
  unfold sha256. rewrite sha256_with_spec by done. apply hex_digest_shape.
Qed.

Lemma sha256_token data : token (sha256 data).
Proof.
  destruct (sha256_shape data) as [Hl Hh]. split; [by intros E; rewrite E in Hl|].
  eapply str_all_impl; [|exact Hh]. intros [[] [] [] [] [] [] [] []]; done.
Qed.

Lemma sha256_no_comma data :
  str_all (fun a => negb (bool_decide (a = ","%char))) (sha256 data) = true.
Proof.
  eapply str_all_impl; [|apply sha256_shape]. by intros [[] [] [] [] [] [] [] []].
Qed.

#[export] Hint Resolve sha256_token sha256_no_comma : dfs.

(** ** Properties *)

(** C25. The streaming code computes SHA-256: for every input, and whatever the
    uninitialised block buffer held, its result is the digest of the padded message
    compressed one 64-byte block after another. *)
Theorem sha256_any_buffer block0 data :
  length block0 = 64%nat ->
  sha256_with block0 data = sha256_spec data /\
  (length (pad data) mod 64 = 0)%nat /\ (length data + 9 <= length (pad data) < length data + 73)%nat.
Proof.
  intros Hb. split; [by apply sha256_with_spec|].
  pose proof (Z.mod_pos_bound (55 - zlen data) 64 ltac:(lia)).
  assert (length (pad data) =
    length data + (9 + Z.to_nat ((55 - zlen data) mod 64)))%nat as ->.
  { unfold pad. rewrite length_app, length_fmap. cbn [length]. rewrite length_app.
    rewrite length_replicate, length_be64. lia. }
  split; [|lia]. unfold zlen in *.
  apply Nat2Z.inj. rewrite Nat2Z.inj_mod, !Nat2Z.inj_add, Z2Nat.id by lia.
  rewrite Z.add_assoc, Zplus_mod_idemp_r.
  replace (_ + _ + _) with (1 * 64) by lia. done.
Qed.

Lemma sha256_any_buffer_witness :
  sha256_with (replicate 64 255) (bytes_of_string "abc") = sha256_spec (bytes_of_string "abc").
Proof. apply (sha256_any_buffer (replicate 64 255) (bytes_of_string "abc")). done. Defined.

(** The word functions are the functions of the standard, bit by bit: [rotr]
    rotates, [ch] chooses, [maj] takes the majority, and the code's 64-word array
    satisfies the schedule's recurrence. *)
Theorem word_functions x y z n i block t :
  is_word x -> 0 < n < 32 -> 0 <= i < 32 -> (t < 64)%nat ->
  Z.testbit (rotr x n) i = Z.testbit x ((i + n) mod 32) /\
  Z.testbit (ch x y z) i = (if Z.testbit x i then Z.testbit y i else Z.testbit z i) /\
  Z.testbit (maj x y z) i =
    (if Bool.eqb (Z.testbit x i) (Z.testbit y i) then Z.testbit x i else Z.testbit z i) /\
  length (schedule block) = 64%nat /\
  schedule block !!! t = schedule_word (S t) block t.
Proof.
  intros. destruct (schedule_prefix block 48 ltac:(lia)) as [Hl Hw].
  split_and!; auto using rotr_bits, ch_bits, maj_bits.
Qed.

Lemma word_functions_witness :
  Z.testbit (rotr 0x428a2f98 7) 3 = true /\
  schedule (seqZ 0 64) !!! 40%nat = schedule_word 41 (seqZ 0 64) 40.
Proof.
  destruct (word_functions 0x428a2f98 0 0 7 3 (seqZ 0 64) 40) as (H1 & _ & _ & _ & H2).
  - unfold is_word. lia.
  - lia.
  - lia.
  - lia.
  - split; [|exact H2]. rewrite H1. by vm_compute.
Defined.

(** The code reproduces the published vectors: the empty message, one block,
    and a message whose padding needs a second block. *)
Theorem sha256_vectors :
  sha256 [] = "e3b0c44298fc1c149afbf4c8996fb92427ae41e4649b934ca495991b7852b855" /\
  sha256 (bytes_of_string "abc") =
    "ba7816bf8f01cfea414140de5dae2223b00361a396177a9cb410ff61f20015ad" /\
  sha256 (bytes_of_string "abcdbcdecdefdefgefghfghighijhijkijkljklmklmnlmnomnopnopq") =
    "248d6a61d20638b8e5c026930c3e6039a33ce45964ff2167f6ecedd419db06c1".
Proof. by vm_compute. Qed.
