(* ===== verification/Chunks.v ===== *)
(** * Chunks, files and content identifiers

    [src/common/chunk.{hpp,cpp}], [src/common/file_utils.{hpp,cpp}],
    [src/common/hash_utils.cpp] and [src/client/verify_files.cpp]: the chunk record,
    splitting a file into chunks, writing chunks back in index order, and the hashes
    of chunks and of files.

    A file system is a finite map from paths to contents, with the predicate that
    says which paths can be created.  A function whose C++ text has no defined
    meaning on some input (a range past the end of a vector) returns [None] there.

    The theorems: splitting loses nothing and numbers the chunks, writing back any
    permutation of them restores the file, the exact condition under which writing
    back succeeds, independence of the sorting algorithm, and soundness of the
    comparison of content identifiers up to a SHA-256 collision. *)
From S2P Require Import Prelude IoStream Sha256.

#[local] Open Scope Z_scope.

(** ** Data *)

Record Chunk := MkChunk { c_index : Z; c_hash : string; c_data : bytes; c_size : Z }.

#[export] Instance Chunk_eq_dec : EqDecision Chunk.
Proof. solve_decision. Defined.

(** [Chunk::to_string] *)
Definition chunk_to_string (c : Chunk) : string :=
  "Chunk{index=" +:+ to_string (c_index c) +:+ ", hash='" +:+ c_hash c +:+ "', size="
    +:+ to_string (c_size c) +:+ "}".

Record fs := FS { files : gmap string bytes; creatable : string -> bool }.

Definition CHUNK_SIZE : Z := 1048576.

(** ** Reading a file *)

(** A binary [std::ifstream]: the bytes not read yet, whether the stream is still
    good, and the count of the last [read]. *)
Record ifstream := IFStream { remaining : bytes; igood : bool; gcount : Z }.

(** [file.read(buffer, n)]: the bytes placed in the buffer and the new state; a
    short read sets the end-of-file and fail bits. *)
Definition file_read (n : Z) (f : ifstream) : bytes * ifstream :=
  if igood f then
    let '(got, rest) := split_at n (remaining f) in
    (got, IFStream rest (bool_decide (zlen got = n)) (zlen got))
  else ([], IFStream (remaining f) false 0).

(** [while (file.read(...) || file.gcount() > 0) { ... }] *)
Fixpoint read_chunks (fuel : nat) (f : ifstream) (idx : Z) (chunks : list Chunk)
    : list Chunk :=
  match fuel with
  | O => chunks
  | S fuel' =>
      let '(buffer, f') := file_read CHUNK_SIZE f in
      if igood f' || bool_decide (gcount f' > 0) then
        if bool_decide (gcount f' > 0) then
          let chunk := MkChunk idx EmptyString buffer (i32 (gcount f')) in
          read_chunks fuel' f' (i32 (idx + 1)) (chunks ++ [chunk])
        else read_chunks fuel' f' idx chunks
      else chunks
  end.

(** One iteration per full chunk, one for a last short chunk and one that ends the
    loop. *)
Definition read_fuel (content : bytes) : nat :=
  S (S (Z.to_nat (zlen content / CHUNK_SIZE))).

Definition splitFileIntoChunks (d : fs) (filepath : string) : list Chunk :=
  match files d !! filepath with
  | None => []
  | Some content => read_chunks (read_fuel content) (IFStream content true 0) 0 []
  end.

(** ** Writing a file *)

(** [a.index < b.index] as the sort sees it: [a] may stand before [b]. *)
Definition before (a b : Chunk) : Prop := c_index a <= c_index b.
#[export] Instance before_dec : RelDecision before.
Proof. intros a b. unfold before. apply _. Defined.

(** [sortedChunks[i].index != static_cast<int>(i)] for no [i] *)
Fixpoint check_indices (i : Z) (sortedChunks : list Chunk) : bool :=
  match sortedChunks with
  | [] => true
  | c :: l => bool_decide (c_index c = i32 i) && check_indices (i + 1) l
  end.

(** [out.write(chunk.data.data(), chunk.size)] for each chunk; a size that is not
    within the vector reads outside of it.  The code does not look at the state of the stream after
    a write; that the disk is full is not modelled. *)
Fixpoint write_chunks (sortedChunks : list Chunk) (out : bytes) : option bytes :=
  match sortedChunks with
  | [] => Some out
  | c :: l =>
      if bool_decide (0 <= c_size c <= zlen (c_data c))
      then write_chunks l (out ++ (split_at (c_size c) (c_data c)).1)
      else None
  end.

(** What follows the sort in [reconstructFile]. *)
Definition write_sorted (d : fs) (sortedChunks : list Chunk) (outputPath : string)
    : option (bool * fs) :=
  if check_indices 0 sortedChunks then
    if creatable d outputPath then
      match write_chunks sortedChunks [] with
      | Some out => Some (true, FS (<[outputPath := out]> (files d)) (creatable d))
      | None => None
      end
    else Some (false, d)
  else Some (false, d).

Definition reconstructFile (d : fs) (chunks : list Chunk) (outputPath : string)
    : option (bool * fs) :=
  if bool_decide (chunks = []) then Some (false, d)
  else write_sorted d (merge_sort before chunks) outputPath.

(** ** Hashes *)

Definition computeSHA256 (d : bytes) : string := sha256 d.

(** [std::vector<uint8_t> validData(begin, begin + chunk.size)] *)
Definition hashChunk (c : Chunk) : option Chunk :=
  if bool_decide (0 <= c_size c <= zlen (c_data c))
  then Some (MkChunk (c_index c) (computeSHA256 (split_at (c_size c) (c_data c)).1) (c_data c) (c_size c))
  else None.

Definition hashAllChunks (chunks : list Chunk) : option (list Chunk) := mapM hashChunk chunks.

Definition computeRootHash (chunkHashes : list string) : string :=
  let combined := foldl (fun acc h => acc +:+ h) EmptyString chunkHashes in
  computeSHA256 (bytes_of_string combined).

Definition computeCID (d : fs) (filepath : string) : option string :=
  let chunks := splitFileIntoChunks d filepath in
  if bool_decide (chunks = []) then Some EmptyString
  else
    chunks ← hashAllChunks chunks;
    Some (computeRootHash (c_hash <$> chunks)).

(** ** Reference notions *)

(** The content cut every [CHUNK_SIZE] bytes. *)
Fixpoint pieces (fuel : nat) (content : bytes) : list bytes :=
  match fuel with
  | O => []
  | S fuel' =>
      match content with
      | [] => []
      | _ => (split_at CHUNK_SIZE content).1
               :: pieces fuel' (split_at CHUNK_SIZE content).2
      end
  end.

Definition numbered (i : Z) (l : list bytes) : list Chunk :=
  imap (fun j d => MkChunk (i + Z.of_nat j) EmptyString d (zlen d)) l.

(** The chunk of a well-formed upload: its size is the length of its data. *)
Definition chunk_wf (c : Chunk) : Prop := c_size c = zlen (c_data c).

(** A collision of SHA-256 between two collections of byte strings. *)
Definition collide (l1 l2 : list bytes) : Prop :=
  exists x y, x ∈ l1 /\ y ∈ l2 /\ x <> y /\ sha256 x = sha256 y.

(** ** Cutting *)

Lemma CHUNK_SIZE_pos : 0 < CHUNK_SIZE.
Proof. done. Qed.

Lemma CHUNK_SIZE_int n : 0 <= n -> in_int (Z.min CHUNK_SIZE n).
Proof. unfold in_int, INT_MIN, INT_MAX, CHUNK_SIZE. lia. Qed.

Lemma CHUNK_SIZE_int64 n : 0 <= n < CHUNK_SIZE * (INT_MAX + 1) -> INT64_MIN <= n <= INT64_MAX.
Proof. unfold INT64_MIN, INT64_MAX, INT_MAX, CHUNK_SIZE. lia. Qed.

(** The proofs only use that it is positive and an [int]. *)
#[local] Opaque CHUNK_SIZE.

Lemma zlen_take {A} n (l : list A) : zlen (take n l) = Z.min (Z.of_nat n) (zlen l).
Proof. unfold zlen. rewrite length_take. lia. Qed.

Lemma zlen_drop {A} n (l : list A) : zlen (drop n l) = Z.max 0 (zlen l - Z.of_nat n).
Proof. unfold zlen. rewrite length_drop. lia. Qed.

Lemma zlen_zero {A} (l : list A) : zlen l = 0 <-> l = [].
Proof. unfold zlen. destruct l; simpl; split; done || lia. Qed.

Lemma pieces_concat fuel content :
  zlen content <= CHUNK_SIZE * Z.of_nat fuel -> concat (pieces fuel content) = content.
Proof.
  revert content. induction fuel as [|fuel IH]; intros content Hf.
  - assert (content = []) as -> by (apply zlen_zero; pose proof (zlen_nonneg content); lia). done.
  - cbn [pieces]. destruct content as [|b content]; [done|]. set (l := b :: content) in *.
    rewrite split_at_spec. cbn [fst snd concat]. rewrite IH; [apply take_drop|].
    rewrite zlen_drop. pose proof CHUNK_SIZE_pos. lia.
Qed.

(** Every piece is full but the last, which is not empty. *)
Lemma pieces_sizes fuel content i p :
  pieces fuel content !! i = Some p ->
  0 < zlen p <= CHUNK_SIZE /\ (S i < length (pieces fuel content) -> zlen p = CHUNK_SIZE)%nat.
Proof.
  revert content i. induction fuel as [|fuel IH]; intros content i; [done|].
  cbn [pieces]. destruct content as [|b content]; [done|].
  assert (0 < zlen (b :: content)) as Hpos by (rewrite zlen_cons; pose proof (zlen_nonneg content); lia).
  set (l := b :: content) in *. rewrite split_at_spec. cbn [fst snd].
  pose proof CHUNK_SIZE_pos. destruct i as [|i]; cbn [lookup list_lookup].
  - intros [= <-]. rewrite zlen_take. split; [lia|]. cbn [length]. intros Hlen.
    destruct (decide (zlen l <= CHUNK_SIZE)); [|lia].
    rewrite drop_ge in Hlen by (unfold zlen in *; lia). destruct fuel; simpl in Hlen; lia.
  - intros Hi. destruct (IH _ _ Hi) as [? Hlast]. split; [done|]. cbn [length].
    intros. apply Hlast. lia.
Qed.

Lemma length_pieces fuel content :
  CHUNK_SIZE * Z.of_nat (length (pieces fuel content)) < zlen content + CHUNK_SIZE.
Proof.
  pose proof CHUNK_SIZE_pos.
  revert content. induction fuel as [|fuel IH]; intros content; cbn [pieces].
  - simpl. pose proof (zlen_nonneg content). lia.
  - destruct content as [|b content]; [unfold zlen; simpl; lia|].
    assert (0 < zlen (b :: content)) as Hpos by (rewrite zlen_cons; pose proof (zlen_nonneg content); lia).
    set (l := b :: content) in *. rewrite split_at_spec. cbn [length fst snd].
    specialize (IH (drop (Z.to_nat CHUNK_SIZE) l)). rewrite zlen_drop in IH.
    destruct (decide (zlen l <= CHUNK_SIZE)); [|lia].
    rewrite drop_ge by (unfold zlen in *; lia).
    assert (pieces fuel [] = []) as -> by by destruct fuel. simpl. lia.
Qed.

Lemma numbered_cons i d l : numbered i (d :: l) = MkChunk i EmptyString d (zlen d) :: numbered (i + 1) l.
Proof.
  unfold numbered. rewrite imap_cons. f_equal; [f_equal; lia|].
  apply imap_ext. intros j x _. simpl. f_equal. lia.
Qed.

Lemma numbered_lookup i l j c :
  numbered i l !! j = Some c <->
  exists d, l !! j = Some d /\ c = MkChunk (i + Z.of_nat j) EmptyString d (zlen d).
Proof.
  unfold numbered. rewrite list_lookup_imap. destruct (l !! j); simpl; naive_solver.
Qed.

(** The loop on a stream that is not good any more ends at once. *)
Lemma read_chunks_end fuel r g idx acc :
  read_chunks fuel (IFStream r false g) idx acc = acc.
Proof. by destruct fuel. Qed.

Lemma read_chunks_spec fuel r g idx acc :
  zlen r < CHUNK_SIZE * Z.of_nat fuel -> 0 <= idx -> idx + zlen r / CHUNK_SIZE < INT_MAX ->
  read_chunks fuel (IFStream r true g) idx acc = acc ++ numbered idx (pieces fuel r).
Proof.
  pose proof CHUNK_SIZE_pos as Hpos.
  revert r g idx acc. induction fuel as [|fuel IH]; intros r g idx acc Hf Hi Hmax.
  { pose proof (zlen_nonneg r). lia. }
  cbn [read_chunks pieces]. unfold file_read. cbn [igood remaining].
  rewrite split_at_spec. cbn [fst snd igood gcount].
  destruct r as [|b r']; [rewrite take_nil; cbn; by rewrite app_nil_r|].
  assert (0 < zlen (b :: r')) as Hr by (rewrite zlen_cons; pose proof (zlen_nonneg r'); lia).
  set (r := b :: r') in *. rewrite zlen_take, Z2Nat.id by lia.
  rewrite (bool_decide_eq_true_2 (_ > 0)) by lia. rewrite orb_true_r, numbered_cons, zlen_take, Z2Nat.id by lia.
  assert (in_int (Z.min CHUNK_SIZE (zlen r))) as Hsz.
  { apply CHUNK_SIZE_int. lia. }
  rewrite (i32_small _ Hsz).
  assert (0 <= zlen r / CHUNK_SIZE) by (apply Z.div_pos; lia).
  rewrite (i32_small (idx + 1)) by (unfold in_int, INT_MIN, INT_MAX in *; lia).
  case_bool_decide as Hfull.
  - rewrite IH; [by rewrite <- app_assoc| |lia|]; rewrite zlen_drop, Z2Nat.id by lia; [lia|].
    replace (Z.max 0 (zlen r - CHUNK_SIZE)) with (zlen r + (-1) * CHUNK_SIZE) by lia.
    rewrite Z.div_add by lia. lia.
  - rewrite read_chunks_end, (drop_ge r) by (unfold zlen in *; lia).
    by assert (pieces fuel [] = []) as -> by by destruct fuel.
Qed.

(** The largest file whose chunks an [int] can number. *)
Definition numberable (content : bytes) : Prop := zlen content / CHUNK_SIZE < INT_MAX.

Lemma read_fuel_enough content : zlen content < CHUNK_SIZE * Z.of_nat (read_fuel content).
Proof.
  unfold read_fuel. pose proof CHUNK_SIZE_pos as Hpos.
  assert (0 <= zlen content / CHUNK_SIZE) by (apply Z.div_pos; [apply zlen_nonneg|lia]).
  pose proof (Z.mul_succ_div_gt (zlen content) CHUNK_SIZE Hpos). lia.
Qed.

Lemma splitFileIntoChunks_eq d path content :
  files d !! path = Some content -> numberable content ->
  splitFileIntoChunks d path = numbered 0 (pieces (read_fuel content) content).
Proof.
  intros Hd Hn. unfold splitFileIntoChunks. rewrite Hd.
  rewrite read_chunks_spec; [done|apply read_fuel_enough|lia|done].
Qed.

(** ** Writing back *)

Lemma StronglySorted_seqZ_le m n : StronglySorted Z.le (seqZ m n).
Proof.
  destruct (Z.le_gt_cases n 0) as [Hn|Hn]; [rewrite seqZ_nil by done; constructor|].
  replace n with (Z.of_nat (Z.to_nat n)) by lia. generalize (Z.to_nat n). clear n Hn. intros n.
  revert m. induction n as [|n IH]; intros m; [constructor|].
  rewrite seqZ_cons by lia. replace (Z.pred (Z.of_nat (S n))) with (Z.of_nat n) by lia.
  constructor; [apply IH|]. apply Forall_forall. intros x Hx%elem_of_seqZ. lia.
Qed.

#[export] Instance before_total : Total before.
Proof. intros a b. unfold before. lia. Qed.
#[export] Instance before_trans : Transitive before.
Proof. intros a b c. unfold before. lia. Qed.

Lemma write_chunks_wf l out :
  Forall chunk_wf l -> write_chunks l out = Some (out ++ concat (c_data <$> l)).
Proof.
  intros Hl. revert out. induction Hl as [|c l Hc Hl IH]; intros out; simpl.
  - by rewrite app_nil_r.
  - red in Hc. rewrite Hc, bool_decide_eq_true_2 by (pose proof (zlen_nonneg (c_data c)); lia).
    rewrite split_at_spec, IH, <- app_assoc. cbn [fst]. unfold zlen.
    by rewrite Nat2Z.id, take_ge by lia.
Qed.

Lemma check_indices_fmap i l1 l2 :
  c_index <$> l1 = c_index <$> l2 -> check_indices i l1 = check_indices i l2.
Proof.
  revert i l2. induction l1 as [|c1 l1 IH]; intros i [|c2 l2]; try done.
  simpl. intros [= -> Hl]. f_equal. by apply IH.
Qed.

(** Below the range of [int], the check accepts exactly the indices counting up
    from [i]. *)
Lemma check_indices_iff i l :
  0 <= i -> i + zlen l <= INT_MAX + 1 ->
  check_indices i l = true <-> c_index <$> l = seqZ i (zlen l).
Proof.
  revert i. induction l as [|c l IH]; intros i Hi Hmax; [done|].
  rewrite zlen_cons in *. pose proof (zlen_nonneg l).
  rewrite seqZ_cons by lia. cbn [check_indices fmap list_fmap].
  rewrite andb_true_iff, bool_decide_eq_true, IH by lia.
  rewrite i32_small by (unfold in_int, INT_MIN, INT_MAX in *; lia).
  replace (Z.pred (zlen l + 1)) with (zlen l) by lia. unfold Z.succ.
  split; [intros [-> ->]; done|]. by intros [= -> ->].
Qed.

Lemma sorted_indices l : StronglySorted before l -> StronglySorted Z.le (c_index <$> l).
Proof.
  induction 1 as [|c l Hl IH Hc]; simpl; constructor; [done|].
  apply Forall_fmap. exact Hc.
Qed.

Lemma indices_unique (l1 l2 : list Chunk) :
  l1 ≡ₚ l2 -> StronglySorted before l1 -> StronglySorted before l2 ->
  c_index <$> l1 = c_index <$> l2.
Proof.
  intros Hp H1%sorted_indices H2%sorted_indices.
  eapply (StronglySorted_unique Z.le); [done..|]. by rewrite Hp.
Qed.

(** Two permutations of chunks with the same, duplicate-free indices in the same
    order are the same list. *)
Lemma permutation_by_index (l1 l2 : list Chunk) :
  l1 ≡ₚ l2 -> c_index <$> l1 = c_index <$> l2 -> NoDup (c_index <$> l1) -> l1 = l2.
Proof.
  intros Hp Hi Hnd. apply list_eq_same_length with (length l1); [by rewrite Hp|done|].
  intros i c1 c2 _ H1 H2. assert (c1 ∈ l2) as [j Hj]%list_elem_of_lookup.
  { rewrite <- Hp. by eapply list_elem_of_lookup_2. }
  assert ((c_index <$> l1) !! i = Some (c_index c1)) as E1 by by rewrite list_lookup_fmap, H1.
  assert ((c_index <$> l1) !! j = Some (c_index c1)) as E2 by by rewrite Hi, list_lookup_fmap, Hj.
  pose proof (NoDup_lookup _ _ _ _ Hnd E1 E2). subst j. congruence.
Qed.

Lemma write_sorted_unique d l1 l2 out :
  l1 ≡ₚ l2 -> StronglySorted before l1 -> StronglySorted before l2 -> zlen l1 <= INT_MAX ->
  write_sorted d l1 out = write_sorted d l2 out.
Proof.
  intros Hp H1 H2 Hmax. pose proof (indices_unique _ _ Hp H1 H2) as Hi.
  unfold write_sorted. rewrite (check_indices_fmap 0 _ _ Hi).
  destruct (check_indices 0 l2) eqn:Hc; [|done].
  assert (zlen l2 = zlen l1) as Hl by (unfold zlen; by rewrite Hp).
  apply check_indices_iff in Hc; [|lia|lia].
  rewrite (permutation_by_index _ _ Hp Hi); [done|]. rewrite Hi, Hc. apply NoDup_seqZ.
Qed.

(** The result of writing back well-formed chunks. *)
Lemma reconstructFile_eq d chunks out :
  Forall chunk_wf chunks -> zlen chunks <= INT_MAX ->
  let l := merge_sort before chunks in
  reconstructFile d chunks out =
  if bool_decide (chunks <> []) && bool_decide (c_index <$> l = seqZ 0 (zlen chunks))
     && creatable d out
  then Some (true, FS (<[out := concat (c_data <$> l)]> (files d)) (creatable d))
  else Some (false, d).
Proof.
  intros Hwf Hmax l. unfold reconstructFile. destruct (decide (chunks = [])) as [->|Hne]; [done|].
  rewrite (bool_decide_eq_false_2 (chunks = [])), (bool_decide_eq_true_2 (chunks <> [])) by done.
  unfold write_sorted. fold l.
  assert (l ≡ₚ chunks) as Hp by apply merge_sort_Permutation.
  assert (zlen l = zlen chunks) as Hl by (unfold zlen; by rewrite Hp).
  pose proof (check_indices_iff 0 l ltac:(lia) ltac:(lia)) as Hc. rewrite Hl in Hc.
  rewrite write_chunks_wf by by rewrite Hp. simpl.
  case_bool_decide as Hi; destruct (check_indices 0 l); simpl.
  - by destruct (creatable d out).
  - by pose proof (proj2 Hc Hi).
  - by destruct Hi; apply Hc.
  - done.
Qed.

Lemma sorted_of_indices l : StronglySorted Z.le (c_index <$> l) -> StronglySorted before l.
Proof.
  induction l as [|c l IH]; simpl; intros H; [constructor|].
  apply StronglySorted_inv in H as [Hl Hc]. constructor; [auto|]. rewrite Forall_fmap in Hc. exact Hc.
Qed.

(** Chunks that come in order are written as they come. *)
Lemma reconstruct_in_order d cs out :
  Forall chunk_wf cs -> c_index <$> cs = seqZ 0 (zlen cs) -> zlen cs <= INT_MAX ->
  reconstructFile d cs out =
  if bool_decide (cs <> []) && creatable d out
  then Some (true, FS (<[out := concat (c_data <$> cs)]> (files d)) (creatable d))
  else Some (false, d).
Proof.
  intros Hwf Hi Hmax. rewrite reconstructFile_eq by done. cbv zeta.
  assert (StronglySorted before cs) as Hs.
  { apply sorted_of_indices. rewrite Hi. apply StronglySorted_seqZ_le. }
  assert (merge_sort before cs = cs) as ->.
  { assert (c_index <$> merge_sort before cs = c_index <$> cs) as E.
    { apply indices_unique; [apply merge_sort_Permutation|apply (StronglySorted_merge_sort before); apply _|done]. }
    apply permutation_by_index; [apply merge_sort_Permutation|done|]. rewrite E, Hi. apply NoDup_seqZ. }
  rewrite (bool_decide_eq_true_2 (_ = seqZ _ _)) by done. by rewrite andb_true_r.
Qed.

(** A failed reconstruction touches nothing. *)
Lemma reconstructFile_false d cs out d' : reconstructFile d cs out = Some (false, d') -> d' = d.
Proof.
  unfold reconstructFile, write_sorted. repeat case_match; naive_solver.
Qed.

(** ** Numbered chunks *)

Lemma numbered_wf i l : Forall chunk_wf (numbered i l).
Proof.
  apply Forall_lookup. intros j c (d & _ & ->)%numbered_lookup. done.
Qed.

Lemma numbered_data i l : c_data <$> numbered i l = l.
Proof.
  revert i. induction l as [|d l IH]; intros i; [done|]. rewrite numbered_cons. simpl.
  by rewrite IH.
Qed.

Lemma numbered_index i l : c_index <$> numbered i l = seqZ i (zlen l).
Proof.
  revert i. induction l as [|d l IH]; intros i; [done|].
  rewrite numbered_cons, zlen_cons, seqZ_cons by (pose proof (zlen_nonneg l); lia). simpl.
  rewrite IH. unfold Z.succ. by replace (Z.pred (zlen l + 1)) with (zlen l) by lia.
Qed.

Lemma length_numbered i l : length (numbered i l) = length l.
Proof. apply length_imap. Qed.

Lemma numbered_sorted i l : StronglySorted before (numbered i l).
Proof.
  revert i. induction l as [|d l IH]; intros i; [constructor|].
  rewrite numbered_cons. constructor; [apply IH|].
  apply Forall_lookup. intros j c (d' & _ & ->)%numbered_lookup. unfold before. simpl. lia.
Qed.

Lemma numberable_pieces content :
  numberable content -> zlen (pieces (read_fuel content) content) <= INT_MAX.
Proof.
  intros Hn. red in Hn. pose proof (length_pieces (read_fuel content) content) as Hl.
  pose proof CHUNK_SIZE_pos as Hpos. fold (zlen (pieces (read_fuel content) content)) in Hl.
  pose proof (Z.mul_succ_div_gt (zlen content) CHUNK_SIZE Hpos). nia.
Qed.

Lemma numberable_int64 content : numberable content -> INT64_MIN <= zlen content <= INT64_MAX.
Proof.
  intros Hc. red in Hc. pose proof CHUNK_SIZE_pos. apply CHUNK_SIZE_int64.
  split; [apply zlen_nonneg|].
  pose proof (Z.mul_succ_div_gt (zlen content) CHUNK_SIZE ltac:(lia)). nia.
Qed.

Lemma pieces_file content : concat (pieces (read_fuel content) content) = content.
Proof. apply pieces_concat. pose proof (read_fuel_enough content). lia. Qed.

Lemma pieces_nil content : pieces (read_fuel content) content = [] <-> content = [].
Proof.
  split; [|by intros ->]. intros H. rewrite <- (pieces_file content), H. done.
Qed.

(** ** Identifiers *)

Fixpoint str_concat (l : list string) : string :=
  match l with [] => EmptyString | w :: l' => w +:+ str_concat l' end.

Lemma foldl_str_concat acc l : foldl (fun a h => a +:+ h) acc l = acc +:+ str_concat l.
Proof.
  revert acc. induction l as [|h l IH]; intros acc; simpl; [by rewrite str_app_nil_r|].
  by rewrite IH, str_app_assoc.
Qed.

Lemma str_app_inj a b s t :
  String.length a = String.length b -> a +:+ s = b +:+ t -> a = b /\ s = t.
Proof.
  revert b. induction a as [|c a IH]; intros [|c' b] Hl; try done.
  rewrite !str_app_cons. intros [= -> H]. injection Hl as Hl.
  destruct (IH _ Hl H) as [-> ->]. done.
Qed.

(** Digests all have the same positive length, so their concatenation can be
    taken apart again. *)
Lemma digests_concat_inj (l1 l2 : list bytes) :
  str_concat (sha256 <$> l1) = str_concat (sha256 <$> l2) -> sha256 <$> l1 = sha256 <$> l2.
Proof.
  assert (forall x l, str_concat (sha256 <$> x :: l) <> EmptyString) as Hne.
  { intros x l Heq. apply (f_equal String.length) in Heq. simpl in Heq.
    rewrite str_length_app, (proj1 (sha256_shape x)) in Heq. done. }
  revert l2. induction l1 as [|x l1 IH]; intros [|y l2]; try done.
  - intros Heq. by destruct (Hne y l2).
  - intros Heq. by destruct (Hne x l1).
  - simpl. intros [Hxy H]%str_app_inj; [|by rewrite !(proj1 (sha256_shape _))].
    rewrite Hxy. f_equal. by apply IH.
Qed.

Lemma fmap_collision (l1 l2 : list bytes) :
  sha256 <$> l1 = sha256 <$> l2 -> l1 = l2 \/ collide l1 l2.
Proof.
  revert l2. induction l1 as [|x l1 IH]; intros [|y l2]; try done; [by left|].
  simpl. intros [= Hxy H]. destruct (IH _ H) as [->|(a & b & ? & ? & ? & ?)].
  - destruct (decide (x = y)) as [->|Hne]; [by left|]. right. exists x, y. split_and!; [left|left|done|done].
  - right. exists a, b. split_and!; [by right|by right|done|done].
Qed.

Lemma computeRootHash_eq hashes : computeRootHash hashes = sha256 (bytes_of_string (str_concat hashes)).
Proof. unfold computeRootHash, computeSHA256. by rewrite foldl_str_concat. Qed.

Lemma hashChunk_wf c :
  chunk_wf c -> hashChunk c = Some (MkChunk (c_index c) (sha256 (c_data c)) (c_data c) (c_size c)).
Proof.
  intros Hc. red in Hc. unfold hashChunk.
  rewrite Hc, bool_decide_eq_true_2 by (pose proof (zlen_nonneg (c_data c)); lia).
  rewrite split_at_spec. unfold zlen. by rewrite Nat2Z.id, take_ge by lia.
Qed.

Lemma hashAllChunks_wf chunks :
  Forall chunk_wf chunks ->
  hashAllChunks chunks =
  Some ((fun c => MkChunk (c_index c) (sha256 (c_data c)) (c_data c) (c_size c)) <$> chunks).
Proof.
  unfold hashAllChunks. induction 1 as [|c l Hc _ IH]; [done|].
  simpl. rewrite hashChunk_wf by done. simpl. by rewrite IH.
Qed.

(** Whatever the file, the sizes of its chunks are right; and whatever the chunks with
    right sizes, [reconstructFile] comes to an end. *)
Lemma read_chunks_sizes fuel f idx acc :
  Forall chunk_wf acc -> Forall chunk_wf (read_chunks fuel f idx acc).
Proof.
  revert f idx acc. induction fuel as [|fuel IH]; intros [r g c] idx acc Hacc; simpl; [done|].
  unfold file_read. cbn [igood remaining]. destruct g; [|done]. rewrite split_at_spec. cbn [fst snd igood gcount].
  destruct (_ || _); [|done]. case_bool_decide; [|by apply IH].
  apply IH, Forall_app. split; [done|]. apply Forall_singleton. unfold chunk_wf. cbn [c_size c_data].
  apply i32_small. rewrite zlen_take, Z2Nat.id by (pose proof CHUNK_SIZE_pos; lia).
  apply CHUNK_SIZE_int, zlen_nonneg.
Qed.

Lemma split_sizes d path : Forall chunk_wf (splitFileIntoChunks d path).
Proof. unfold splitFileIntoChunks. destruct (_ !! _); [by apply read_chunks_sizes|done]. Qed.

Lemma reconstructFile_total d chunks out : Forall chunk_wf chunks -> is_Some (reconstructFile d chunks out).
Proof.
  intros Hwf. unfold reconstructFile, write_sorted. repeat case_match; try done.
  rewrite write_chunks_wf in * by (by rewrite merge_sort_Permutation). done.
Qed.

Lemma computeCID_eq d path content :
  files d !! path = Some content -> numberable content ->
  computeCID d path =
  Some (if bool_decide (content = []) then EmptyString
        else computeRootHash (sha256 <$> pieces (read_fuel content) content)).
Proof.
  intros Hd Hn. unfold computeCID. rewrite (splitFileIntoChunks_eq _ _ _ Hd Hn).
  set (ps := pieces (read_fuel content) content).
  assert (numbered 0 ps = [] <-> content = []) as Hnil.
  { rewrite <- pieces_nil. fold ps. rewrite <- !(length_zero_iff_nil (A:=_)).
    by rewrite length_numbered. }
  case_bool_decide as H1; case_bool_decide as H2; [done|naive_solver..|].
  rewrite hashAllChunks_wf by apply numbered_wf. simpl. do 2 f_equal.
  rewrite <- list_fmap_compose. rewrite <- (numbered_data 0 ps) at 2.
  by rewrite <- list_fmap_compose.
Qed.

(** ** Properties *)

(** Splitting a file loses nothing: the data of the chunks is the file, the
    chunks are numbered from 0, each one is at most [CHUNK_SIZE] bytes and is not
    empty, only the last may be shorter, and the recorded size is the length. *)
Theorem split_complete d path content :
  files d !! path = Some content -> numberable content ->
  let chunks := splitFileIntoChunks d path in
  concat (c_data <$> chunks) = content /\
  forall i c, chunks !! i = Some c ->
    c_index c = Z.of_nat i /\ c_size c = zlen (c_data c) /\ 0 < c_size c <= CHUNK_SIZE /\
    (S i < length chunks -> c_size c = CHUNK_SIZE)%nat.
Proof.
  intros Hd Hn chunks. unfold chunks. rewrite (splitFileIntoChunks_eq _ _ _ Hd Hn).
  split; [rewrite numbered_data; apply pieces_file|].
  intros i c (p & Hp & ->)%numbered_lookup. cbn [c_index c_size c_data].
  rewrite length_numbered. by destruct (pieces_sizes _ _ _ _ Hp).
Qed.

Lemma split_complete_witness :
  let d := FS {["f" := bytes_of_string "some data"]} (fun _ => true) in
  concat (c_data <$> splitFileIntoChunks d "f") = bytes_of_string "some data".
Proof.
  intros d. apply (split_complete d "f" (bytes_of_string "some data")); [done|].
  apply (bool_decide_unpack (_ < _)). by vm_compute.
Defined.

(** C29. Writing back any permutation of the chunks of a file restores the file. *)
Theorem reconstruct_split d path out content chunks :
  files d !! path = Some content -> numberable content -> content <> [] ->
  creatable d out = true -> chunks ≡ₚ splitFileIntoChunks d path ->
  reconstructFile d chunks out = Some (true, FS (<[out := content]> (files d)) (creatable d)).
Proof.
  intros Hd Hn Hne Hc Hp. rewrite (splitFileIntoChunks_eq _ _ _ Hd Hn) in Hp.
  set (ps := pieces (read_fuel content) content) in *.
  assert (zlen chunks = zlen ps) as Hl by (unfold zlen; by rewrite Hp, length_numbered).
  rewrite reconstructFile_eq.
  2: { rewrite Hp. apply numbered_wf. }
  2: { rewrite Hl. by apply numberable_pieces. }
  cbv zeta. assert (merge_sort before chunks = numbered 0 ps) as ->.
  { assert (merge_sort before chunks ≡ₚ numbered 0 ps) as Hp'.
    { by rewrite merge_sort_Permutation. }
    apply permutation_by_index; [done| |].
    - apply indices_unique; [done| |apply numbered_sorted].
      apply (StronglySorted_merge_sort before).
    - rewrite Hp', numbered_index. apply NoDup_seqZ. }
  rewrite numbered_index, Hl, Hc, numbered_data. unfold ps. rewrite pieces_file.
  rewrite !bool_decide_eq_true_2; [done|done|].
  intros ->. symmetry in Hp. apply Permutation_nil_r in Hp.
  apply Hne, pieces_nil. fold ps. apply length_zero_iff_nil.
  by rewrite <- (length_numbered 0), Hp.
Qed.

Lemma reconstruct_split_witness :
  let d := FS {["f" := bytes_of_string "some data"]} (fun _ => true) in
  reconstructFile d (splitFileIntoChunks d "f") "g" =
  Some (true, FS (<["g" := bytes_of_string "some data"]> (files d)) (creatable d)).
Proof.
  intros d. apply (reconstruct_split d "f" "g" (bytes_of_string "some data")); done.
Defined.

(** C31. Writing back succeeds exactly when there are chunks, their indices are
    0, 1, ..., n-1 in some order, and the output can be created; a missing or a
    repeated chunk is refused and then no file is touched. *)
Theorem reconstruct_iff d chunks out :
  Forall chunk_wf chunks -> zlen chunks <= INT_MAX ->
  exists ok d',
    reconstructFile d chunks out = Some (ok, d') /\
    (ok = true <-> chunks <> [] /\ c_index <$> chunks ≡ₚ seqZ 0 (zlen chunks) /\
                   creatable d out = true) /\
    (ok = false -> d' = d).
Proof.
  intros Hwf Hmax. rewrite reconstructFile_eq by done. cbv zeta.
  set (l := merge_sort before chunks).
  assert (l ≡ₚ chunks) as Hp by apply merge_sort_Permutation.
  assert (c_index <$> l = seqZ 0 (zlen chunks) <->
          c_index <$> chunks ≡ₚ seqZ 0 (zlen chunks)) as Hiff.
  { split; [intros <-; by rewrite Hp|]. intros Hi.
    apply (StronglySorted_unique Z.le).
    - apply sorted_indices, (StronglySorted_merge_sort before); apply _.
    - apply StronglySorted_seqZ_le.
    - by rewrite Hp. }
  set (b := bool_decide (chunks <> []) && _ && _).
  assert (b = true <-> chunks <> [] /\ c_index <$> chunks ≡ₚ seqZ 0 (zlen chunks) /\
            creatable d out = true) as Hb.
  { unfold b. rewrite !andb_true_iff, !bool_decide_eq_true, Hiff. tauto. }
  clearbody b. destruct b; eexists _, _; (split; [done|]); split; done.
Qed.

Lemma reconstruct_iff_witness :
  let c i d := MkChunk i EmptyString d (zlen d) in
  exists ok d',
    reconstructFile (FS empty (fun _ => true)) [c 2 [x00]; c 0 [x01]] "out" = Some (ok, d') /\
    (ok = false -> d' = FS empty (fun _ => true)).
Proof.
  intros c. destruct (reconstruct_iff (FS empty (fun _ => true)) [c 2 [x00]; c 0 [x01]] "out")
    as (ok & d' & ? & _ & ?); [by repeat constructor|by vm_compute|eauto].
Defined.

(** The result does not depend on the sorting algorithm: [std::sort] may leave
    chunks with equal indices in any order, and whichever sorted permutation it
    produces, the outcome is the one of the model's stable sort. *)
Theorem reconstruct_any_sort d chunks l out :
  l ≡ₚ chunks -> StronglySorted before l -> zlen chunks <= INT_MAX -> chunks <> [] ->
  reconstructFile d chunks out = write_sorted d l out.
Proof.
  intros Hp Hs Hmax Hne. unfold reconstructFile. rewrite bool_decide_eq_false_2 by done.
  pose proof (merge_sort_Permutation before chunks) as Hm.
  apply write_sorted_unique; [by rewrite Hm| |done|].
  - apply (StronglySorted_merge_sort before); apply _.
  - unfold zlen in *. by rewrite Hm.
Qed.

Lemma reconstruct_any_sort_witness :
  let c i d := MkChunk i EmptyString d (zlen d) in
  let d := FS empty (fun _ => true) in
  reconstructFile d [c 1 [x00]; c 0 [x01]; c 1 [x02]] "out" =
  write_sorted d [c 0 [x01]; c 1 [x02]; c 1 [x00]] "out".
Proof.
  intros c d. apply reconstruct_any_sort; [| |by vm_compute|done].
  - etrans; [|apply Permutation_swap]. constructor. apply Permutation_swap.
  - repeat constructor; unfold before; simpl; lia.
Defined.

(** What [computeCID] hashes: the chunks, and the list of their digests. *)
Definition hashed (content : bytes) : list bytes :=
  let ps := pieces (read_fuel content) content in
  ps ++ [bytes_of_string (str_concat (sha256 <$> ps))].

(** Comparing content identifiers is sound: two files with equal identifiers
    are equal, unless their chunks or their lists of digests exhibit a SHA-256
    collision. *)
Lemma computeCID_sound d a b ca cb :
  files d !! a = Some ca -> files d !! b = Some cb -> numberable ca -> numberable cb ->
  computeCID d a = computeCID d b -> ca = cb \/ collide (hashed ca) (hashed cb).
Proof.
  intros Ha Hb Hna Hnb. rewrite (computeCID_eq _ _ _ Ha Hna), (computeCID_eq _ _ _ Hb Hnb).
  rewrite !computeRootHash_eq. unfold hashed. pose proof (pieces_file ca) as Hca.
  pose proof (pieces_file cb) as Hcb. revert Hca Hcb.
  generalize (pieces (read_fuel ca) ca), (pieces (read_fuel cb) cb).
  intros pa pb Hca Hcb [= Heq]. cbv zeta.
  assert (forall x, sha256 x <> EmptyString) as Hne.
  { intros x E. pose proof (proj1 (sha256_shape x)) as Hl. by rewrite E in Hl. }
  case_bool_decide as Ea; case_bool_decide as Eb;
    [left; congruence|by destruct (Hne _ (eq_sym Heq))|by destruct (Hne _ Heq)|].
  destruct (decide (str_concat (sha256 <$> pa) = str_concat (sha256 <$> pb))) as [He|He].
  - apply digests_concat_inj, fmap_collision in He as [He|(x & y & ? & ? & ? & ?)]; [left; congruence|].
    right. exists x, y. split_and!; [by apply elem_of_app; left..|done|done].
  - right. eexists _, _. split_and!; [apply elem_of_app; right; left..| |exact Heq]. intros E. apply He.
    by rewrite <- (string_bytes_id (str_concat (sha256 <$> pa))), E, string_bytes_id.
Qed.
