(* ===== verification/Frames.v ===== *)
(** * Length-prefixed messages over a byte stream

    [sendData], [recvData], [sendMessage] and [recvMessage] of
    [src/network/tcp_client.cpp] and [src/network/tcp_server.cpp]: a message is a
    4-byte big-endian length followed by its bytes.

    The kernel is a parameter: what the successive [::send] and [::recv] calls on a
    socket answer are lists of integers, an argument of every operation.  An answer
    that is not positive is an error or the end of the stream; a positive answer
    [n] transfers at most [n] bytes, and never more than was asked for or is there.
    When a list is used up the calls fail.  The calls for the 4-byte length, which
    the code does not repeat, and the calls of the loops have a list each.

    The theorems: success of [sendData] means the whole frame is on the wire, a
    stream of messages is read back message by message however the kernel segments
    it, and what happens to a message of 4 GB and more. *)
From S2P Require Import Prelude.

#[local] Open Scope Z_scope.

(** One direction of a connected socket: the bytes in flight, and the kernel's
    answers to come to the calls for a length and to the calls for the data. *)
Record sock := Sock { wire : bytes; heads : list Z; bodies : list Z }.

Definition pop (l : list Z) : Z * list Z :=
  match l with [] => (-1, []) | r :: rs => (r, rs) end.

(** [::send(sock, data, len, 0)] that the kernel answers with [r]: the return
    value and the bytes in flight afterwards. *)
Definition k_send (r : Z) (data w : bytes) : Z * bytes :=
  if bool_decide (r <= 0) then (r, w)
  else let n := Z.min r (zlen data) in (n, w ++ take (Z.to_nat n) data).

(** [::recv(sock, buf, len, flags)] that the kernel answers with [r]: the return
    value, the bytes placed in the buffer and the bytes still in flight. *)
Definition k_recv (r len : Z) (w : bytes) : Z * bytes * bytes :=
  if bool_decide (r <= 0) then (r, [], w)
  else let n := Z.min r (Z.min len (zlen w)) in
       (n, take (Z.to_nat n) w, drop (Z.to_nat n) w).

(** [htonl] and [ntohl]: a 32-bit number as four bytes in network order. *)
Definition htonl (n : Z) : bytes :=
  byte_of_Z (Z.shiftr n 24) :: byte_of_Z (Z.shiftr n 16) :: byte_of_Z (Z.shiftr n 8)
    :: [byte_of_Z n].

Definition ntohl (b : bytes) : Z :=
  match b with
  | [b3; b2; b1; b0] =>
      Z.lor (Z.lor (Z.lor (Z.shiftl (u8 b3) 24) (Z.shiftl (u8 b2) 16)) (Z.shiftl (u8 b1) 8)) (u8 b0)
  | _ => 0
  end.

(** [while (sent < len) { n = ::send(...); if (n <= 0) return false; sent += n; }],
    on the bytes still to send. *)
Fixpoint send_loop (rs : list Z) (data w : bytes) : bool * bytes * list Z :=
  match data with
  | [] => (true, w, rs)
  | _ =>
      match rs with
      | [] => (false, w, [])
      | r :: rs' =>
          let '(n, w') := k_send r data w in
          if bool_decide (n <= 0) then (false, w', rs')
          else send_loop rs' (drop (Z.to_nat n) data) w'
      end
  end.

Definition sendData (data : bytes) (s : sock) : bool * sock :=
  let len32 := htonl (u32 (zlen data)) in
  let '(r, hs) := pop (heads s) in
  let '(n, w) := k_send r len32 (wire s) in
  if bool_decide (n = 4) then
    let '(ok, w, bs) := send_loop (bodies s) data w in (ok, Sock w hs bs)
  else (false, Sock w hs (bodies s)).

(** [while (got < len) { n = ::recv(...); if (n <= 0) return {}; got += n; }], with
    the number of bytes still to come. *)
Fixpoint recv_loop (rs : list Z) (need : Z) (got w : bytes) : option bytes * bytes * list Z :=
  if bool_decide (0 < need) then
    match rs with
    | [] => (None, w, [])
    | r :: rs' =>
        let '(n, b, w') := k_recv r need w in
        if bool_decide (n <= 0) then (None, w', rs')
        else recv_loop rs' (need - n) (got ++ b) w'
    end
  else (Some got, w, rs).

(** The empty vector stands for every failure. *)
Definition recvData (s : sock) : bytes * sock :=
  let '(r, hs) := pop (heads s) in
  let '(n, b, w) := k_recv r 4 (wire s) in
  if bool_decide (n = 4) then
    match recv_loop (bodies s) (ntohl b) [] w with
    | (Some result, w, bs) => (result, Sock w hs bs)
    | (None, w, bs) => ([], Sock w hs bs)
    end
  else ([], Sock w hs (bodies s)).

Definition sendMessage (message : string) (s : sock) : bool * sock :=
  sendData (bytes_of_string message) s.

Definition recvMessage (s : sock) : string * sock :=
  let '(data, s) := recvData s in
  (if bool_decide (data = []) then EmptyString else string_of_bytes data, s).

(** ** Reference: the stream a list of messages makes *)

Definition frame (data : bytes) : bytes := htonl (u32 (zlen data)) ++ data.

Definition stream (messages : list bytes) : bytes := concat (frame <$> messages).

(** The number of bytes of [data] that its 32-bit length announces. *)
Definition announced (data : bytes) : Z := u32 (zlen data).

(** [n] messages received one after the other. *)
Fixpoint recv_many (n : nat) (s : sock) : list bytes * sock :=
  match n with
  | O => ([], s)
  | S n' => let '(m, s) := recvData s in let '(ms, s) := recv_many n' s in (m :: ms, s)
  end.

(** A kernel that makes progress: it transfers the whole of each length, and at
    least one byte in each of [m] calls for data, for [n] messages. *)
Definition patient (n m : nat) (s : sock) : Prop :=
  (n <= length (heads s))%nat /\ Forall (fun r => 4 <= r) (heads s) /\
  (m <= length (bodies s))%nat /\ Forall (fun r => 0 < r) (bodies s).

(** ** Network byte order *)

Lemma length_htonl n : length (htonl n) = 4%nat.
Proof. done. Qed.

Lemma ntohl_htonl n : 0 <= n < 2 ^ 32 -> ntohl (htonl n) = n.
Proof.
  intros Hn. unfold ntohl, htonl. rewrite !u8_byte_of_Z. unfold uwrap.
  apply Z.bits_inj'. intros i Hi. rewrite !Z.lor_spec, !Z.shiftl_spec by lia.
  assert (Hb : forall j, 0 <= j ->
    Z.testbit (Z.shiftr n j mod 2 ^ 8) (i - j) =
    (bool_decide (j <= i < j + 8) && Z.testbit n i)).
  { intros j Hj. destruct (decide (i < j)).
    - rewrite Z.testbit_neg_r, bool_decide_eq_false_2 by lia. done.
    - destruct (decide (i < j + 8)).
      + rewrite Z.mod_pow2_bits_low, Z.shiftr_spec, bool_decide_eq_true_2 by lia.
        simpl. f_equal. lia.
      + rewrite Z.mod_pow2_bits_high, bool_decide_eq_false_2 by lia. done. }
  pose proof (Hb 0 ltac:(lia)) as H0. rewrite Z.shiftr_0_r, Z.sub_0_r in H0.
  rewrite H0, !Hb by lia. destruct (decide (i < 32)).
  - destruct (Z.testbit n i); [|by rewrite !andb_false_r].
    rewrite !andb_true_r.
    destruct (decide (i < 8)); [by rewrite (bool_decide_eq_true_2 (0 <= i < 0 + 8)), !orb_true_r by lia|].
    destruct (decide (i < 16)); [by rewrite (bool_decide_eq_true_2 (8 <= i < 8 + 8)), !orb_true_r by lia|].
    destruct (decide (i < 24)); [by rewrite (bool_decide_eq_true_2 (16 <= i < 16 + 8)), !orb_true_r by lia|].
    by rewrite (bool_decide_eq_true_2 (24 <= i < 24 + 8)) by lia.
  - rewrite !bool_decide_eq_false_2 by lia. simpl. symmetry.
    rewrite <- (Z.mod_small n (2 ^ 32)) by done. apply Z.mod_pow2_bits_high. lia.
Qed.

(** ** Sending *)

Lemma zlen_take' {A} n (l : list A) : 0 <= n -> zlen (take (Z.to_nat n) l) = Z.min n (zlen l).
Proof. intros. unfold zlen. rewrite length_take. lia. Qed.

Lemma zlen_drop' {A} n (l : list A) : 0 <= n -> zlen (drop (Z.to_nat n) l) = Z.max 0 (zlen l - n).
Proof. intros. unfold zlen. rewrite length_drop. lia. Qed.

(** The loop puts a prefix of the data on the wire, all of it when it succeeds. *)
Lemma send_loop_wire rs data w ok w' rs' :
  send_loop rs data w = (ok, w', rs') ->
  exists sent unsent, data = sent ++ unsent /\ w' = w ++ sent /\ (ok = true <-> unsent = []).
Proof.
  revert data w. induction rs as [|r rs IH]; intros [|b data] w; cbn [send_loop].
  1-3: intros [= <- <- <-].
  - exists [], []. rewrite !app_nil_r. repeat split; done.
  - exists [], (b :: data). rewrite !app_nil_r. repeat split; done.
  - exists [], []. rewrite !app_nil_r. repeat split; done.
  - set (d := b :: data). unfold k_send. case_bool_decide.
    + rewrite bool_decide_eq_true_2 by done. intros [= <- <- <-].
      exists [], d. rewrite !app_nil_r. repeat split; done.
    + assert (0 < zlen d) by (unfold d; rewrite zlen_cons; pose proof (zlen_nonneg data); lia).
      rewrite bool_decide_eq_false_2 by lia. intros Hl.
      destruct (IH _ _ Hl) as (sent & unsent & Hd & -> & Hok).
      exists (take (Z.to_nat (Z.min r (zlen d))) d ++ sent), unsent.
      split_and!; [|by rewrite app_assoc|done]. by rewrite <- app_assoc, <- Hd, take_drop.
Qed.

Lemma send_loop_progress rs data w :
  (length data <= length rs)%nat -> Forall (fun r => 0 < r) rs ->
  exists rs', send_loop rs data w = (true, w ++ data, rs') /\
    (length rs - length data <= length rs')%nat /\ Forall (fun r => 0 < r) rs'.
Proof.
  revert data w. induction rs as [|r rs IH]; intros [|b data] w Hl Hp; cbn [send_loop].
  - exists []. by rewrite app_nil_r.
  - simpl in Hl. lia.
  - exists (r :: rs). rewrite app_nil_r. split_and!; [done|lia|done].
  - inversion Hp as [|?? Hr Hrs]; subst. set (d := b :: data) in *.
    assert (0 < zlen d) by (unfold d; rewrite zlen_cons; pose proof (zlen_nonneg data); lia).
    unfold k_send. rewrite !bool_decide_eq_false_2 by lia.
    set (n := Z.min r (zlen d)). assert (0 < n <= zlen d) by lia. clearbody n.
    assert (Z.to_nat n <= length d)%nat by (unfold zlen in *; lia).
    destruct (IH (drop (Z.to_nat n) d) (w ++ take (Z.to_nat n) d)) as (rs' & -> & Hl' & Hp').
    + rewrite length_drop. cbn [length] in Hl. lia.
    + done.
    + exists rs'. rewrite <- app_assoc, take_drop. split_and!; [done| |done].
      rewrite length_drop in Hl'. cbn [length]. lia.
Qed.

(** ** Receiving *)

Lemma recv_loop_progress rs need got w :
  0 <= need <= zlen w -> need <= Z.of_nat (length rs) -> Forall (fun r => 0 < r) rs ->
  exists rs', recv_loop rs need got w =
    (Some (got ++ take (Z.to_nat need) w), drop (Z.to_nat need) w, rs') /\
    Z.of_nat (length rs) - need <= Z.of_nat (length rs') /\ Forall (fun r => 0 < r) rs'.
Proof.
  revert need got w. induction rs as [|r rs IH]; intros need got w Hn Hl Hp; cbn [recv_loop].
  - simpl in Hl. rewrite bool_decide_eq_false_2 by lia. exists [].
    replace (Z.to_nat need) with 0%nat by lia. rewrite take_0, drop_0, app_nil_r.
    split_and!; [done|lia|done].
  - case_bool_decide.
    + inversion Hp as [|?? Hr Hrs]; subst. unfold k_recv.
      rewrite !bool_decide_eq_false_2 by lia. set (n := Z.min r (Z.min need (zlen w))).
      assert (0 < n <= need) by lia. assert (n <= zlen w) by lia. clearbody n.
      destruct (IH (need - n) (got ++ take (Z.to_nat n) w) (drop (Z.to_nat n) w))
        as (rs' & -> & Hl' & Hp').
      * rewrite zlen_drop' by lia. lia.
      * simpl in Hl. lia.
      * done.
      * exists rs'. replace (Z.to_nat need) with (Z.to_nat n + Z.to_nat (need - n))%nat by lia.
        rewrite <- app_assoc, drop_drop. split_and!; [|simpl; lia|done].
        do 3 f_equal. by rewrite take_take_drop.
    + exists (r :: rs). replace (Z.to_nat need) with 0%nat by lia.
      rewrite take_0, drop_0, app_nil_r. split_and!; [done|lia|done].
Qed.

(** What the receiver of one frame gets: as many bytes as the 32-bit length
    announces. *)
Lemma recvData_frame data rest n m hs bs :
  patient (S n) (Z.to_nat (announced data) + m) (Sock (frame data ++ rest) hs bs) ->
  exists hs' bs',
    recvData (Sock (frame data ++ rest) hs bs) =
    (take (Z.to_nat (announced data)) data,
     Sock (drop (Z.to_nat (announced data)) data ++ rest) hs' bs') /\
    forall w, patient n m (Sock w hs' bs').
Proof.
  intros (Hh & Hh4 & Hb & Hbp). cbn [heads bodies] in *.
  destruct hs as [|r hs]; [simpl in Hh; lia|]. inversion Hh4 as [|?? Hr Hhs]; subst.
  assert (0 <= announced data <= zlen data) as Ha.
  { unfold announced, uwrap. split; [apply Z.mod_pos_bound; done|].
    apply Z.mod_le; [apply zlen_nonneg|done]. }
  unfold recvData, frame. cbn [pop heads wire bodies]. unfold k_recv.
  rewrite bool_decide_eq_false_2 by lia. rewrite <- app_assoc.
  set (len := htonl (u32 (zlen data))).
  assert (length len = 4%nat) as Hlen by done.
  assert (Z.min r (Z.min 4 (zlen (len ++ data ++ rest))) = 4) as ->.
  { rewrite zlen_app. unfold zlen at 1. pose proof (zlen_nonneg (data ++ rest)). lia. }
  rewrite bool_decide_eq_true_2 by done. change (Z.to_nat 4) with 4%nat.
  rewrite take_app_length', drop_app_length' by done.
  unfold len. rewrite ntohl_htonl by (apply uwrap_range; lia). fold (announced data).
  destruct (recv_loop_progress bs (announced data) [] (data ++ rest)) as (bs' & -> & Hl & Hp).
  - rewrite zlen_app. pose proof (zlen_nonneg rest). lia.
  - lia.
  - done.
  - assert (Z.to_nat (announced data) <= length data)%nat by (unfold zlen in *; lia).
    exists hs, bs'. rewrite app_nil_l, take_app_le, drop_app_le by done. split; [done|].
    intros w. split_and!; cbn [heads bodies]; [simpl in Hh; lia|done|lia|done].
Qed.

Lemma announced_small data : zlen data < 2 ^ 32 -> announced data = zlen data.
Proof. intros. apply uwrap_small. pose proof (zlen_nonneg data). lia. Qed.

(** ** Properties *)

(** What [sendData] leaves on the wire. *)
Lemma sendData_wire data s ok s' :
  sendData data s = (ok, s') ->
  exists sent, wire s' = wire s ++ sent /\ sent `prefix_of` frame data /\
    (ok = true -> sent = frame data).
Proof.
  unfold sendData, frame. set (len := htonl _). assert (length len = 4%nat) as Hlen by done.
  destruct (pop (heads s)) as [r hs]. unfold k_send. assert (zlen len = 4) as Hz by done. rewrite Hz.
  case_bool_decide.
  { rewrite bool_decide_eq_false_2 by lia. intros [= <- <-].
    exists []. rewrite app_nil_r. split_and!; [done|apply prefix_nil|done]. }
  case_bool_decide as H4.
  - rewrite H4, take_ge by done. destruct (send_loop _ _ _) as [[ok' w'] rs'] eqn:Hl.
    intros [= <- <-]. cbn [wire].
    destruct (send_loop_wire _ _ _ _ _ _ Hl) as (sent & unsent & -> & -> & Hok).
    exists (len ++ sent). rewrite !app_assoc. split_and!; [done|by eexists|].
    intros Ht. by rewrite (proj1 Hok Ht), app_nil_r.
  - intros [= <- <-]. cbn [wire]. eexists. split; [done|]. split; [|done].
    exists (drop (Z.to_nat (Z.min r 4)) len ++ data). by rewrite app_assoc, take_drop.
Qed.

(** A kernel that makes progress lets it succeed. *)
Lemma sendData_patient data s : patient 1 (length data) s -> (sendData data s).1 = true.
Proof.
  intros (Hh & Hh4 & Hb & Hp). unfold sendData. destruct (heads s) as [|r hs]; [simpl in Hh; lia|].
  inversion Hh4; subst. cbn [pop]. unfold k_send.
  change (zlen (htonl (u32 (zlen data)))) with 4. rewrite !bool_decide_eq_false_2 by lia.
  rewrite Z.min_r by lia. rewrite bool_decide_eq_true_2 by done. rewrite take_ge by done.
  by destruct (send_loop_progress (bodies s) data (wire s ++ htonl (u32 (zlen data))) Hb Hp)
    as (? & -> & _).
Qed.

(** C36. [sendData] reports success exactly when the whole frame, the 4-byte length
    and all of the data, has been handed to the kernel; after a failure the wire
    holds at most a part of it.  A kernel that makes progress makes it succeed
    within one call per byte. *)
Theorem sendData_complete data s ok s' :
  sendData data s = (ok, s') ->
  (exists sent, wire s' = wire s ++ sent /\ sent `prefix_of` frame data /\
     (ok = true -> sent = frame data)) /\
  (patient 1 (length data) s -> ok = true).
Proof.
  intros E. split; [by apply sendData_wire|]. intros Hp%sendData_patient. by rewrite E in Hp.
Qed.

Lemma sendData_complete_witness :
  fst (sendData [x01; x02; x03] (Sock [] [4] [1; 2; 5])) = true.
Proof.
  destruct (sendData [x01; x02; x03] (Sock [] [4] [1; 2; 5])) as [ok s'] eqn:E. simpl.
  apply (proj2 (sendData_complete _ _ _ _ E)). split_and!; simpl; repeat constructor; lia.
Defined.

(** C21. The byte stream carries a queue of messages: messages of less than 4 GB
    that were framed one after the other are received one by one, in order and
    unchanged, however the kernel cuts the stream. *)
Theorem messages_in_order ms rest hs bs :
  Forall (fun m => zlen m < 2 ^ 32) ms ->
  patient (length ms) (length (concat ms)) (Sock (stream ms ++ rest) hs bs) ->
  exists hs' bs',
    recv_many (length ms) (Sock (stream ms ++ rest) hs bs) = (ms, Sock rest hs' bs').
Proof.
  intros Hs. revert hs bs. induction Hs as [|d ms Hd _ IH]; intros hs bs Hp; [by eexists _, _|].
  cbn [length recv_many]. change (stream (d :: ms)) with (frame d ++ stream ms) in *.
  rewrite <- app_assoc in *. cbn [length concat] in Hp. rewrite length_app in Hp.
  pose proof (announced_small d Hd) as Ha.
  destruct (recvData_frame d (stream ms ++ rest) (length ms) (length (concat ms)) hs bs)
    as (hs' & bs' & -> & Hp').
  { rewrite Ha. unfold zlen. by rewrite Nat2Z.id. }
  rewrite Ha. unfold zlen. rewrite Nat2Z.id, take_ge, drop_ge by done. rewrite app_nil_l.
  destruct (IH hs' bs' (Hp' _)) as (hs2 & bs2 & ->). by eexists _, _.
Qed.

Lemma messages_in_order_witness :
  exists hs' bs',
    recv_many 2 (Sock (stream [[x01; x02; x03]; []] ++ [xff]) [4; 9] [1; 1; 7]) =
    ([[x01; x02; x03]; []], Sock [xff] hs' bs').
Proof.
  apply (messages_in_order [[x01; x02; x03]; []] [xff] [4; 9] [1; 1; 7]).
  - repeat constructor.
  - split_and!; repeat constructor; lia.
Defined.

(** C37. The length field has 32 bits: of a message of [n] bytes the receiver takes
    the first [n mod 2^32] for the whole message, and what follows is left on the
    wire to be read as the next length. *)
Theorem oversized_message data rest hs bs :
  patient 1 (Z.to_nat (zlen data mod 2 ^ 32)) (Sock (frame data ++ rest) hs bs) ->
  exists hs' bs',
    recvData (Sock (frame data ++ rest) hs bs) =
    (take (Z.to_nat (zlen data mod 2 ^ 32)) data,
     Sock (drop (Z.to_nat (zlen data mod 2 ^ 32)) data ++ rest) hs' bs').
Proof.
  intros Hp. destruct (recvData_frame data rest 0 0 hs bs) as (hs' & bs' & H & _).
  - unfold announced, uwrap. by rewrite Nat.add_0_r.
  - by exists hs', bs'.
Qed.

Lemma oversized_message_witness :
  exists hs' bs',
    recvData (Sock (frame [x61; x62] ++ [x63]) [4] [1; 1]) = ([x61; x62], Sock [x63] hs' bs').
Proof.
  apply (oversized_message [x61; x62] [x63] [4] [1; 1]).
  split_and!; repeat constructor; lia.
Defined.
