(* ===== verification/Sockets.v ===== *)
(** * Connections: [src/network/tcp_client.cpp] and [src/network/tcp_server.{hpp,cpp}]

    The descriptors the two classes hold.  The kernel is a parameter: the return
    values of [socket], [setsockopt], [bind], [listen], [accept], [connect] and
    [inet_pton] are arguments, and [open_fds] is the process's set of open
    descriptors, on which [::close] acts; [bad_close] records a [::close] of a
    descriptor that is not open.

    The theorems: whatever the system calls answer and in whatever order the
    methods run, no descriptor is closed twice, a closed client holds none, a server
    exactly what its members say, beside the listening sockets that a second [start]
    overwrites, and every accepted connection gets an identifier of its own. *)
From stdpp Require Import functions.
From S2P Require Import Prelude StdMap Frames.

#[local] Open Scope Z_scope.

(** ** The kernel's descriptor table *)

Record kernel := Kernel { open_fds : gset Z; bad_close : bool }.

Definition k_open (fd : Z) (w : kernel) : kernel :=
  if bool_decide (fd < 0) then w else Kernel ({[fd]} ∪ open_fds w) (bad_close w).

Definition k_close (fd : Z) (w : kernel) : kernel :=
  Kernel (open_fds w ∖ {[fd]}) (bad_close w || bool_decide (fd ∉ open_fds w)).

(** What the kernel promises of [socket] and [accept]: an error, or a descriptor
    that is not in use. *)
Definition fresh_fd (ret : Z) (w : kernel) : Prop := ret < 0 \/ ret ∉ open_fds w.

(** ** [TCPClient] *)

Record TCPClient := MkClient { sock_ : Z; connected_ : bool }.

Definition new_client : TCPClient := MkClient (-1) false.

Definition client_close (c : TCPClient) (w : kernel) : TCPClient * kernel :=
  if connected_ c && bool_decide (0 <= sock_ c)
  then (MkClient (-1) false, k_close (sock_ c) w)
  else (c, w).

(** [connect(ip, port)], with what [socket], [inet_pton] and [::connect] return. *)
Definition connect (socket_ret pton_ret connect_ret : Z) (c : TCPClient) (w : kernel)
    : bool * TCPClient * kernel :=
  let '(c, w) := if connected_ c then client_close c w else (c, w) in
  let c := MkClient socket_ret (connected_ c) in
  let w := k_open socket_ret w in
  if bool_decide (sock_ c < 0) then (false, c, w)
  else if bool_decide (pton_ret <= 0) then
    (false, MkClient (-1) (connected_ c), k_close (sock_ c) w)
  else if bool_decide (connect_ret < 0) then
    (false, MkClient (-1) (connected_ c), k_close (sock_ c) w)
  else (true, MkClient (sock_ c) true, w).

(** The calls made on one client object. *)
Inductive client_op :=
| CConnect (socket_ret pton_ret connect_ret : Z)
| CCloseOp.

Definition client_step (o : client_op) (st : TCPClient * kernel) : TCPClient * kernel :=
  match o with
  | CConnect s p r => let '(_, c, w) := connect s p r st.1 st.2 in (c, w)
  | CCloseOp => client_close st.1 st.2
  end.

(** The kernel answers every [socket] of the list with a descriptor not in use. *)
Fixpoint client_run (os : list client_op) (st : TCPClient * kernel) : Prop :=
  match os with
  | [] => True
  | o :: os' =>
      match o with CConnect s _ _ => fresh_fd s (client_close st.1 st.2).2 | CCloseOp => True end
      /\ client_run os' (client_step o st)
  end.

(** ** [TCPServer] *)

Record SocketContext := Ctx { socket : Z; valid : bool }.

Record TCPServer := MkServer {
  serverSock_ : Z;
  running_ : bool;
  clients_ : list (Z * SocketContext);
  nextClientId_ : Z
}.

Definition new_server : TCPServer := MkServer (-1) false [] 1.

Definition server_start (socket_ret setsockopt_ret bind_ret listen_ret : Z)
    (s : TCPServer) (w : kernel) : bool * TCPServer * kernel :=
  let w := k_open socket_ret w in
  let with_sock fd r := MkServer fd r (clients_ s) (nextClientId_ s) in
  if bool_decide (socket_ret < 0) then (false, with_sock socket_ret (running_ s), w)
  else if bool_decide (setsockopt_ret < 0) then
    (false, with_sock (-1) (running_ s), k_close socket_ret w)
  else if bool_decide (bind_ret < 0) then
    (false, with_sock (-1) (running_ s), k_close socket_ret w)
  else if bool_decide (listen_ret < 0) then
    (false, with_sock (-1) (running_ s), k_close socket_ret w)
  else (true, with_sock socket_ret true, w).

(** [acceptClient] from [accept] on: its return value, and the entry for the client. *)
Definition accepted (accept_ret : Z) (s : TCPServer) (w : kernel) : Z * TCPServer * kernel :=
  let w := k_open accept_ret w in
  if bool_decide (accept_ret < 0) then (-1, s, w)
  else
    let id := nextClientId_ s in
    (id, MkServer (serverSock_ s) (running_ s) (set_at id (Ctx accept_ret true) (clients_ s))
                  (i32 (id + 1)), w).

Definition acceptClient (accept_ret : Z) (s : TCPServer) (w : kernel)
    : Z * TCPServer * kernel :=
  if negb (running_ s) || bool_decide (serverSock_ s < 0) then (-1, s, w)
  else accepted accept_ret s w.

(** The socket [sendData] and [recvData] use for a client; [None] makes them
    return at once. *)
Definition client_socket (id : Z) (s : TCPServer) : option Z :=
  match find id (clients_ s) with
  | Some c => if valid c then Some (socket c) else None
  | None => None
  end.

Definition closeClient (id : Z) (s : TCPServer) (w : kernel) : TCPServer * kernel :=
  match find id (clients_ s) with
  | Some c =>
      (MkServer (serverSock_ s) (running_ s) (erase id (clients_ s)) (nextClientId_ s),
       if bool_decide (0 <= socket c) then k_close (socket c) w else w)
  | None => (s, w)
  end.

(** [for (auto& p : clients_) if (p.second.socket >= 0) ::close(p.second.socket);] *)
Definition close_all (cs : list (Z * SocketContext)) (w : kernel) : kernel :=
  foldl (fun w p => if bool_decide (0 <= socket p.2) then k_close (socket p.2) w else w) w cs.

Definition stop (s : TCPServer) (w : kernel) : TCPServer * kernel :=
  if running_ s then
    let '(fd, w) := if bool_decide (0 <= serverSock_ s) then (-1, k_close (serverSock_ s) w)
                    else (serverSock_ s, w) in
    (MkServer fd false [] (nextClientId_ s), close_all (clients_ s) w)
  else (s, w).

(** The listening socket, if the server has one. *)
Definition listening_fds (s : TCPServer) : gset Z :=
  if bool_decide (0 <= serverSock_ s) then {[serverSock_ s]} else ∅.

(** The states a server object goes through, under any calls of its methods; the kernel returns descriptors not
    in use, and fewer than [2^31] connections are accepted, so that the counter does
    not overflow.  [stop] may run while another thread is in [accept], which then
    returns to a server that is stopped ([reach_late]).  [lost] are the listening sockets
    that were overwritten: [start] does not look at [serverSock_]. *)
Inductive server_reach (w0 : kernel) : gset Z -> TCPServer -> kernel -> Prop :=
| reach_new : server_reach w0 ∅ new_server w0
| reach_start lost so op bi li s w ok s' w' :
    server_reach w0 lost s w -> fresh_fd so w ->
    server_start so op bi li s w = (ok, s', w') -> server_reach w0 (lost ∪ listening_fds s) s' w'
| reach_accept lost a s w id s' w' :
    server_reach w0 lost s w -> fresh_fd a w -> nextClientId_ s < INT_MAX ->
    acceptClient a s w = (id, s', w') -> server_reach w0 lost s' w'
| reach_late lost a s w id s' w' :
    server_reach w0 lost s w -> fresh_fd a w -> nextClientId_ s < INT_MAX ->
    accepted a s w = (id, s', w') -> server_reach w0 lost s' w'
| reach_close lost id s w :
    server_reach w0 lost s w ->
    server_reach w0 lost (closeClient id s w).1 (closeClient id s w).2
| reach_stop lost s w :
    server_reach w0 lost s w -> server_reach w0 lost (stop s w).1 (stop s w).2.

(** The transfers to and from a client: those of [TCPClient], on the socket of the
    table.  [k] is the kernel's socket behind each descriptor. *)
Definition server_sendData (id : Z) (data : bytes) (s : TCPServer) (k : Z -> sock)
    : bool * (Z -> sock) :=
  match client_socket id s with
  | None => (false, k)
  | Some fd => let '(ok, sk) := sendData data (k fd) in (ok, <[fd := sk]> k)
  end.

Definition server_recvData (id : Z) (s : TCPServer) (k : Z -> sock) : bytes * (Z -> sock) :=
  match client_socket id s with
  | None => ([], k)
  | Some fd => let '(data, sk) := recvData (k fd) in (data, <[fd := sk]> k)
  end.

Definition server_sendMessage (id : Z) (message : string) (s : TCPServer) (k : Z -> sock)
    : bool * (Z -> sock) :=
  server_sendData id (bytes_of_string message) s k.

Definition server_recvMessage (id : Z) (s : TCPServer) (k : Z -> sock) : string * (Z -> sock) :=
  let '(data, k) := server_recvData id s k in
  (if bool_decide (data = []) then EmptyString else string_of_bytes data, k).

(** ** Invariants *)

(** The descriptors a client and a server hold. *)
Definition client_fds (c : TCPClient) : gset Z := if connected_ c then {[sock_ c]} else ∅.

Definition sockets (s : TCPServer) : list Z := socket <$> (clients_ s).*2.

Definition server_fds (s : TCPServer) : gset Z := listening_fds s ∪ list_to_set (sockets s).

(** What the process has open beside the server. *)
Definition beside (w0 : kernel) (lost : gset Z) : kernel := Kernel (open_fds w0 ∪ lost) (bad_close w0).

Definition client_inv (w0 : kernel) (c : TCPClient) (w : kernel) : Prop :=
  (connected_ c = true -> 0 <= sock_ c /\ sock_ c ∉ open_fds w0) /\
  open_fds w = open_fds w0 ∪ client_fds c /\ bad_close w = bad_close w0.

Record server_inv (w0 : kernel) (s : TCPServer) (w : kernel) : Prop := {
  inv_sorted : sorted (clients_ s);
  inv_ids : Forall (fun id => 1 <= id < nextClientId_ s) (keys (clients_ s));
  inv_next : 1 <= nextClientId_ s <= INT_MAX;
  inv_ctx : Forall (fun p => valid p.2 = true /\ 0 <= socket p.2) (clients_ s);
  inv_distinct : NoDup (sockets s);
  inv_server : serverSock_ s ∉ sockets s;
  inv_base : open_fds w0 ## server_fds s;
  inv_open : open_fds w = open_fds w0 ∪ server_fds s;
  inv_close : bad_close w = bad_close w0;
  inv_stopped : running_ s = false -> serverSock_ s < 0
}.

Lemma k_close_open fd w :
  fd ∈ open_fds w -> k_close fd w = Kernel (open_fds w ∖ {[fd]}) (bad_close w).
Proof. intros. unfold k_close. by rewrite bool_decide_eq_false_2, orb_false_r by naive_solver. Qed.

(** Opening a fresh descriptor and closing it again changes nothing. *)
Lemma k_open_close fd w : 0 <= fd -> fd ∉ open_fds w -> k_close fd (k_open fd w) = w.
Proof.
  intros Hp Hf. unfold k_open. rewrite bool_decide_eq_false_2 by lia.
  rewrite k_close_open by set_solver. destruct w as [o b]. cbn [open_fds bad_close] in *.
  f_equal. set_solver.
Qed.

Lemma k_open_fresh fd w : 0 <= fd -> k_open fd w = Kernel ({[fd]} ∪ open_fds w) (bad_close w).
Proof. intros. unfold k_open. by rewrite bool_decide_eq_false_2 by lia. Qed.

Lemma client_close_inv w0 c w :
  client_inv w0 c w ->
  client_inv w0 (client_close c w).1 (client_close c w).2 /\
  connected_ (client_close c w).1 = false /\ open_fds (client_close c w).2 = open_fds w0.
Proof.
  intros (Hs & Ho & Hb). unfold client_close, client_fds in *.
  destruct (connected_ c) eqn:Hc; simpl.
  - destruct (Hs eq_refl) as [Hp Hn]. rewrite bool_decide_eq_true_2 by done.
    rewrite k_close_open by (rewrite Ho; set_solver). simpl.
    assert (open_fds w ∖ {[sock_ c]} = open_fds w0) as E by (rewrite Ho; set_solver).
    split_and!; [|done|done]. split_and!; [done| |done]. unfold client_fds; simpl. set_solver.
  - split_and!; [|done|set_solver]. unfold client_inv, client_fds. rewrite Hc. split_and!; done.
Qed.

Lemma connect_inv w0 so pt cr c w :
  client_inv w0 c w -> fresh_fd so (client_close c w).2 ->
  let '(_, c', w') := connect so pt cr c w in client_inv w0 c' w'.
Proof.
  intros Hi Hf. destruct (client_close_inv _ _ _ Hi) as (Hi' & Hc' & Ho').
  unfold connect.
  assert ((if connected_ c then client_close c w else (c, w)) = client_close c w) as ->.
  { unfold client_close. by destruct (connected_ c). }
  destruct (client_close c w) as [c1 w1]. cbn [fst snd] in *. cbn [sock_ connected_].
  destruct Hi' as (_ & Ho1 & Hb1). rewrite Hc'. destruct (decide (so < 0)).
  - rewrite bool_decide_eq_true_2 by done. unfold k_open. rewrite bool_decide_eq_true_2 by done.
    unfold client_inv, client_fds. simpl. split_and!; [done|set_solver|done].
  - destruct Hf as [|Hf]; [done|]. rewrite bool_decide_eq_false_2 by done.
    rewrite k_open_close, k_open_fresh by (done || lia).
    unfold client_inv, client_fds. repeat case_bool_decide; simpl; (split_and!; [|set_solver|done]);
      try done. intros _. split; [lia|]. by rewrite <- Ho'.
Qed.


(** ** The server's operations preserve its invariant *)

Lemma new_server_inv w0 : server_inv w0 new_server w0.
Proof.
  split; simpl; try done; try constructor; unfold server_fds, sockets; simpl; set_solver || lia.
Qed.

Lemma client_fd_open w0 s w id c :
  server_inv w0 s w -> (id, c) ∈ clients_ s -> socket c ∈ open_fds w /\ 0 <= socket c.
Proof.
  intros Hi Hin. split.
  - rewrite (inv_open _ _ _ Hi). unfold server_fds, sockets.
    apply elem_of_union. right. apply elem_of_union. right. apply elem_of_list_to_set.
    apply list_elem_of_fmap. exists c. split; [done|]. apply list_elem_of_fmap. by exists (id, c).
  - pose proof (inv_ctx _ _ _ Hi) as Hc. rewrite Forall_forall in Hc. by apply (Hc (id, c)).
Qed.

Lemma negative_free (fd : Z) cs :
  Forall (fun p : Z * SocketContext => valid p.2 = true /\ 0 <= socket p.2) cs -> fd < 0 -> fd ∉ socket <$> cs.*2.
Proof.
  rewrite Forall_forall. intros Hp Hfd (c & E & Hin)%list_elem_of_fmap.
  apply list_elem_of_fmap in Hin as (p & -> & Hin). destruct (Hp _ Hin). lia.
Qed.

(** A server that does not listen: any negative descriptor will do. *)
Lemma deaf_inv w0 s w fd :
  server_inv w0 s w -> serverSock_ s < 0 -> fd < 0 ->
  server_inv w0 (MkServer fd (running_ s) (clients_ s) (nextClientId_ s)) w.
Proof.
  intros [] Hs Hfd. unfold server_fds, listening_fds, sockets in *. rewrite bool_decide_eq_false_2 in * by lia.
  split; simpl; try done; unfold server_fds, listening_fds, sockets; simpl;
    rewrite ?bool_decide_eq_false_2 by lia; try done.
  by apply negative_free.
Qed.

(** The listening socket is forgotten. *)
Lemma forget_inv w0 s w :
  server_inv w0 s w ->
  server_inv (Kernel (open_fds w0 ∪ listening_fds s) (bad_close w0))
    (MkServer (-1) (running_ s) (clients_ s) (nextClientId_ s)) w.
Proof.
  intros [].
  assert (listening_fds s ## list_to_set (sockets s)) as Hd.
  { unfold listening_fds. case_bool_decide; [|set_solver]. clear -inv_server0. set_solver. }
  split; simpl; try done; unfold server_fds, listening_fds in *; unfold sockets in *; simpl in *.
  - by apply negative_free.
  - clear -inv_base0 Hd. set_solver.
  - rewrite inv_open0. clear. set_solver.
Qed.

Lemma start_inv w0 s w so op bi li :
  server_inv w0 s w -> fresh_fd so w ->
  let '(_, s', w') := server_start so op bi li s w in
  server_inv (Kernel (open_fds w0 ∪ listening_fds s) (bad_close w0)) s' w'.
Proof.
  intros Hi%forget_inv Hf. unfold server_start.
  pose proof (fun fd => deaf_inv _ _ _ fd Hi ltac:(simpl; lia)) as Hdeaf. cbn [serverSock_ running_ clients_ nextClientId_] in Hdeaf.
  destruct (decide (so < 0)) as [Hn|Hp].
  - rewrite bool_decide_eq_true_2 by done. unfold k_open. rewrite bool_decide_eq_true_2 by done. by apply Hdeaf.
  - rewrite bool_decide_eq_false_2 by done. destruct Hf as [|Hf]; [lia|].
    rewrite k_open_close by (done || lia).
    repeat (case_bool_decide; [apply Hdeaf; lia|]).
    rewrite k_open_fresh by lia. destruct Hi. unfold server_fds, sockets in *. cbn [serverSock_ running_ clients_ nextClientId_] in *.
    assert (listening_fds (MkServer (-1) (running_ s) (clients_ s) (nextClientId_ s)) = ∅) as E by done. rewrite E in *.
    generalize dependent (listening_fds s). intros L inv_base0 inv_open0 inv_close0 _.
    split; simpl; try done; unfold server_fds, sockets, listening_fds; simpl;
      rewrite ?bool_decide_eq_true_2 by lia.
    + rewrite inv_open0 in Hf. clear -Hf. set_solver.
    + clear -Hf inv_base0 inv_open0. set_solver.
    + rewrite inv_open0. simpl. clear. set_solver.
Qed.

Lemma accepted_inv w0 s w a :
  server_inv w0 s w -> fresh_fd a w -> nextClientId_ s < INT_MAX ->
  let '(_, s', w') := accepted a s w in server_inv w0 s' w'.
Proof.
  intros Hi Hf Hn. unfold accepted.
  destruct (decide (a < 0)) as [Hna|Hp].
  - rewrite bool_decide_eq_true_2 by done. unfold k_open. by rewrite bool_decide_eq_true_2.
  - rewrite bool_decide_eq_false_2 by done. destruct Hf as [|Hf]; [lia|].
    rewrite k_open_fresh by lia. destruct Hi.
    assert (nextClientId_ s ∉ keys (clients_ s)) as Hfresh.
    { intros Hk. rewrite Forall_forall in inv_ids0. specialize (inv_ids0 _ Hk). lia. }
    pose proof (set_at_Permutation _ (Ctx a true) _ Hfresh) as HP.
    assert (a ∉ server_fds s) as Ha by (clear -Hf inv_open0; set_solver).
    rewrite i32_small by (unfold in_int, INT_MIN, INT_MAX in *; lia).
    unfold server_fds, sockets in *.
    assert (Hfds : listening_fds s ∪ list_to_set (socket <$> (set_at (nextClientId_ s) (Ctx a true) (clients_ s)).*2)
            =@{gset Z} {[a]} ∪ (listening_fds s ∪ list_to_set (socket <$> (clients_ s).*2))).
    { rewrite HP. simpl. clear. set_solver. }
    split; simpl; unfold server_fds, sockets; simpl; try assumption.
    + by apply set_at_sorted.
    + apply Forall_forall. intros i [->|Hi]%keys_set_at; [lia|].
      rewrite Forall_forall in inv_ids0. specialize (inv_ids0 _ Hi). lia.
    + lia.
    + rewrite HP. constructor; [|done]. split; [done|simpl; lia].
    + rewrite HP. simpl. constructor; [|done]. clear -Ha. set_solver.
    + rewrite HP. simpl. rewrite not_elem_of_cons. split; [|done]. intros E. apply Ha. unfold listening_fds.
      rewrite bool_decide_eq_true_2 by lia. clear -E. set_solver.
    + change (open_fds w0 ## listening_fds s ∪ list_to_set (socket <$> (set_at (nextClientId_ s) (Ctx a true) (clients_ s)).*2)).
      rewrite Hfds. clear -Ha Hf inv_base0 inv_open0. set_solver.
    + change ({[a]} ∪ open_fds w = open_fds w0 ∪ (listening_fds s ∪ list_to_set (socket <$> (set_at (nextClientId_ s) (Ctx a true) (clients_ s)).*2))).
      rewrite Hfds, inv_open0. clear. set_solver.
Qed.

Lemma accept_inv w0 s w a :
  server_inv w0 s w -> fresh_fd a w -> nextClientId_ s < INT_MAX ->
  let '(_, s', w') := acceptClient a s w in server_inv w0 s' w'.
Proof. intros Hi Hf Hn. unfold acceptClient. destruct (_ || _); [done|]. by apply accepted_inv. Qed.

Lemma closeClient_inv w0 id s w :
  server_inv w0 s w -> server_inv w0 (closeClient id s w).1 (closeClient id s w).2.
Proof.
  intros Hi. unfold closeClient. destruct (find id (clients_ s)) as [c|] eqn:Hc; [|done].
  destruct (client_fd_open w0 s w id c Hi (find_Some_in _ _ _ Hc)) as [Ho Hp]. simpl.
  rewrite bool_decide_eq_true_2, k_close_open by done. destruct Hi.
  pose proof (erase_Permutation _ _ _ Hc) as HP.
  assert (sockets s ≡ₚ socket c :: (socket <$> (erase id (clients_ s)).*2)) as HS.
  { unfold sockets. by rewrite HP at 1. }
  rewrite HS in inv_distinct0, inv_server0. apply NoDup_cons in inv_distinct0 as [Hd1 Hd2].
  assert (server_fds s = {[socket c]} ∪ (listening_fds s ∪
              list_to_set (socket <$> (erase id (clients_ s)).*2))) as HF.
  { unfold server_fds. rewrite HS. simpl. clear. set_solver. }
  unfold listening_fds in HF.
  rewrite HF in *. apply not_elem_of_cons in inv_server0 as [Hn1 Hn2].
  split; simpl; unfold server_fds, listening_fds; simpl; try assumption.
  - by apply erase_sorted.
  - rewrite Forall_forall in *. intros i Hi%keys_erase_subseteq. auto.
  - rewrite HP in inv_ctx0. by inversion inv_ctx0.
  - clear -inv_base0. set_solver.
  - assert (socket c ∉@{gset Z} (if bool_decide (0 <= serverSock_ s) then {[serverSock_ s]} else ∅)
      ∪ list_to_set (socket <$> (erase id (clients_ s)).*2)) as Hn.
    { case_bool_decide; clear -Hn1 Hd1; set_solver. }
    rewrite inv_open0. clear -Hn inv_base0. set_solver.
Qed.

(** Closing distinct open descriptors one after the other closes exactly these. *)
Lemma close_all_open cs w :
  Forall (fun p => valid p.2 = true /\ 0 <= socket p.2) cs -> NoDup (socket <$> cs.*2) ->
  list_to_set (socket <$> cs.*2) ⊆ open_fds w ->
  close_all cs w = Kernel (open_fds w ∖ list_to_set (socket <$> cs.*2)) (bad_close w).
Proof.
  revert w. induction cs as [|[i c] cs IH]; intros w Hp Hd Ho; unfold close_all in *; simpl in *.
  - destruct w. simpl. f_equal. clear. set_solver.
  - inversion Hp as [|? ? [_ Hc] Hp']; subst. simpl in Hc. apply NoDup_cons in Hd as [Hn Hd].
    rewrite bool_decide_eq_true_2 by done.
    rewrite k_close_open by (clear -Ho; set_solver).
    rewrite IH; simpl; [|done|done|clear -Ho Hn; set_solver].
    f_equal. clear. set_solver.
Qed.

Lemma stop_releases w0 s w : server_inv w0 s w -> running_ s = true -> (stop s w).2 = w0.
Proof.
  intros [] Hr. assert (w = Kernel (open_fds w0 ∪ server_fds s) (bad_close w0)) as ->.
  { destruct w. simpl in *. by subst. }
  unfold stop, server_fds, listening_fds in *. rewrite Hr.
  destruct w0 as [o b]. unfold sockets in *. simpl in *. case_bool_decide.
  - rewrite k_close_open by (simpl; clear; set_solver). simpl.
    rewrite close_all_open; simpl; [f_equal|done|done|].
    + clear -inv_base0. set_solver.
    + clear -inv_server0. set_solver.
  - simpl. rewrite close_all_open; simpl; [f_equal|done|done|clear; set_solver].
    clear -inv_base0. set_solver.
Qed.

Lemma stop_running s w : running_ s = true -> exists fd, fd < 0 /\ (stop s w).1 = MkServer fd false [] (nextClientId_ s).
Proof. intros Hr. unfold stop. rewrite Hr. case_bool_decide; eexists; (split; [|done]); lia. Qed.

Lemma stop_inv w0 s w : server_inv w0 s w -> server_inv w0 (stop s w).1 (stop s w).2.
Proof.
  intros Hi. destruct (running_ s) eqn:Hr; [|unfold stop; by rewrite Hr].
  rewrite (stop_releases _ _ _ Hi Hr). destruct (stop_running s w Hr) as (fd & Hfd & ->).
  destruct Hi. unfold server_fds, listening_fds, sockets in *.
  split; simpl; unfold server_fds, listening_fds, sockets; simpl; try rewrite bool_decide_eq_false_2 by lia;
    try done; try (by constructor); clear; set_solver.
Qed.

Lemma server_reach_inv w0 lost s w : server_reach w0 lost s w -> server_inv (beside w0 lost) s w.
Proof.
  induction 1 as [|lost so op bi li s w ok s' w' _ IH Hf E|lost a s w id s' w' _ IH Hf Hn E|lost a s w id s' w' _ IH Hf Hn E
                 |lost id s w _ IH|lost s w _ IH].
  - assert (beside w0 ∅ = w0) as ->; [|apply new_server_inv]. unfold beside. destruct w0. simpl. f_equal. set_solver.
  - pose proof (start_inv _ s w so op bi li IH Hf) as H. rewrite E in H. unfold beside in *. simpl in H.
    by rewrite <- (assoc_L (∪)) in H.
  - pose proof (accept_inv _ s w a IH Hf Hn) as H. by rewrite E in H.
  - pose proof (accepted_inv _ s w a IH Hf Hn) as H. by rewrite E in H.
  - by apply closeClient_inv.
  - by apply stop_inv.
Qed.

(** ** Properties *)

(** The client object after a list of calls. *)
Definition client_after (os : list client_op) (w0 : kernel) : TCPClient * kernel :=
  foldl (fun st o => client_step o st) (new_client, w0) os.

Lemma client_run_inv w0 os st :
  client_inv w0 st.1 st.2 -> client_run os st ->
  let st' := foldl (fun st o => client_step o st) st os in client_inv w0 st'.1 st'.2.
Proof.
  revert st. induction os as [|o os IH]; intros [c w] Hi Hr; [done|].
  destruct Hr as [Hf Hr]. apply IH; [|done]. destruct o as [so pt cr|]; simpl in *.
  - pose proof (connect_inv w0 so pt cr c w Hi Hf) as H.
    by destruct (connect so pt cr c w) as [[? ?] ?].
  - by apply client_close_inv.
Qed.

(** Whatever [socket], [inet_pton] and [connect] answer and in whatever order
    [connect] and [close] are called on a [TCPClient], it holds at most one
    descriptor, and exactly one when it is connected; no descriptor is closed
    twice; and a final [close] (the destructor) leaves the process with exactly the
    descriptors it had before. *)
Theorem client_no_leak os w0 :
  client_run os (new_client, w0) ->
  let '(c, w) := client_after os w0 in
  open_fds w = open_fds w0 ∪ client_fds c /\ bad_close w = bad_close w0 /\
  (connected_ c = true -> 0 <= sock_ c /\ sock_ c ∉ open_fds w0) /\
  let '(c', w') := client_close c w in w' = w0 /\ connected_ c' = false.
Proof.
  intros Hr. assert (client_inv w0 new_client w0) as H0.
  { split_and!; [done|unfold client_fds; simpl; set_solver|done]. }
  pose proof (client_run_inv w0 os (new_client, w0) H0 Hr) as Hi. unfold client_after.
  destruct (foldl _ _ _) as [c w]. cbn [fst snd] in Hi.
  destruct (client_close_inv w0 c w Hi) as ((_ & _ & Hb) & Hc & Ho). destruct Hi as (Hs & Hw & Hb').
  split_and!; [done..|]. destruct (client_close c w) as [c' [o b]]. simpl in *. subst.
  by destruct w0.
Qed.

(** A client that fails to connect, connects, connects again elsewhere. *)
Lemma client_no_leak_witness :
  let w0 := Kernel {[0; 1; 2]} false in
  let os := [CConnect 3 1 (-1); CConnect 3 1 0; CConnect 4 1 0] in
  open_fds (client_after os w0).2 = {[0; 1; 2; 4]} /\
  (client_close (client_after os w0).1 (client_after os w0).2).2 = w0.
Proof.
  intros w0 os. split; [by vm_compute|].
  assert (client_run os (new_client, w0)) as Hr.
  { unfold fresh_fd. simpl. split_and!; right + exact I; apply (bool_decide_unpack _); by vm_compute. }
  pose proof (client_no_leak os w0 Hr) as H. destruct (client_after os w0) as [c w].
  destruct H as (_ & _ & _ & H). simpl. destruct (client_close c w). apply H.
Defined.

(** A server that listens on descriptor 3, accepts two clients and closes one. *)
Definition w_start : kernel := Kernel {[0; 1; 2]} false.
Definition s_two : TCPServer :=
  MkServer 3 true [(1, Ctx 4 true); (2, Ctx 5 true)] 3.
Definition w_two : kernel := Kernel {[0; 1; 2; 3; 4; 5]} false.

Lemma two_clients : server_reach w_start ∅ s_two w_two.
Proof.
  eapply (reach_accept w_start ∅ 5 (MkServer 3 true [(1, Ctx 4 true)] 2) (Kernel {[0; 1; 2; 3; 4]} false) 2);
    [|right; apply (bool_decide_unpack _); by vm_compute|done|by vm_compute].
  eapply (reach_accept w_start ∅ 4 (MkServer 3 true [] 1) (Kernel {[0; 1; 2; 3]} false) 1);
    [|right; apply (bool_decide_unpack _); by vm_compute|done|by vm_compute].
  change ∅ with ((∅ : gset Z) ∪ listening_fds new_server).
  eapply (reach_start w_start ∅ 3 0 0 0 new_server w_start true);
    [apply reach_new|right; apply (bool_decide_unpack _); by vm_compute|by vm_compute].
Qed.

Lemma client_socket_entry s i fd :
  client_socket i s = Some fd -> exists c, (i, c) ∈ clients_ s /\ socket c = fd.
Proof.
  unfold client_socket. destruct (find i (clients_ s)) as [c|] eqn:Hf; [|done].
  destruct (valid c); [|done]. intros E. exists c. split; [by apply find_Some_in|congruence].
Qed.

(** No two clients share a socket. *)
Lemma client_socket_inj w0 s w i j fd :
  server_inv w0 s w -> client_socket i s = Some fd -> client_socket j s = Some fd -> i = j.
Proof.
  intros Hi (c & Hc1 & <-)%client_socket_entry (c' & Hc2 & E)%client_socket_entry.
  pose proof (inv_distinct _ _ _ Hi) as Hd. unfold sockets in Hd. rewrite <- list_fmap_compose in Hd.
  apply list_elem_of_lookup in Hc1 as [n1 E1]. apply list_elem_of_lookup in Hc2 as [n2 E2].
  assert (n1 = n2) as ->; [|congruence].
  eapply (NoDup_lookup _ n1 n2 (socket c) Hd); rewrite list_lookup_fmap.
  - by rewrite E1.
  - rewrite E2. simpl. by rewrite E.
Qed.

(** C26. Over every sequence of [start], [acceptClient], [closeClient] and [stop], with [stop] also
    while another thread is in [accept], and fewer than [2^31] clients, the server has
    open exactly its listening socket and the sockets of the clients in its table, beside what the
    process had open before and the listening sockets that a [start] has overwritten
    (there are none unless [start] is called on a server that listens; the programs call it
    once); it never closes a descriptor that is not open; no two clients share a socket; and [stop] on a
    running server releases everything but what was overwritten.  A stopped server does not
    listen, but it may still hold clients, accepted by a call that [stop] has found in
    [accept]: these are released by [closeClient] only, for another [stop], the
    destructor's too, does nothing. *)
Theorem server_no_leak w0 lost s w :
  server_reach w0 lost s w ->
  open_fds w = open_fds w0 ∪ lost ∪ server_fds s /\ open_fds w0 ∪ lost ## server_fds s /\
  bad_close w = bad_close w0 /\
  (forall i j fd, client_socket i s = Some fd -> client_socket j s = Some fd -> i = j) /\
  (forall i fd, client_socket i s = Some fd -> fd ∈ open_fds w /\ fd <> serverSock_ s) /\
  (if running_ s
   then (stop s w).2 = beside w0 lost /\ clients_ (stop s w).1 = [] /\ running_ (stop s w).1 = false
   else serverSock_ s < 0 /\ stop s w = (s, w)).
Proof.
  intros Hi%server_reach_inv.
  split_and!; try apply Hi.
  - intros i j fd. by eapply client_socket_inj.
  - intros i fd (c & Hin & <-)%client_socket_entry. split; [by eapply client_fd_open|].
    intros E. apply (inv_server _ _ _ Hi). rewrite <- E. unfold sockets.
    apply list_elem_of_fmap. exists c. split; [done|]. apply list_elem_of_fmap. by exists (i, c).
  - destruct (running_ s) eqn:Hr.
    + destruct (stop_running s w Hr) as (fd & _ & ->). split_and!; [by apply stop_releases|done..].
    + split; [by apply (inv_stopped _ _ _ Hi)|]. unfold stop. by rewrite Hr.
Qed.

(** The server of two clients, and the same one after a second [start], whose [stop]
    leaves the first listening socket open. *)
Definition s_again : TCPServer := MkServer 6 true [(1, Ctx 4 true); (2, Ctx 5 true)] 3.
Definition w_again : kernel := Kernel {[0; 1; 2; 3; 4; 5; 6]} false.

Lemma started_again : server_reach w_start {[3]} s_again w_again.
Proof.
  assert ({[3]} = ∅ ∪ listening_fds s_two) as -> by by vm_compute.
  eapply (reach_start w_start ∅ 6 0 0 0 s_two w_two true);
    [apply two_clients|right; apply (bool_decide_unpack _); by vm_compute|by vm_compute].
Qed.

Lemma server_no_leak_witness :
  (stop s_two w_two).2 = w_start /\ client_socket 2 s_two = Some 5 /\ 5 ∈ open_fds w_two /\
  open_fds (stop s_again w_again).2 = {[0; 1; 2; 3]}.
Proof.
  destruct (server_no_leak w_start ∅ s_two w_two two_clients) as (_ & _ & _ & _ & Ho & Hs & _).
  destruct (server_no_leak w_start {[3]} s_again w_again started_again) as (_ & _ & _ & _ & _ & Hs' & _).
  split_and!; [rewrite Hs; by vm_compute|done|by apply (Ho 2 5)|rewrite Hs'; by vm_compute].
Defined.

(** [acceptClient] returns a real identifier exactly when the server runs and
    [accept] succeeds (the accept loop's test against [-1] is the right one); the
    identifier was never in use, it leads to the new socket, every other client
    keeps its own, and closing the new client gives back the old table. *)
Theorem accept_new_client w0 lost s w a :
  server_reach w0 lost s w -> fresh_fd a w -> nextClientId_ s < INT_MAX ->
  let '(id, s', w') := acceptClient a s w in
  if bool_decide (id = -1) then
    s' = s /\ w' = w /\ (running_ s = false \/ serverSock_ s < 0 \/ a < 0)
  else
    running_ s = true /\ 0 <= a /\ client_socket id s = None /\ client_socket id s' = Some a /\
    (forall j, j <> id -> client_socket j s' = client_socket j s) /\
    (closeClient id s' w').2 = w /\
    (forall j, client_socket j (closeClient id s' w').1 = client_socket j s).
Proof.
  intros Hi%server_reach_inv Hf Hn. pose proof (accept_inv _ s w a Hi Hf Hn) as Hi'.
  pose proof (inv_next _ _ _ Hi) as Hnext. unfold acceptClient, accepted in *.
  destruct (negb _ || _) eqn:E.
  { rewrite bool_decide_eq_true_2 by done. split_and!; [done..|].
    apply orb_true_iff in E as [E%negb_true_iff|E%bool_decide_eq_true]; auto. }
  apply orb_false_elim in E as [Hr%negb_false_iff Hs]. unfold k_open in *.
  destruct (decide (a < 0)) as [Ha|Ha].
  { rewrite (bool_decide_eq_true_2 (a < 0)) by done. rewrite bool_decide_eq_true_2 by done. auto. }
  rewrite (bool_decide_eq_false_2 (a < 0)) in * by done.
  rewrite bool_decide_eq_false_2 by lia. destruct Hf as [|Hf]; [lia|].
  assert (find (nextClientId_ s) (clients_ s) = None) as Hnone.
  { apply eq_None_not_Some. rewrite find_is_Some. intros Hk. pose proof (inv_ids _ _ _ Hi) as H.
    rewrite Forall_forall in H. specialize (H _ Hk). lia. }
  unfold closeClient, client_socket. simpl. rewrite find_set_at_eq, Hnone. simpl.
  rewrite bool_decide_eq_true_2 by lia. split_and!; try done; try lia.
  - intros j Hj. by rewrite find_set_at_ne.
  - pose proof (k_open_close a w ltac:(lia) Hf) as Hk. rewrite k_open_fresh in Hk by lia. exact Hk.
  - intros j. destruct (decide (j = nextClientId_ s)) as [->|Hj].
    + rewrite find_erase_eq, Hnone; [done|]. apply set_at_sorted, Hi.
    + by rewrite find_erase_ne, find_set_at_ne.
Qed.

Lemma accept_new_client_witness :
  let '(id, s', w') := acceptClient 9 s_two w_two in
  id = 3 /\ client_socket 3 s' = Some 9 /\ (closeClient 3 s' w').2 = w_two.
Proof.
  assert (fresh_fd 9 w_two) as Hf.
  { right. apply (bool_decide_unpack _). by vm_compute. }
  pose proof (accept_new_client w_start ∅ s_two w_two 9 two_clients Hf ltac:(done)) as H.
  cbn [acceptClient accepted s_two running_ serverSock_ nextClientId_ negb orb] in *.
  destruct H as (_ & _ & _ & H1 & _ & H2 & _). split_and!; [done|exact H1|exact H2].
Defined.

(** The clients' streams are independent: sending to one client appends to its
    stream a part of the frame, the whole of it when the call reports success, and
    leaves the stream of every other client, and the table, as they are; to an
    unknown client nothing is sent, and nothing is received from it. *)
Theorem server_streams_independent w0 lost s w k i data :
  server_reach w0 lost s w ->
  let '(ok, k') := server_sendData i data s k in
  match client_socket i s with
  | None => ok = false /\ k' = k /\ server_recvData i s k = ([], k)
  | Some fd =>
      (exists sent, wire (k' fd) = wire (k fd) ++ sent /\ sent `prefix_of` frame data /\
         (ok = true -> sent = frame data)) /\
      forall j fd', j <> i -> client_socket j s = Some fd' -> k' fd' = k fd'
  end.
Proof.
  intros Hi%server_reach_inv. unfold server_sendData, server_recvData.
  destruct (client_socket i s) as [fd|] eqn:Hfd; [|done].
  destruct (sendData data (k fd)) as [ok sk] eqn:E. split.
  - rewrite fn_lookup_insert. by apply sendData_wire.
  - intros j fd' Hne Hj. apply fn_lookup_insert_ne. intros <-. apply Hne.
    by eapply client_socket_inj.
Qed.

Lemma server_streams_independent_witness :
  let k (_ : Z) := Sock [] [4] [2; 2] in
  let '(ok, k') := server_sendData 2 [x61; x62; x63] s_two k in
  ok = true /\ wire (k' 5) = frame [x61; x62; x63] /\ k' 4 = k 4.
Proof.
  intros k. pose proof (server_streams_independent w_start ∅ s_two w_two k 2 [x61; x62; x63] two_clients) as H.
  change (client_socket 2 s_two) with (Some 5) in H.
  destruct (server_sendData 2 _ s_two k) as [ok k'] eqn:E.
  destruct H as [(sent & -> & _ & Hs) Hj].
  assert (ok = true) as -> by (by vm_compute in E; simplify_eq).
  split_and!; [done|by rewrite (Hs eq_refl)|by apply (Hj 1 4)].
Defined.
