(* ===== verification/Proc.v ===== *)
(** * Programs with shared state, sockets and threads

    The language in which the node handlers and the client are written here.  A
    value of [io S A] is a program over a shared state [S]: its nodes are the
    accesses to the members of the object, the mutex operations, the calls on the
    [TCPServer] for the client being served and the calls on a local [TCPClient].

    Two semantics are given.  [run] executes one program alone against a script of
    the answers the network gives, and yields the trace of its calls: it is
    executable and serves the functional properties.  [pool_step] interleaves any
    number of threads one access at a time, with arbitrary answers: it serves the
    invariants, through the rule [pool_sound]. *)
From S2P Require Import Prelude IoStream.

#[local] Open Scope Z_scope.

(** ** Programs *)

(** [clientsMutex_] is the one of the node's [TCPServer]; the methods of the server take it
    while the node may hold one of its own. *)
Inductive mutex := storageMutex_ | storeMutex_ | chainMutex_ | clientsMutex_.

#[export] Instance mutex_eq_dec : EqDecision mutex.
Proof. solve_decision. Defined.

(** [Atomic f k] is one access to the members: the state becomes [f s], and the
    program goes on with [k s], which sees the state before the access. *)
Inductive io (S A : Type) : Type :=
| Ret (a : A)
| Atomic (f : S -> S) (k : S -> io S A)
| Acquire (m : mutex) (k : io S A)
| Release (m : mutex) (k : io S A)
| ServerRecv (k : bytes -> io S A)
| ServerSend (d : bytes) (k : io S A)
| ServerStop (k : io S A)
| ServerClose (k : io S A)
| Connect (ip : string) (port : Z) (k : bool -> io S A)
| Send (d : bytes) (k : bool -> io S A)
| Recv (k : bytes -> io S A)
| Close (k : io S A).

Arguments Ret {S A}.
Arguments Atomic {S A}.
Arguments Acquire {S A}.
Arguments Release {S A}.
Arguments ServerRecv {S A}.
Arguments ServerSend {S A}.
Arguments ServerStop {S A}.
Arguments ServerClose {S A}.
Arguments Connect {S A}.
Arguments Send {S A}.
Arguments Recv {S A}.
Arguments Close {S A}.

Fixpoint io_bind {S A B} (f : A -> io S B) (p : io S A) : io S B :=
  match p with
  | Ret a => f a
  | Atomic g k => Atomic g (fun s => io_bind f (k s))
  | Acquire m k => Acquire m (io_bind f k)
  | Release m k => Release m (io_bind f k)
  | ServerRecv k => ServerRecv (fun d => io_bind f (k d))
  | ServerSend d k => ServerSend d (io_bind f k)
  | ServerStop k => ServerStop (io_bind f k)
  | ServerClose k => ServerClose (io_bind f k)
  | Connect ip port k => Connect ip port (fun b => io_bind f (k b))
  | Send d k => Send d (fun b => io_bind f (k b))
  | Recv k => Recv (fun d => io_bind f (k d))
  | Close k => Close (io_bind f k)
  end.

#[export] Instance io_ret S : MRet (io S) := fun A a => Ret a.
#[export] Instance io_mbind S : MBind (io S) := fun A B f p => io_bind f p.

(** The single calls.  [Connect], [Send], [Recv] and [Close] are the methods of [TCPClient] of
    these names, whole; their messages are shorter than 4 GB, beyond which a frame is cut
    ([Frames.v]).  A [Send] that returns [false] is one that the process survives: the code
    calls [::send] without [MSG_NOSIGNAL] and ignores no signal, so a peer that has closed the connection
    can also end the process with [SIGPIPE], after which its threads take no step. *)
Definition reads {S A} (f : S -> A) : io S A := Atomic (fun s => s) (fun s => Ret (f s)).
Definition modify {S} (f : S -> S) : io S unit := Atomic f (fun _ => Ret tt).
Definition acquire {S} m : io S unit := Acquire m (Ret tt).
Definition release {S} m : io S unit := Release m (Ret tt).
(** [std::lock_guard] around a block. *)
Definition with_lock {S A} (m : mutex) (p : io S A) : io S A :=
  acquire m;; a ← p; release m;; mret a.

(** The methods of [TCPServer] on the client being served: [recvData] looks the client up under
    [clientsMutex_] and receives without it; [sendData], [closeClient] and [stop] hold
    it throughout, [sendData] while it is blocked in [::send].  What [sendData] returns the
    nodes do not look at. *)
Definition server_recvData {S} : io S bytes := with_lock clientsMutex_ (mret tt);; ServerRecv (fun d => Ret d).
Definition server_sendData {S} (d : bytes) : io S unit := with_lock clientsMutex_ (ServerSend d (Ret tt)).
Definition server_recvMessage {S} : io S string :=
  with_lock clientsMutex_ (mret tt);; ServerRecv (fun d => Ret (string_of_bytes d)).
Definition server_sendMessage {S} (m : string) : io S unit := server_sendData (bytes_of_string m).
Definition server_stop {S} : io S unit := with_lock clientsMutex_ (ServerStop (Ret tt)).
Definition server_closeClient {S} : io S unit := with_lock clientsMutex_ (ServerClose (Ret tt)).

Definition client_connect {S} ip port : io S bool := Connect ip port (fun b => Ret b).
Definition client_sendData {S} (d : bytes) : io S bool := Send d (fun b => Ret b).
Definition client_sendMessage {S} (m : string) : io S bool :=
  Send (bytes_of_string m) (fun b => Ret b).
Definition client_recvData {S} : io S bytes := Recv (fun d => Ret d).
Definition client_recvMessage {S} : io S string := Recv (fun d => Ret (string_of_bytes d)).
Definition client_closes {S} : io S unit := Close (Ret tt).

(** ** Where a connection goes *)

(** A part of an IPv4 address in text: a decimal number up to 255, without leading zeros. *)
Definition octet (s : string) : bool :=
  match s with
  | String a s' =>
      let '(ds, r) := span is_digit s in
      bool_decide (r = EmptyString) && (bool_decide (s' = EmptyString) || negb (bool_decide (a = "0"%char))) &&
      (String.length s <=? 3)%nat && (digits_val 0 s <=? 255)
  | EmptyString => false
  end.

(** [inet_pton] with [AF_INET] accepts the text: four of them with dots between.  Two texts that it
    accepts are the same address only if they are equal. *)
Fixpoint dotted (n : nat) (s : string) : bool :=
  let '(f, r) := span (fun a => negb (bool_decide (a = "."%char))) s in
  octet f &&
  match n, r with
  | O, EmptyString => true
  | S n', String _ r' => dotted n' r'
  | _, _ => false
  end.

Definition inet_pton (ip : string) : bool := dotted 3 ip.

(** The address that [TCPClient::connect] gives to [::connect]: it refuses text that is
    no IPv4 address, and casts the port to 16 bits; nothing can be reached at port 0. *)
Definition endpoint (ip : string) (port : Z) : option (string * Z) :=
  if inet_pton ip && bool_decide (uwrap 16 port <> 0) then Some (ip, uwrap 16 port) else None.

Lemma endpoint_Some ip port a :
  endpoint ip port = Some a -> a = (ip, uwrap 16 port) /\ inet_pton ip = true /\ 0 < a.2 < 2 ^ 16.
Proof.
  unfold endpoint. destruct (inet_pton ip) eqn:Hip; [|done]. simpl. case_bool_decide as Hp; [|done].
  intros [= <-]. pose proof (Z.mod_pos_bound port (2 ^ 16) ltac:(done)). simpl in *. unfold uwrap in *.
  split_and!; [done..|lia|lia].
Qed.

Lemma endpoint_valid ip port : inet_pton ip = true -> 0 < port < 2 ^ 16 -> endpoint ip port = Some (ip, port).
Proof.
  intros Hip Hp. unfold endpoint. assert (uwrap 16 port = port) as -> by (apply Z.mod_small; lia).
  by rewrite Hip, bool_decide_eq_true_2 by lia.
Qed.

(** ** One program, alone *)

(** What the network answers: a received message (empty at the end of the
    connection or on an error, as [recvData] has it) or the success of a call. *)
Inductive answer := Msg (d : bytes) | Ok (b : bool).

Definition msg_of (a : answer) : bytes := match a with Msg d => d | Ok _ => [] end.
Definition ok_of (a : answer) : bool := match a with Msg _ => false | Ok b => b end.

(** The next answer; when the script is over every call fails. *)
Definition next_answer (l : list answer) : answer * list answer :=
  match l with [] => (Ok false, []) | a :: l' => (a, l') end.

(** The calls a program makes, with their answers. *)
Inductive event :=
| Received (d : bytes)
| Sent (d : bytes)
| ServerStopped
| ClientClosed
| Connected (ip : string) (port : Z) (ok : bool)
| SentTo (d : bytes) (ok : bool)
| ReceivedFrom (d : bytes)
| Closed.

Definition emit {X} (e : event) (r : X * list event) : X * list event := (r.1, e :: r.2).

(** The result, the state and the answers left, and the trace. *)
Fixpoint run {S A} (p : io S A) (s : S) (l : list answer) : (A * S * list answer) * list event :=
  match p with
  | Ret a => ((a, s, l), [])
  | Atomic f k => run (k s) (f s) l
  | Acquire _ k | Release _ k => run k s l
  | ServerRecv k =>
      let '(a, l') := next_answer l in emit (Received (msg_of a)) (run (k (msg_of a)) s l')
  | ServerSend d k => emit (Sent d) (run k s l)
  | ServerStop k => emit ServerStopped (run k s l)
  | ServerClose k => emit ClientClosed (run k s l)
  | Connect ip port k =>
      let '(a, l') := next_answer l in emit (Connected ip port (ok_of a)) (run (k (ok_of a)) s l')
  | Send d k =>
      let '(a, l') := next_answer l in emit (SentTo d (ok_of a)) (run (k (ok_of a)) s l')
  | Recv k =>
      let '(a, l') := next_answer l in emit (ReceivedFrom (msg_of a)) (run (k (msg_of a)) s l')
  | Close k => emit Closed (run k s l)
  end.

Lemma run_bind {S A B} (p : io S A) (f : A -> io S B) s l :
  run (p ≫= f) s l =
  let '((a, s', l'), tr) := run p s l in
  let '(r, tr') := run (f a) s' l' in (r, tr ++ tr').
Proof.
  revert s l. induction p; intros s l; simpl;
    try (destruct (next_answer l) as [a l']); try apply H;
    try (rewrite IHp || rewrite H || idtac); unfold mbind, io_mbind in *; simpl in *;
    try rewrite ?IHp, ?H; unfold emit;
    repeat match goal with |- context [let '_ := run ?p ?s ?l in _] =>
      destruct (run p s l) as [[[??]?]?]; simpl end;
    repeat match goal with |- context [run ?p ?s ?l] =>
      destruct (run p s l) as [[[??]?]?]; simpl end; done.
Qed.

(** Whatever is answered, with messages in [good], the result is in [Q]. *)
Fixpoint ends {S A} (good : bytes -> Prop) (Q : A -> Prop) (p : io S A) : Prop :=
  match p with
  | Ret a => Q a
  | Atomic _ k => forall s, ends good Q (k s)
  | Acquire _ k | Release _ k | ServerSend _ k | ServerStop k | ServerClose k | Close k => ends good Q k
  | ServerRecv k | Recv k => forall d, good d -> ends good Q (k d)
  | Connect _ _ k | Send _ k => forall b, ends good Q (k b)
  end.

Lemma ends_mono {S A} good (Q Q' : A -> Prop) (p : io S A) :
  (forall a, Q a -> Q' a) -> ends good Q p -> ends good Q' p.
Proof. intros HQ. induction p; simpl; auto. Qed.

Lemma ends_bind {S A B} good (Q : B -> Prop) (p : io S A) (f : A -> io S B) :
  ends good (fun a => ends good Q (f a)) p -> ends good Q (p ≫= f).
Proof. unfold mbind, io_mbind. induction p; simpl; auto. Qed.

Lemma ends_run {S A} (good : bytes -> Prop) (Q : A -> Prop) (p : io S A) s l :
  good [] -> Forall (fun a => good (msg_of a)) l -> ends good Q p ->
  let '((a, _, _), _) := run p s l in Q a.
Proof.
  intros Hnil Hl He. enough (Q (run p s l).1.1.1) by (by destruct (run p s l) as [[[??]?]?]).
  revert s l Hl He. induction p; intros s' l Hl He; simpl in *; auto;
    try (destruct (next_answer l) as [a l'] eqn:E;
         assert (good (msg_of a) /\ Forall (fun a => good (msg_of a)) l') as [Ha Hl']
           by (destruct Hl; injection E as <- <-; by split); simpl); auto.
Qed.

(** The messages sent to the client, of a trace. *)
Definition sent (tr : list event) : list bytes :=
  omap (fun e => match e with Sent d => Some d | _ => None end) tr.

Lemma sent_app tr tr' : sent (tr ++ tr') = sent tr ++ sent tr'.
Proof. apply omap_app. Qed.

(** A thread alone: the body again and again until it returns [false], with one unit
    of fuel per turn.  The flag says whether the thread ended. *)
Fixpoint run_loop {S} (fuel : nat) (body : io S bool) (s : S) (l : list answer)
    : (bool * S * list answer) * list event :=
  match fuel with
  | O => ((false, s, l), [])
  | S fuel' =>
      let '((again, s', l'), tr) := run body s l in
      if again : bool then let '(r, tr') := run_loop fuel' body s' l' in (r, tr ++ tr')
      else ((true, s', l'), tr)
  end.

(** ** Threads *)

(** A thread repeats a body: the body returns [true] to go round its loop again,
    [false] to end. *)
Record thread (S : Type) := Thread { body : io S bool; at_ : io S bool }.
Arguments Thread {S}.
Arguments body {S}.
Arguments at_ {S}.

Record pool (S : Type) := Pool {
  shared : S;
  held : mutex -> option nat;
  threads : list (thread S)
}.
Arguments Pool {S}.
Arguments shared {S}.
Arguments held {S}.
Arguments threads {S}.

(** One access or call, with the network's answer. *)
Definition act {S A} (p : io S A) (s : S) (a : answer) : io S A * S :=
  match p with
  | Ret r => (Ret r, s)
  | Atomic f k => (k s, f s)
  | Acquire _ k | Release _ k | ServerSend _ k | ServerStop k | ServerClose k | Close k => (k, s)
  | ServerRecv k | Recv k => (k (msg_of a), s)
  | Connect _ _ k | Send _ k => (k (ok_of a), s)
  end.

(** A thread waits for a mutex that is taken; it runs on otherwise. *)
Definition enabled {S A} (p : io S A) (h : mutex -> option nat) : Prop :=
  match p with Ret _ => False | Acquire m _ => h m = None | _ => True end.

Definition set_held (m : mutex) (o : option nat) (h : mutex -> option nat) : mutex -> option nat :=
  fun m' => if decide (m' = m) then o else h m'.

Definition after_lock {S A} (p : io S A) (i : nat) (h : mutex -> option nat)
    : mutex -> option nat :=
  match p with
  | Acquire m _ => set_held m (Some i) h
  | Release m _ => set_held m None h
  | _ => h
  end.

(** [bodies] are the threads the object may start; [admits] limits the messages that
    reach it; the empty message, which is also the end of the connection, always may. *)
Inductive pool_step {S} (bodies : io S bool -> Prop) (admits : bytes -> Prop)
    : pool S -> pool S -> Prop :=
| pool_spawn b c :
    bodies b ->
    pool_step bodies admits c (Pool (shared c) (held c) (threads c ++ [Thread b b]))
| pool_act i t a c :
    threads c !! i = Some t -> enabled (at_ t) (held c) ->
    msg_of a = [] \/ admits (msg_of a) ->
    pool_step bodies admits c
      (Pool (act (at_ t) (shared c) a).2 (after_lock (at_ t) i (held c))
            (<[i := Thread (body t) (act (at_ t) (shared c) a).1]> (threads c)))
| pool_again i t c :
    threads c !! i = Some t -> at_ t = Ret true ->
    pool_step bodies admits c
      (Pool (shared c) (held c) (<[i := Thread (body t) (body t)]> (threads c))).

Definition start_pool {S} (s : S) : pool S := Pool s (fun _ => None) [].

Definition pool_reach {S} (bodies : io S bool -> Prop) (admits : bytes -> Prop) (s : S)
    : pool S -> Prop :=
  rtc (pool_step bodies admits) (start_pool s).

(** A schedule, executed. *)
Inductive choice (S : Type) :=
| Spawn (b : io S bool)
| Do (i : nat) (a : answer)
| Again (i : nat).
Arguments Spawn {S}.
Arguments Do {S}.
Arguments Again {S}.

Definition enabledb {S A} (p : io S A) (h : mutex -> option nat) : bool :=
  match p with
  | Ret _ => false
  | Acquire m _ => bool_decide (h m = None)
  | _ => true
  end.

Definition pool_do {S} (ch : choice S) (c : pool S) : option (pool S) :=
  match ch with
  | Spawn b => Some (Pool (shared c) (held c) (threads c ++ [Thread b b]))
  | Do i a =>
      match threads c !! i with
      | Some t =>
          if enabledb (at_ t) (held c) then
            Some (Pool (act (at_ t) (shared c) a).2 (after_lock (at_ t) i (held c))
                       (<[i := Thread (body t) (act (at_ t) (shared c) a).1]> (threads c)))
          else None
      | None => None
      end
  | Again i =>
      match threads c !! i with
      | Some t =>
          match at_ t with
          | Ret true => Some (Pool (shared c) (held c) (<[i := Thread (body t) (body t)]> (threads c)))
          | _ => None
          end
      | None => None
      end
  end.

Fixpoint pool_exec {S} (chs : list (choice S)) (c : pool S) : option (pool S) :=
  match chs with
  | [] => Some c
  | ch :: chs' => match pool_do ch c with Some c' => pool_exec chs' c' | None => None end
  end.

Definition allowed {S} (bodies : io S bool -> Prop) (admits : bytes -> Prop) (ch : choice S)
    : Prop :=
  match ch with Spawn b => bodies b | Do _ a => msg_of a = [] \/ admits (msg_of a) | Again _ => True end.

Lemma pool_exec_reach {S} bodies admits (s0 : S) chs c :
  Forall (allowed bodies admits) chs -> pool_exec chs (start_pool s0) = Some c ->
  pool_reach bodies admits s0 c.
Proof.
  unfold pool_reach. generalize (start_pool s0). intros c0 Hall. revert c0.
  induction Hall as [|ch chs Hch Hall IH]; intros c0; simpl; [by intros [= ->]|].
  destruct (pool_do ch c0) as [c1|] eqn:E; [|done]. intros Hx. eapply rtc_l; [|by apply IH].
  destruct ch as [b|i a|i]; simpl in E, Hch.
  - simplify_eq. by apply pool_spawn.
  - destruct (threads c0 !! i) as [t|] eqn:Ht; [|done].
    destruct (enabledb _ _) eqn:He; [|done]. simplify_eq. apply pool_act; [done| |done].
    destruct (at_ t); simpl in *; try done. by apply bool_decide_eq_true in He.
  - destruct (threads c0 !! i) as [t|] eqn:Ht; [|done].
    destruct (at_ t) as [[]| | | | | | | | | | |] eqn:Hat; try done. simplify_eq.
    by apply pool_again.
Qed.

Lemma rtc_preorder {X} (R : X -> X -> Prop) `{!PreOrder R} x y : rtc R x y -> R x y.
Proof. induction 1; [done|by etrans]. Qed.

(** Updating a thread of the pool. *)
Lemma insert_keeps {X} (i : nat) (u : X) (l : list X) (j : nat) t :
  l !! i = Some t -> is_Some (l !! j) -> is_Some (<[i := u]> l !! j).
Proof.
  intros Hi Hj. destruct (decide (i = j)) as [<-|Hne].
  - rewrite list_lookup_insert_eq by (by eapply lookup_lt_Some). eauto.
  - by rewrite list_lookup_insert_ne.
Qed.

Lemma list_lookup_insert_Some' {X} (i : nat) (u v : X) (l : list X) (j : nat) :
  <[i := u]> l !! j = Some v -> (i = j /\ v = u) \/ (i <> j /\ l !! j = Some v).
Proof. rewrite list_lookup_insert_Some. naive_solver. Qed.

(** ** Reasoning about all interleavings *)

Section Monitor.
Context {S C : Type}.
(** Every access keeps [J] true and moves the state along [G]; the members
    [prot], written under [m] only, satisfy [I] whenever [m] is free. *)
Context (J : S -> Prop) (G : S -> S -> Prop) (admits : bytes -> Prop).
Context (m : mutex) (prot : S -> C) (I : C -> Prop).

(** [safe Q h p]: the program [p] obeys these rules and ends in [Q]; [h] holds the
    protected members while [p] holds [m]. *)
Fixpoint safe {A} (Q : option C -> A -> Prop) (h : option C) (p : io S A) : Prop :=
  match p with
  | Ret a => Q h a
  | Atomic f k =>
      match h with
      | None => forall s, J s -> J (f s) /\ G s (f s) /\ prot (f s) = prot s /\ safe Q None (k s)
      | Some c => forall s, J s -> prot s = c ->
                  J (f s) /\ G s (f s) /\ safe Q (Some (prot (f s))) (k s)
      end
  | Acquire m' k =>
      if decide (m' = m) then h = None /\ forall c, I c -> safe Q (Some c) k else safe Q h k
  | Release m' k =>
      if decide (m' = m)
      then match h with Some c => I c /\ safe Q None k | None => False end
      else safe Q h k
  | ServerRecv k | Recv k => forall d, d = [] \/ admits d -> safe Q h (k d)
  | ServerSend _ k | ServerStop k | ServerClose k | Close k => safe Q h k
  | Connect _ _ k | Send _ k => forall b, safe Q h (k b)
  end.

(** A thread holds no mutex at the end of a turn of its loop. *)
Definition safe_body (p : io S bool) : Prop := safe (fun h _ => h = None) None p.

Lemma pool_safe_mono {A} (Q Q' : option C -> A -> Prop) h p :
  (forall h a, Q h a -> Q' h a) -> safe Q h p -> safe Q' h p.
Proof.
  intros HQ. revert h. induction p; intros h; simpl; repeat case_decide; try destruct h;
    naive_solver.
Qed.

Lemma pool_safe_bind {A B} (p : io S A) (f : A -> io S B) Q h :
  safe (fun h a => safe Q h (f a)) h p -> safe Q h (p ≫= f).
Proof.
  unfold mbind, io_mbind. revert h.
  induction p; intros h; simpl; repeat case_decide; try destruct h; naive_solver.
Qed.

Record pool_inv (s0 : S) (c : pool S) : Prop := {
  pool_J : J (shared c);
  pool_G : rtc G s0 (shared c);
  pool_free : held c m = None -> I (prot (shared c));
  pool_owner : forall i, held c m = Some i -> is_Some (threads c !! i);
  pool_threads : forall i t, threads c !! i = Some t ->
    safe_body (body t) /\
    safe (fun h _ => h = None)
         (if decide (held c m = Some i) then Some (prot (shared c)) else None) (at_ t)
}.

(** The claim of one thread on the pool around it, whichever call it makes. *)
Lemma act_safe {A} (Q : option C -> A -> Prop) (p : io S A) i h s a :
  let hold (h : mutex -> option nat) s := if decide (h m = Some i) then Some (prot s) else None in
  J s -> (h m = None -> I (prot s)) -> enabled p h -> msg_of a = [] \/ admits (msg_of a) ->
  safe Q (hold h s) p ->
  let s' := (act p s a).2 in let h' := after_lock p i h in
  J s' /\ rtc G s s' /\ (h' m = None -> I (prot s')) /\
  safe Q (hold h' s') (act p s a).1 /\
  (h m <> Some i -> prot s' = prot s) /\
  (h' m = h m \/ (h m = None /\ h' m = Some i) \/ (h m = Some i /\ h' m = None)).
Proof.
  intros hold HJ HI He Ha Hs. subst hold. cbv beta in *.
  destruct p; simpl in *; try (split_and!; [done|constructor|done|by auto|done|by left]).
  - destruct (decide (h m = Some i)) as [Hh|Hh].
    + destruct (Hs s HJ eq_refl) as (? & ? & ?).
      split_and!; [done|by apply rtc_once|congruence|done|done|by left].
    + destruct (Hs s HJ) as (? & ? & E & ?). rewrite E.
      split_and!; [done|by apply rtc_once|done|done|done|by left].
  - unfold set_held. destruct (decide (m0 = m)) as [->|Hne].
    + rewrite (decide_True (P := m = m)) by done. destruct Hs as [_ Hs].
      split_and!; [done|constructor|done| |done|right; left; done].
      rewrite decide_True by done. by apply Hs, HI.
    + rewrite (decide_False (P := m = m0)) by done.
      split_and!; [done|constructor|done|done|done|by left].
  - unfold set_held. destruct (decide (m0 = m)) as [->|Hne].
    + rewrite (decide_True (P := m = m)) by done.
      destruct (decide (h m = Some i)) as [Hh|Hh]; [|done]. destruct Hs as [Hi Hs].
      split_and!; [done|constructor|done| |done|right; right; done].
      by rewrite decide_False.
    + rewrite (decide_False (P := m = m0)) by done.
      split_and!; [done|constructor|done|done|done|by left].
Qed.

Lemma pool_step_inv bodies s0 c c' :
  (forall b, bodies b -> safe_body b) ->
  pool_step bodies admits c c' -> pool_inv s0 c -> pool_inv s0 c'.
Proof.
  intros Hb Hstep [HJ HG HF HO HT]. destruct Hstep as [b c Hbb|i t a c Hi He Ha|i t c Hi Hat].
  - split; simpl; try done.
    + intros i Hh. destruct (HO i Hh). rewrite lookup_app_l by (by eapply lookup_lt_Some). eauto.
    + intros i t [Hi|[Hlen [Hi <-]%list_lookup_singleton_Some]]%lookup_app_Some; [auto|].
      simpl. split; [auto|]. rewrite decide_False; [by apply Hb|].
      intros Hh. destruct (HO i Hh) as [? ?%lookup_lt_Some]. lia.
  - destruct (HT i t Hi) as [Hbody Hat].
    destruct (act_safe _ _ i _ _ a HJ HF He Ha Hat) as (HJ' & HG' & HF' & Hs' & Hp & Hh).
    split; simpl; try done; [by etrans| |].
    + intros j Hj. apply (insert_keeps i _ _ _ t Hi). destruct Hh as [E|[[_ E]|[_ E]]].
      * apply HO. congruence.
      * assert (i = j) as <- by congruence. eauto.
      * congruence.
    + intros j u [[-> ->]|[Hne Hj]]%list_lookup_insert_Some'; [by split|].
      destruct (HT j u Hj) as [Hbu Hau]. split; [done|].
      assert ((if decide (after_lock (at_ t) i (held c) m = Some j)
               then Some (prot (act (at_ t) (shared c) a).2) else None) =
              (if decide (held c m = Some j) then Some (prot (shared c)) else None)) as ->; [|done].
      destruct Hh as [E|[[E1 E2]|[E1 E2]]].
      * rewrite E. destruct (decide (held c m = Some j)); [|done]. by rewrite Hp by congruence.
      * rewrite !decide_False by congruence. done.
      * rewrite !decide_False by congruence. done.
  - destruct (HT i t Hi) as [Hbody Hs]. rewrite Hat in Hs. simpl in Hs.
    split; simpl; try done.
    + intros j Hj. apply (insert_keeps i _ _ _ t Hi). by apply HO.
    + intros j u [[-> ->]|[Hne Hj]]%list_lookup_insert_Some'; [|by apply HT].
      simpl. split; [done|]. destruct (decide (held c m = Some j)); [done|]. exact Hbody.
Qed.

(** The rule: when every thread an object may start obeys the rules, every
    interleaving, whatever the network answers, keeps [J], moves along [G], and has
    [I] of the protected members whenever the mutex is free. *)
Lemma pool_sound bodies s0 c :
  (forall b, bodies b -> safe_body b) -> J s0 -> I (prot s0) ->
  pool_reach bodies admits s0 c ->
  J (shared c) /\ rtc G s0 (shared c) /\ (held c m = None -> I (prot (shared c))).
Proof.
  intros Hb HJ HI Hr.
  assert (pool_inv s0 (start_pool s0)) as H0.
  { split; simpl; try done. }
  assert (pool_inv s0 c) as [].
  { unfold pool_reach in Hr. revert H0 Hr. generalize (start_pool s0). intros c0 H0 Hr.
    induction Hr; [done|]. eauto using pool_step_inv. }
  done.
Qed.
End Monitor.
