(* ===== verification/Handlers.v ===== *)
(** * The accept loop and the end of [start]

    [StorageNode::start] and [MetadataNode::start] run the same protocol: the main
    thread accepts clients and starts one handler thread each, counting them in
    [activeHandlers_]; once [running_] is false it waits on [handlersCv_] until the
    count is 0.  A handler thread decrements the count and then notifies, without
    taking [handlersMutex_].  A handler that reads [DIE] clears [running_] and then closes the
    listening socket ([TCPServer::stop]), while the main thread may be blocked in
    [accept] on it.  The protocol is a step relation here: the main thread's position, the
    handlers' positions, the two members, and whether the server listens.

    What [::close] does to a thread that is blocked in [accept] on the same socket is the
    kernel's choice, and a parameter: [wakes] says that [accept] returns with an error; otherwise,
    as on Linux, it stays blocked until one more client connects.

    The theorems: the count is right, so [start] never returns while a handler is
    serving a client; but a notification can be lost, or [accept] not be left, after which
    [start] waits for ever, and a handler may still have its [notify_one] to make on a
    node that [start] has already left. *)
From S2P Require Import Prelude.

#[local] Open Scope Z_scope.

(** ** States *)

(** Where the main thread is. *)
Inductive main_at :=
| AtLoop                (* while (running_) *)
| AtTest                (* acceptClient: if (!running_ || serverSock_ < 0) *)
| AtAccept              (* acceptClient: blocked in accept *)
| AtSpawn               (* counted, about to create the thread *)
| AtPredicate           (* wait: evaluating activeHandlers_ == 0 *)
| AtBlock               (* wait: the predicate was false, about to block *)
| Blocked
| Returned.

(** Where a handler thread is. *)
Inductive handler_at :=
| Serving               (* handleClient(clientId) *)
| Stopping              (* DIE: running_ is false, about to call server_.stop() *)
| Leaving               (* after server_.stop() *)
| Counted               (* activeHandlers_ decremented, about to notify *)
| Ended.

#[export] Instance handler_at_eq_dec : EqDecision handler_at.
Proof. solve_decision. Defined.

(** [listening] is the state of the server: [running_] of [TCPServer], with its listening
    socket open. *)
Record node_threads := NodeThreads {
  main : main_at;
  handlers : list handler_at;
  running_ : bool;
  activeHandlers_ : Z;
  listening : bool
}.

(** [start] after [server_.start(port)]: [running_ = true] and the loop. *)
Definition started : node_threads := NodeThreads AtLoop [] true 0 true.

(** ** Steps *)

(** The main thread; [clientId] is what [acceptClient] returns once [accept] has returned. *)
Definition main_step (clientId : Z) (c : node_threads) : option node_threads :=
  let to m := NodeThreads m (handlers c) (running_ c) (activeHandlers_ c) (listening c) in
  match main c with
  | AtLoop => Some (to (if running_ c then AtTest else AtPredicate))
  | AtTest => Some (to (if listening c then AtAccept else AtLoop))
  | AtAccept =>
      if bool_decide (clientId <> -1)
      then Some (NodeThreads AtSpawn (handlers c) (running_ c) (i32 (activeHandlers_ c + 1)) (listening c))
      else Some (to AtLoop)
  | AtSpawn =>
      Some (NodeThreads AtLoop (handlers c ++ [Serving]) (running_ c) (activeHandlers_ c) (listening c))
  | AtPredicate => Some (to (if bool_decide (activeHandlers_ c = 0) then Returned else AtBlock))
  | AtBlock => Some (to Blocked)
  | Blocked | Returned => None
  end.

(** A handler's thread from the end of its loop on, and [server_.stop()] after [DIE]. *)
Definition handler_step (i : nat) (c : node_threads) : option node_threads :=
  match handlers c !! i with
  | Some Serving | Some Leaving =>
      Some (NodeThreads (main c) (<[i := Counted]> (handlers c)) (running_ c)
                        (i32 (activeHandlers_ c - 1)) (listening c))
  | Some Stopping =>
      Some (NodeThreads (main c) (<[i := Leaving]> (handlers c)) (running_ c) (activeHandlers_ c) false)
  | Some Counted =>
      Some (NodeThreads (match main c with Blocked => AtPredicate | m => m end)
                        (<[i := Ended]> (handlers c)) (running_ c) (activeHandlers_ c) (listening c))
  | _ => None
  end.

(** A serving handler executes [DIE]: [running_ = false], and [server_.stop()] is next. *)
Definition die (i : nat) (c : node_threads) : node_threads :=
  NodeThreads (main c) (<[i := Stopping]> (handlers c)) false (activeHandlers_ c) (listening c).

Section Kernel.
Context (wakes : bool).

(** The steps the threads take by themselves: [accept] is left only when the socket was
    closed and the kernel wakes its caller.  A client that is served ends at some time. *)
Inductive thread_step : node_threads -> node_threads -> Prop :=
| step_main id c c' : main c <> AtAccept -> main_step id c = Some c' -> thread_step c c'
| step_woken c c' :
    main c = AtAccept -> wakes = true -> listening c = false -> main_step (-1) c = Some c' -> thread_step c c'
| step_handler i c c' : handler_step i c = Some c' -> thread_step c c'
| step_die i c : handlers c !! i = Some Serving -> thread_step c (die i c).

(** [accept] returns: a client has connected, or accepting it failed.  Where the kernel does
    not wake the caller this happens also after the socket was closed, for one client. *)
Inductive accept_step : node_threads -> node_threads -> Prop :=
| step_accept id c c' :
    main c = AtAccept -> listening c = true \/ wakes = false -> main_step id c = Some c' -> accept_step c c'.

Definition start_step (c c' : node_threads) : Prop := thread_step c c' \/ accept_step c c'.

Definition start_reach : node_threads -> Prop := rtc start_step started.

(** ** The count *)

(** The handlers that have not been uncounted. *)
Definition active (h : handler_at) : bool := match h with Serving | Stopping | Leaving => true | _ => false end.

Definition serving (hs : list handler_at) : nat := length (filter (fun h => active h = true) hs).

(** The handlers that count: those at work, and the one about to start. *)
Definition counted (c : node_threads) : Z :=
  Z.of_nat (serving (handlers c)) + match main c with AtSpawn => 1 | _ => 0 end.

Lemma serving_app hs hs' : serving (hs ++ hs') = (serving hs + serving hs')%nat.
Proof. unfold serving. by rewrite filter_app, length_app. Qed.

Lemma serving_insert hs i h h' :
  hs !! i = Some h ->
  (serving (<[i := h']> hs) + serving [h] = serving hs + serving [h'])%nat.
Proof.
  intros Hi. rewrite (insert_take_drop _ _ _ (lookup_lt_Some _ _ _ Hi)).
  rewrite <- (take_drop_middle _ _ _ Hi) at 3.
  change (h' :: drop (S i) hs) with ([h'] ++ drop (S i) hs).
  change (h :: drop (S i) hs) with ([h] ++ drop (S i) hs). rewrite !serving_app. lia.
Qed.

Lemma serving_one h : serving [h] = (if active h then 1 else 0)%nat.
Proof. by destruct h. Qed.

Lemma i32_add_mod a b : i32 (i32 a + b) = i32 (a + b).
Proof.
  unfold swrap. f_equal.
  replace ((a + 2 ^ (32 - 1)) `mod` 2 ^ 32 - 2 ^ (32 - 1) + b + 2 ^ (32 - 1))
    with ((a + 2 ^ (32 - 1)) `mod` 2 ^ 32 + b) by lia.
  rewrite Zplus_mod_idemp_l. f_equal. lia.
Qed.

(** What a step is, whoever takes it. *)
Lemma start_step_cases c c' :
  start_step c c' ->
  (exists id, main_step id c = Some c') \/ (exists i, handler_step i c = Some c') \/
  (exists i, handlers c !! i = Some Serving /\ c' = die i c).
Proof. intros [[]|[]]; eauto. Qed.

Lemma start_step_count c c' :
  start_step c c' -> activeHandlers_ c = i32 (counted c) -> activeHandlers_ c' = i32 (counted c').
Proof.
  intros [(id & E)|[(i & E)|(i & Hi & ->)]]%start_step_cases Hc.
  - unfold main_step in E. destruct (main c) eqn:Hm; simplify_eq; unfold counted in *;
      rewrite Hm in Hc; simpl in *; try (by destruct (running_ c)); try (by destruct (listening c)).
    + case_bool_decide; simplify_eq/=; [|done]. rewrite Hc, Z.add_0_r. apply i32_add_mod.
    + rewrite serving_app, serving_one, Hc. f_equal. simpl. lia.
    + by case_bool_decide.
  - unfold handler_step in E. destruct (handlers c !! i) as [h|] eqn:Hi; [|done].
    pose proof (fun h' => serving_insert _ _ _ h' Hi) as Hn. unfold counted in *.
    destruct h; simplify_eq; cbn [main handlers activeHandlers_]; rewrite Hc.
    1, 3: specialize (Hn Counted); rewrite !serving_one in Hn; simpl in Hn; unfold Z.sub; rewrite i32_add_mod; f_equal; lia.
    + specialize (Hn Leaving). rewrite !serving_one in Hn. simpl in Hn. f_equal. lia.
    + specialize (Hn Ended). rewrite !serving_one in Hn. simpl in Hn. f_equal. destruct (main c); lia.
  - pose proof (serving_insert _ _ _ Stopping Hi) as Hn. rewrite !serving_one in Hn. simpl in Hn.
    unfold counted in *. cbn [die main handlers activeHandlers_]. rewrite Hc. f_equal. lia.
Qed.

(** The invariant of every reachable state; the counter is an [int].  The server listens
    until a handler that has cleared [running_] stops it. *)
Record start_inv (c : node_threads) : Prop := {
  inv_count : activeHandlers_ c = i32 (counted c);
  inv_running : running_ c = true -> main c = AtLoop \/ main c = AtTest \/ main c = AtAccept \/ main c = AtSpawn;
  inv_returned : Z.of_nat (length (handlers c)) < 2 ^ 31 -> main c = Returned -> serving (handlers c) = 0%nat;
  inv_stopped : running_ c = false -> listening c = false \/ Stopping ∈ handlers c
}.

Lemma serving_le hs : (serving hs <= length hs)%nat.
Proof. apply length_filter. Qed.

Lemma stopping_insert (hs : list handler_at) (i : nat) (h h' : handler_at) : hs !! i = Some h -> h <> Stopping -> Stopping ∈ hs -> Stopping ∈ <[i := h']> hs.
Proof.
  intros Hi Hh (j & Hj)%list_elem_of_lookup. apply list_elem_of_lookup. exists j.
  rewrite list_lookup_insert_ne; [done|]. intros <-. congruence.
Qed.

Lemma start_step_inv c c' : start_step c c' -> start_inv c -> start_inv c'.
Proof.
  intros Hs [Hc Hr Hz Hl]. pose proof (start_step_count _ _ Hs Hc) as Hc'.
  destruct (start_step_cases _ _ Hs) as [(id & E)|[(i & E)|(i & Hi & ->)]].
  - unfold main_step in E. destruct (main c) eqn:Hm.
    + simplify_eq. split; [exact Hc'|..]; cbn [running_ handlers listening main]; [|by destruct (running_ c)|done].
      intros Hrun. rewrite Hrun. auto.
    + simplify_eq. split; [exact Hc'|..]; cbn [running_ handlers listening main]; [|by destruct (listening c)|done].
      destruct (listening c); auto.
    + case_bool_decide; simplify_eq; (split; [exact Hc'|..]); cbn [running_ handlers listening main]; auto; done.
    + simplify_eq. split; [exact Hc'|..]; cbn [running_ handlers listening main]; [by auto|done|].
      intros Hrun. destruct (Hl Hrun); [by left|right]. apply elem_of_app. by left.
    + simplify_eq. split; [exact Hc'|..]; cbn [running_ handlers listening main]; [naive_solver| |done].
      case_bool_decide as H0; [|done]. intros Hlen _. unfold counted in Hc. rewrite Hm, Z.add_0_r in Hc.
      pose proof (serving_le (handlers c)).
      rewrite H0, i32_small in Hc by (unfold in_int, INT_MIN, INT_MAX; lia). lia.
    + simplify_eq. split; [exact Hc'|..]; cbn [running_ handlers listening main]; [naive_solver|done..].
    + done.
    + done.
  - unfold handler_step in E. destruct (handlers c !! i) as [h|] eqn:Hi; [|done].
    assert (forall h', active h = true \/ (active h = false /\ active h' = false) ->
      Z.of_nat (length (<[i := h']> (handlers c))) < 2 ^ 31 -> main c = Returned -> serving (<[i := h']> (handlers c)) = 0%nat) as Hserv.
    { intros h' Hh. rewrite length_insert. intros Hlen Hm. specialize (Hz Hlen Hm).
      pose proof (serving_insert _ _ _ h' Hi) as Hn. rewrite !serving_one in Hn.
      destruct Hh as [Hh|[Hh Hh']]; [|rewrite Hh, Hh' in Hn; lia]. rewrite Hh in Hn. destruct (active h'); lia. }
    destruct h; simplify_eq; (split; [exact Hc'|..]); cbn [running_ handlers listening main]; auto.
    all: try (apply Hserv; by left || by right).
    + intros Hrun. destruct (Hl Hrun); [by left|right]. by eapply stopping_insert.
    + intros Hrun. destruct (Hl Hrun); [by left|right]. by eapply stopping_insert.
    + intros Hrun. destruct (Hr Hrun) as [E|[E|[E|E]]]; rewrite E; auto.
    + intros Hlen Hm. apply Hserv; [by right|done|]. by destruct (main c).
    + intros Hrun. destruct (Hl Hrun); [by left|right]. by eapply stopping_insert.
  - split; [exact Hc'|done| |]; cbn [die running_ handlers main listening].
    + rewrite length_insert. intros Hlen Hm. specialize (Hz Hlen Hm).
      pose proof (serving_insert _ _ _ Stopping Hi) as Hn. rewrite !serving_one in Hn. simpl in Hn. lia.
    + intros _. right. apply list_elem_of_lookup. exists i. apply list_lookup_insert_eq. by eapply lookup_lt_Some.
Qed.

Lemma started_inv : start_inv started.
Proof. split; naive_solver. Qed.

Lemma start_reach_inv c : start_reach c -> start_inv c.
Proof.
  unfold start_reach. intros Hr. pose proof started_inv as H0.
  induction Hr as [|? c1 c2 Hs _ IH]; [done|]. eauto using start_step_inv.
Qed.

(** ** What is left to do once the node is stopped *)

Definition weight (h : handler_at) : nat :=
  match h with Serving => 6 | Stopping => 5 | Leaving => 4 | Counted => 3 | Ended => 0 end.

Definition remaining (c : node_threads) : nat :=
  (sum_list_with weight (handlers c) +
   match main c with
   | AtTest => 13 | AtAccept => 12 | AtSpawn => 11 | AtLoop => 4 | AtPredicate => 3 | AtBlock => 2 | Blocked => 1
   | Returned => 0
   end)%nat.

Lemma weight_insert hs i h h' :
  hs !! i = Some h ->
  (sum_list_with weight (<[i := h']> hs) + weight h = sum_list_with weight hs + weight h')%nat.
Proof.
  intros Hi. rewrite (insert_take_drop _ _ _ (lookup_lt_Some _ _ _ Hi)).
  rewrite <- (take_drop_middle _ _ _ Hi) at 3. rewrite !sum_list_with_app. simpl. lia.
Qed.

Lemma start_step_remaining c c' :
  running_ c = false -> start_step c c' -> running_ c' = false /\ (remaining c' < remaining c)%nat.
Proof.
  intros Hr [(id & E)|[(i & E)|(i & Hi & ->)]]%start_step_cases; unfold remaining.
  - unfold main_step in E. destruct (main c) eqn:Hm; simplify_eq; simpl.
    + rewrite Hr. split; [done|lia].
    + destruct (listening c); (split; [done|lia]).
    + case_bool_decide; simplify_eq/=; (split; [done|lia]).
    + rewrite sum_list_with_app. simpl. split; [done|lia].
    + split; [done|]. case_bool_decide; lia.
    + split; [done|lia].
  - unfold handler_step in E. destruct (handlers c !! i) as [h|] eqn:Hi; [|done].
    pose proof (fun h' => weight_insert _ _ _ h' Hi) as Hw.
    destruct h; simplify_eq; simpl; (split; [done|]).
    1, 3: specialize (Hw Counted); simpl in *; lia.
    + specialize (Hw Leaving). simpl in *. lia.
    + specialize (Hw Ended). simpl in *. destruct (main c); lia.
  - pose proof (weight_insert _ _ _ Stopping Hi). simpl in *. split; [done|lia].
Qed.

(** A state in which no thread can take a step by itself: every handler has ended, and the
    main thread too, or it waits. *)
Lemma stuck_state c :
  (forall c', ~ thread_step c c') ->
  Forall (.= Ended) (handlers c) /\
  (main c = Returned \/ main c = Blocked \/ (main c = AtAccept /\ (wakes = true -> listening c = true))).
Proof.
  intros Hs. split.
  - apply Forall_forall. intros h [i Hi]%list_elem_of_lookup.
    destruct h; [..|done]; edestruct Hs; eapply (step_handler i); unfold handler_step; by rewrite Hi.
  - destruct (main c) eqn:Hm; try (by auto).
    3: { right; right. split; [done|]. intros Hw. destruct (listening c) eqn:Hl; [done|]. edestruct Hs.
         eapply step_woken; [done..|]. unfold main_step. by rewrite Hm. }
    all: edestruct Hs; eapply (step_main 0); [by rewrite Hm|unfold main_step; rewrite Hm; reflexivity].
Qed.

Lemma nsteps_remaining c n c' :
  running_ c = false -> nsteps start_step n c c' -> running_ c' = false /\ (n + remaining c' <= remaining c)%nat.
Proof.
  intros Hr Hn. induction Hn as [|n c c1 c' Hs Hn IH]; [done|].
  destruct (start_step_remaining _ _ Hr Hs) as [Hr1 Hlt]. specialize (IH Hr1) as [? ?]. split; [done|lia].
Qed.

Lemma nsteps_reach c n c' : start_reach c -> nsteps start_step n c c' -> start_reach c'.
Proof. unfold start_reach. intros Hc Hn. apply (transitivity (R := rtc start_step) Hc). apply rtc_nsteps. by exists n. Qed.

(** ** Schedules *)

(** A schedule of single steps, executed. *)
Inductive turn := Main (clientId : Z) | Handler (i : nat) | Die (i : nat).

Definition do_turn (t : turn) (c : node_threads) : option node_threads :=
  match t with
  | Main id =>
      match main c with
      | AtAccept => if listening c || negb wakes || bool_decide (id = -1) then main_step id c else None
      | _ => main_step id c
      end
  | Handler i => handler_step i c
  | Die i => if bool_decide (handlers c !! i = Some Serving) then Some (die i c) else None
  end.

Fixpoint schedule (ts : list turn) (c : node_threads) : option node_threads :=
  match ts with
  | [] => Some c
  | t :: ts' => match do_turn t c with Some c' => schedule ts' c' | None => None end
  end.

Lemma do_turn_step t c c' : do_turn t c = Some c' -> start_step c c'.
Proof.
  destruct t as [id|i|i]; simpl; intros E.
  - destruct (main c) eqn:Hm; try (left; eapply step_main; [by rewrite Hm|exact E]).
    destruct (listening c) eqn:Hl; [right; apply (step_accept id); auto|]. simpl in E.
    destruct (decide (wakes = true)) as [Hw|Hw%not_true_is_false]; rewrite Hw in E; simpl in E;
      [|right; apply (step_accept id); auto].
    case_bool_decide as Hid; [|done]. left. subst id. by apply step_woken.
  - left. by eapply step_handler.
  - case_bool_decide; [|done]. simplify_eq. left. by apply step_die.
Qed.

Lemma schedule_steps ts c c' : schedule ts c = Some c' -> rtc start_step c c'.
Proof.
  revert c. induction ts as [|t ts IH]; simpl; intros c E; [by simplify_eq|].
  destruct (do_turn t c) as [c1|] eqn:Et; [|done]. eapply rtc_l; [by eapply do_turn_step|by apply IH].
Qed.

Lemma schedule_reach ts c : schedule ts started = Some c -> start_reach c.
Proof. apply schedule_steps. Qed.

Lemma one_ended_stuck m r n l c' :
  m = Returned \/ m = Blocked \/ (m = AtAccept /\ wakes = false) ->
  ~ thread_step (NodeThreads m [Ended] r n l) c'.
Proof.
  intros Hm H.
  inversion H as [id ? ? Hne E|? ? Ha Hw ? E|[|i] ? ? E|[|i] ? Hi]; subst; simpl in *; try done;
    destruct Hm as [->|[->|[-> ?]]]; try done; congruence.
Qed.
End Kernel.

(** One client, whose [DIE] stops the node before the main thread is back in [accept], and
    one whose [DIE] finds it there. *)
Definition one_client : list turn := [Main 0; Main 0; Main 1; Main 0; Die 0; Handler 0; Main 0].
Definition one_client_in_accept : list turn := [Main 0; Main 0; Main 1; Main 0; Main 0; Main 0; Die 0; Handler 0].

(** ** Properties *)

(** C27. [start] never returns while the node runs or while a handler is at work (as long as fewer
    than [2^31] connections were accepted, the range of the counter): every handler
    has left [handleClient] and been uncounted, so the object is not destroyed under a
    client.  This holds whatever the kernel does with a blocked [accept]. *)
Theorem start_waits_for_handlers wakes c :
  start_reach wakes c -> Z.of_nat (length (handlers c)) < 2 ^ 31 -> main c = Returned ->
  running_ c = false /\ Serving ∉ handlers c /\ Forall (fun h => h = Counted \/ h = Ended) (handlers c).
Proof.
  intros [_ Hr Hz _]%start_reach_inv Hlen Hm.
  assert (Forall (fun h => h = Counted \/ h = Ended) (handlers c)) as Hall.
  { specialize (Hz Hlen Hm). apply Forall_forall. intros h Hh. unfold serving in Hz. apply nil_length_inv in Hz.
    assert (active h <> true) as Ha.
    { intros Ha. assert (h ∈ filter (fun h => active h = true) (handlers c)) as H by by apply list_elem_of_filter.
      rewrite Hz in H. by apply not_elem_of_nil in H. }
    destruct h; auto; by destruct Ha. }
  split_and!; [|by intros [|]%(proj1 (Forall_forall _ _) Hall)|done].
  destruct (running_ c); [|done]. destruct (Hr eq_refl) as [?|[?|[?|?]]]; congruence.
Qed.

(** C28. After [DIE] every execution is over within [6n + 13] steps, [n] the number of accepted
    connections, if every client that is served ends at some time.  When no thread can go on
    by itself all handlers have ended, and [start] has returned, or waits on
    [handlersCv_] for ever, or is still in [accept] on the socket that was closed; the last
    only where the kernel does not wake it, and then it needs one more client to connect.  The
    second outcome is reachable, with the count at 0 (the notification came between the
    test of the predicate and the block); so are the third, from which that client's
    connection leads to the return, and a [start] that returned while a handler
    has its [notify_one] still to make. *)
Theorem start_ends_or_waits_for_ever wakes :
  (forall c n c', start_reach wakes c -> running_ c = false -> nsteps (start_step wakes) n c c' ->
     (n <= 6 * length (handlers c) + 13)%nat /\
     ((forall c'', ~ thread_step wakes c' c'') ->
      Forall (.= Ended) (handlers c') /\
      (main c' = Returned \/ main c' = Blocked \/ (main c' = AtAccept /\ listening c' = false /\ wakes = false)))) /\
  (exists c, start_reach wakes c /\ (forall c', ~ thread_step wakes c c') /\
     main c = Returned /\ handlers c = [Ended]) /\
  (exists c, start_reach wakes c /\ (forall c', ~ thread_step wakes c c') /\
     main c = Blocked /\ activeHandlers_ c = 0 /\ handlers c = [Ended]) /\
  (wakes = false -> exists c, start_reach wakes c /\ (forall c', ~ thread_step wakes c c') /\
     main c = AtAccept /\ listening c = false /\ activeHandlers_ c = 0 /\ handlers c = [Ended] /\
     exists c', rtc (start_step wakes) c c' /\ main c' = Returned /\ handlers c' = [Ended; Ended]) /\
  (exists c, start_reach wakes c /\ main c = Returned /\ Counted ∈ handlers c).
Proof.
  split_and!.
  - intros c n c' Hc Hr Hn. destruct (nsteps_remaining _ _ _ _ Hr Hn) as [Hr' Hle]. split.
    + assert (sum_list_with weight (handlers c) <= 6 * length (handlers c))%nat.
      { clear. induction (handlers c) as [|[] hs IH]; simpl; lia. }
      unfold remaining in Hle at 2. destruct (main c); lia.
    + intros [Hend Hm]%stuck_state. split; [done|]. destruct Hm as [?|[?|[Hm Hw]]]; [by auto..|].
      assert (listening c' = false) as Hl.
      { destruct (inv_stopped _ (start_reach_inv _ _ (nsteps_reach _ _ _ _ Hc Hn)) Hr') as [?|Hin]; [done|].
        rewrite Forall_forall in Hend. discriminate (Hend _ Hin). }
      right; right. split_and!; [done..|]. destruct wakes; [|done]. rewrite Hw in Hl; done.
  - exists (NodeThreads Returned [Ended] false 0 false). split_and!; [|intros c'; apply one_ended_stuck; auto|done..].
    apply (schedule_reach _ (one_client ++ [Handler 0; Main 0; Handler 0])). by destruct wakes.
  - exists (NodeThreads Blocked [Ended] false 0 false). split_and!; [|intros c'; apply one_ended_stuck; auto|done..].
    apply (schedule_reach _ (one_client ++ [Main 0; Handler 0; Handler 0; Main 0])). by destruct wakes.
  - intros ->. exists (NodeThreads AtAccept [Ended] false 0 false). split_and!; [|intros c'; apply one_ended_stuck; auto|done..|].
    + by apply (schedule_reach _ (one_client_in_accept ++ [Handler 0; Handler 0])).
    + exists (NodeThreads Returned [Ended; Ended] false 0 false). split_and!; [|done..].
      by apply (schedule_steps _ [Main 2; Main 0; Handler 1; Handler 1; Main 0; Main 0]).
  - exists (NodeThreads Returned [Counted] false 0 false). split_and!; [|done|by left].
    apply (schedule_reach _ (one_client ++ [Handler 0; Main 0])). by destruct wakes.
Qed.

(** One client is served, stops the node and ends; [start] returns. *)
Lemma start_waits_for_handlers_witness :
  (Serving ∉ [Ended]) /\ start_reach false (NodeThreads Returned [Ended] false 0 false).
Proof.
  assert (start_reach false (NodeThreads Returned [Ended] false 0 false)) as Hr
    by (by apply (schedule_reach _ (one_client ++ [Handler 0; Main 0; Handler 0]))).
  destruct (start_waits_for_handlers false _ Hr) as (_ & H & _); [by vm_compute|done|]. by split.
Defined.
