(* ===== verification/StorageNode.v ===== *)
(** * Storage nodes: [src/storage/storage_node.{hpp,cpp}]

    One turn of the loop of [handleClient], as a program over the node's members.
    The theorems: the node is a key-value store for the chunks (a refinement of a
    map, over whole connections); its answer to every command, errors included;
    and, for every interleaving of client threads, that no empty chunk is ever
    stored and no chunk is lost.  The accept loop and the end of [start] are in
    [Handlers.v]. *)
From S2P Require Import Prelude IoStream Proc.

#[local] Open Scope Z_scope.

(** ** The node *)

(** [storage_] and [running_]. *)
Record StorageNode := MkStorage { storage_ : gmap string bytes; running_ : bool }.

Definition new_node : StorageNode := MkStorage ∅ false.

Definition set_storage (f : gmap string bytes -> gmap string bytes) (s : StorageNode) : StorageNode :=
  MkStorage (f (storage_ s)) (running_ s).
Definition set_running (b : bool) (s : StorageNode) : StorageNode := MkStorage (storage_ s) b.

(** ** [handleClient] *)

(** [STORE]: the turn from the extraction of the hash on. *)
Definition handleStore (iss : istream) : io StorageNode bool :=
  match extract_string iss with
  | (None, _) => server_sendMessage "ERROR";; mret true
  | (Some hash, _) =>
      server_sendMessage "READY";;
      data ← server_recvData;
      if bool_decide (data = []) then mret false
      else
        with_lock storageMutex_ (modify (set_storage (<[hash := data]>)));;
        server_sendMessage "ACK";;
        mret true
  end.

(** [GET]: the chunk is copied under the mutex and sent outside it. *)
Definition handleGet (iss : istream) : io StorageNode bool :=
  match extract_string iss with
  | (None, _) => server_sendMessage "ERROR";; mret true
  | (Some hash, _) =>
      data ← with_lock storageMutex_ (reads (fun s => default [] (storage_ s !! hash)));
      (if bool_decide (data = []) then server_sendMessage "NOT_FOUND"
       else server_sendMessage "FOUND";; server_sendData data);;
      mret true
  end.

(** One turn of [while (running_)]; [false] leaves the loop. *)
Definition handleClient_turn : io StorageNode bool :=
  run_on ← reads running_;
  if negb run_on then mret false else
  command ← server_recvMessage;
  if bool_decide (command = EmptyString) then mret false else
  let '(o, iss) := extract_string (istringstream command) in
  let op := default EmptyString o in
  if bool_decide (op = "STORE") then handleStore iss
  else if bool_decide (op = "GET") then handleGet iss
  else if bool_decide (op = "DIE") then
    modify (set_running false);; server_stop;; mret false
  else server_sendMessage "ERROR";; mret true.

(** [handleClient]: the loop, then [closeClient]. *)
Definition handleClient : io StorageNode bool :=
  again ← handleClient_turn;
  if again : bool then mret true else server_closeClient;; mret false.

(** ** The contract: a map from hashes to chunks *)

Inductive request :=
| Store (hash : string) (data : bytes)
| Get (hash : string)
| Other (command : string).

(** What a client sends. *)
Definition messages (r : request) : list answer :=
  match r with
  | Store h d => [Msg (bytes_of_string ("STORE " +:+ h)); Msg d]
  | Get h => [Msg (bytes_of_string ("GET " +:+ h))]
  | Other c => [Msg (bytes_of_string c)]
  end.

Definition wf_request (r : request) : Prop :=
  match r with
  | Store h d => token h /\ d <> []
  | Get h => token h
  | Other c => c <> EmptyString /\ match words c with
      | op :: _ => op <> "STORE" /\ op <> "GET" /\ op <> "DIE"
      | [] => True
      end
  end.

Definition kv_update (m : gmap string bytes) (r : request) : gmap string bytes :=
  match r with Store h d => <[h := d]> m | _ => m end.

(** What the node answers, in order. *)
Definition kv_answer (m : gmap string bytes) (r : request) : list bytes :=
  match r with
  | Store _ _ => [bytes_of_string "READY"; bytes_of_string "ACK"]
  | Get h => match m !! h with
             | Some d => [bytes_of_string "FOUND"; d]
             | None => [bytes_of_string "NOT_FOUND"]
             end
  | Other _ => [bytes_of_string "ERROR"]
  end.

Fixpoint kv_answers (m : gmap string bytes) (rs : list request) : list bytes :=
  match rs with [] => [] | r :: rs' => kv_answer m r ++ kv_answers (kv_update m r) rs' end.

Definition no_empty (m : gmap string bytes) : Prop := forall h d, m !! h = Some d -> d <> [].

(** ** One turn *)

(** The same, stated on the words of the command. *)
Definition turn_spec (s : StorageNode) (c : string) (l : list answer)
    : (bool * StorageNode * list answer) * list event :=
  let got := Received (bytes_of_string c) in
  let says m := Sent (bytes_of_string m) in
  match words c with
  | op :: args =>
      if bool_decide (op = "STORE") then
        match args with
        | h :: _ =>
            let '(a, l') := next_answer l in
            if bool_decide (msg_of a = [])
            then ((false, s, l'), [got; says "READY"; Received []])
            else ((true, set_storage (<[h := msg_of a]>) s, l'),
                  [got; says "READY"; Received (msg_of a); says "ACK"])
        | [] => ((true, s, l), [got; says "ERROR"])
        end
      else if bool_decide (op = "GET") then
        match args with
        | h :: _ =>
            let d := default [] (storage_ s !! h) in
            ((true, s, l),
             got :: if bool_decide (d = []) then [says "NOT_FOUND"] else [says "FOUND"; Sent d])
        | [] => ((true, s, l), [got; says "ERROR"])
        end
      else if bool_decide (op = "DIE") then ((false, set_running false s, l), [got; ServerStopped])
      else ((true, s, l), [got; says "ERROR"])
  | [] => ((true, s, l), [got; says "ERROR"])
  end.

Lemma run_turn s c l :
  running_ s = true -> c <> EmptyString ->
  run handleClient_turn s (Msg (bytes_of_string c) :: l) = turn_spec s c l.
Proof.
  intros Hr Hc. unfold handleClient_turn, turn_spec. simpl. rewrite Hr. simpl.
  rewrite string_bytes_id, bool_decide_eq_false_2 by done.
  pose proof (extract_string_words (istringstream c) (clean_new c)) as Hop. simpl in Hop.
  destruct (words c) as [|op args].
  { destruct Hop as (iss & -> & _). reflexivity. }
  destruct Hop as (iss & -> & Hiss & Hw). cbn [default from_option id].
  pose proof (extract_string_words iss Hiss) as Hh. rewrite Hw in Hh.
  destruct (bool_decide (op = "STORE")); [|destruct (bool_decide (op = "GET"))].
  - unfold handleStore. destruct args as [|h args].
    + destruct Hh as (iss' & -> & _). reflexivity.
    + destruct Hh as (iss' & -> & _). simpl. destruct (next_answer l) as [a l']. simpl.
      destruct (bool_decide (msg_of a = [])) eqn:E; simpl; [|done].
      apply bool_decide_eq_true in E. by rewrite E.
  - unfold handleGet. destruct args as [|h args].
    + destruct Hh as (iss' & -> & _). reflexivity.
    + destruct Hh as (iss' & -> & _). simpl. by case_bool_decide.
  - by destruct (bool_decide (op = "DIE")).
Qed.

Lemma run_handleClient s c l :
  running_ s = true -> c <> EmptyString ->
  run handleClient s (Msg (bytes_of_string c) :: l) =
  let '((again, s', l'), tr) := turn_spec s c l in
  ((again, s', l'), tr ++ if again then [] else [ClientClosed]).
Proof.
  intros Hr Hc. unfold handleClient. rewrite run_bind, run_turn by done.
  destruct (turn_spec s c l) as [[[[] s'] l'] tr]; done.
Qed.

(** The end of the connection ends the loop. *)
Lemma run_handleClient_eof s :
  run handleClient s [] =
  ((false, s, []), (if running_ s then [Received []] else []) ++ [ClientClosed]).
Proof. unfold handleClient, handleClient_turn. simpl. by destruct (running_ s). Qed.

Lemma words_command op w : token op -> token w -> words (op +:+ String " " w) = [op; w].
Proof.
  intros Ho Hw. rewrite words_token by done. simpl. f_equal.
  rewrite <- (str_app_nil_r w) at 1. by rewrite words_token.
Qed.

(** A well-formed request is answered as the map does. *)
Lemma turn_request s r l :
  wf_request r -> no_empty (storage_ s) -> running_ s = true ->
  exists tr, run handleClient s (messages r ++ l) =
    ((true, MkStorage (kv_update (storage_ s) r) true, l), tr) /\
    sent tr = kv_answer (storage_ s) r.
Proof.
  intros Hwf Hne Hr. destruct s as [m rn]. cbn [storage_ running_] in *. subst rn.
  destruct r as [h d|h|c]; cbn [messages wf_request kv_update kv_answer app] in *.
  - destruct Hwf as [Hh Hd]. change ("STORE " +:+ h) with ("STORE" +:+ String " " h).
    rewrite run_handleClient by done. unfold turn_spec.
    rewrite (words_command "STORE" h ltac:(done) Hh). simpl. rewrite bool_decide_eq_false_2 by done.
    by eexists.
  - change ("GET " +:+ h) with ("GET" +:+ String " " h).
    rewrite run_handleClient by done. unfold turn_spec.
    rewrite (words_command "GET" h ltac:(done) Hwf). simpl.
    destruct (m !! h) as [d|] eqn:E; simpl; [|by eexists].
    rewrite bool_decide_eq_false_2 by (by eapply Hne). by eexists.
  - destruct Hwf as [Hc Hw]. rewrite run_handleClient by done. unfold turn_spec.
    destruct (words c) as [|op args]; [by eexists|]. destruct Hw as (H1 & H2 & H3).
    rewrite !bool_decide_eq_false_2 by done. by eexists.
Qed.

Lemma kv_update_no_empty m r : wf_request r -> no_empty m -> no_empty (kv_update m r).
Proof.
  destruct r as [h d|h|c]; simpl; [|done..]. intros [_ Hd] Hm h' d'.
  rewrite lookup_insert_Some. intros [[<- <-]|[_ E]]; [done|by eapply Hm].
Qed.

(** ** Properties *)

(** C15. The storage node refines a map from hashes to chunks: over a whole
    connection, whatever requests the client makes, the node answers [READY]/[ACK],
    the chunk last stored under the hash or [NOT_FOUND] exactly as the map does,
    keeps the map's contents, and ends the connection at its end. *)
Theorem storage_refines_map s rs fuel :
  running_ s = true -> no_empty (storage_ s) -> Forall wf_request rs ->
  (length rs < fuel)%nat ->
  exists tr,
    run_loop fuel handleClient s (concat (messages <$> rs)) =
      ((true, MkStorage (foldl kv_update (storage_ s) rs) true, []), tr) /\
    sent tr = kv_answers (storage_ s) rs /\ last tr = Some ClientClosed.
Proof.
  intros Hr Hne Hwf. revert s fuel Hr Hne.
  induction Hwf as [|r rs Hwr Hwf IH]; intros s fuel Hr Hne Hfuel;
    (destruct fuel as [|fuel]; [simpl in Hfuel; lia|]); cbn [run_loop fmap list_fmap concat].
  - rewrite run_handleClient_eof, Hr. simpl. destruct s; simpl in *; subst. by eexists.
  - destruct (turn_request s r (concat (messages <$> rs)) Hwr Hne Hr) as (tr1 & -> & Hs1).
    destruct (IH (MkStorage (kv_update (storage_ s) r) true) fuel) as (tr2 & -> & Hs2 & Hl);
      [done|by apply kv_update_no_empty|simpl in Hfuel; lia|].
    eexists. split_and!; [done| |].
    + by rewrite sent_app, Hs1, Hs2.
    + by rewrite last_app, Hl.
Qed.

(** A chunk is stored, overwritten and read back. *)
Lemma storage_refines_map_witness :
  exists tr,
    run_loop 5 handleClient (MkStorage ∅ true)
      (concat (messages <$> [Get "h1"; Store "h1" [x01]; Store "h1" [x02; x03]; Get "h1"])) =
    ((true, MkStorage (<["h1" := [x02; x03]]> (<["h1" := [x01]]> ∅)) true, []), tr) /\
    last (sent tr) = Some [x02; x03].
Proof.
  destruct (storage_refines_map (MkStorage ∅ true)
    [Get "h1"; Store "h1" [x01]; Store "h1" [x02; x03]; Get "h1"] 5) as (tr & H & Hs & _).
  - done.
  - intros h d. cbn [storage_]. by rewrite lookup_empty.
  - repeat constructor; done.
  - simpl. lia.
  - exists tr. split; [exact H|]. rewrite Hs. by vm_compute.
Defined.

(** What one turn of [handleClient] does with any command whatever: the answer
    is the one of [turn_spec], a function of the command's words; an [ERROR] answer
    changes nothing and keeps the connection; the node stops exactly on [DIE]; the
    connection is closed exactly when the loop is left; and the map changes only by
    one non-empty chunk, which is acknowledged. *)
Theorem handleClient_commands s c l :
  running_ s = true -> c <> EmptyString ->
  let '((again, s', l'), tr) := run handleClient s (Msg (bytes_of_string c) :: l) in
  (exists tr', turn_spec s c l = ((again, s', l'), tr') /\
     tr = tr' ++ if again then [] else [ClientClosed]) /\
  (last tr = Some (Sent (bytes_of_string "ERROR")) -> s' = s /\ l' = l /\ again = true) /\
  (running_ s' = false <-> hd_error (words c) = Some "DIE") /\
  (again = false <-> last tr = Some ClientClosed) /\
  (storage_ s' = storage_ s \/
   exists h d, storage_ s' = <[h := d]> (storage_ s) /\ d <> [] /\
     last tr = Some (Sent (bytes_of_string "ACK"))).
Proof.
  intros Hr Hc. rewrite run_handleClient by done.
  destruct (turn_spec s c l) as [[[again s'] l'] tr] eqn:E. split; [by eexists|].
  assert (forall m m' : string, Some (Sent (bytes_of_string m)) = Some (Sent (bytes_of_string m'))
            -> m = m') as Hinj.
  { intros m m' [= H]. by rewrite <- (string_bytes_id m), H, string_bytes_id. }
  unfold turn_spec in E. destruct (words c) as [|op args]; simpl.
  { simplify_eq. rewrite Hr. naive_solver. }
  repeat case_bool_decide; subst; try destruct args as [|h args];
    try destruct (next_answer l) as [a l1]; try case_bool_decide;
    simplify_eq; simpl; rewrite ?Hr; naive_solver.
Qed.

(** A [STORE] without a hash, and a [DIE]. *)
Lemma handleClient_commands_witness :
  (let '((again, s', _), _) :=
     run handleClient (MkStorage ∅ true) [Msg (bytes_of_string " STORE  ")] in
   s' = MkStorage ∅ true /\ again = true) /\
  (let '((_, s', _), _) := run handleClient (MkStorage ∅ true) [Msg (bytes_of_string "DIE")] in
   running_ s' = false).
Proof.
  split.
  - pose proof (handleClient_commands (MkStorage ∅ true) " STORE  " [] eq_refl ltac:(done)) as H.
    destruct (run handleClient _ _) as [[[again s'] l'] tr] eqn:E.
    destruct H as (_ & H & _). destruct H as (H1 & _ & H2); [|done].
    by vm_compute in E; simplify_eq.
  - pose proof (handleClient_commands (MkStorage ∅ true) "DIE" [] eq_refl ltac:(done)) as H.
    destruct (run handleClient _ _) as [[[again s'] l'] tr].
    destruct H as (_ & _ & H & _). by apply H.
Defined.

(** ** All interleavings of client threads *)

Section Interleavings.
(** [P]: any property every message of the clients has. *)
Context (P : bytes -> Prop).

Definition chunks_ok (m : gmap string bytes) : Prop :=
  forall h d, m !! h = Some d -> d <> [] /\ P d.

(** One access of one thread: chunks may be replaced but never disappear, and a
    stopped node does not run again. *)
Definition progress (s s' : StorageNode) : Prop :=
  (forall h, is_Some (storage_ s !! h) -> is_Some (storage_ s' !! h)) /\
  (running_ s = false -> running_ s' = false).

#[export] Instance progress_pre : PreOrder progress.
Proof. unfold progress. split; [done|]. intros ?? ? [??] [??]. naive_solver. Qed.

Lemma handleClient_safe :
  safe_body (fun _ => True) progress P storageMutex_ storage_ chunks_ok handleClient.
Proof.
  unfold safe_body, handleClient. apply pool_safe_bind. unfold handleClient_turn.
  simpl. intros s _. split_and!; [done|done|done|].
  destruct (running_ s); simpl; [|done]. intros c Hc. case_bool_decide; simpl; [done|].
  destruct (extract_string _) as [o iss]. repeat case_bool_decide; simpl; [| | |done].
  - unfold handleStore. destruct (extract_string iss) as [[h|] ?]; simpl; [|done].
    intros d Hd. case_bool_decide; simpl; [done|]. split; [done|]. intros m Hm s' _ <-.
    split_and!; [done|split; [|done]| |done].
    + intros h' Hh. unfold set_storage. simpl. rewrite lookup_insert_is_Some.
      destruct (decide (h = h')); auto.
    + intros h' d'. simpl. rewrite lookup_insert_Some.
      intros [[<- <-]|[_ E]]; [naive_solver|by eapply Hm].
  - unfold handleGet. destruct (extract_string iss) as [[h|] ?]; simpl; [|done].
    split; [done|]. intros m Hm s' _ <-. split_and!; [done|done|done|].
    case_bool_decide; done.
  - intros s' _. split_and!; [done|split; [by intros h|done]|done|done].
Qed.
End Interleavings.

(** In every interleaving of any number of client threads, whatever the clients
    send and the network does: no stored chunk is empty and every stored chunk is a
    message some client sent, at any moment [storageMutex_] is free (chunks are
    written under it only); no hash that was stored ever loses its chunk; and a node
    that has been told to stop does not run again. *)
Theorem storage_interleavings (P : bytes -> Prop) s0 c :
  chunks_ok P (storage_ s0) ->
  pool_reach (fun b => b = handleClient) P s0 c ->
  (held c storageMutex_ = None -> chunks_ok P (storage_ (shared c))) /\
  (forall h, is_Some (storage_ s0 !! h) -> is_Some (storage_ (shared c) !! h)) /\
  (running_ s0 = false -> running_ (shared c) = false).
Proof.
  intros H0 Hr. destruct (pool_sound (fun _ => True) progress P storageMutex_ storage_
    (chunks_ok P) (fun b => b = handleClient) s0 c) as (_ & HG & HI);
    [intros ? ->; apply handleClient_safe|done|done|done|].
  apply rtc_preorder in HG; [|apply _]. by destruct HG.
Qed.

(** Two clients whose [STORE]s overlap: the second thread stores while the first one
    waits for its chunk. *)
Definition two_stores : list (choice StorageNode) :=
  let say m := Msg (bytes_of_string m) in
  let a := Ok true in
  [Spawn handleClient; Spawn handleClient;
   Do 0 a; Do 0 a; Do 0 a; Do 0 (say "STORE h"); Do 0 a; Do 0 a; Do 0 a;
   Do 1 a; Do 1 a; Do 1 a; Do 1 (say "STORE h"); Do 1 a; Do 1 a; Do 1 a;
   Do 1 a; Do 1 a; Do 1 (Msg [x07]); Do 1 a; Do 1 a;
   Do 0 a; Do 0 a; Do 0 (Msg [x08; x09]); Do 1 a; Do 1 a; Do 1 a; Do 1 a; Again 1].

Lemma storage_interleavings_witness :
  let P d := d <> [] in
  match pool_exec two_stores (start_pool (MkStorage ∅ true)) with
  | Some c => storage_ (shared c) !! "h" = Some [x07] /\ chunks_ok P (storage_ (shared c))
  | None => False
  end.
Proof.
  intros P. assert (option_map (fun c => (storage_ (shared c) !! "h", held c storageMutex_))
    (pool_exec two_stores (start_pool (MkStorage ∅ true))) = Some (Some [x07], None)) as Hv
    by (by vm_compute).
  destruct (pool_exec two_stores _) as [c|] eqn:E; [|discriminate Hv].
  assert (pool_reach (fun b => b = handleClient) P (MkStorage ∅ true) c) as Hr.
  { eapply pool_exec_reach; [|exact E]. unfold two_stores.
    repeat (apply Forall_cons; split); try exact (Forall_nil_2 _); unfold allowed, P;
      first [reflexivity | exact I | left; reflexivity | right; discriminate]. }
  assert (chunks_ok P (storage_ (MkStorage ∅ true))) as H0.
  { intros h d. cbn [storage_]. by rewrite lookup_empty. }
  destruct (storage_interleavings P _ c H0 Hr) as (H & _).
  injection Hv as H1 H2. split; [done|]. by apply H.
Defined.
