(* ===== verification/Wire.v ===== *)
(** * The metadata messages

    [common/file_metadata.hpp] and the two text messages that carry a
    [FileMetadata]: the [PUT] command, written by [Client::putMetadataToNode] and
    read by [MetadataNode::handlePut], and the [FOUND] answer, written by
    [MetadataNode::handleGet] and read by [Client::getMetadataFromNode].

    The theorems: each message read back gives what was written, and whatever
    command [handlePut] accepts, the answer to a later [GET] gives the client the
    record the node stored. *)
From S2P Require Import Prelude IoStream.

#[local] Open Scope Z_scope.

Record FileMetadata := Meta {
  filename : string;
  rootHash : string;
  fileSize : Z;
  chunkSize : Z;
  totalChunks : Z;
  chunkHashes : list string
}.

#[export] Instance FileMetadata_eq_dec : EqDecision FileMetadata.
Proof. solve_decision. Defined.

(** [common::FileMetadata meta;] *)
Definition no_metadata : FileMetadata := Meta EmptyString EmptyString 0 0 0 [].

(** ** Lists of hashes *)

(** [for (i...) { if (i > 0) s += ","; s += hashes[i]; }] *)
Definition write_hashes (hashes : list string) : string :=
  (foldl (fun '(s, first) h =>
            ((if first : bool then s else s +:+ ",") +:+ h, false)) (EmptyString, true) hashes).1.

(** [while (std::getline(hs, h, ',')) if (!h.empty()) chunkHashes.push_back(h);] *)
Definition read_hashes (hashesStr : string) : list string :=
  filter nonempty (all_lines "," hashesStr).

(** ** [PUT] *)

Definition put_command (m : FileMetadata) : string :=
  "PUT " +:+ filename m +:+ " " +:+ to_string (fileSize m) +:+ " " +:+ to_string (chunkSize m)
    +:+ " " +:+ to_string (totalChunks m) +:+ " " +:+ rootHash m +:+ " "
    +:+ write_hashes (chunkHashes m).

(** [iss >> op >> filename >> fileSize >> chunkSize >> totalChunks >> rootHash >>
    hashesStr]; [None] when the stream fails. *)
Definition parse_put (command : string) : option FileMetadata :=
  let '(_, iss) := extract_string (istringstream command) in
  let '(filename, iss) := extract_string iss in
  let '(fileSize, iss) := extract_i64 iss in
  let '(chunkSize, iss) := extract_i32 iss in
  let '(totalChunks, iss) := extract_i32 iss in
  let '(rootHash, iss) := extract_string iss in
  let '(hashesStr, iss) := extract_string iss in
  if failbit iss then None
  else Some (Meta (default EmptyString filename) (default EmptyString rootHash)
                  (default 0 fileSize) (default 0 chunkSize) (default 0 totalChunks)
                  (read_hashes (default EmptyString hashesStr))).

(** ** [FOUND] *)

Definition found_message (m : FileMetadata) : string :=
  "FOUND " +:+ to_string (fileSize m) +:+ " " +:+ to_string (chunkSize m) +:+ " "
    +:+ to_string (totalChunks m) +:+ " " +:+ rootHash m +:+ " " +:+ write_hashes (chunkHashes m).

(** The end of [getMetadataFromNode]: what the client makes of the answer. *)
Definition parse_found (name response : string) : FileMetadata :=
  if bool_decide ((6 < String.length response)%nat) &&
     bool_decide (String.substring 0 6 response = "FOUND ")
  then
    let iss := istringstream (String.substring 6 (String.length response - 6) response) in
    let '(fileSize, iss) := extract_i64 iss in
    let '(chunkSize, iss) := extract_i32 iss in
    let '(totalChunks, iss) := extract_i32 iss in
    let '(rootHash, iss) := extract_string iss in
    let '(hashesStr, iss) := extract_string iss in
    let numbers name hashes :=
      Meta name (default EmptyString rootHash) (default 0 fileSize) (default 0 chunkSize)
           (default 0 totalChunks) hashes in
    if failbit iss then numbers EmptyString []
    else numbers name (read_hashes (default EmptyString hashesStr))
  else no_metadata.

(** [!meta.filename.empty() || !meta.chunkHashes.empty()]: the client's test. *)
Definition is_found (m : FileMetadata) : bool :=
  negb (bool_decide (filename m = EmptyString)) || negb (bool_decide (chunkHashes m = [])).

(** ** Well-formed records *)

Definition no_comma (w : string) : bool := str_all (fun a => negb (bool_decide (a = ","%char))) w.

(** A hash the lists carry. *)
Definition hash_word (h : string) : Prop := token h /\ no_comma h = true.

Record wf_meta (m : FileMetadata) : Prop := {
  wf_name : token (filename m);
  wf_root : token (rootHash m);
  wf_size : INT64_MIN <= fileSize m <= INT64_MAX;
  wf_chunk : INT_MIN <= chunkSize m <= INT_MAX;
  wf_total : INT_MIN <= totalChunks m <= INT_MAX;
  wf_hashes : Forall hash_word (chunkHashes m)
}.

(** ** The lists *)

Lemma write_hashes_join hs : write_hashes hs = join_with "," hs.
Proof.
  unfold write_hashes.
  assert (forall hs s, (foldl (fun '(s, first) h =>
      ((if first : bool then s else s +:+ ",") +:+ h, false)) (s, false) hs).1 =
    match hs with [] => s | _ => s +:+ String "," (join_with "," hs) end) as Hstep.
  { clear hs. intros hs. induction hs as [|h hs IH]; intros s; [done|]. cbn [foldl]. rewrite IH.
    destruct hs as [|h' hs].
    - by rewrite str_app_assoc.
    - cbn [join_with]. by rewrite !str_app_assoc. }
  destruct hs as [|h hs]; [done|]. cbn [foldl]. rewrite Hstep.
  destruct hs as [|h' hs]; [done|]. done.
Qed.

Lemma write_hashes_token hs : hs <> [] -> Forall hash_word hs -> token (write_hashes hs).
Proof.
  rewrite write_hashes_join. intros Hne Hall. induction Hall as [|h hs [Hh _] Hall IH]; [done|].
  destruct hs as [|h' hs]; [done|]. apply token_app; [done|].
  destruct (IH ltac:(done)) as [_ Hj]. exact Hj.
Qed.

Lemma read_write_hashes hs : Forall hash_word hs -> read_hashes (write_hashes hs) = hs.
Proof.
  intros Hall. unfold read_hashes. rewrite write_hashes_join. destruct hs as [|h hs]; [done|].
  apply all_lines_join; [done|]. eapply Forall_impl; [exact Hall|].
  intros w [[Hw _] Hc]. split; [done|exact Hc].
Qed.

Lemma split_on_pieces c p s :
  str_all p s = true ->
  Forall (fun w => str_all p w = true /\
                   str_all (fun a => negb (bool_decide (a = c))) w = true) (split_on c s).
Proof.
  induction s as [|a s IH]; simpl; [by repeat constructor|]. intros [Ha Hs]%andb_prop.
  specialize (IH Hs). destruct (bool_decide (a = c)) eqn:E; [by constructor|].
  destruct (split_on c s) as [|w ws].
  - constructor; [|constructor]. simpl. by rewrite Ha, E.
  - inversion IH as [|? ? [H1 H2] ?]; subst. constructor; [|done]. simpl. by rewrite Ha, E, H1, H2.
Qed.

Lemma read_hashes_words s : token s -> Forall hash_word (read_hashes s).
Proof.
  intros [_ Hs]. unfold read_hashes. rewrite all_lines_split.
  pose proof (split_on_pieces "," not_space s Hs) as H.
  apply Forall_forall. intros h [Hne Hin]%list_elem_of_filter.
  rewrite Forall_forall in H. destruct (H h Hin) as [H1 H2].
  split; [|done]. split; [|done]. intros ->. done.
Qed.

(** ** Reading back *)

Lemma space_app s : " " +:+ s = String " " s.
Proof. done. Qed.

(** One word of a message, with the space before it when it is not the first. *)
Lemma read_word w r :
  token w -> extract_string (IStream (w +:+ String " " r) false false) =
             (Some w, IStream (String " " r) false false).
Proof. intros. by rewrite extract_string_token. Qed.

Lemma read_space_word w r :
  token w -> extract_string (IStream (String " " (w +:+ String " " r)) false false) =
             (Some w, IStream (String " " r) false false).
Proof. intros. by rewrite extract_string_space, read_word. Qed.

Lemma read_last_word w :
  token w -> extract_string (IStream (String " " w) false false) =
             (Some w, IStream EmptyString true false).
Proof.
  intros. rewrite extract_string_space. rewrite <- (str_app_nil_r w) at 1.
  by rewrite extract_string_token.
Qed.

Lemma read_int lo hi z r :
  lo <= z <= hi -> extract_int lo hi (IStream (to_string z +:+ String " " r) false false) =
                   (Some z, IStream (String " " r) false false).
Proof. intros. by rewrite extract_int_to_string. Qed.

Lemma read_space_int lo hi z r :
  lo <= z <= hi ->
  extract_int lo hi (IStream (String " " (to_string z +:+ String " " r)) false false) =
  (Some z, IStream (String " " r) false false).
Proof. intros. by rewrite extract_int_space, read_int. Qed.

(** [cmd] parses back. *)
Lemma parse_put_command m :
  wf_meta m -> chunkHashes m <> [] -> parse_put (put_command m) = Some m.
Proof.
  intros [] Hne. unfold parse_put, put_command, istringstream.
  change ("PUT " +:+ ?x) with ("PUT" +:+ String " " x).
  rewrite read_word by done. rewrite ?space_app.
  rewrite read_space_word by done. rewrite !read_space_int by done. rewrite read_space_word by done.
  rewrite read_last_word by (by apply write_hashes_token). cbn [failbit default from_option id].
  rewrite read_write_hashes by done. by destruct m.
Qed.

(** [substr(6)] of a message that begins with ["FOUND "]. *)
Lemma substring_all s : String.substring 0 (String.length s) s = s.
Proof. induction s as [|a s IH]; [done|]. simpl. by rewrite IH. Qed.

Lemma found_prefix s :
  s <> EmptyString ->
  (6 < String.length ("FOUND " +:+ s))%nat /\
  String.substring 0 6 ("FOUND " +:+ s) = "FOUND " /\
  String.substring 6 (String.length ("FOUND " +:+ s) - 6) ("FOUND " +:+ s) = s.
Proof.
  intros Hne. assert (0 < String.length s)%nat by (destruct s; [done|simpl; lia]).
  rewrite str_length_app. simpl. rewrite Nat.sub_0_r, substring_all. split_and!; [lia| |done].
  by destruct s.
Qed.

Lemma parse_found_any name m :
  wf_meta m -> chunkHashes m <> [] ->
  parse_found name (found_message m) =
  Meta name (rootHash m) (fileSize m) (chunkSize m) (totalChunks m) (chunkHashes m).
Proof.
  intros [] Hne. unfold parse_found, found_message.
  match goal with |- context ["FOUND " +:+ ?x] => destruct (found_prefix x) as (H1 & H2 & H3) end.
  { by destruct (to_string_token (fileSize m)), (to_string (fileSize m)). }
  rewrite H2, H3, !bool_decide_eq_true_2 by done. cbn [andb]. unfold istringstream.
  rewrite ?space_app.
  rewrite read_int by done. rewrite !read_space_int by done. rewrite read_space_word by done.
  rewrite read_last_word by (by apply write_hashes_token). cbn [failbit default from_option id].
  by rewrite read_write_hashes by done.
Qed.

Lemma parse_found_message m :
  wf_meta m -> chunkHashes m <> [] -> parse_found (filename m) (found_message m) = m.
Proof. intros Hwf Hne. rewrite parse_found_any by done. by destruct m. Qed.

(** A record without hashes is not found. *)
Lemma parse_found_empty name m :
  wf_meta m -> chunkHashes m = [] -> is_found (parse_found name (found_message m)) = false.
Proof.
  intros [] Hnil. unfold parse_found, found_message. rewrite Hnil.
  match goal with |- context ["FOUND " +:+ ?x] => destruct (found_prefix x) as (H1 & H2 & H3) end.
  { by destruct (to_string_token (fileSize m)), (to_string (fileSize m)). }
  rewrite H2, H3, !bool_decide_eq_true_2 by done. cbn [andb]. unfold istringstream.
  rewrite ?space_app. rewrite read_int by done. rewrite !read_space_int by done.
  rewrite read_space_word by done. by vm_compute.
Qed.

(** ** What a successful chain of extractions implies *)

Lemma sentry_ok i i' : sentry i = (true, i') -> failbit i = false.
Proof.
  unfold sentry, good. destruct (failbit i); [|done]. by rewrite andb_false_r.
Qed.

Lemma extract_string_ok i o i' :
  extract_string i = (o, i') -> failbit i' = false ->
  failbit i = false /\ exists w, o = Some w /\ token w.
Proof.
  intros E Hf. destruct o as [w|].
  - split; [|exists w; by eauto using extract_string_Some].
    unfold extract_string in E. destruct (sentry i) as [[] i1] eqn:Es; [|done].
    by eapply sentry_ok.
  - apply extract_string_fail_iff in E. destruct E as [_ E]. rewrite E in Hf; done.
Qed.

Lemma extract_int_ok lo hi i o i' :
  lo <= 0 <= hi -> extract_int lo hi i = (o, i') -> failbit i' = false ->
  failbit i = false /\ exists z, o = Some z /\ lo <= z <= hi.
Proof.
  intros Hr E Hf. destruct o as [z|].
  - split; [|exists z; by eauto using extract_int_range].
    unfold extract_int in E. destruct (sentry i) as [[] i1] eqn:Es; [|done]. by eapply sentry_ok.
  - unfold extract_int in E. destruct (sentry i) as [[] i1] eqn:Es.
    + destruct (read_sign _), (span _ _). by repeat case_bool_decide.
    + simplify_eq. unfold sentry in Es. destruct (good i) eqn:Hg.
      * by destruct ((span Ascii.is_space (rest i)).2); simplify_eq.
      * by simplify_eq.
Qed.

Lemma parse_put_wf c m : parse_put c = Some m -> wf_meta m.
Proof.
  unfold parse_put. intros E.
  destruct (extract_string (istringstream c)) as [op i0] eqn:E0.
  destruct (extract_string i0) as [name i1] eqn:E1.
  destruct (extract_i64 i1) as [size i2] eqn:E2.
  destruct (extract_i32 i2) as [chunk i3] eqn:E3.
  destruct (extract_i32 i3) as [total i4] eqn:E4.
  destruct (extract_string i4) as [root i5] eqn:E5.
  destruct (extract_string i5) as [hashes i6] eqn:E6.
  destruct (failbit i6) eqn:Hf; [done|]. injection E as <-.
  apply extract_string_ok in E6 as (Hf5 & hs & -> & Hhs); [|done].
  apply extract_string_ok in E5 as (Hf4 & r & -> & Hroot); [|done].
  apply extract_int_ok in E4 as (Hf3 & t & -> & Ht); [|by vm_compute|done].
  apply extract_int_ok in E3 as (Hf2 & ck & -> & Hck); [|by vm_compute|done].
  apply extract_int_ok in E2 as (Hf1 & sz & -> & Hsz); [|by vm_compute|done].
  apply extract_string_ok in E1 as (_ & n & -> & Hn); [|done].
  split; simpl; try done. by apply read_hashes_words.
Qed.

(** ** Properties *)

(** The client's [PUT] command, read by [handlePut], gives exactly the record
    the client described: file name, sizes, root hash and every chunk hash in
    order, for every record whose name is one word. *)
Theorem put_roundtrip m :
  wf_meta m -> chunkHashes m <> [] -> parse_put (put_command m) = Some m.
Proof. apply parse_put_command. Qed.

Lemma put_roundtrip_witness :
  let m := Meta "a.txt" "r0" 5 1048576 2 ["h1"; "h2"] in
  put_command m = "PUT a.txt 5 1048576 2 r0 h1,h2" /\ parse_put (put_command m) = Some m.
Proof.
  intros m. split; [by vm_compute|]. apply (put_roundtrip m); [|done].
  split; simpl; try (by vm_compute); repeat constructor; done.
Defined.

(** C23. Whatever command [handlePut] accepts (any text at all), the record it stores
    is well formed, and the answer to a later [GET] of that name is read by the
    client as that very record; a record without hashes, which a [PUT] of only
    commas gives, is the one case the client takes for a missing file. *)
Theorem accepted_put_is_readable c m :
  parse_put c = Some m ->
  wf_meta m /\
  (chunkHashes m <> [] ->
     parse_found (filename m) (found_message m) = m /\ is_found m = true) /\
  (chunkHashes m = [] -> is_found (parse_found (filename m) (found_message m)) = false).
Proof.
  intros Hwf%parse_put_wf. split; [done|]. split.
  - intros Hne. split; [by apply parse_found_message|]. unfold is_found.
    rewrite (bool_decide_eq_false_2 (filename m = _)); [done|]. apply (wf_name _ Hwf).
  - by apply parse_found_empty.
Qed.

(** A command with a repeated comma, a sign and odd spacing is accepted. *)
Lemma accepted_put_is_readable_witness :
  let m := Meta "a" "r" 12 (-3) 1 ["x"; "y"] in
  parse_put "  PUT a   +12 -3 1 r ,x,,y, z" = Some m /\ parse_found "a" (found_message m) = m.
Proof.
  intros m. assert (parse_put "  PUT a   +12 -3 1 r ,x,,y, z" = Some m) as H by (by vm_compute).
  split; [exact H|]. destruct (accepted_put_is_readable _ _ H) as (_ & H2 & _). by apply H2.
Defined.

(** A word that begins neither with a digit nor with a sign is not read as a number,
    and the stream stays failed. *)
Definition starts_number (w : string) : bool :=
  match w with
  | String a _ => is_digit a || bool_decide (a = "-"%char) || bool_decide (a = "+"%char)
  | EmptyString => false
  end.

Lemma extract_int_word lo hi w r :
  token w -> starts_number w = false ->
  exists o i, extract_int lo hi (IStream (String " " (w +:+ r)) false false) = (o, i) /\
              failbit i = true.
Proof.
  intros (a & w' & -> & Ha)%token_cons. simpl. intros [[Hd Hm]%orb_false_elim Hp]%orb_false_elim.
  apply bool_decide_eq_false in Hm, Hp. rewrite extract_int_space, str_app_cons.
  unfold extract_int, sentry. simpl. rewrite Ha. cbn [rest snd].
  assert (read_sign (String a (w' +:+ r)) = (false, String a (w' +:+ r))) as ->.
  { destruct a as [[] [] [] [] [] [] [] []]; done. }
  simpl. rewrite Hd. simpl. by eexists _, _.
Qed.

(** Every extraction after a failed one fails. *)
Lemma chain_failed i :
  failbit i = true ->
  (let '(_, i) := extract_i32 i in let '(_, i) := extract_i32 i in
   let '(_, i) := extract_string i in let '(_, i) := extract_string i in failbit i) = true.
Proof.
  intros Hi. do 2 (rewrite extract_int_failed by done; simpl).
  do 2 (rewrite extract_string_failed by done; simpl). done.
Qed.


