(* ===== verification/MetadataNode.v ===== *)
(** * Metadata nodes: [src/metadata/metadata_node.{hpp,cpp}]

    A node of the metadata chain: its members, one turn of [handleClient], and one
    turn of [healthCheckLoop], as programs over the members.  Every access to a
    member is a step of its own: [role_], [nextNodeIp_] and [nextNodePort_] are read
    without [chainMutex_] by [handlePut], [handleGet], [forwardPut] and [pingNext],
    as in the code (where that is a data race; here such a read sees the value of
    some moment).

    The theorems: what a [PUT] and a [GET] do on every branch; a stored record is
    read back; what a failed successor causes; and the invariants that hold in every
    interleaving of client threads and the health check. *)
From S2P Require Import Prelude IoStream Proc Wire.

#[local] Open Scope Z_scope.

Inductive Role := HEAD | MIDDLE | TAIL | SINGLE.
#[export] Instance Role_eq_dec : EqDecision Role.
Proof. solve_decision. Defined.

Record MetadataNode := MkNode {
  metadataStore_ : gmap string FileMetadata;
  running_ : bool;
  nextNodeIp_ : string;
  nextNodePort_ : Z;
  prevNodeIp_ : string;
  prevNodePort_ : Z;
  skipToIp_ : string;
  skipToPort_ : Z;
  role_ : Role;
  myPort_ : Z
}.

(** Assignments to the members. *)
Definition set_store f s := MkNode (f (metadataStore_ s)) (running_ s) (nextNodeIp_ s)
  (nextNodePort_ s) (prevNodeIp_ s) (prevNodePort_ s) (skipToIp_ s) (skipToPort_ s) (role_ s) (myPort_ s).
Definition set_running b s := MkNode (metadataStore_ s) b (nextNodeIp_ s)
  (nextNodePort_ s) (prevNodeIp_ s) (prevNodePort_ s) (skipToIp_ s) (skipToPort_ s) (role_ s) (myPort_ s).
Definition set_nextIp v s := MkNode (metadataStore_ s) (running_ s) v
  (nextNodePort_ s) (prevNodeIp_ s) (prevNodePort_ s) (skipToIp_ s) (skipToPort_ s) (role_ s) (myPort_ s).
Definition set_nextPort v s := MkNode (metadataStore_ s) (running_ s) (nextNodeIp_ s)
  v (prevNodeIp_ s) (prevNodePort_ s) (skipToIp_ s) (skipToPort_ s) (role_ s) (myPort_ s).
Definition set_prevIp v s := MkNode (metadataStore_ s) (running_ s) (nextNodeIp_ s)
  (nextNodePort_ s) v (prevNodePort_ s) (skipToIp_ s) (skipToPort_ s) (role_ s) (myPort_ s).
Definition set_prevPort v s := MkNode (metadataStore_ s) (running_ s) (nextNodeIp_ s)
  (nextNodePort_ s) (prevNodeIp_ s) v (skipToIp_ s) (skipToPort_ s) (role_ s) (myPort_ s).
Definition set_skipIp v s := MkNode (metadataStore_ s) (running_ s) (nextNodeIp_ s)
  (nextNodePort_ s) (prevNodeIp_ s) (prevNodePort_ s) v (skipToPort_ s) (role_ s) (myPort_ s).
Definition set_skipPort v s := MkNode (metadataStore_ s) (running_ s) (nextNodeIp_ s)
  (nextNodePort_ s) (prevNodeIp_ s) (prevNodePort_ s) (skipToIp_ s) v (role_ s) (myPort_ s).
Definition set_role v s := MkNode (metadataStore_ s) (running_ s) (nextNodeIp_ s)
  (nextNodePort_ s) (prevNodeIp_ s) (prevNodePort_ s) (skipToIp_ s) (skipToPort_ s) v (myPort_ s).
Definition set_myPort v s := MkNode (metadataStore_ s) (running_ s) (nextNodeIp_ s)
  (nextNodePort_ s) (prevNodeIp_ s) (prevNodePort_ s) (skipToIp_ s) (skipToPort_ s) (role_ s) v.

(** The constructor, and [start(port)] up to the loop. *)
Definition new_node (nextNodeIp : string) (nextNodePort : Z) : MetadataNode :=
  MkNode ∅ false nextNodeIp nextNodePort EmptyString (-1) EmptyString (-1)
         (if bool_decide (nextNodePort = -1) then TAIL else HEAD) 0.

Definition started (port : Z) (s : MetadataNode) : MetadataNode :=
  set_running true (set_myPort port s).

(** ** The chain: [pingNext], [notifyNextOfPredecessor], [handleNextNodeFailure] *)

Definition pingNext : io MetadataNode bool :=
  ip ← reads nextNodeIp_;
  port ← reads nextNodePort_;
  ok ← client_connect ip port;
  if negb ok then mret false else
  ok ← client_sendMessage "PING";
  if negb ok then client_closes;; mret false else
  resp ← client_recvMessage;
  client_closes;;
  mret (bool_decide (resp = "PONG")).

Definition notifyNextOfPredecessor : io MetadataNode unit :=
  ip ← reads nextNodeIp_;
  port ← reads nextNodePort_;
  ok ← client_connect ip port;
  if negb ok then mret tt else
  my ← reads myPort_;
  client_sendMessage ("UPDATE_PREV 127.0.0.1 " +:+ to_string my);;
  client_closes.

Definition handleNextNodeFailure : io MetadataNode unit :=
  with_lock chainMutex_ (
    skip ← reads skipToPort_;
    if bool_decide (skip <> -1) then
      ip ← reads skipToIp_;
      modify (set_nextIp ip);;
      port ← reads skipToPort_;
      modify (set_nextPort port);;
      modify (set_skipIp EmptyString);;
      modify (set_skipPort (-1));;
      notifyNextOfPredecessor
    else
      modify (set_nextIp EmptyString);;
      modify (set_nextPort (-1));;
      prev ← reads prevNodePort_;
      modify (set_role (if bool_decide (prev = -1) then SINGLE else TAIL))).

(** One turn of [healthCheckLoop], after its sleep. *)
Definition healthCheck : io MetadataNode bool :=
  run_on ← reads running_;
  if negb run_on then mret false else
  port ← reads nextNodePort_;
  if bool_decide (port <> -1) then
    ok ← pingNext;
    (if negb ok then handleNextNodeFailure else mret tt);;
    mret true
  else mret true.

(** ** Requests: [forwardPut], [handlePut], [handleGet] *)

Definition forwardPut (command : string) : io MetadataNode bool :=
  ip ← reads nextNodeIp_;
  port ← reads nextNodePort_;
  ok ← client_connect ip port;
  if negb ok then mret false else
  ok ← client_sendMessage command;
  if negb ok then client_closes;; mret false else
  response ← client_recvMessage;
  client_closes;;
  mret (bool_decide (response = "ACK")).

(** [role_ != Role::TAIL && role_ != Role::SINGLE] *)
Definition not_last : io MetadataNode bool :=
  r ← reads role_;
  if bool_decide (r = TAIL) then mret false else
  r ← reads role_;
  mret (bool_decide (r <> SINGLE)).

Definition handlePut (command : string) : io MetadataNode unit :=
  match parse_put command with
  | None => server_sendMessage "ERROR_ARGS"
  | Some meta =>
      with_lock storeMutex_ (modify (set_store (<[filename meta := meta]>)));;
      forward ← (b ← not_last;
                 if b : bool then port ← reads nextNodePort_; mret (bool_decide (port <> -1))
                 else mret false);
      success ← (if forward : bool then forwardPut command else mret true);
      server_sendMessage (if success : bool then "ACK" else "ERROR_FORWARD")
  end.

Definition handleGet (filename : string) : io MetadataNode unit :=
  b ← not_last;
  if b : bool then server_sendMessage "REDIRECT_TO_TAIL" else
  acquire storeMutex_;;
  o ← reads (fun s => metadataStore_ s !! filename);
  match o with
  | None => server_sendMessage "NOT_FOUND";; release storeMutex_
  | Some meta => release storeMutex_;; server_sendMessage (found_message meta)
  end.

(** ** [handleClient] *)

(** [iss >> ip >> port] *)
Definition extract_address (iss : istream) : option (string * Z) :=
  let '(ip, iss) := extract_string iss in
  let '(port, iss) := extract_i32 iss in
  if failbit iss then None else Some (default EmptyString ip, default 0 port).

Definition updatePrev (ip : string) (port : Z) : io MetadataNode unit :=
  with_lock chainMutex_ (
    modify (set_prevIp ip);;
    modify (set_prevPort port);;
    r ← reads role_;
    (if bool_decide (r = HEAD) then modify (set_role MIDDLE) else mret tt);;
    r ← reads role_;
    (if bool_decide (r = SINGLE) then modify (set_role TAIL) else mret tt);;
    server_sendMessage "ACK").

Definition updateNext (ip : string) (port : Z) : io MetadataNode unit :=
  with_lock chainMutex_ (
    modify (set_nextIp ip);;
    modify (set_nextPort port);;
    r ← reads role_;
    (if bool_decide (r = TAIL) then modify (set_role MIDDLE) else mret tt);;
    r ← reads role_;
    (if bool_decide (r = SINGLE) then modify (set_role HEAD) else mret tt);;
    server_sendMessage "ACK").

Definition setSkip (ip : string) (port : Z) : io MetadataNode unit :=
  with_lock chainMutex_ (
    modify (set_skipIp ip);;
    modify (set_skipPort port);;
    server_sendMessage "ACK").

(** The role is read once for each comparison of the conditional expression. *)
Definition read_role_name : io MetadataNode string :=
  r ← reads role_;
  if bool_decide (r = HEAD) then mret "HEAD" else
  r ← reads role_;
  if bool_decide (r = MIDDLE) then mret "MIDDLE" else
  r ← reads role_;
  if bool_decide (r = TAIL) then mret "TAIL" else mret "SINGLE".

Definition getStatus : io MetadataNode unit :=
  name ← read_role_name;
  next ← reads nextNodePort_;
  prev ← reads prevNodePort_;
  server_sendMessage ("ROLE=" +:+ name +:+ " NEXT=" +:+ to_string next +:+ " PREV=" +:+ to_string prev).

(** One turn of [while (running_)]; [false] leaves the loop. *)
Definition handleClient_turn : io MetadataNode bool :=
  run_on ← reads running_;
  if negb run_on then mret false else
  command ← server_recvMessage;
  if bool_decide (command = EmptyString) then mret false else
  let '(o, iss) := extract_string (istringstream command) in
  let op := default EmptyString o in
  if bool_decide (op = "PUT") then handlePut command;; mret true
  else if bool_decide (op = "GET") then
    match (extract_string iss).1 with
    | Some filename => handleGet filename;; mret true
    | None => mret true
    end
  else if bool_decide (op = "PING") then server_sendMessage "PONG";; mret true
  else if bool_decide (op = "UPDATE_PREV") then
    match extract_address iss with
    | Some (ip, port) => updatePrev ip port;; mret true
    | None => mret true
    end
  else if bool_decide (op = "UPDATE_NEXT") then
    match extract_address iss with
    | Some (ip, port) => updateNext ip port;; mret true
    | None => mret true
    end
  else if bool_decide (op = "SET_SKIP") then
    match extract_address iss with
    | Some (ip, port) => setSkip ip port;; mret true
    | None => mret true
    end
  else if bool_decide (op = "GET_STATUS") then getStatus;; mret true
  else if bool_decide (op = "DIE") then
    modify (set_running false);; server_stop;; mret false
  else server_sendMessage "ERROR";; mret true.

Definition handleClient : io MetadataNode bool :=
  again ← handleClient_turn;
  if again : bool then mret true else server_closeClient;; mret false.

(** The threads a node runs. *)
Definition node_thread (p : io MetadataNode bool) : Prop := p = handleClient \/ p = healthCheck.

(** ** Sequential behaviour *)

Definition is_last (s : MetadataNode) : bool := bool_decide (role_ s = TAIL \/ role_ s = SINGLE).
Definition has_next (s : MetadataNode) : bool := bool_decide (nextNodePort_ s <> -1).

Lemma run_not_last s l : run not_last s l = ((negb (is_last s), s, l), []).
Proof. unfold not_last, is_last. simpl. by destruct s as [???????? r ?]; destruct r. Qed.

(** The trace of an exchange with the successor that succeeds. *)
Definition exchange (s : MetadataNode) (request answer : string) : list event :=
  [Connected (nextNodeIp_ s) (nextNodePort_ s) true; SentTo (bytes_of_string request) true;
   ReceivedFrom (bytes_of_string answer); Closed].

(** [forwardPut] and [pingNext] succeed exactly when the successor is reached and
    gives the expected answer; they change nothing. *)
Lemma run_exchange s l request answer :
  let p : io MetadataNode bool :=
    ip ← reads nextNodeIp_;
    port ← reads nextNodePort_;
    ok ← client_connect ip port;
    if negb ok then mret false else
    ok ← client_sendMessage request;
    if negb ok then client_closes;; mret false else
    resp ← client_recvMessage;
    client_closes;;
    mret (bool_decide (resp = answer)) in
  let '((ok, s', l'), tr) := run p s l in
  s' = s /\ (ok = true <-> tr = exchange s request answer) /\ sent tr = [].
Proof.
  intros p. unfold p, exchange. simpl. destruct (next_answer l) as [a1 l1]. simpl.
  destruct (ok_of a1); simpl; [|naive_solver].
  destruct (next_answer l1) as [a2 l2]. simpl. destruct (ok_of a2); simpl; [|naive_solver].
  destruct (next_answer l2) as [a3 l3]. simpl. split_and!; try done.
  rewrite bool_decide_eq_true. split.
  - intros E. do 3 f_equal. by rewrite <- (bytes_string_id (msg_of a3)), E.
  - intros [= E]. by rewrite E, string_bytes_id.
Qed.

Lemma run_forwardPut s l c :
  let '((ok, s', l'), tr) := run (forwardPut c) s l in
  s' = s /\ (ok = true <-> tr = exchange s c "ACK") /\ sent tr = [].
Proof. apply run_exchange. Qed.

Lemma run_pingNext s l :
  let '((ok, s', l'), tr) := run pingNext s l in
  s' = s /\ (ok = true <-> tr = exchange s "PING" "PONG") /\ sent tr = [].
Proof. apply run_exchange. Qed.

(** The answer to a [GET]. *)
Definition get_answer (s : MetadataNode) (f : string) : string :=
  if is_last s then
    match metadataStore_ s !! f with Some m => found_message m | None => "NOT_FOUND" end
  else "REDIRECT_TO_TAIL".

Lemma run_handleGet s f l :
  run (handleGet f) s l = ((tt, s, l), [Sent (bytes_of_string (get_answer s f))]).
Proof.
  unfold handleGet, get_answer. rewrite run_bind, run_not_last.
  destruct (is_last s); cbn [negb]; [|done]. simpl. by destruct (metadataStore_ s !! f).
Qed.

(** The run of [handlePut]: store, then forward or not, then answer. *)
Lemma run_handlePut c s l :
  run (handlePut c) s l =
  match parse_put c with
  | None => ((tt, s, l), [Sent (bytes_of_string "ERROR_ARGS")])
  | Some m =>
      let s' := set_store (<[filename m := m]>) s in
      if negb (is_last s) && has_next s then
        let '((ok, s'', l'), tr) := run (forwardPut c) s' l in
        ((tt, s'', l'),
         tr ++ [Sent (bytes_of_string (if ok : bool then "ACK" else "ERROR_FORWARD"))])
      else ((tt, s', l), [Sent (bytes_of_string "ACK")])
  end.
Proof.
  unfold handlePut. destruct (parse_put c) as [m|]; [|done].
  rewrite run_bind. cbn [with_lock acquire release modify mbind io_mbind io_bind run mret io_ret].
  set (s1 := set_store _ s). rewrite run_bind, run_bind, run_not_last.
  assert (is_last s1 = is_last s) as -> by done.
  destruct (is_last s); cbn [negb andb run mret io_ret app]; [by rewrite run_bind|].
  cbn [reads mbind io_mbind io_bind run mret io_ret].
  assert (bool_decide (nextNodePort_ s1 <> -1) = has_next s) as -> by done.
  destruct (has_next s); cbn [run app]; rewrite run_bind; [|done].
  by destruct (run (forwardPut c) s1 l) as [[[[] s2] l2] tr].
Qed.

Lemma handlePut_stores c s l :
  (run (handlePut c) s l).1.1.2 =
  match parse_put c with Some m => set_store (<[filename m := m]>) s | None => s end.
Proof.
  rewrite run_handlePut. destruct (parse_put c) as [m|]; [|done]. cbv zeta.
  destruct (_ && _); [|done]. pose proof (run_forwardPut (set_store (<[filename m:=m]>) s) l c) as H.
  destruct (run (forwardPut c) _ l) as [[[ok s2] l2] tr]. apply H.
Qed.

(** C16. [handlePut] on every branch.  A command that does not parse is refused and
    changes nothing.  Any other is stored at once; a node without a successor then
    acknowledges it; a node with one acknowledges it exactly when the successor was
    reached, was given the same command and answered [ACK], and answers
    [ERROR_FORWARD] otherwise, keeping the record all the same. *)
Theorem handlePut_outcomes c s l :
  let '((_, s', l'), tr) := run (handlePut c) s l in
  match parse_put c with
  | None => s' = s /\ l' = l /\ tr = [Sent (bytes_of_string "ERROR_ARGS")]
  | Some m =>
      s' = set_store (<[filename m := m]>) s /\
      if negb (is_last s) && has_next s then
        tr = exchange s c "ACK" ++ [Sent (bytes_of_string "ACK")] \/
        (exists tr', tr = tr' ++ [Sent (bytes_of_string "ERROR_FORWARD")] /\
           tr' <> exchange s c "ACK" /\ sent tr' = [])
      else l' = l /\ tr = [Sent (bytes_of_string "ACK")]
  end.
Proof.
  rewrite run_handlePut. destruct (parse_put c) as [m|]; [|done]. cbv zeta.
  destruct (negb (is_last s) && has_next s); [|done].
  pose proof (run_forwardPut (set_store (<[filename m:=m]>) s) l c) as H.
  destruct (run (forwardPut c) _ l) as [[[ok s2] l2] tr]. destruct H as (-> & Hok & Hs).
  split; [done|]. destruct ok.
  - left. by rewrite (proj1 Hok eq_refl).
  - right. exists tr. split_and!; [done| |done]. intros E. by apply Hok in E.
Qed.

Lemma handlePut_outcomes_witness :
  let s := started 9001 (new_node "127.0.0.1" 9002) in
  let c := "PUT a 3 4 1 r h" in
  let l := [Ok true; Ok true; Msg (bytes_of_string "ERROR_FORWARD")] in
  let '((_, s', _), tr) := run (handlePut c) s l in
  metadataStore_ s' !! "a" = Some (Meta "a" "r" 3 4 1 ["h"]) /\
  last tr = Some (Sent (bytes_of_string "ERROR_FORWARD")).
Proof.
  intros s c l. pose proof (handlePut_outcomes c s l) as H.
  destruct (run (handlePut c) s l) as [[[u s'] l'] tr] eqn:E.
  assert (parse_put c = Some (Meta "a" "r" 3 4 1 ["h"])) as Hc by (by vm_compute).
  rewrite Hc in H. destruct H as [-> [->|(tr' & -> & _)]].
  - by vm_compute in E.
  - split; [by vm_compute|]. by rewrite last_snoc.
Defined.

(** The last node of the chain serves what it acknowledged: after an accepted
    [PUT] of at least one hash, a [GET] of that file gives a message that the client
    reads as exactly the record of the command, and every other file is answered as
    before; a node that is not the last one stores the record but never serves it,
    it redirects. *)
Theorem put_then_get c m s l :
  parse_put c = Some m -> chunkHashes m <> [] ->
  let '((_, s', l'), _) := run (handlePut c) s l in
  exists answer,
    run (handleGet (filename m)) s' l' = ((tt, s', l'), [Sent (bytes_of_string answer)]) /\
    (if is_last s then parse_found (filename m) answer = m else answer = "REDIRECT_TO_TAIL") /\
    (forall f, f <> filename m ->
       (run (handleGet f) s' l').2 = (run (handleGet f) s l).2).
Proof.
  intros Hp Hne. pose proof (handlePut_stores c s l) as H. rewrite Hp in H.
  destruct (run (handlePut c) s l) as [[[u s'] l'] tr]. cbn [fst snd] in H. subst s'.
  set (s1 := set_store _ s).
  exists (get_answer s1 (filename m)). rewrite run_handleGet. split; [done|].
  unfold get_answer. assert (is_last s1 = is_last s) as -> by done. split.
  - destruct (is_last s); [|done]. unfold s1, set_store. simpl. rewrite lookup_insert_eq.
    apply parse_found_message; [by eapply parse_put_wf|done].
  - intros f Hf. rewrite !run_handleGet. unfold get_answer. simpl.
    assert (is_last s1 = is_last s) as -> by done. unfold s1, set_store. simpl.
    by rewrite lookup_insert_ne.
Qed.

Lemma put_then_get_witness :
  let s := started 9003 (new_node "" (-1)) in
  let '((_, s', l'), _) := run (handlePut "PUT a 3 4 1 r h,k") s [] in
  exists answer, run (handleGet "a") s' l' = ((tt, s', l'), [Sent (bytes_of_string answer)]) /\
    parse_found "a" answer = Meta "a" "r" 3 4 1 ["h"; "k"].
Proof.
  intros s. pose proof (put_then_get "PUT a 3 4 1 r h,k" (Meta "a" "r" 3 4 1 ["h"; "k"]) s []) as H.
  destruct (run (handlePut _) s []) as [[[u s'] l'] tr].
  destruct H as (answer & H1 & H2 & _); [by vm_compute|done|]. exists answer. split; [exact H1|exact H2].
Defined.

(** ** The chain *)

(** The last nodes are those without a successor, and the first ones have no
    predecessor. *)
Definition chain_wf (s : MetadataNode) : Prop :=
  (is_last s = true <-> nextNodePort_ s = -1) /\
  (role_ s = HEAD \/ role_ s = SINGLE -> prevNodePort_ s = -1).

(** The members after the successor failed. *)
Definition bypassed (s : MetadataNode) : MetadataNode :=
  set_skipPort (-1) (set_skipIp EmptyString
    (set_nextPort (skipToPort_ s) (set_nextIp (skipToIp_ s) s))).
Definition cut_off (s : MetadataNode) : MetadataNode :=
  set_role (if bool_decide (prevNodePort_ s = -1) then SINGLE else TAIL)
    (set_nextPort (-1) (set_nextIp EmptyString s)).

Lemma cut_off_wf s : chain_wf s -> chain_wf (cut_off s).
Proof.
  unfold chain_wf, is_last, cut_off. intros [H1 H2]. cbn. rewrite bool_decide_eq_true.
  destruct (decide (prevNodePort_ s = -1)) as [Hp|Hp];
    [rewrite bool_decide_eq_true_2 by done|rewrite bool_decide_eq_false_2 by done];
    (split; [split; auto|]); [done|by intros [?|?]].
Qed.

Lemma run_notify s l :
  let '((_, s', l'), tr) := run notifyNextOfPredecessor s l in
  s' = s /\
  (tr = [Connected (nextNodeIp_ s) (nextNodePort_ s) false] \/
   exists ok, tr = [Connected (nextNodeIp_ s) (nextNodePort_ s) true;
     SentTo (bytes_of_string ("UPDATE_PREV 127.0.0.1 " +:+ to_string (myPort_ s))) ok; Closed]).
Proof.
  unfold notifyNextOfPredecessor. cbn -[to_string]. destruct (next_answer l) as [a1 l1].
  destruct (ok_of a1); cbn -[to_string]; [|by split; [|left]].
  destruct (next_answer l1) as [a2 l2]. cbn -[to_string]. split; [done|]. right. by eexists.
Qed.

Lemma run_handleNextNodeFailure s l :
  run handleNextNodeFailure s l =
  if bool_decide (skipToPort_ s <> -1) then run notifyNextOfPredecessor (bypassed s) l
  else ((tt, cut_off s, l), []).
Proof.
  unfold handleNextNodeFailure, with_lock.
  cbn [acquire release modify reads mbind io_mbind io_bind run mret io_ret].
  destruct (bool_decide (skipToPort_ s <> -1));
    cbn [acquire release modify reads mbind io_mbind io_bind run mret io_ret]; [|done].
  change (set_skipPort (-1) _) with (bypassed s).
  change (io_bind ?f ?p) with (p ≫= f). rewrite run_bind.
  destruct (run notifyNextOfPredecessor (bypassed s) l) as [[[[] s2] l2] tr].
  cbn. by rewrite app_nil_r.
Qed.

(** One health check.  A stopped node's loop ends; a node without a successor
    does nothing; one whose successor answers [PONG] changes nothing; and when the
    successor does not, the node either jumps to its skip node, which it then uses
    up and tells its new predecessor, or becomes the last node of what is left of the
    chain: [SINGLE] exactly when it has no predecessor.  The check keeps the chain
    well formed. *)
Theorem healthCheck_outcomes s l :
  let '((again, s', l'), tr) := run healthCheck s l in
  again = running_ s /\ sent tr = [] /\ (chain_wf s -> chain_wf s') /\
  metadataStore_ s' = metadataStore_ s /\
  if running_ s && has_next s then
    (s' = s /\ tr = exchange s "PING" "PONG") \/
    exists ping notice, tr = ping ++ notice /\ ping <> exchange s "PING" "PONG" /\
      if bool_decide (skipToPort_ s <> -1) then
        s' = bypassed s /\ skipToPort_ s' = -1 /\
        (notice = [Connected (skipToIp_ s) (skipToPort_ s) false] \/
         exists ok, notice = [Connected (skipToIp_ s) (skipToPort_ s) true;
           SentTo (bytes_of_string ("UPDATE_PREV 127.0.0.1 " +:+ to_string (myPort_ s))) ok; Closed])
      else s' = cut_off s /\ is_last s' = true /\ notice = []
  else s' = s /\ l' = l /\ tr = [].
Proof.
  unfold healthCheck. cbn [reads mbind io_mbind io_bind run mret io_ret].
  destruct (running_ s); cbn [negb andb run mret io_ret]; [|done].
  cbn [reads mbind io_mbind io_bind run mret io_ret]. unfold has_next.
  case_bool_decide as Hn; [|done].
  rewrite run_bind. pose proof (run_pingNext s l) as Hping.
  destruct (run pingNext s l) as [[[ok s1] l1] tr1]. destruct Hping as (-> & Hok & Hs1).
  destruct ok; cbn [negb].
  { cbn. rewrite app_nil_r. split_and!; try done. left. split; [done|by apply Hok]. }
  rewrite run_bind, run_handleNextNodeFailure. case_bool_decide as Hskip.
  - pose proof (run_notify (bypassed s) l1) as Hnot.
    destruct (run notifyNextOfPredecessor _ l1) as [[[[] s2] l2] tr2]. destruct Hnot as [-> Htr2].
    cbn. rewrite app_nil_r. split_and!; [done| | |done|].
    + rewrite sent_app, Hs1. by destruct Htr2 as [->|[? ->]].
    + unfold chain_wf, is_last. intros [H1 H2]. split; [|exact H2]. cbn.
      split; [|done]. intros H. exfalso. tauto.
    + right. exists tr1, tr2. split_and!; [done| |done|done|exact Htr2].
      intros E. by apply Hok in E.
  - cbn. rewrite app_nil_r. split_and!; [done|done| |done|].
    + apply cut_off_wf.
    + right. exists tr1, []. rewrite app_nil_r. split_and!; try done.
      * intros E. by apply Hok in E.
      * unfold is_last, cut_off. cbn. apply bool_decide_eq_true.
        destruct (bool_decide (prevNodePort_ s = -1)); auto.
Qed.

(** ** All interleavings of client threads and the health check *)

(** Every record is stored under its own name and is well formed. *)
Definition records_ok (st : gmap string FileMetadata) : Prop :=
  forall f m, st !! f = Some m -> filename m = f /\ wf_meta m.

(** One access: no file is forgotten, and a stopped node stays stopped. *)
Definition progress (s s' : MetadataNode) : Prop :=
  (forall f, is_Some (metadataStore_ s !! f) -> is_Some (metadataStore_ s' !! f)) /\
  (running_ s = false -> running_ s' = false).

#[export] Instance progress_pre : PreOrder progress.
Proof. unfold progress. split; [done|]. intros ?? ? [??] [??]. naive_solver. Qed.

(** The two first roles have no predecessor. *)
Definition first_ok (c : Role * Z) : Prop := c.1 = HEAD \/ c.1 = SINGLE -> c.2 = -1.
Definition place (s : MetadataNode) : Role * Z := (role_ s, prevNodePort_ s).

Section Interleavings.
Let store_safe := @safe_body MetadataNode (gmap string FileMetadata)
  (fun _ => True) progress (fun _ => True) storeMutex_ metadataStore_ records_ok.
Let chain_safe := @safe_body MetadataNode (Role * Z)
  (fun _ => True) (fun _ _ => True) (fun _ => True) chainMutex_ place first_ok.

Lemma records_insert st m :
  records_ok st -> wf_meta m -> records_ok (<[filename m := m]> st).
Proof.
  intros H Hm f m'. rewrite lookup_insert_Some. intros [[<- <-]|[_ E]]; [done|by apply H].
Qed.

(** Walk through a program, one step and one test at a time. *)
Ltac walk := repeat (simpl; first [done | reflexivity |
  match goal with
  | |- forall _, _ => intros ?
  | |- _ /\ _ => split
  end | case_match]).

Lemma healthCheck_store_safe : store_safe healthCheck.
Proof.
  unfold store_safe, safe_body, healthCheck, pingNext, handleNextNodeFailure,
    notifyNextOfPredecessor, with_lock.
  walk.
Qed.

Lemma handlePut_store_safe c :
  safe (fun _ => True) progress (fun _ => True) storeMutex_ metadataStore_ records_ok
       (fun h _ => h = None) None (handlePut c).
Proof.
  unfold handlePut, forwardPut, not_last, with_lock.
  destruct (parse_put c) as [m|] eqn:E; [|done]. apply parse_put_wf in E.
  walk.
  - split; [|done]. intros f Hf. simpl. rewrite lookup_insert_is_Some.
    destruct (decide (filename m = f)); auto.
  - simplify_eq. by apply records_insert.
Qed.

Lemma handleClient_store_safe : store_safe handleClient.
Proof.
  unfold store_safe, safe_body, handleClient. apply pool_safe_bind.
  unfold handleClient_turn. walk.
  { apply pool_safe_bind. eapply pool_safe_mono, handlePut_store_safe. intros h _ ->. done. }
  all: by subst.
Qed.

(** At the end of a critical section: the role and the predecessor's port, traced
    back to the values the section began with. *)
Ltac place_leaf :=
  unfold first_ok, place in *; subst; simpl in *;
  repeat match goal with
  | H : bool_decide _ = true |- _ => apply bool_decide_eq_true in H
  | H : bool_decide _ = false |- _ => apply bool_decide_eq_false in H
  | H : (_, _) = _ |- _ => apply pair_equal_spec in H; destruct H
  end;
  intros [?|?];
  first [ congruence
        | match goal with
          | H : _ \/ _ -> _ |- _ =>
              lapply H; [intros; congruence|first [left; congruence|right; congruence]]
          end ].

Lemma healthCheck_chain_safe : chain_safe healthCheck.
Proof.
  unfold chain_safe, safe_body, healthCheck, pingNext, handleNextNodeFailure,
    notifyNextOfPredecessor, with_lock.
  walk.
  all: place_leaf.
Qed.

Lemma handleClient_chain_safe : chain_safe handleClient.
Proof.
  unfold chain_safe, safe_body, handleClient. apply pool_safe_bind.
  unfold handleClient_turn, handlePut, forwardPut, not_last, with_lock. walk.
  all: place_leaf.
Qed.
End Interleavings.

(** C22. In every interleaving of any number of client threads with the health
    check, whatever is received and whichever calls fail: every record is stored
    under its own name and is well formed, whenever [storeMutex_] is free; no file is
    ever forgotten; a node that was stopped does not run again; and whenever
    [chainMutex_] is free, a node whose role is [HEAD] or [SINGLE] has no
    predecessor. *)
Theorem metadata_interleavings s0 c :
  records_ok (metadataStore_ s0) -> first_ok (place s0) ->
  pool_reach node_thread (fun _ => True) s0 c ->
  (held c storeMutex_ = None -> records_ok (metadataStore_ (shared c))) /\
  (forall f, is_Some (metadataStore_ s0 !! f) -> is_Some (metadataStore_ (shared c) !! f)) /\
  (running_ s0 = false -> running_ (shared c) = false) /\
  (held c chainMutex_ = None ->
     role_ (shared c) = HEAD \/ role_ (shared c) = SINGLE -> prevNodePort_ (shared c) = -1).
Proof.
  intros H1 H2 Hr.
  destruct (pool_sound (fun _ => True) progress (fun _ => True) storeMutex_ metadataStore_
    records_ok node_thread s0 c) as (_ & HG & HI); try done.
  { intros ? [-> | ->]; [apply handleClient_store_safe|apply healthCheck_store_safe]. }
  destruct (pool_sound (fun _ => True) (fun _ _ => True) (fun _ => True) chainMutex_ place
    first_ok node_thread s0 c) as (_ & _ & HI'); try done.
  { intros ? [-> | ->]; [apply handleClient_chain_safe|apply healthCheck_chain_safe]. }
  apply rtc_preorder in HG; [|apply _]. destruct HG. by split_and!.
Qed.

(** A single node is told of a predecessor while its health check runs: between the
    two assignments the role is still [SINGLE]. *)
Definition told_of_predecessor : list (choice MetadataNode) :=
  let a := Ok true in
  [Spawn healthCheck; Spawn handleClient; Do 0 a; Do 1 a; Do 1 a; Do 1 a;
   Do 1 (Msg (bytes_of_string "UPDATE_PREV 127.0.0.1 9002")); Do 0 a;
   Do 1 a; Do 1 a; Do 1 a; Again 0; Do 1 a; Do 1 a; Do 1 a; Do 1 a; Do 1 a; Do 1 a; Do 1 a].

Lemma metadata_interleavings_witness :
  let s0 := set_role SINGLE (started 9003 (new_node "" (-1))) in
  match pool_exec told_of_predecessor (start_pool s0) with
  | Some c => role_ (shared c) = TAIL /\ prevNodePort_ (shared c) = 9002 /\
              records_ok (metadataStore_ (shared c))
  | None => False
  end.
Proof.
  intros s0. assert (option_map (fun c => (place (shared c), held c storeMutex_))
    (pool_exec told_of_predecessor (start_pool s0)) = Some ((TAIL, 9002), None)) as Hv
    by (by vm_compute).
  destruct (pool_exec told_of_predecessor _) as [c|] eqn:E; [|discriminate Hv].
  assert (pool_reach node_thread (fun _ => True) s0 c) as Hr.
  { eapply pool_exec_reach; [|exact E]. unfold told_of_predecessor.
    repeat (apply Forall_cons; split); try exact (Forall_nil_2 _); unfold allowed;
      first [right; reflexivity | left; reflexivity | right; exact I | exact I]. }
  assert (records_ok (metadataStore_ s0)) as H0.
  { intros f m. change (metadataStore_ s0) with (∅ : gmap string FileMetadata). by rewrite lookup_empty. }
  assert (first_ok (place s0)) as H0' by (intros _; reflexivity).
  pose proof (proj1 (metadata_interleavings s0 c H0 H0' Hr)) as H.
  injection Hv as H1 H2 H3. split_and!; [done|done|]. by apply H.
Defined.
