(* ===== verification/Client.v ===== *)
(** * The client: [src/client/client.{hpp,cpp}]

    [uploadFile] and [downloadFile] and the four exchanges with the nodes they are
    made of, as programs over the client's file system.  An uncaught exception of
    [std::stoi] and an access outside a vector are the result [None].  The messages
    the functions print are their results here, and what they make of the public members
    with the measured durations is a function of the result and of the times read from
    the clock.

    The theorems: each exchange succeeds exactly on the right answers and closes its
    connection in every case; an upload that reports success has stored every chunk
    on one of its replicas and the metadata on a node of the chain; a download
    writes the chunks it received, in the order of the metadata, or nothing. *)
From S2P Require Import Prelude IoStream Sha256 Chunks ConsistentHash Wire Proc.

#[local] Open Scope Z_scope.

Record Client := MkClient { dht_ : ring; metadataNodes_ : list string }.

(** The constructor. *)
Definition new_client (storageNodes metadataNodes : list string) : Client :=
  MkClient (foldl (fun r n => addNode n r) [] storageNodes) metadataNodes.

(** [nodeAddr.find(':')] and the two [substr]; [None] without a colon. *)
Definition split_address (nodeAddr : string) : option (string * string) :=
  match span (fun a => negb (bool_decide (a = ":"%char))) nodeAddr with
  | (ip, String _ p) => Some (ip, p)
  | (_, EmptyString) => None
  end.

(** The common beginning of the four exchanges: [failed] is returned without a
    colon and without a connection, an exception on a port that is no number. *)
Definition with_node {A} (nodeAddr : string) (failed : A) (p : io fs A) : io fs (option A) :=
  match split_address nodeAddr with
  | None => mret (Some failed)
  | Some (ip, portStr) =>
      match stoi portStr with
      | None => mret None
      | Some port =>
          ok ← client_connect ip port;
          if negb ok then mret (Some failed) else a ← p; mret (Some a)
      end
  end.

(** ** The exchanges *)

Definition uploadChunkToNode (chunk : Chunk) (nodeAddr : string) : io fs (option bool) :=
  with_node nodeAddr false (
    ok ← client_sendMessage ("STORE " +:+ c_hash chunk);
    if negb ok then client_closes;; mret false else
    response ← client_recvMessage;
    if bool_decide (response <> "READY") then client_closes;; mret false else
    ok ← client_sendData (c_data chunk);
    if negb ok then client_closes;; mret false else
    response ← client_recvMessage;
    client_closes;;
    mret (bool_decide (response = "ACK"))).

Definition downloadChunkFromNode (hash nodeAddr : string) : io fs (option bytes) :=
  with_node nodeAddr [] (
    ok ← client_sendMessage ("GET " +:+ hash);
    if negb ok then client_closes;; mret [] else
    response ← client_recvMessage;
    if bool_decide (response = "FOUND") then
      data ← client_recvData;
      client_closes;;
      mret data
    else client_closes;; mret []).

(** [stat]: 0 when the file is missing. *)
Definition getFileSize (d : fs) (path : string) : Z :=
  match files d !! path with Some content => zlen content | None => 0 end.

(** [filepath.substr(filepath.find_last_of("/\\") + 1)] *)
Fixpoint after_last_slash (s : string) : option string :=
  match s with
  | EmptyString => None
  | String a s' =>
      match after_last_slash s' with
      | Some r => Some r
      | None => if bool_decide (a = "/"%char \/ a = "\"%char) then Some s' else None
      end
  end.

Definition base_name (filepath : string) : string := default filepath (after_last_slash filepath).

Definition put_metadata (size : Z) (filepath : string) (chunks : list Chunk) (rootHash : string)
    : FileMetadata :=
  Meta (base_name filepath) rootHash size CHUNK_SIZE (i32 (zlen chunks)) (c_hash <$> chunks).

Definition putMetadataToNode (nodeAddr filepath : string) (chunks : list Chunk) (rootHash : string)
    : io fs (option bool) :=
  with_node nodeAddr false (
    size ← reads (fun d => getFileSize d filepath);
    ok ← client_sendMessage (put_command (put_metadata size filepath chunks rootHash));
    if negb ok then client_closes;; mret false else
    response ← client_recvMessage;
    client_closes;;
    mret (bool_decide (response = "ACK"))).

Definition getMetadataFromNode (nodeAddr filename : string) : io fs (option FileMetadata) :=
  with_node nodeAddr no_metadata (
    ok ← client_sendMessage ("GET " +:+ filename);
    if negb ok then client_closes;; mret no_metadata else
    response ← client_recvMessage;
    client_closes;;
    mret (parse_found filename response)).

(** ** [uploadFile] *)

Inductive upload_result :=
| EmptyOrMissing
| ChunkFailed (index : Z)
| MetadataFailed
| UploadComplete.

Definition replicationFactor : Z := 2.

(** Go on with the value, or stop at an exception. *)
Definition and_then {A B} (p : io fs (option A)) (f : A -> io fs (option B)) : io fs (option B) :=
  o ← p; match o with Some a => f a | None => mret None end.

(** The loop over the nodes of a chunk: the number of copies stored. *)
Fixpoint upload_to_nodes (chunk : Chunk) (nodes : list string) (successCount : Z)
    : io fs (option Z) :=
  match nodes with
  | [] => mret (Some successCount)
  | nodeAddr :: nodes' =>
      and_then (uploadChunkToNode chunk nodeAddr) (fun ok : bool =>
        upload_to_nodes chunk nodes' (if ok then successCount + 1 else successCount))
  end.

(** The loop over the chunks: the index of the first one without a copy. *)
Fixpoint upload_chunks (dht : ring) (chunks : list Chunk) : io fs (option (option Z)) :=
  match chunks with
  | [] => mret (Some None)
  | chunk :: chunks' =>
      match getNodesForKey dht (c_hash chunk) replicationFactor with
      | None => mret None
      | Some nodes =>
          and_then (upload_to_nodes chunk nodes 0) (fun successCount =>
            if bool_decide (successCount = 0) then mret (Some (Some (c_index chunk)))
            else upload_chunks dht chunks')
      end
  end.

(** The loop over the metadata nodes: up to the first that acknowledges. *)
Fixpoint upload_metadata (nodes : list string) (filepath : string) (chunks : list Chunk)
    (rootHash : string) : io fs (option bool) :=
  match nodes with
  | [] => mret (Some false)
  | nodeAddr :: nodes' =>
      and_then (putMetadataToNode nodeAddr filepath chunks rootHash) (fun ok : bool =>
        if ok then mret (Some true) else upload_metadata nodes' filepath chunks rootHash)
  end.

Definition uploadFile (c : Client) (filepath : string) : io fs (option upload_result) :=
  chunks ← reads (fun d => splitFileIntoChunks d filepath);
  if bool_decide (chunks = []) then mret (Some EmptyOrMissing) else
  match hashAllChunks chunks with
  | None => mret None
  | Some chunks =>
      let rootHash := computeRootHash (c_hash <$> chunks) in
      and_then (upload_chunks (dht_ c) chunks) (fun failed =>
        match failed with
        | Some index => mret (Some (ChunkFailed index))
        | None =>
            and_then (upload_metadata (metadataNodes_ c) filepath chunks rootHash) (fun ok : bool =>
              mret (Some (if ok then UploadComplete else MetadataFailed)))
        end)
  end.

(** ** [downloadFile] *)

Inductive download_result :=
| NotInMetadata
| ChunkMissing (index : Z)
| ReconstructionFailed
| Reconstructed.

(** The loop over the metadata nodes, from the last to the first. *)
Fixpoint find_metadata (nodes : list string) (filename : string) : io fs (option (option FileMetadata)) :=
  match nodes with
  | [] => mret (Some None)
  | nodeAddr :: nodes' =>
      and_then (getMetadataFromNode nodeAddr filename) (fun meta =>
        if is_found meta then mret (Some (Some meta)) else find_metadata nodes' filename)
  end.

(** The loop over the nodes of a chunk, up to the first that has data. *)
Fixpoint download_from_nodes (hash : string) (nodes : list string) : io fs (option bytes) :=
  match nodes with
  | [] => mret (Some [])
  | node :: nodes' =>
      and_then (downloadChunkFromNode hash node) (fun data =>
        if bool_decide (data = []) then download_from_nodes hash nodes' else mret (Some data))
  end.

(** The loop over the hashes: the chunks, or the index of a missing one. *)
Fixpoint download_chunks (dht : ring) (i : Z) (hashes : list string) (chunks : list Chunk)
    : io fs (option (Z + list Chunk)) :=
  match hashes with
  | [] => mret (Some (inr chunks))
  | hash :: hashes' =>
      match getNodesForKey dht hash 2 with
      | None => mret None
      | Some nodes =>
          and_then (download_from_nodes hash nodes) (fun data =>
            if bool_decide (data = []) then mret (Some (inl i))
            else download_chunks dht (i + 1) hashes'
                   (chunks ++ [MkChunk (i32 i) hash data (i32 (zlen data))]))
      end
  end.

(** [reconstructFile] on the client's file system. *)
Definition reconstruct (chunks : list Chunk) (outputPath : string) : io fs (option download_result) :=
  Atomic (fun d => match reconstructFile d chunks outputPath with Some (_, d') => d' | None => d end)
    (fun d => mret (match reconstructFile d chunks outputPath with
                    | Some (true, _) => Some Reconstructed
                    | Some (false, _) => Some ReconstructionFailed
                    | None => None
                    end)).

Definition downloadFile (c : Client) (filename outputPath : string) : io fs (option download_result) :=
  and_then (find_metadata (rev (metadataNodes_ c)) filename) (fun found =>
    match found with
    | None => mret (Some NotInMetadata)
    | Some meta =>
        and_then (download_chunks (dht_ c) 0 (chunkHashes meta) []) (fun r =>
          match r with
          | inl i => mret (Some (ChunkMissing i))
          | inr chunks => reconstruct chunks outputPath
          end)
    end).

(** ** The measured durations *)

(** The public members, and their initial values. *)
Record durations := Durations {
  lastMetadataUploadDuration : Z;
  lastChunkUploadDuration : Z;
  lastTotalUploadDuration : Z;
  lastTotalDownloadDuration : Z
}.

Definition no_durations : durations := Durations 0 0 0 0.

(** The readings of the steady clock in a call, in nanoseconds. *)
Record upload_clock := UploadClock {
  upload_start : Z; chunks_start : Z; chunks_end : Z; metadata_start : Z; metadata_end : Z; upload_end : Z
}.
Record download_clock := DownloadClock { download_start : Z; download_end : Z }.

(** [duration_cast] to milliseconds. *)
Definition milliseconds (from to : Z) : Z := Z.quot (to - from) 1000000.

(** The members after a call that returned; an early return assigns none of them. *)
Definition upload_durations (r : upload_result) (t : upload_clock) (m : durations) : durations :=
  match r with
  | EmptyOrMissing | ChunkFailed _ => m
  | MetadataFailed | UploadComplete =>
      Durations (milliseconds (metadata_start t) (metadata_end t)) (milliseconds (chunks_start t) (chunks_end t))
        (milliseconds (upload_start t) (upload_end t)) (lastTotalDownloadDuration m)
  end.

Definition download_durations (r : download_result) (t : download_clock) (m : durations) : durations :=
  match r with
  | NotInMetadata | ChunkMissing _ => m
  | ReconstructionFailed | Reconstructed =>
      Durations (lastMetadataUploadDuration m) (lastChunkUploadDuration m) (lastTotalUploadDuration m)
        (milliseconds (download_start t) (download_end t))
  end.

(** A client's ring holds the addresses it was given. *)
Lemma new_client_nodes ss ms addr : addr ∈ getAllNodes (dht_ (new_client ss ms)) -> addr ∈ ss.
Proof.
  unfold new_client. cbn [dht_]. assert (forall r, addr ∈ getAllNodes (foldl (fun r n => addNode n r) r ss) ->
    addr ∈ getAllNodes r \/ addr ∈ ss) as H.
  { induction ss as [|s ss IH]; intros r; simpl; [by left|]. intros [Hr|Hs]%IH; [|right; by right].
    unfold getAllNodes in Hr. apply list_elem_of_fmap in Hr as (e & -> & He).
    apply set_at_elem in He as [->|He]; [right; by left|left; by apply list_elem_of_fmap_2]. }
  intros [Hn|Hs]%H; [by apply not_elem_of_nil in Hn|done].
Qed.

Lemma new_client_wf ss ms : ring_wf (dht_ (new_client ss ms)).
Proof.
  unfold new_client. cbn [dht_]. generalize ring_wf_nil. generalize ([] : ring) as r.
  induction ss as [|s ss IH]; intros r Hr; simpl; [done|]. by apply IH, addNode_wf.
Qed.

(** ** Traces *)

Definition address_of (nodeAddr : string) : option (string * Z) :=
  '(ip, p) ← split_address nodeAddr; port ← stoi p; Some (ip, port).

(** The calls of a [STORE] that stores the chunk, and of an acknowledged [PUT]. *)
Definition copy_trace (chunk : Chunk) (ip : string) (port : Z) : list event :=
  [Connected ip port true; SentTo (bytes_of_string ("STORE " +:+ c_hash chunk)) true;
   ReceivedFrom (bytes_of_string "READY"); SentTo (c_data chunk) true;
   ReceivedFrom (bytes_of_string "ACK"); Closed].

Definition put_trace (m : FileMetadata) (ip : string) (port : Z) : list event :=
  [Connected ip port true; SentTo (bytes_of_string (put_command m)) true;
   ReceivedFrom (bytes_of_string "ACK"); Closed].

(** [sub] is part of the trace. *)
Definition happens (sub tr : list event) : Prop := exists before after, tr = before ++ sub ++ after.

Lemma happens_refl tr : happens tr tr.
Proof. exists [], []. by rewrite app_nil_r. Qed.

Lemma happens_app_l sub tr tr' : happens sub tr -> happens sub (tr ++ tr').
Proof. intros (a & b & ->). exists a, (b ++ tr'). by rewrite !app_assoc. Qed.

Lemma happens_app_r sub tr tr' : happens sub tr' -> happens sub (tr ++ tr').
Proof. intros (a & b & ->). exists (tr ++ a), b. by rewrite app_assoc. Qed.

(** The number of connections a trace leaves open. *)
Fixpoint open_after (tr : list event) : Z :=
  match tr with
  | [] => 0
  | Connected _ _ true :: tr' => 1 + open_after tr'
  | Closed :: tr' => open_after tr' - 1
  | _ :: tr' => open_after tr'
  end.

Lemma open_after_app tr tr' : open_after (tr ++ tr') = open_after tr + open_after tr'.
Proof. induction tr as [|[] tr IH]; simpl; try case_match; lia. Qed.

Lemma run_and_then {A B} (p : io fs (option A)) (f : A -> io fs (option B)) d l :
  run (and_then p f) d l =
  let '((o, d', l'), tr) := run p d l in
  match o with
  | Some a => let '(r, tr') := run (f a) d' l' in (r, tr ++ tr')
  | None => ((None, d', l'), tr)
  end.
Proof.
  unfold and_then. rewrite run_bind. destruct (run p d l) as [[[[a|] d'] l'] tr]; [done|].
  simpl. by rewrite app_nil_r.
Qed.

(** A part of the client that leaves the files untouched and no connection open,
    and that ensures [Q] of its files, its value and its calls when it returns one. *)
Definition ensures {A} (p : io fs (option A)) (Q : fs -> A -> list event -> Prop) : Prop :=
  forall d l, let '((o, d', _), tr) := run p d l in
    d' = d /\ open_after tr = 0 /\ forall a, o = Some a -> Q d a tr.

Lemma ensures_ret {A} (a : A) (Q : fs -> A -> list event -> Prop) :
  (forall d, Q d a []) -> ensures (mret (Some a)) Q.
Proof. intros HQ d l. simpl. split_and!; [done..|]. by intros ? [= <-]. Qed.

Lemma ensures_none {A} (Q : fs -> A -> list event -> Prop) : ensures (mret None) Q.
Proof. intros d l. by simpl. Qed.

Lemma ensures_and_then {A B} (p : io fs (option A)) (f : A -> io fs (option B)) Q R R' :
  ensures p Q -> (forall a, ensures (f a) (R a)) ->
  (forall d a b tr tr', Q d a tr -> R a d b tr' -> R' d b (tr ++ tr')) ->
  ensures (and_then p f) R'.
Proof.
  intros Hp Hf HR d l. rewrite run_and_then. specialize (Hp d l).
  destruct (run p d l) as [[[[a|] d'] l'] tr]; destruct Hp as (-> & Ht & Hq); [|done].
  specialize (Hf a d l'). destruct (run (f a) d l') as [[[o d2] l2] tr2].
  destruct Hf as (-> & Ht2 & Hr). split_and!; [done|rewrite open_after_app; lia|eauto].
Qed.

Lemma ensures_mono {A} (p : io fs (option A)) (Q Q' : fs -> A -> list event -> Prop) :
  ensures p Q -> (forall d a tr, Q d a tr -> Q' d a tr) -> ensures p Q'.
Proof.
  intros Hp HQ d l. specialize (Hp d l). destruct (run p d l) as [[[o d'] l'] tr]. naive_solver.
Qed.

(** [with_node] reaches its body only on an open connection. *)
Lemma run_with_node {A} addr (failed : A) p d l :
  run (with_node addr failed p) d l =
  match split_address addr with
  | None => ((Some failed, d, l), [])
  | Some _ =>
      match address_of addr with
      | None => ((None, d, l), [])
      | Some (ip, port) =>
          let '(a, l1) := next_answer l in
          if ok_of a then
            let '((r, d', l'), tr) := run p d l1 in
            ((Some r, d', l'), Connected ip port true :: tr)
          else ((Some failed, d, l1), [Connected ip port false])
      end
  end.
Proof.
  unfold with_node, address_of. destruct (split_address addr) as [[ip ps]|]; [|done]. simpl.
  destruct (stoi ps) as [port|]; [|done]. simpl. destruct (next_answer l) as [a l1]. simpl.
  destruct (ok_of a); simpl; [|done]. change (io_bind ?f ?p) with (p ≫= f). rewrite run_bind.
  destruct (run p d l1) as [[[r d'] l'] tr]. simpl. by rewrite app_nil_r.
Qed.

(** Run an exchange through, one answer at a time. *)
Ltac run_exchange :=
  repeat (cbn -[bytes_of_string string_of_bytes]; match goal with
  | |- context [next_answer ?l] => destruct (next_answer l) as [? ?]
  | |- context [ok_of ?a] => destruct (ok_of a)
  | |- context [if bool_decide ?P then _ else _] => destruct (bool_decide P) eqn:?
  end); cbn -[bytes_of_string string_of_bytes].

Lemma address_split addr ip port : address_of addr = Some (ip, port) -> split_address addr <> None.
Proof. unfold address_of. by destruct (split_address addr). Qed.

(** The comparisons of an exchange, on the messages. *)
Ltac settle_answers :=
  repeat match goal with
  | H : bool_decide (_ <> _) = false |- _ => apply bool_decide_eq_false, dec_stable in H
  | H : bool_decide _ = true |- _ => apply bool_decide_eq_true in H
  | H : bool_decide _ = false |- _ => apply bool_decide_eq_false in H
  | H : string_of_bytes _ = _ |- _ => apply string_of_bytes_iff in H
  end.

(** Chunks stored: the answer is [true] exactly after the whole exchange. *)
Lemma uploadChunk_ensures chunk addr :
  ensures (uploadChunkToNode chunk addr) (fun _ ok tr =>
    ok = true <-> exists ip port, address_of addr = Some (ip, port) /\ tr = copy_trace chunk ip port).
Proof.
  intros d l. unfold uploadChunkToNode. rewrite run_with_node.
  destruct (split_address addr) as [[ip0 ps]|] eqn:Ea.
  2: { split_and!; [done..|]. intros ? [= <-]. split; [done|]. intros (ip & port & H & _).
       by apply address_split in H. }
  destruct (address_of addr) as [[ip port]|]; [|split_and!; naive_solver].
  run_exchange; settle_answers; (split_and!; [done|lia|]); unfold copy_trace; intros ? [= <-];
    try (split; [done|intros (? & ? & _ & ?); discriminate]).
  split.
  - intros E%bool_decide_eq_true. apply string_of_bytes_iff in E.
    exists ip, port. split; [done|]. congruence.
  - intros (ip' & port' & _ & E). injection E as _ _ _ E.
    rewrite E, string_bytes_id. by rewrite bool_decide_eq_true_2.
Qed.

(** Metadata stored. *)
Lemma putMetadata_ensures addr filepath chunks root :
  ensures (putMetadataToNode addr filepath chunks root) (fun d ok tr =>
    let m := put_metadata (getFileSize d filepath) filepath chunks root in
    ok = true <-> exists ip port, address_of addr = Some (ip, port) /\ tr = put_trace m ip port).
Proof.
  intros d l. unfold putMetadataToNode. rewrite run_with_node.
  destruct (split_address addr) as [[ip0 ps]|] eqn:Ea.
  2: { split_and!; [done..|]. intros ? [= <-]. split; [done|]. intros (ip & port & H & _).
       by apply address_split in H. }
  destruct (address_of addr) as [[ip port]|]; [|split_and!; naive_solver].
  destruct (next_answer l) as [a l1]. destruct (ok_of a).
  2: { split_and!; [done..|]. intros ? [= <-]. split; [done|]. intros (? & ? & _ & ?). discriminate. }
  cbn -[bytes_of_string string_of_bytes put_command put_metadata].
  destruct (next_answer l1) as [a2 l2]. cbn -[bytes_of_string string_of_bytes put_command put_metadata].
  destruct (ok_of a2); cbn -[bytes_of_string string_of_bytes put_command put_metadata].
  2: { split_and!; [done|lia|]. intros ? [= <-]. split; [done|].
       intros (? & ? & _ & ?). discriminate. }
  destruct (next_answer l2) as [a3 l3]. cbn -[bytes_of_string string_of_bytes put_command put_metadata].
  split_and!; [done|lia|]. intros ? [= <-]. split.
  - intros E%bool_decide_eq_true. apply string_of_bytes_iff in E.
    exists ip, port. unfold put_trace. by rewrite E.
  - intros (ip' & port' & _ & E). injection E as _ _ E.
    rewrite E, string_bytes_id. by rewrite bool_decide_eq_true_2.
Qed.

(** Data downloaded: what the node sent after [FOUND], or nothing. *)
Definition fetch_trace (hash ip : string) (port : Z) (data : bytes) : list event :=
  [Connected ip port true; SentTo (bytes_of_string ("GET " +:+ hash)) true;
   ReceivedFrom (bytes_of_string "FOUND"); ReceivedFrom data; Closed].

Lemma downloadChunk_ensures hash addr :
  ensures (downloadChunkFromNode hash addr) (fun _ data tr =>
    data <> [] ->
    exists ip port, address_of addr = Some (ip, port) /\ tr = fetch_trace hash ip port data).
Proof.
  intros d l. unfold downloadChunkFromNode. rewrite run_with_node.
  destruct (split_address addr) as [[ip0 ps]|] eqn:Ea; [|split_and!; naive_solver].
  destruct (address_of addr) as [[ip port]|]; [|split_and!; naive_solver].
  run_exchange; settle_answers; (split_and!; [done|lia|]); intros data [= <-] Hd; try done.
  exists ip, port. split; [done|]. unfold fetch_trace. congruence.
Qed.

(** Metadata read: what the client makes of a node's answer. *)
Definition lookup_trace (name ip : string) (port : Z) (answer : bytes) : list event :=
  [Connected ip port true; SentTo (bytes_of_string ("GET " +:+ name)) true;
   ReceivedFrom answer; Closed].

Lemma getMetadata_ensures addr name :
  ensures (getMetadataFromNode addr name) (fun _ m tr =>
    is_found m = true ->
    exists ip port answer, address_of addr = Some (ip, port) /\
      tr = lookup_trace name ip port answer /\ m = parse_found name (string_of_bytes answer)).
Proof.
  intros d l. unfold getMetadataFromNode. rewrite run_with_node.
  destruct (split_address addr) as [[ip0 ps]|] eqn:Ea; [|split_and!; naive_solver].
  destruct (address_of addr) as [[ip port]|]; [|split_and!; naive_solver].
  destruct (next_answer l) as [a l1]. destruct (ok_of a); [|split_and!; naive_solver].
  cbn -[bytes_of_string string_of_bytes parse_found]. destruct (next_answer l1) as [a2 l2].
  destruct (ok_of a2); cbn -[bytes_of_string string_of_bytes parse_found];
    [|split_and!; [done|lia|intros m [= <-]; done]].
  destruct (next_answer l2) as [a3 l3]. cbn -[bytes_of_string string_of_bytes parse_found].
  split_and!; [done|lia|]. intros m [= <-] _. exists ip, port, (msg_of a3). done.
Qed.

(** ** The loops *)

Definition replica_of (dht : ring) (hash addr : string) : Prop :=
  exists nodes, getNodesForKey dht hash replicationFactor = Some nodes /\ addr ∈ nodes.

(** A copy of the chunk was stored on one of the nodes. *)
Definition copied (nodes : list string) (chunk : Chunk) (tr : list event) : Prop :=
  exists addr ip port, addr ∈ nodes /\ address_of addr = Some (ip, port) /\
    happens (copy_trace chunk ip port) tr.

Lemma upload_to_nodes_ensures chunk nodes n :
  ensures (upload_to_nodes chunk nodes n)
    (fun _ n' tr => n <= n' /\ (n < n' -> copied nodes chunk tr)).
Proof.
  revert n. induction nodes as [|addr nodes IH]; intros n; simpl.
  { apply ensures_ret. intros _. lia. }
  eapply ensures_and_then; [apply uploadChunk_ensures|intros ok; apply IH|].
  intros _ [] n' tr tr' Hok [Hle Hc]; cbn beta iota in Hle, Hc.
  - split; [lia|]. intros _. destruct (proj1 Hok eq_refl) as (ip & port & Ha & ->).
    exists addr, ip, port. split_and!; [by left|done|]. apply happens_app_l, happens_refl.
  - split; [done|]. intros Hlt. destruct (Hc Hlt) as (addr' & ip & port & Hin & Ha & Hh).
    exists addr', ip, port. split_and!; [by right|done|]. by apply happens_app_r.
Qed.

Definition replicas (dht : ring) (hash : string) : list string :=
  default [] (getNodesForKey dht hash replicationFactor).

Lemma upload_chunks_ensures dht chunks :
  ensures (upload_chunks dht chunks) (fun _ failed tr =>
    failed = None -> Forall (fun c => copied (replicas dht (c_hash c)) c tr) chunks).
Proof.
  assert (forall nodes c tr tr', copied nodes c tr -> copied nodes c (tr' ++ tr)) as Hr.
  { intros nodes c tr tr' (addr & ip & port & ? & ? & ?). exists addr, ip, port.
    split_and!; [done|done|]. by apply happens_app_r. }
  induction chunks as [|chunk chunks IH]; simpl.
  { apply ensures_ret. by intros. }
  destruct (getNodesForKey dht (c_hash chunk) replicationFactor) as [nodes|] eqn:E;
    [|apply ensures_none].
  eapply (ensures_and_then _ _ _ (fun n _ failed tr => failed = None -> n <> 0 /\
     Forall (fun c => copied (replicas dht (c_hash c)) c tr) chunks));
    [apply upload_to_nodes_ensures| |].
  - intros n. case_bool_decide; [by apply ensures_ret|].
    eapply ensures_mono; [apply IH|]. auto.
  - intros _ n failed tr tr' [Hn Hc] Hf Hnone. destruct (Hf Hnone) as [Hn0 Hall].
    destruct (Hc ltac:(lia)) as (addr & ip & port & Hin & Ha & Hh). constructor.
    + exists addr, ip, port. unfold replicas. rewrite E. split_and!; [done..|].
      by apply happens_app_l.
    + eapply Forall_impl; [exact Hall|]. auto.
Qed.

Lemma upload_metadata_ensures nodes filepath chunks root :
  ensures (upload_metadata nodes filepath chunks root) (fun d ok tr =>
    ok = true -> exists addr ip port, addr ∈ nodes /\ address_of addr = Some (ip, port) /\
      happens (put_trace (put_metadata (getFileSize d filepath) filepath chunks root) ip port) tr).
Proof.
  induction nodes as [|addr nodes IH]; simpl.
  { by apply ensures_ret. }
  eapply (ensures_and_then _ _ _ (fun ok d b tr => b = true -> ok = true \/
    exists addr ip port, addr ∈ nodes /\ address_of addr = Some (ip, port) /\
      happens (put_trace (put_metadata (getFileSize d filepath) filepath chunks root) ip port) tr));
    [apply putMetadata_ensures| |].
  - intros []; [apply ensures_ret; auto|]. eapply ensures_mono; [apply IH|]. auto.
  - intros d ok b tr tr' Hok Hb Hbt. destruct (Hb Hbt) as [->|(addr' & ip & port & Hin & Ha & Hh)].
    + destruct (proj1 Hok eq_refl) as (ip & port & Ha & ->). exists addr, ip, port.
      split_and!; [by left|done|]. apply happens_app_l, happens_refl.
    + exists addr', ip, port. split_and!; [by right|done|]. by apply happens_app_r.
Qed.

Lemma find_metadata_ensures nodes name :
  ensures (find_metadata nodes name) (fun _ o tr =>
    forall m, o = Some m -> exists addr ip port answer,
      addr ∈ nodes /\ address_of addr = Some (ip, port) /\
      happens (lookup_trace name ip port answer) tr /\
      m = parse_found name (string_of_bytes answer) /\ is_found m = true).
Proof.
  induction nodes as [|addr nodes IH]; simpl.
  { by apply ensures_ret. }
  eapply (ensures_and_then _ _ _ (fun m _ o tr =>
    forall m', o = Some m' -> (m = m' /\ is_found m = true) \/ exists addr ip port answer,
      addr ∈ nodes /\ address_of addr = Some (ip, port) /\
      happens (lookup_trace name ip port answer) tr /\
      m' = parse_found name (string_of_bytes answer) /\ is_found m' = true));
    [apply getMetadata_ensures| |].
  - intros m. destruct (is_found m) eqn:Hm; [|eapply ensures_mono; [apply IH|auto]].
    apply ensures_ret. intros _ m' [= E]. left. by split.
  - intros d m o tr tr' Hm Ho m' E'. destruct (Ho m' E') as [[Heq Hf]|H].
    + destruct (Hm Hf) as (ip & port & answer & Ha & -> & E). rewrite <- Heq. exists addr, ip, port, answer.
      split_and!; [by left|done| |done|done]. apply happens_app_l, happens_refl.
    + destruct H as (addr' & ip & port & answer & Hin & Ha & Hh & E & Hf).
      exists addr', ip, port, answer. split_and!; [by right|done| |done|done]. by apply happens_app_r.
Qed.

(** The data of a chunk was sent by one of the nodes, under its hash. *)
Definition fetched (dht : ring) (tr : list event) (hash : string) (data : bytes) : Prop :=
  data <> [] /\ exists addr ip port, addr ∈ replicas dht hash /\ address_of addr = Some (ip, port) /\
    happens (fetch_trace hash ip port data) tr.

Lemma download_from_nodes_ensures hash nodes :
  ensures (download_from_nodes hash nodes) (fun _ data tr =>
    data <> [] -> exists addr ip port, addr ∈ nodes /\ address_of addr = Some (ip, port) /\
      happens (fetch_trace hash ip port data) tr).
Proof.
  induction nodes as [|addr nodes IH]; simpl.
  { by apply ensures_ret. }
  eapply (ensures_and_then _ _ _ (fun data _ data' tr => data' <> [] ->
    (data = data' /\ data <> []) \/ exists addr ip port, addr ∈ nodes /\ address_of addr = Some (ip, port) /\
      happens (fetch_trace hash ip port data') tr)); [apply downloadChunk_ensures| |].
  - intros data. case_bool_decide as Hd; [eapply ensures_mono; [apply IH|auto]|].
    apply ensures_ret. auto.
  - intros d data data' tr tr' Hq Hr Hd. destruct (Hr Hd) as [[<- Hne]|(addr' & ip & port & Hin & Ha & Hh)].
    + destruct (Hq Hne) as (ip & port & Ha & ->). exists addr, ip, port.
      split_and!; [by left|done|]. apply happens_app_l, happens_refl.
    + exists addr', ip, port. split_and!; [by right|done|]. by apply happens_app_r.
Qed.

(** The chunks made of the received data. *)
Fixpoint received (i : Z) (hashes : list string) (datas : list bytes) : list Chunk :=
  match hashes, datas with
  | h :: hs, x :: xs => MkChunk (i32 i) h x (i32 (zlen x)) :: received (i + 1) hs xs
  | _, _ => []
  end.

Lemma download_chunks_ensures dht i hashes chunks :
  ensures (download_chunks dht i hashes chunks) (fun _ r tr =>
    forall cs, r = inr cs -> exists datas, cs = chunks ++ received i hashes datas /\
      Forall2 (fetched dht tr) hashes datas).
Proof.
  revert i chunks. induction hashes as [|hash hashes IH]; intros i chunks; simpl.
  { apply ensures_ret. intros _ cs [= <-]. exists []. by rewrite app_nil_r. }
  destruct (getNodesForKey dht hash 2) as [nodes|] eqn:E; [|apply ensures_none].
  eapply (ensures_and_then _ _ _ (fun data _ r tr => forall cs, r = inr cs -> data <> [] /\
    exists datas, cs = chunks ++ received i (hash :: hashes) (data :: datas) /\
      Forall2 (fetched dht tr) hashes datas)); [apply download_from_nodes_ensures| |].
  - intros data. case_bool_decide as Hd; [by apply ensures_ret|].
    eapply ensures_mono; [apply IH|]. intros d r tr Hr cs Hcs. split; [done|].
    destruct (Hr cs Hcs) as (datas & -> & Hall). exists datas. by rewrite <- app_assoc.
  - intros d data r tr tr' Hq Hr cs Hcs. destruct (Hr cs Hcs) as (Hd & datas & -> & Hall).
    exists (data :: datas). split; [done|]. constructor.
    + split; [done|]. destruct (Hq Hd) as (addr & ip & port & Hin & Ha & Hh).
      exists addr, ip, port. unfold replicas, replicationFactor. rewrite E.
      split_and!; [done..|]. by apply happens_app_l.
    + eapply Forall2_impl; [exact Hall|]. intros h x (Hx & addr & ip & port & ? & ? & ?).
      split; [done|]. exists addr, ip, port. split_and!; [done..|]. by apply happens_app_r.
Qed.

Lemma received_chunks i hashes datas :
  0 <= i -> length datas = length hashes -> i + zlen datas <= INT_MAX ->
  Forall (fun x => zlen x <= INT_MAX) datas ->
  let cs := received i hashes datas in
  Forall chunk_wf cs /\ c_index <$> cs = seqZ i (zlen datas) /\ c_data <$> cs = datas.
Proof.
  intros Hi Hl Hmax Hall. revert i hashes Hi Hl Hmax.
  induction Hall as [|x datas Hx Hall IH]; intros i [|h hashes] Hi Hl Hmax; try done.
  rewrite zlen_cons in *. pose proof (zlen_nonneg datas). pose proof (zlen_nonneg x).
  injection Hl as Hl. destruct (IH (i + 1) hashes ltac:(lia) Hl ltac:(lia)) as (H1 & H2 & H3).
  simpl. rewrite seqZ_cons by lia. replace (Z.pred (zlen datas + 1)) with (zlen datas) by lia.
  rewrite !i32_small by (unfold in_int, INT_MIN, INT_MAX in *; lia).
  split_and!; [by constructor|unfold Z.succ; f_equal; exact H2|f_equal; exact H3].
Qed.

(** What follows the hashing in [uploadFile]. *)
Lemma upload_hashed_ensures c path chunks :
  let root := computeRootHash (c_hash <$> chunks) in
  ensures
    (and_then (upload_chunks (dht_ c) chunks) (fun failed =>
       match failed with
       | Some index => mret (Some (ChunkFailed index))
       | None =>
           and_then (upload_metadata (metadataNodes_ c) path chunks root) (fun ok : bool =>
             mret (Some (if ok then UploadComplete else MetadataFailed)))
       end))
    (fun d r tr => r = UploadComplete ->
       Forall (fun chunk => copied (replicas (dht_ c) (c_hash chunk)) chunk tr) chunks /\
       (exists addr ip port, addr ∈ metadataNodes_ c /\ address_of addr = Some (ip, port) /\
          happens (put_trace (put_metadata (getFileSize d path) path chunks root) ip port) tr)).
Proof.
  intros root.
  eapply (ensures_and_then _ _ _ (fun failed d r tr => r = UploadComplete -> failed = None /\
     exists addr ip port, addr ∈ metadataNodes_ c /\ address_of addr = Some (ip, port) /\
       happens (put_trace (put_metadata (getFileSize d path) path chunks root) ip port) tr));
    [apply upload_chunks_ensures| |].
  - intros [index|]; [by apply ensures_ret|].
    eapply (ensures_and_then _ _ _ (fun ok _ r tr => r = UploadComplete -> ok = true));
      [apply upload_metadata_ensures| |].
    + intros []; by apply ensures_ret.
    + intros d ok r tr tr' Hok Hr Hc. split; [done|].
      destruct (Hok (Hr Hc)) as (addr & ip & port & Hin & Ha & Hh).
      exists addr, ip, port. split_and!; [done..|]. by apply happens_app_l.
  - intros d failed r tr tr' Hf Hr Hc. destruct (Hr Hc) as (Hn & addr & ip & port & Hin & Ha & Hh).
    split.
    + eapply Forall_impl; [exact (Hf Hn)|]. intros chunk (addr' & ip' & port' & ? & ? & ?).
      exists addr', ip', port'. split_and!; [done..|]. by apply happens_app_l.
    + exists addr, ip, port. split_and!; [done..|]. by apply happens_app_r.
Qed.

(** ** Properties *)

(** C17. [uploadFile] reports success only when the store has the file: every chunk
    of the file was sent, under its SHA-256 hash, to one of its replica nodes, which
    acknowledged it with [READY] and [ACK], and the [PUT] command with the size, the
    root hash and all chunk hashes was acknowledged by one of the metadata nodes;
    whatever the network answers and whatever it reports, the files are untouched
    and no connection stays open. *)
Theorem upload_complete_means c path :
  ensures (uploadFile c path) (fun d r tr => r = UploadComplete ->
    exists chunks, chunks <> [] /\ hashAllChunks (splitFileIntoChunks d path) = Some chunks /\
      (forall chunk, chunk ∈ chunks ->
         exists addr ip port, addr ∈ replicas (dht_ c) (c_hash chunk) /\
           address_of addr = Some (ip, port) /\ happens (copy_trace chunk ip port) tr) /\
      (exists addr ip port, addr ∈ metadataNodes_ c /\ address_of addr = Some (ip, port) /\
         happens (put_trace (put_metadata (getFileSize d path) path chunks
                              (computeRootHash (c_hash <$> chunks))) ip port) tr)).
Proof.
  intros d l. unfold uploadFile.
  cbn [reads mbind io_mbind io_bind run mret io_ret].
  destruct (bool_decide (splitFileIntoChunks d path = [])) eqn:Hne.
  { simpl. split_and!; [done..|]. by intros ? [= <-]. }
  apply bool_decide_eq_false in Hne.
  destruct (hashAllChunks (splitFileIntoChunks d path)) as [chunks|] eqn:Hh; [|by simpl].
  pose proof (upload_hashed_ensures c path chunks d l) as H. revert H.
  destruct (run _ d l) as [[[o d'] l'] tr]. intros (-> & Ht & Hq).
  split_and!; [done..|]. intros r Hr Hc. destruct (Hq r Hr Hc) as [Hall Hm].
  exists chunks. split_and!; [|done| |done].
  - intros ->. apply Hne. unfold hashAllChunks in Hh. apply length_mapM in Hh. by apply nil_length_inv.
  - intros chunk Hin. rewrite Forall_forall in Hall. exact (Hall chunk Hin).
Qed.

(** C18. [downloadFile] writes the output file only when it reports success, and then
    from what the nodes sent: the record was the answer of a metadata node, every
    chunk is the non-empty answer of one of the replicas of its hash, and the file is
    those chunks in the order of the record (for answers below 2 GB).  It does not
    compare a chunk with its hash: the answers are written as they come.  No
    connection stays open in any case. *)
Theorem download_writes_answers c name out d l :
  let '((o, d', _), tr) := run (downloadFile c name out) d l in
  open_after tr = 0 /\
  (o <> Some Reconstructed -> d' = d) /\
  (o = Some Reconstructed ->
     exists meta addr ip port answer datas,
       addr ∈ metadataNodes_ c /\ address_of addr = Some (ip, port) /\
       happens (lookup_trace name ip port answer) tr /\
       meta = parse_found name (string_of_bytes answer) /\
       Forall2 (fetched (dht_ c) tr) (chunkHashes meta) datas /\
       (zlen datas <= INT_MAX -> Forall (fun x => zlen x <= INT_MAX) datas ->
          d' = FS (<[out := concat datas]> (files d)) (creatable d))).
Proof.
  unfold downloadFile. rewrite run_and_then.
  pose proof (find_metadata_ensures (rev (metadataNodes_ c)) name d l) as Hf.
  destruct (run (find_metadata _ _) d l) as [[[o1 d1] l1] tr1]. destruct Hf as (-> & Ht1 & Hf).
  destruct o1 as [[meta|]|]; [| |done].
  2: { simpl. rewrite app_nil_r. by split_and!. }
  destruct (Hf _ eq_refl meta eq_refl) as (addr & ip & port & answer & Hin & Ha & Hh & Em & _).
  rewrite run_and_then.
  pose proof (download_chunks_ensures (dht_ c) 0 (chunkHashes meta) [] d l1) as Hc.
  destruct (run (download_chunks _ _ _ _) d l1) as [[[o2 d2] l2] tr2]. destruct Hc as (-> & Ht2 & Hc).
  destruct o2 as [[i|cs]|]; [| |split_and!; [rewrite open_after_app; lia|done|done]].
  { simpl. rewrite app_nil_r. split_and!; [rewrite open_after_app; lia|done|done]. }
  destruct (Hc _ eq_refl cs eq_refl) as (datas & -> & Hall). simpl.
  rewrite !app_nil_r. split; [rewrite open_after_app; lia|].
  destruct (reconstructFile d (received 0 (chunkHashes meta) datas) out) as [[[] d3]|] eqn:Er;
    [|split; [by apply reconstructFile_false in Er|done]|done].
  split; [done|]. intros _. exists meta, addr, ip, port, answer, datas.
  split_and!; [by apply list_elem_of_In, in_rev, list_elem_of_In|done|by apply happens_app_l|done| |].
  - eapply Forall2_impl; [exact Hall|]. intros h x (Hx & addr' & ip' & port' & ? & ? & ?).
    split; [done|]. exists addr', ip', port'. split_and!; [done..|]. by apply happens_app_r.
  - intros Hmax Hdata. apply Forall2_length in Hall.
    destruct (received_chunks 0 (chunkHashes meta) datas) as (H1 & H2 & H3); [lia|done|lia|done|].
    assert (zlen (received 0 (chunkHashes meta) datas) = zlen datas) as Hl.
    { unfold zlen. rewrite <- H3 at 2. by rewrite length_fmap. }
    rewrite reconstruct_in_order in Er by (rewrite ?Hl; done). rewrite H3 in Er.
    destruct (_ && _) in Er; congruence.
Qed.
