(* ===== verification/Records.v ===== *)
(** * What an upload sends

    The chunks and the record [uploadFile] makes of a file, in one place for the
    files that say where they end up. *)
From S2P Require Import Prelude IoStream Sha256 Chunks ConsistentHash Wire Proc Client.

#[local] Open Scope Z_scope.

(** The chunks [uploadFile] makes of a file. *)
Definition chunks_of (content : bytes) : list Chunk :=
  (fun c => MkChunk (c_index c) (sha256 (c_data c)) (c_data c) (c_size c)) <$>
    numbered 0 (pieces (read_fuel content) content).

Definition record_of (path : string) (content : bytes) : FileMetadata :=
  let cs := chunks_of content in
  Meta (base_name path) (computeRootHash (c_hash <$> cs)) (zlen content) CHUNK_SIZE
       (i32 (zlen cs)) (c_hash <$> cs).

Lemma chunks_of_data content : c_data <$> chunks_of content = pieces (read_fuel content) content.
Proof. unfold chunks_of. rewrite <- list_fmap_compose. apply numbered_data. Qed.

Lemma chunks_of_hash content c : c ∈ chunks_of content -> c_hash c = sha256 (c_data c).
Proof. intros (c' & -> & _)%list_elem_of_fmap. done. Qed.

Lemma chunks_of_hashes content : c_hash <$> chunks_of content = sha256 <$> pieces (read_fuel content) content.
Proof. rewrite <- chunks_of_data. unfold chunks_of. by rewrite <- !list_fmap_compose. Qed.

Lemma chunks_of_sizes content c :
  c ∈ chunks_of content -> c_data c <> [] /\ zlen (c_data c) <= CHUNK_SIZE.
Proof.
  intros (c' & -> & [i Hi]%list_elem_of_lookup)%list_elem_of_fmap.
  apply numbered_lookup in Hi as (p & Hp & ->). cbn [c_data c_size c_index].
  destruct (pieces_sizes _ _ _ _ Hp) as [[H1 H2] _]. split; [|done]. by intros ->.
Qed.

Lemma chunks_of_nil content : content <> [] -> chunks_of content <> [].
Proof.
  intros Hne H. apply Hne, pieces_nil. by rewrite <- chunks_of_data, H.
Qed.

Lemma zlen_chunks_of content : zlen (chunks_of content) = zlen (pieces (read_fuel content) content).
Proof. rewrite <- chunks_of_data. unfold zlen. by rewrite length_fmap. Qed.

Lemma record_of_wf path content :
  token (base_name path) -> numberable content -> wf_meta (record_of path content).
Proof.
  intros Hn Hc. constructor; cbn [filename Wire.rootHash fileSize chunkSize totalChunks chunkHashes record_of].
  - done.
  - rewrite computeRootHash_eq. apply sha256_token.
  - by apply numberable_int64.
  - by vm_compute.
  - apply i32_in_int.
  - rewrite Forall_fmap. apply Forall_forall. intros x Hx. simpl. rewrite (chunks_of_hash _ _ Hx).
    split; [apply sha256_token|apply sha256_no_comma].
Qed.

(** What the program computes of a readable file. *)
Lemma split_not_empty d path content :
  files d !! path = Some content -> numberable content -> content <> [] ->
  splitFileIntoChunks d path <> [].
Proof.
  intros Hd Hnum Hne E. rewrite (splitFileIntoChunks_eq _ _ _ Hd Hnum) in E.
  apply (chunks_of_nil _ Hne). unfold chunks_of. by rewrite E.
Qed.

Lemma upload_hashes d path content :
  files d !! path = Some content -> numberable content ->
  hashAllChunks (splitFileIntoChunks d path) = Some (chunks_of content).
Proof.
  intros Hd Hnum. rewrite (splitFileIntoChunks_eq _ _ _ Hd Hnum).
  by rewrite hashAllChunks_wf by apply numbered_wf.
Qed.

Lemma split_readable d path :
  splitFileIntoChunks d path <> [] -> exists content, files d !! path = Some content /\
    (numberable content -> content <> []).
Proof.
  intros Hne. destruct (files d !! path) as [content|] eqn:E.
  - exists content. split; [done|]. intros Hnum ->. apply Hne.
    rewrite (splitFileIntoChunks_eq _ _ _ E Hnum). by rewrite (proj2 (pieces_nil [])).
  - exfalso. apply Hne. unfold splitFileIntoChunks. by rewrite E.
Qed.

Lemma put_metadata_record d path content :
  files d !! path = Some content ->
  put_metadata (getFileSize d path) path (chunks_of content)
    (computeRootHash (c_hash <$> chunks_of content)) = record_of path content.
Proof. intros Hd. unfold put_metadata, getFileSize, record_of. by rewrite Hd. Qed.

Lemma received_chunks_of content :
  numberable content ->
  let cs := chunks_of content in
  let got := received 0 (c_hash <$> cs) (c_data <$> cs) in
  Forall chunk_wf got /\ c_index <$> got = seqZ 0 (zlen got) /\ zlen got <= INT_MAX /\
  c_data <$> got = c_data <$> cs.
Proof.
  intros Hnum cs got. pose proof (numberable_pieces _ Hnum) as Hmax.
  rewrite <- zlen_chunks_of in Hmax. fold cs in Hmax.
  destruct (received_chunks 0 (c_hash <$> cs) (c_data <$> cs)) as (H1 & H2 & H3); [lia| | | |].
  - by rewrite !length_fmap.
  - unfold zlen. rewrite length_fmap. exact Hmax.
  - rewrite Forall_fmap. apply Forall_forall. intros x Hx. simpl.
    destruct (chunks_of_sizes _ _ Hx) as [_ Hs]. by etransitivity.
  - fold got in H1, H2, H3. assert (zlen got = zlen (c_data <$> cs)) as Hl.
    { unfold zlen. by rewrite <- H3, length_fmap. }
    split_and!; [done| |rewrite Hl; unfold zlen; by rewrite length_fmap|done]. by rewrite Hl.
Qed.

(** ** Names *)

(** A name without slashes is the last part of a path. *)
Definition no_slash (s : string) : bool := str_all (fun a => negb (bool_decide (a = "/"%char \/ a = "\"%char))) s.

Lemma after_last_slash_none s : no_slash s = true -> after_last_slash s = None.
Proof.
  unfold no_slash. induction s as [|a s IH]; simpl; [done|]. intros [Ha Hs]%andb_true_iff.
  rewrite IH by done. by destruct (bool_decide _).
Qed.

Lemma base_name_in dir name : no_slash name = true -> base_name (dir +:+ String "/" name) = name.
Proof.
  intros Hn. unfold base_name. enough (after_last_slash (dir +:+ String "/" name) = Some name) as -> by done.
  induction dir as [|a dir IH]; simpl; [|by rewrite IH].
  by rewrite (after_last_slash_none _ Hn).
Qed.

Lemma base_name_plain name : no_slash name = true -> base_name name = name.
Proof. intros Hn. unfold base_name. by rewrite after_last_slash_none. Qed.
