(* ===== verification/Apps.v ===== *)
(** * The command-line programs: [apps/main_client.cpp] and
    [apps/main_verify_files.cpp]

    The two mains, from their arguments (without the program's name) to their exit
    code.  The theorem: the verification tool accepts two files exactly when they
    have the same content, up to a collision of SHA-256. *)
From S2P Require Import Prelude IoStream Sha256 Chunks Proc ConsistentHash Wire Client.

#[local] Open Scope Z_scope.

(** The addresses compiled into the client. *)
Definition storageNodes : list string := ["127.0.0.1:8001"; "127.0.0.1:8002"].
Definition metadataNodes : list string := ["127.0.0.1:9001"; "127.0.0.1:9002"; "127.0.0.1:9003"].

Definition main_client (args : list string) : io fs (option Z) :=
  match args with
  | command :: arg1 :: more =>
      let client := new_client storageNodes metadataNodes in
      if bool_decide (command = "upload") then
        and_then (uploadFile client arg1) (fun _ => mret (Some 0))
      else if bool_decide (command = "download") then
        match more with
        | outputPath :: _ =>
            and_then (downloadFile client arg1 outputPath) (fun _ =>
              and_then (reads (fun d => computeCID d outputPath)) (fun _ => mret (Some 0)))
        | [] => mret (Some 1)
        end
      else mret (Some 1)
  | _ => mret (Some 1)
  end.

(** The exit code of the verification tool; [None] is undefined behaviour. *)
Definition main_verify_files (d : fs) (args : list string) : option Z :=
  match args with
  | [originalPath; reconstructedPath] =>
      originalCID ← computeCID d originalPath;
      if bool_decide (originalCID = EmptyString) then Some 1 else
      reconstructedCID ← computeCID d reconstructedPath;
      if bool_decide (reconstructedCID = EmptyString) then Some 1 else
      Some (if bool_decide (originalCID = reconstructedCID) then 0 else 1)
  | _ => Some 1
  end.

(** ** The verification tool *)

(** Every file is small enough for its chunk indices. *)
Definition all_numberable (d : fs) : Prop := forall p c, files d !! p = Some c -> numberable c.

(** The identifier of a path: empty exactly for a missing or empty file. *)
Lemma computeCID_path d p :
  all_numberable d ->
  exists cid, computeCID d p = Some cid /\
    (cid <> EmptyString <-> exists c, files d !! p = Some c /\ c <> []).
Proof.
  intros Hn. destruct (files d !! p) as [c|] eqn:E.
  - rewrite (computeCID_eq _ _ _ E (Hn _ _ E)). eexists. split; [done|].
    case_bool_decide as Hc; [naive_solver|]. rewrite computeRootHash_eq. split; [by exists c|].
    intros _. apply sha256_token.
  - assert (computeCID d p = Some EmptyString) as ->.
    { unfold computeCID, splitFileIntoChunks. by rewrite E. }
    eexists. split; [done|]. naive_solver.
Qed.

(** C39. The verification tool always ends with exit code 0 or 1; it accepts every
    two existing, non-empty files with the same content, and when it accepts, the
    files are equal or SHA-256 collides on two of the byte strings it hashed: chunks,
    or the lists of their digests. *)
Theorem verify_files_correct d a b :
  all_numberable d ->
  exists code, main_verify_files d [a; b] = Some code /\ (code = 0 \/ code = 1) /\
    (forall c, files d !! a = Some c -> files d !! b = Some c -> c <> [] -> code = 0) /\
    (code = 0 -> exists ca cb, files d !! a = Some ca /\ files d !! b = Some cb /\ ca <> [] /\
       (ca = cb \/ collide (hashed ca) (hashed cb))).
Proof.
  intros Hn. unfold main_verify_files.
  destruct (computeCID_path d a Hn) as (ca & Ea & Ha). destruct (computeCID_path d b Hn) as (cb & Eb & Hb).
  rewrite Ea. simpl. case_bool_decide as Ca.
  { exists 1. split_and!; [done|auto| |done]. intros c Hc _ Hne. exfalso. apply Ha; [by exists c|done]. }
  rewrite Eb. simpl. case_bool_decide as Cb.
  { exists 1. split_and!; [done|auto| |done]. intros c _ Hc Hne. exfalso. apply Hb; [by exists c|done]. }
  eexists. split; [done|]. split; [case_bool_decide; auto|]. split.
  - intros c Hca Hcb Hne. rewrite (computeCID_eq _ _ _ Hca (Hn _ _ Hca)) in Ea.
    rewrite (computeCID_eq _ _ _ Hcb (Hn _ _ Hcb)) in Eb. by rewrite bool_decide_eq_true_2 by congruence.
  - case_bool_decide as Heq; [|done]. intros _.
    destruct (proj1 Ha Ca) as (c1 & H1 & Hne). destruct (proj1 Hb Cb) as (c2 & H2 & _).
    exists c1, c2. split_and!; [done..|].
    apply (computeCID_sound d a b c1 c2 H1 H2 (Hn _ _ H1) (Hn _ _ H2)). congruence.
Qed.

Lemma verify_files_correct_witness :
  let d := FS {["f" := bytes_of_string "x"; "g" := bytes_of_string "x"]} (fun _ => true) in
  main_verify_files d ["f"; "g"] = Some 0.
Proof.
  intros d. destruct (verify_files_correct d "f" "g") as (code & E & _ & H & _).
  { intros p c Hc. assert (c = bytes_of_string "x") as ->; [|done].
    unfold d in Hc. simpl in Hc. apply lookup_insert_Some in Hc as [[_ <-]|[_ Hc]]; [done|].
    by apply lookup_singleton_Some in Hc as [_ <-]. }
  rewrite E. f_equal. by apply (H (bytes_of_string "x")).
Defined.
