(* ===== verification/Cluster.v ===== *)
(** * The cluster: the client and the nodes run against each other

    Every node of the world executes its own [handleClient] on the messages it
    receives; a program's calls on its connections are answered by the nodes'
    handlers, which may themselves open connections (a metadata node forwards a
    [PUT]).  One request is in progress at a time: this is the execution of the
    system with one client, all of whose exchanges are sequential.  A call that
    would wait for ever is [None].

    The theorem: a [PUT] acknowledged by the head of the chain is on every node of
    the chain. *)
From S2P Require Import Prelude IoStream Sha256 Chunks ConsistentHash Wire Proc Client.
From S2P Require StorageNode MetadataNode.

#[local] Open Scope Z_scope.

(** ** Worlds and connections *)

Inductive node :=
| Storage (s : StorageNode.StorageNode)
| Metadata (s : MetadataNode.MetadataNode).

Abbreviation address := (string * Z)%type.

(** What listens at each address: an IPv4 address in text and a port of 16 bits, as [endpoint]
    gives them.  A node that is down is not in the map. *)
Abbreviation world := (gmap address node).

(** Where a client that is given [nodeAddr] connects to. *)
Definition target (nodeAddr : string) : option address :=
  '(ip, port) ← address_of nodeAddr; endpoint ip port.

(** The thread at the other end of a connection. *)
Inductive handler :=
| HStorage (p : io StorageNode.StorageNode bool)
| HMetadata (p : io MetadataNode.MetadataNode bool)
| HGone.

(** An open connection: its peer, the peer's thread, and the messages it has sent
    that were not received yet. *)
Record conn := Conn { peer : address; at_peer : handler; inbox : list bytes }.

(** The thread has closed the connection. *)
Definition finished (h : handler) : bool :=
  match h with
  | HStorage (Ret _) | HMetadata (Ret _) | HGone => true
  | _ => false
  end.

(** The connection to an address.  A node that was stopped refuses it.  On a kernel where the
    listening socket outlives [::close] while [accept] is blocked ([Handlers.v]) one more
    connection is accepted, and closed without an answer: [unanswered] in [LocalCluster.v]
    says that a client finds the same then, unless [SIGPIPE] ends it. *)
Definition dial (a : address) (w : world) : option conn :=
  match w !! a with
  | Some (Storage s) =>
      if StorageNode.running_ s then Some (Conn a (HStorage StorageNode.handleClient) []) else None
  | Some (Metadata s) =>
      if MetadataNode.running_ s then Some (Conn a (HMetadata MetadataNode.handleClient) []) else None
  | None => None
  end.

(** A program that ran until it ended or waits for a message of its client. *)
Record talking (S A : Type) := Talking {
  prog : io S A;
  members : S;
  others : world;
  outgoing : option conn;
  unread : option bytes;
  answers : list bytes
}.
Arguments Talking {S A}.
Arguments prog {S A}.
Arguments members {S A}.
Arguments others {S A}.
Arguments outgoing {S A}.
Arguments unread {S A}.
Arguments answers {S A}.

Section Talk.
(** How a message is delivered on an outgoing connection. *)
Context (deliver : bytes -> conn -> world -> option (conn * world)).

Fixpoint talk {S A} (p : io S A) (s : S) (w : world) (c : option conn) (input : option bytes)
    (out : list bytes) : option (talking S A) :=
  match p with
  | Ret a => Some (Talking (Ret a) s w c input out)
  | Atomic f k => talk (k s) (f s) w c input out
  | Acquire _ k | Release _ k | ServerStop k | ServerClose k => talk k s w c input out
  | ServerRecv k =>
      match input with
      | Some d => talk (k d) s w c None out
      | None => Some (Talking (ServerRecv k) s w c None out)
      end
  | ServerSend d k => talk k s w c input (out ++ [d])
  | Connect ip port k =>
      match endpoint ip port ≫= fun a => dial a w with
      | Some c' => talk (k true) s w (Some c') input out
      | None => talk (k false) s w None input out
      end
  | Send d k =>
      match c with
      | Some c =>
          match deliver d c w with
          | Some (c', w') => talk (k true) s w' (Some c') input out
          | None => None
          end
      | None => talk (k false) s w None input out
      end
  | Recv k =>
      match c with
      | Some (Conn a h (m :: ms)) => talk (k m) s w (Some (Conn a h ms)) input out
      | Some (Conn a h []) => if finished h then talk (k []) s w c input out else None
      | None => talk (k []) s w None input out
      end
  | Close k =>
      match c with
      | Some c =>
          match deliver [] c w with
          | Some (_, w') => talk k s w' None input out
          | None => None
          end
      | None => talk k s w None input out
      end
  end.
End Talk.

(** After a turn of its loop a thread is at the beginning again. *)
Definition again {S} (h p : io S bool) : io S bool := match p with Ret true => h | _ => p end.

(** A message reaches the node at the other end, whose thread runs until it waits
    again; the empty message is the end of the connection.  [n] bounds the depth of
    nested connections. *)
Fixpoint deliver (n : nat) (d : bytes) (c : conn) (w : world) : option (conn * world) :=
  match n with
  | O => None
  | S n' =>
      let a := peer c in
      match w !! a, at_peer c with
      | Some (Storage s), HStorage p =>
          match talk (deliver n') p s (delete a w) None (Some d) [] with
          | Some t =>
              Some (Conn a (HStorage (again StorageNode.handleClient (prog t))) (inbox c ++ answers t),
                    <[a := Storage (members t)]> (others t))
          | None => None
          end
      | Some (Metadata s), HMetadata p =>
          match talk (deliver n') p s (delete a w) None (Some d) [] with
          | Some t =>
              Some (Conn a (HMetadata (again MetadataNode.handleClient (prog t))) (inbox c ++ answers t),
                    <[a := Metadata (members t)]> (others t))
          | None => None
          end
      | _, _ => Some (Conn a HGone (inbox c), w)
      end
  end.

Lemma deliver_metadata n d a p ib w s :
  w !! a = Some (Metadata s) ->
  deliver (S n) d (Conn a (HMetadata p) ib) w =
  match talk (deliver n) p s (delete a w) None (Some d) [] with
  | Some t =>
      Some (Conn a (HMetadata (again MetadataNode.handleClient (prog t))) (ib ++ answers t),
            <[a := Metadata (members t)]> (others t))
  | None => None
  end.
Proof. intros Hw. simpl. by rewrite Hw. Qed.

(** The client's program in the cluster: its result, its files and the world. *)
Definition run_client {A} (n : nat) (p : io fs A) (d : fs) (w : world) : option (A * fs * world) :=
  match talk (deliver n) p d w None None [] with
  | Some (Talking (Ret a) d' w' _ _ _) => Some (a, d', w')
  | _ => None
  end.

(** ** Running programs piecewise *)

Lemma talk_bind {S A B} dl (p : io S A) (f : A -> io S B) s w c i out :
  talk dl (p ≫= f) s w c i out =
  match talk dl p s w c i out with
  | Some (Talking (Ret a) s' w' c' i' out') => talk dl (f a) s' w' c' i' out'
  | Some (Talking p' s' w' c' i' out') => Some (Talking (p' ≫= f) s' w' c' i' out')
  | None => None
  end.
Proof.
  unfold mbind, io_mbind. revert s w c i out.
  induction p; intros s w c i out; simpl; auto.
  - destruct i; auto.
  - destruct (endpoint ip port ≫= _); auto.
  - destruct c as [c|]; auto. destruct (dl d c w) as [[? ?]|]; auto.
  - destruct c as [[? ? [|? ?]]|]; auto. destruct (finished at_peer0); auto.
  - destruct c as [c|]; auto. destruct (dl [] c w) as [[? ?]|]; auto.
Qed.

(** A program that makes no call on a connection but to send to its client. *)
Fixpoint local {S A} (p : io S A) : Prop :=
  match p with
  | Ret _ => True
  | Atomic f k => forall s, local (k s)
  | Acquire _ k | Release _ k | ServerStop k | ServerClose k | ServerSend _ k => local k
  | _ => False
  end.

Lemma talk_local {S A} dl (p : io S A) s w c i out :
  local p ->
  talk dl p s w c i out =
  let '((a, s', _), tr) := run p s [] in Some (Talking (Ret a) s' w c i (out ++ sent tr)).
Proof.
  revert s out. induction p; intros s' out Hl; simpl in *; try done; auto.
  - by rewrite app_nil_r.
  - rewrite IHp by done. destruct (run p s' []) as [[[? ?] ?] ?]. simpl. by rewrite <- app_assoc.
  - rewrite IHp by done. by destruct (run p s' []) as [[[? ?] ?] ?].
  - rewrite IHp by done. by destruct (run p s' []) as [[[? ?] ?] ?].
Qed.

Lemma local_bind {S A B} (p : io S A) (f : A -> io S B) :
  local p -> (forall a, local (f a)) -> local (p ≫= f).
Proof. unfold mbind, io_mbind. intros Hp Hf. induction p; simpl in *; auto. Qed.

(** ** A storage node answers *)

Lemma insert_back (w : world) a n : w !! a = Some n -> <[a := n]> (delete a w) = w.
Proof. intros. by rewrite insert_delete_eq, insert_id. Qed.

(** The turn on a command, up to the first message it waits for. *)
Lemma storage_turn dl s w c :
  StorageNode.running_ s = true -> c <> EmptyString ->
  talk dl StorageNode.handleClient s w None (Some (bytes_of_string c)) [] =
  talk dl ((let '(o, iss) := extract_string (istringstream c) in
            let op := default EmptyString o in
            if bool_decide (op = "STORE") then StorageNode.handleStore iss
            else if bool_decide (op = "GET") then StorageNode.handleGet iss
            else if bool_decide (op = "DIE") then
              modify (StorageNode.set_running false);; server_stop;; mret false
            else server_sendMessage "ERROR";; mret true) ≫=
           (fun again : bool => if again then mret true else server_closeClient;; mret false))
       s w None None [].
Proof.
  intros Hr Hc. unfold StorageNode.handleClient, StorageNode.handleClient_turn.
  cbn [reads mbind io_mbind io_bind talk]. rewrite Hr.
  cbn [negb server_recvMessage mbind io_mbind io_bind talk with_lock acquire release mret io_ret].
  rewrite string_bytes_id, bool_decide_eq_false_2 by done. by destruct (extract_string _).
Qed.

Lemma storage_words op w :
  token op -> token w ->
  exists i, extract_string (istringstream (op +:+ String " " w)) = (Some op, i) /\
    exists i', extract_string i = (Some w, i').
Proof.
  intros Ho Hw. unfold istringstream. rewrite read_word by done. eexists. split; [done|].
  rewrite read_last_word by done. by eexists.
Qed.

Lemma deliver_store n a s w h :
  w !! a = Some (Storage s) -> StorageNode.running_ s = true -> token h ->
  exists p,
    deliver (S n) (bytes_of_string ("STORE " +:+ h)) (Conn a (HStorage StorageNode.handleClient) []) w =
      Some (Conn a (HStorage p) [bytes_of_string "READY"], w) /\
    forall w' s' data ib, w' !! a = Some (Storage s') -> data <> [] ->
      deliver (S n) data (Conn a (HStorage p) ib) w' =
        Some (Conn a (HStorage StorageNode.handleClient) (ib ++ [bytes_of_string "ACK"]),
              <[a := Storage (StorageNode.set_storage (<[h := data]>) s')]> w').
Proof.
  intros Hw Hr Hh. cbn [deliver peer at_peer inbox]. rewrite Hw.
  rewrite storage_turn by (done || (by destruct h)).
  destruct (storage_words "STORE" h ltac:(done) Hh) as (i & E & i' & E').
  change ("STORE " +:+ h) with ("STORE" +:+ String " " h). rewrite E.
  cbn [default from_option id]. rewrite bool_decide_eq_true_2 by done.
  unfold StorageNode.handleStore. rewrite E'.
  eexists. split.
  - cbn -[bytes_of_string]. by rewrite insert_back.
  - intros w' s' data ib Hw' Hd. rewrite Hw'. cbn -[bytes_of_string].
    rewrite bool_decide_eq_false_2 by done. cbn -[bytes_of_string]. by rewrite insert_delete_eq.
Qed.

(** The end of a connection between two turns. *)
Lemma storage_eof dl s w :
  exists u, talk dl StorageNode.handleClient s w None (Some []) [] =
            Some (Talking (Ret false) s w None u []).
Proof.
  unfold StorageNode.handleClient, StorageNode.handleClient_turn.
  cbn [reads mbind io_mbind io_bind talk]. destruct (StorageNode.running_ s); by eexists.
Qed.

Lemma deliver_storage_eof n a s w ib :
  w !! a = Some (Storage s) ->
  deliver (S n) [] (Conn a (HStorage StorageNode.handleClient) ib) w =
    Some (Conn a (HStorage (Ret false)) ib, w).
Proof.
  intros Hw. cbn [deliver peer at_peer inbox]. rewrite Hw.
  destruct (storage_eof (deliver n) s (delete a w)) as (u & ->).
  cbn [prog members others answers again]. by rewrite app_nil_r, insert_back.
Qed.

Lemma deliver_get n a s w h :
  w !! a = Some (Storage s) -> StorageNode.running_ s = true -> token h ->
  let data := default [] (StorageNode.storage_ s !! h) in
  deliver (S n) (bytes_of_string ("GET " +:+ h)) (Conn a (HStorage StorageNode.handleClient) []) w =
  Some (Conn a (HStorage StorageNode.handleClient)
          (if bool_decide (data = []) then [bytes_of_string "NOT_FOUND"]
           else [bytes_of_string "FOUND"; data]), w).
Proof.
  intros Hw Hr Hh data. cbn [deliver peer at_peer inbox]. rewrite Hw.
  rewrite storage_turn by (done || (by destruct h)).
  destruct (storage_words "GET" h ltac:(done) Hh) as (i & E & i' & E').
  change ("GET " +:+ h) with ("GET" +:+ String " " h). rewrite E.
  cbn [default from_option id].
  rewrite bool_decide_eq_false_2, bool_decide_eq_true_2 by done.
  unfold StorageNode.handleGet. rewrite E'. cbn -[bytes_of_string]. fold data.
  destruct (bool_decide (data = [])); cbn -[bytes_of_string]; by rewrite insert_back.
Qed.

(** ** The client's exchanges with storage nodes *)

(** A part of the client that runs to its end, leaves the files alone and ends with
    no connection open. *)
Definition runs {A} (n : nat) (p : io fs A) (d : fs) (w : world) (a : A) (w' : world) : Prop :=
  talk (deliver n) p d w None None [] = Some (Talking (Ret a) d w' None None []).

(** The same for a part that also changes the files. *)
Definition ran {A} (n : nat) (p : io fs A) (d : fs) (w : world) (a : A) (d' : fs) (w' : world) : Prop :=
  talk (deliver n) p d w None None [] = Some (Talking (Ret a) d' w' None None []).

Lemma ran_bind {A B} n (p : io fs A) (f : A -> io fs B) d w a d1 w1 b d2 w2 :
  ran n p d w a d1 w1 -> ran n (f a) d1 w1 b d2 w2 -> ran n (p ≫= f) d w b d2 w2.
Proof. unfold ran. intros H1 H2. by rewrite talk_bind, H1. Qed.

Lemma ran_and_then {A B} n (p : io fs (option A)) (f : A -> io fs (option B)) d w a d1 w1 b d2 w2 :
  ran n p d w (Some a) d1 w1 -> ran n (f a) d1 w1 b d2 w2 -> ran n (and_then p f) d w b d2 w2.
Proof. intros H1 H2. by eapply ran_bind. Qed.

Lemma ran_client {A} n (p : io fs A) d w a d' w' : ran n p d w a d' w' -> run_client n p d w = Some (a, d', w').
Proof. unfold ran, run_client. by intros ->. Qed.

Lemma runs_ret {A} n (a : A) d w : runs n (mret a) d w a w.
Proof. done. Qed.

Lemma runs_bind {A B} n (p : io fs A) (f : A -> io fs B) d w a w1 b w2 :
  runs n p d w a w1 -> runs n (f a) d w1 b w2 -> runs n (p ≫= f) d w b w2.
Proof. unfold runs. intros H1 H2. by rewrite talk_bind, H1. Qed.

Lemma runs_and_then {A B} n (p : io fs (option A)) (f : A -> io fs (option B)) d w a w1 b w2 :
  runs n p d w (Some a) w1 -> runs n (f a) d w1 b w2 -> runs n (and_then p f) d w b w2.
Proof. intros H1 H2. by eapply runs_bind. Qed.

Lemma with_node_address {A} addr ip port (failed : A) p :
  address_of addr = Some (ip, port) ->
  with_node addr failed p =
  (ok ← client_connect ip port; if negb ok then mret (Some failed) else a ← p; mret (Some a)).
Proof.
  unfold address_of, with_node. destruct (split_address addr) as [[ip' ps]|]; [|done].
  simpl. destruct (stoi ps); [|done]. by intros [= -> ->].
Qed.

Lemma with_node_target {A} addr a (failed : A) p :
  target addr = Some a ->
  exists ip port, endpoint ip port = Some a /\ with_node addr failed p =
    (ok ← client_connect ip port; if negb ok then mret (Some failed) else a ← p; mret (Some a)).
Proof.
  unfold target. destruct (address_of addr) as [[ip port]|] eqn:E; [|done]. simpl. intros Ha.
  exists ip, port. split; [done|]. by apply with_node_address.
Qed.

(** Nothing listens at the address. *)
Lemma with_node_refused {A} n addr a (failed : A) p d w :
  target addr = Some a -> dial a w = None -> runs n (with_node addr failed p) d w (Some failed) w.
Proof.
  intros (ip & port & He & ->)%(with_node_target _ _ failed p) Hd. unfold runs.
  cbn [client_connect mbind io_mbind io_bind talk]. rewrite He. simpl. by rewrite Hd.
Qed.

Lemma with_node_connected {A} n addr a (failed : A) p d w c :
  target addr = Some a -> dial a w = Some c ->
  talk (deliver n) (with_node addr failed p) d w None None [] =
  talk (deliver n) (a ← p; mret (Some a)) d w (Some c) None [].
Proof.
  intros (ip & port & He & ->)%(with_node_target _ _ failed p) Hd.
  cbn [client_connect mbind io_mbind io_bind talk]. rewrite He. simpl. by rewrite Hd.
Qed.

Lemma dial_storage w a s :
  w !! a = Some (Storage s) -> StorageNode.running_ s = true ->
  dial a w = Some (Conn a (HStorage StorageNode.handleClient) []).
Proof. intros Hw Hr. unfold dial. by rewrite Hw, Hr. Qed.

Lemma runs_uploadChunk n chunk addr a d w s :
  target addr = Some a -> w !! a = Some (Storage s) -> StorageNode.running_ s = true ->
  token (c_hash chunk) -> c_data chunk <> [] ->
  runs (S n) (uploadChunkToNode chunk addr) d w (Some true)
    (<[a := Storage (StorageNode.set_storage (<[c_hash chunk := c_data chunk]>) s)]> w).
Proof.
  destruct a as [ip port]. intros Ha Hw Hr Hh Hd. unfold runs, uploadChunkToNode.
  rewrite (with_node_connected _ _ _ _ _ _ _ _ Ha (dial_storage _ _ _ Hw Hr)).
  destruct (deliver_store n (ip, port) s w (c_hash chunk) Hw Hr Hh) as (p & H1 & H2).
  cbn [client_sendMessage client_recvMessage client_sendData client_closes mbind io_mbind io_bind].
  cbn [talk]. rewrite H1. cbn [negb mbind io_mbind io_bind talk].
  rewrite string_bytes_id, bool_decide_eq_false_2 by (intros H; by apply H).
  cbn [talk io_bind]. rewrite (H2 w s (c_data chunk) []) by done. cbn [negb talk io_bind app].
  rewrite (deliver_storage_eof n _ (StorageNode.set_storage (<[c_hash chunk:=c_data chunk]>) s))
    by apply lookup_insert_eq.
  cbn [talk io_bind mret io_ret]. by rewrite string_bytes_id, bool_decide_eq_true_2.
Qed.

Lemma runs_downloadChunk n hash addr a d w s :
  target addr = Some a -> w !! a = Some (Storage s) -> StorageNode.running_ s = true ->
  token hash ->
  runs (S n) (downloadChunkFromNode hash addr) d w
    (Some (default [] (StorageNode.storage_ s !! hash))) w.
Proof.
  destruct a as [ip port]. intros Ha Hw Hr Hh. unfold runs, downloadChunkFromNode.
  rewrite (with_node_connected _ _ _ _ _ _ _ _ Ha (dial_storage _ _ _ Hw Hr)).
  pose proof (deliver_get n (ip, port) s w hash Hw Hr Hh) as H. cbv zeta in H.
  cbn [client_sendMessage client_recvMessage client_recvData client_closes mbind io_mbind io_bind].
  cbn [talk]. rewrite H. cbn [negb mbind io_mbind io_bind].
  destruct (bool_decide (default [] (StorageNode.storage_ s !! hash) = [])) eqn:E;
    cbn [talk io_bind]; rewrite string_bytes_id.
  - rewrite bool_decide_eq_false_2 by done. cbn [talk io_bind].
    rewrite (deliver_storage_eof n _ s) by done. cbn [talk io_bind mret io_ret].
    apply bool_decide_eq_true in E. by rewrite E.
  - rewrite bool_decide_eq_true_2 by done. cbn [talk io_bind].
    by rewrite (deliver_storage_eof n _ s).
Qed.

(** ** The chain of metadata nodes *)

Lemma metadata_eof dl s w :
  exists u, talk dl MetadataNode.handleClient s w None (Some []) [] =
            Some (Talking (Ret false) s w None u []).
Proof.
  unfold MetadataNode.handleClient, MetadataNode.handleClient_turn.
  cbn [reads mbind io_mbind io_bind talk]. destruct (MetadataNode.running_ s); by eexists.
Qed.

Lemma deliver_metadata_eof n a s w ib :
  w !! a = Some (Metadata s) ->
  deliver (S n) [] (Conn a (HMetadata MetadataNode.handleClient) ib) w =
    Some (Conn a (HMetadata (Ret false)) ib, w).
Proof.
  intros Hw. cbn [deliver peer at_peer inbox]. rewrite Hw.
  destruct (metadata_eof (deliver n) s (delete a w)) as (u & ->).
  cbn [prog members others answers again]. by rewrite app_nil_r, insert_back.
Qed.

(** A turn on a [PUT] and on a [GET]. *)
Lemma metadata_turn_put dl s w c i :
  MetadataNode.running_ s = true -> c <> EmptyString ->
  extract_string (istringstream c) = (Some "PUT", i) ->
  talk dl MetadataNode.handleClient s w None (Some (bytes_of_string c)) [] =
  talk dl ((MetadataNode.handlePut c;; mret true) ≫=
           (fun again : bool => if again then mret true else server_closeClient;; mret false))
       s w None None [].
Proof.
  intros Hr Hc He. unfold MetadataNode.handleClient, MetadataNode.handleClient_turn.
  cbn [reads mbind io_mbind io_bind talk]. rewrite Hr.
  cbn [negb server_recvMessage mbind io_mbind io_bind talk with_lock acquire release mret io_ret].
  by rewrite string_bytes_id, bool_decide_eq_false_2, He by done.
Qed.

Lemma metadata_turn_get dl s w f :
  MetadataNode.running_ s = true -> token f ->
  talk dl MetadataNode.handleClient s w None (Some (bytes_of_string ("GET " +:+ f))) [] =
  talk dl ((MetadataNode.handleGet f;; mret true) ≫=
           (fun again : bool => if again then mret true else server_closeClient;; mret false))
       s w None None [].
Proof.
  intros Hr Hf. unfold MetadataNode.handleClient, MetadataNode.handleClient_turn.
  cbn [reads mbind io_mbind io_bind talk]. rewrite Hr.
  cbn [negb server_recvMessage mbind io_mbind io_bind talk with_lock acquire release mret io_ret].
  rewrite string_bytes_id, bool_decide_eq_false_2 by (by destruct f).
  destruct (storage_words "GET" f ltac:(done) Hf) as (i & E & i' & E').
  change ("GET " +:+ f) with ("GET" +:+ String " " f). rewrite E.
  cbn [default from_option id]. by rewrite E'.
Qed.

Definition stored (m : FileMetadata) (s : MetadataNode.MetadataNode) : MetadataNode.MetadataNode :=
  MetadataNode.set_store (<[filename m := m]>) s.

Lemma not_last_local : local MetadataNode.not_last.
Proof. unfold MetadataNode.not_last. simpl. intros s. case_bool_decide; done. Qed.

(** [handlePut] up to the forwarding. *)
Lemma talk_handlePut dl c m s w :
  parse_put c = Some m ->
  talk dl (MetadataNode.handlePut c) s w None None [] =
  talk dl (success ← (if negb (MetadataNode.is_last s) && MetadataNode.has_next s
                      then MetadataNode.forwardPut c else mret true);
           server_sendMessage (if success : bool then "ACK" else "ERROR_FORWARD"))
       (stored m s) w None None [].
Proof.
  intros Hp. unfold MetadataNode.handlePut. rewrite Hp.
  cbn [with_lock acquire release modify mbind io_mbind io_bind talk mret io_ret].
  fold (stored m s). change (io_bind ?f ?p) with (p ≫= f).
  rewrite talk_bind, talk_bind, (talk_local _ _ _ _ _ _ _ not_last_local), MetadataNode.run_not_last.
  change (MetadataNode.is_last (stored m s)) with (MetadataNode.is_last s).
  destruct (MetadataNode.is_last s); cbn [negb andb talk mret io_ret sent omap list_omap app]; [done|].
  cbn [reads mbind io_mbind io_bind talk mret io_ret].
  by change (bool_decide (MetadataNode.nextNodePort_ (stored m s) <> -1)) with (MetadataNode.has_next s).
Qed.

(** The nodes of a chain, from the first to the last, all running. *)
Inductive chain (w : world) : list address -> Prop :=
| chain_last a s :
    w !! a = Some (Metadata s) -> MetadataNode.running_ s = true ->
    MetadataNode.is_last s = true -> chain w [a]
| chain_next a b l s :
    w !! a = Some (Metadata s) -> MetadataNode.running_ s = true ->
    MetadataNode.is_last s = false -> MetadataNode.has_next s = true ->
    endpoint (MetadataNode.nextNodeIp_ s) (MetadataNode.nextNodePort_ s) = Some b ->
    a ∉ b :: l -> chain w (b :: l) -> chain w (a :: b :: l).

Lemma chain_ext w w' l : chain w l -> (forall a, a ∈ l -> w' !! a = w !! a) -> chain w' l.
Proof.
  induction 1 as [a s H1 H2 H3|a b l s H1 H2 H3 H4 H5 H6 H7 IH]; intros Hw.
  - eapply chain_last; [rewrite Hw by left; done|done|done].
  - eapply chain_next; [rewrite Hw by left; done|done..|]. apply IH. intros x Hx. apply Hw. by right.
Qed.

Definition put_at (m : FileMetadata) (x : node) : node :=
  match x with Metadata s => Metadata (stored m s) | Storage s => Storage s end.

(** The world after a [PUT] that reached the nodes of [l]. *)
Definition put_everywhere (m : FileMetadata) (l : list address) (w w' : world) : Prop :=
  forall b, w' !! b = if decide (b ∈ l) then put_at m <$> (w !! b) else w !! b.

Lemma dial_metadata w a s :
  w !! a = Some (Metadata s) -> MetadataNode.running_ s = true ->
  dial a w = Some (Conn a (HMetadata MetadataNode.handleClient) []).
Proof. intros Hw Hr. unfold dial. by rewrite Hw, Hr. Qed.

Lemma lookup_put m l w w' b : put_everywhere m l w w' -> b ∈ l -> w' !! b = put_at m <$> (w !! b).
Proof. intros Hp Hb. rewrite (Hp b). by rewrite decide_True. Qed.

Lemma chain_head w a l :
  chain w (a :: l) -> exists s, w !! a = Some (Metadata s) /\ MetadataNode.running_ s = true.
Proof. inversion 1; subst; eauto. Qed.

(** A [PUT] delivered to the first node of a chain reaches all of them before the
    [ACK] comes back. *)
Lemma deliver_put c m i l :
  parse_put c = Some m -> c <> EmptyString -> extract_string (istringstream c) = (Some "PUT", i) ->
  forall n w a, chain w (a :: l) -> (length l <= n)%nat ->
  exists w',
    deliver (S n) (bytes_of_string c) (Conn a (HMetadata MetadataNode.handleClient) []) w =
      Some (Conn a (HMetadata MetadataNode.handleClient) [bytes_of_string "ACK"], w') /\
    put_everywhere m (a :: l) w w'.
Proof.
  intros Hp Hc He. induction l as [|b l IH]; intros n w a Hch Hn;
    inversion Hch as [? s Hw Hr Hl|? ? ? s Hw Hr Hl Hh Hb Ha Hch']; subst.
  - cbn [deliver peer at_peer inbox]. rewrite Hw, (metadata_turn_put _ _ _ _ _ Hr Hc He).
    change (io_bind ?f ?p) with (p ≫= f).
    rewrite talk_bind, talk_bind, (talk_handlePut _ _ _ _ _ Hp), Hl.
    cbn -[bytes_of_string]. eexists. split; [done|]. intros x. rewrite insert_delete_eq.
    destruct (decide (x = a)) as [->|Hne].
    + rewrite lookup_insert_eq, decide_True by (by left). by rewrite Hw.
    + rewrite lookup_insert_ne by done. rewrite decide_False by set_solver. done.
  - destruct n as [|n]; [simpl in Hn; lia|].
    assert (chain (delete a w) (b :: l)) as Hch2.
    { eapply chain_ext; [exact Hch'|]. intros x Hx. apply lookup_delete_ne. intros <-. done. }
    destruct (IH n (delete a w) b Hch2) as (w1 & Hd & Hput); [simpl in Hn; lia|].
    destruct (chain_head _ _ _ Hch2) as (sb & Hwb & Hrb).
    assert (w1 !! b = Some (Metadata (stored m sb))) as Hw1.
    { rewrite (lookup_put _ _ _ _ _ Hput) by left. by rewrite Hwb. }
    rewrite (deliver_metadata _ _ _ _ _ _ _ Hw), (metadata_turn_put _ _ _ _ _ Hr Hc He).
    change (io_bind ?f ?p) with (p ≫= f).
    rewrite talk_bind, talk_bind, (talk_handlePut _ _ _ _ _ Hp), Hl, Hh. cbn [negb andb].
    unfold MetadataNode.forwardPut.
    cbn [reads mbind io_mbind io_bind client_connect client_sendMessage client_recvMessage
         client_closes talk].
    change (MetadataNode.nextNodeIp_ (stored m s)) with (MetadataNode.nextNodeIp_ s).
    change (MetadataNode.nextNodePort_ (stored m s)) with (MetadataNode.nextNodePort_ s).
    rewrite Hb. cbn [mbind option_bind]. rewrite (dial_metadata _ _ _ Hwb Hrb). cbn [negb io_bind talk]. rewrite Hd.
    cbn [negb io_bind talk]. rewrite (deliver_metadata_eof n _ _ _ _ Hw1).
    cbn -[bytes_of_string string_of_bytes]. rewrite string_bytes_id, bool_decide_eq_true_2 by done.
    eexists. split; [done|]. intros x. destruct (decide (x = a)) as [->|Hne].
    + rewrite lookup_insert_eq, decide_True by (by left). by rewrite Hw.
    + rewrite lookup_insert_ne, (Hput x), lookup_delete_ne by done.
      destruct (decide (x ∈ b :: l)); [rewrite decide_True by (by right)|rewrite decide_False by set_solver]; done.
Qed.

(** ** The client's exchanges with metadata nodes *)

Lemma put_command_word m :
  put_command m <> EmptyString /\ exists i, extract_string (istringstream (put_command m)) = (Some "PUT", i).
Proof.
  split; [done|]. unfold put_command, istringstream.
  change ("PUT " +:+ ?x) with ("PUT" +:+ String " " x). rewrite read_word by done. by eexists.
Qed.

Lemma runs_putMetadata n addr a l path chunks root d w :
  let m := put_metadata (getFileSize d path) path chunks root in
  wf_meta m -> chunkHashes m <> [] -> target addr = Some a -> chain w (a :: l) ->
  (length l <= n)%nat ->
  exists w', runs (S n) (putMetadataToNode addr path chunks root) d w (Some true) w' /\
    put_everywhere m (a :: l) w w'.
Proof.
  intros m Hm Hc Ha Hch Hn. destruct (put_command_word m) as (Hne & i & Hi).
  destruct (deliver_put _ _ _ l (parse_put_command m Hm Hc) Hne Hi n w a Hch Hn) as (w' & Hd & Hp).
  destruct (chain_head _ _ _ Hch) as (s & Hw & Hr).
  assert (w' !! a = Some (Metadata (stored m s))) as Hw'.
  { rewrite (lookup_put _ _ _ _ _ Hp) by left. by rewrite Hw. }
  exists w'. split; [|done]. destruct a as [ip port]. unfold runs, putMetadataToNode.
  rewrite (with_node_connected _ _ _ _ _ _ _ _ Ha (dial_metadata _ _ _ Hw Hr)).
  cbn [reads client_sendMessage client_recvMessage client_closes mbind io_mbind io_bind].
  cbn [talk]. fold m. rewrite Hd. cbn [negb mbind io_mbind io_bind talk].
  rewrite (deliver_metadata_eof n _ _ _ _ Hw'). cbn [talk mret io_ret].
  by rewrite string_bytes_id, bool_decide_eq_true_2.
Qed.

Lemma deliver_metadata_get n a s w f :
  w !! a = Some (Metadata s) -> MetadataNode.running_ s = true -> token f ->
  deliver (S n) (bytes_of_string ("GET " +:+ f)) (Conn a (HMetadata MetadataNode.handleClient) []) w =
  Some (Conn a (HMetadata MetadataNode.handleClient) [bytes_of_string (MetadataNode.get_answer s f)], w).
Proof.
  intros Hw Hr Hf. rewrite (deliver_metadata _ _ _ _ _ _ _ Hw), (metadata_turn_get _ _ _ _ Hr Hf).
  rewrite talk_bind, talk_bind, talk_local, MetadataNode.run_handleGet.
  - cbn -[bytes_of_string]. by rewrite insert_back.
  - apply local_bind; [apply not_last_local|]. intros []; [done|]. simpl. intros s1.
    by destruct (_ !! f).
Qed.

Lemma runs_getMetadata n addr a name d w s :
  target addr = Some a -> w !! a = Some (Metadata s) -> MetadataNode.running_ s = true ->
  token name ->
  runs (S n) (getMetadataFromNode addr name) d w
    (Some (parse_found name (MetadataNode.get_answer s name))) w.
Proof.
  destruct a as [ip port]. intros Ha Hw Hr Hf. unfold runs, getMetadataFromNode.
  rewrite (with_node_connected _ _ _ _ _ _ _ _ Ha (dial_metadata _ _ _ Hw Hr)).
  cbn [client_sendMessage client_recvMessage client_closes mbind io_mbind io_bind].
  cbn [talk]. rewrite (deliver_metadata_get n _ _ _ _ Hw Hr Hf). cbn [negb mbind io_mbind io_bind talk].
  rewrite (deliver_metadata_eof n _ _ _ _ Hw). cbn [talk mret io_ret]. by rewrite string_bytes_id.
Qed.

Lemma chain_member w l a : chain w l -> a ∈ l -> exists s, w !! a = Some (Metadata s).
Proof. induction 1; set_solver. Qed.

(** ** Properties *)

(** C12. A [PUT] that the first node of the chain acknowledged is on every node of
    it: the [ACK] comes back from the end of the chain, and when it does each
    node's store maps the name to the record; no other node of the cluster has
    changed. *)
Theorem chain_put m ip port a l w d :
  wf_meta m -> chunkHashes m <> [] -> endpoint ip port = Some a -> chain w (a :: l) ->
  exists w',
    run_client (S (length l))
      (client_connect ip port;; client_sendMessage (put_command m);; client_recvMessage) d w =
      Some ("ACK", d, w') /\
    (forall b, b ∈ a :: l -> exists s, w !! b = Some (Metadata s) /\
       w' !! b = Some (Metadata (MetadataNode.set_store (<[filename m := m]>) s))) /\
    (forall b, b ∉ a :: l -> w' !! b = w !! b).
Proof.
  intros Hm Hc Ha Hch. destruct (put_command_word m) as (Hne & i & Hi).
  destruct (deliver_put _ _ _ l (parse_put_command m Hm Hc) Hne Hi (length l) w a Hch ltac:(done))
    as (w' & Hd & Hp).
  destruct (chain_head _ _ _ Hch) as (s & Hw & Hr). exists w'. split_and!.
  - unfold run_client. cbn [client_connect client_sendMessage client_recvMessage mbind io_mbind io_bind].
    cbn [talk fst snd]. rewrite Ha. cbn [mbind option_bind]. rewrite (dial_metadata _ _ _ Hw Hr). cbn [talk].
    rewrite Hd. unfold client_recvMessage. cbn [talk mret io_ret mbind io_mbind io_bind].
    by rewrite string_bytes_id.
  - intros b Hb. destruct (chain_member _ _ _ Hch Hb) as [s' Hs']. exists s'. split; [done|].
    by rewrite (lookup_put _ _ _ _ _ Hp Hb), Hs'.
  - intros b Hb. rewrite (Hp b). by rewrite decide_False.
Qed.

(** Two nodes: the record arrives at the second. *)
Lemma chain_put_witness :
  let m := Meta "f" "r" 5 1048576 1 ["h"] in
  let head := MetadataNode.started 1 (MetadataNode.new_node "10.0.0.1" 2) in
  let tail := MetadataNode.started 2 (MetadataNode.new_node EmptyString (-1)) in
  let w := {[("10.0.0.1", 1) := Metadata head; ("10.0.0.1", 2) := Metadata tail]} : world in
  exists w', run_client 2
      (client_connect "10.0.0.1" 1;; client_sendMessage (put_command m);; client_recvMessage)
      (FS ∅ (fun _ => true)) w = Some ("ACK", FS ∅ (fun _ => true), w') /\
    w' !! ("10.0.0.1", 2) = Some (Metadata (MetadataNode.set_store (<["f" := m]>) tail)).
Proof.
  intros m head tail w.
  assert (w !! ("10.0.0.1", 2) = Some (Metadata tail)) as Ht by by vm_compute.
  destruct (chain_put m "10.0.0.1" 1 ("10.0.0.1", 1) [("10.0.0.1", 2)] w (FS ∅ (fun _ => true))) as (w' & Hw & Hin & _).
  - split; simpl; try (by vm_compute); repeat constructor; done.
  - done.
  - by vm_compute.
  - eapply (chain_next _ _ _ _ head); [by vm_compute|done..| |]; [by apply (bool_decide_unpack _); vm_compute|].
    by apply (chain_last _ _ tail).
  - exists w'. split; [exact Hw|]. destruct (Hin ("10.0.0.1", 2)) as (s & Hs & Hs'); [right; left|].
    rewrite Ht in Hs. by injection Hs as <-.
Defined.
