(* ===== verification/Network.v ===== *)
(** * The cluster, all at once: every interleaving of clients, handlers and repairs

    [Cluster.v] runs one request at a time.  Here any number of clients, handler
    threads and health checks take steps in any order, and the network may fail any
    call: a connection may be refused, a send may fail, a receive may find the
    connection ended, and what was sent before a connection is closed is still
    read by the handler at its other end.

    A connection belongs to the thread that opened it, and the handler at its other
    end to the connection; so the running system is a forest ([thread], [link]) whose
    roots are the clients, the health checks and the connections nobody holds any
    more.  [net_do] executes one step of a schedule; [net_reach] are the
    configurations any schedule reaches.

    The second half is a logic for the programs of [Proc.v] in this setting.  A
    [Contract] says what the nodes promise in their answers, how their state may
    evolve and what may be asked of them; [safe] is the obligation of one program;
    [net_sound] concludes, for programs that are all [safe], what holds in every
    reachable configuration.  A contract may be for the schedules in which no call fails
    only ([calm], [reliable]); its programs need not be prepared for failures. *)
From S2P Require Import Prelude IoStream Sha256 Chunks ConsistentHash Wire Proc Client Cluster.
From S2P Require StorageNode MetadataNode.

#[local] Open Scope Z_scope.

(** ** Configurations *)

(** A handler (or the health check of a node) with the connection it has opened, and
    a connection with the messages on their way. *)
Inductive thread :=
| SThread (a : address) (p : io StorageNode.StorageNode bool) (l : link)
| MThread (a : address) (body p : io MetadataNode.MetadataNode bool) (l : link)
with link :=
| Hang
| Link (requests replies : list bytes) (t : thread).

Definition home (t : thread) : address :=
  match t with SThread a _ _ | MThread a _ _ _ => a end.

(** What a client is started for, and how it ends. *)
Inductive job := Upload (path : string) | Download (name out : string).

Inductive outcome := Uploaded (r : option upload_result) | Downloaded (r : option download_result).

Definition job_program (c : Client) (j : job) : io fs outcome :=
  match j with
  | Upload path => r ← uploadFile c path; mret (Uploaded r)
  | Download name out => r ← downloadFile c name out; mret (Downloaded r)
  end.

Inductive root :=
| Orphan (l : link)
| Running (c : Client) (j : job) (d0 : fs) (p : io fs outcome) (d : fs) (l : link).

Definition locks := address -> mutex -> bool.

Record net := Net { nodes : world; locked : locks; roots : list root }.

Definition set_lock (a : address) (m : mutex) (b : bool) (h : locks) : locks :=
  fun a' m' => if decide (a' = a /\ m' = m) then b else h a' m'.

(** ** One action *)

(** Where a program's members are: in a node of the world, or with the program. *)
Record cell (S X : Type) := Cell {
  look : world -> X -> option S;
  write : S -> world -> X -> world * X
}.
Arguments look {S X}.
Arguments write {S X}.

Definition storage_cell (a : address) : cell StorageNode.StorageNode unit :=
  Cell _ _ (fun w _ => match w !! a with Some (Storage s) => Some s | _ => None end)
           (fun s w x => (<[a := Storage s]> w, x)).

Definition metadata_cell (a : address) : cell MetadataNode.MetadataNode unit :=
  Cell _ _ (fun w _ => match w !! a with Some (Metadata s) => Some s | _ => None end)
           (fun s w x => (<[a := Metadata s]> w, x)).

Definition client_cell : cell fs fs :=
  Cell _ _ (fun _ x => Some x) (fun s w _ => (w, s)).

(** The handler the accept loop starts on a new connection.  A node that was stopped may
    still accept: its main thread can be in [accept] while the socket is closed ([Handlers.v]).
    The handler then finds [running_] cleared. *)
Definition accepted (a : address) (w : world) : option thread :=
  match w !! a with
  | Some (Storage _) => Some (SThread a StorageNode.handleClient Hang)
  | Some (Metadata _) => Some (MThread a MetadataNode.handleClient MetadataNode.handleClient Hang)
  | None => None
  end.

(** The connection goes on without its owner. *)
Definition abandoned (l : link) : list link := match l with Hang => [] | _ => [l] end.

(** What an action leaves: the world, the members of a client, the mutexes, the rest
    of the program, its connection, the queues of the connection it serves, and the
    connections it let go. *)
Record acted (S X A : Type) := Acted {
  a_world : world; a_own : X; a_locks : locks; a_prog : io S A; a_link : link;
  a_requests : list bytes; a_replies : list bytes; a_left : list link
}.
Arguments Acted {S X A}.
Arguments a_world {S X A}.
Arguments a_own {S X A}.
Arguments a_locks {S X A}.
Arguments a_prog {S X A}.
Arguments a_link {S X A}.
Arguments a_requests {S X A}.
Arguments a_replies {S X A}.
Arguments a_left {S X A}.

(** One access or call.  [fail] is the network's choice; a step that must wait is
    [None].  A [ServerSend] that is blocked because its peer does not read is one that the
    schedule does not run: every theorem about all schedules covers it, and that
    [clientsMutex_] is held meanwhile; a continuation in which it runs supposes that the
    peer reads, or that the kernel's buffers take the answer. *)
Definition act {S X A : Type} (c : cell S X) (here : option address) (fail : bool) (w : world) (x : X)
    (h : locks) (p : io S A) (l : link) (qs rs : list bytes) : option (acted S X A) :=
  match p with
  | Ret _ => None
  | Atomic f k =>
      s ← look c w x;
      let '(w', x') := write c (f s) w x in Some (Acted w' x' h (k s) l qs rs [])
  | Acquire m k =>
      match here with
      | Some a => if h a m then None else Some (Acted w x (set_lock a m true h) k l qs rs [])
      | None => None
      end
  | Release m k =>
      match here with
      | Some a => Some (Acted w x (set_lock a m false h) k l qs rs [])
      | None => None
      end
  | ServerRecv k =>
      if fail then Some (Acted w x h (k []) l qs rs [])
      else match qs with
           | d :: qs' => Some (Acted w x h (k d) l qs' rs [])
           | [] => None
           end
  | ServerSend r k => Some (Acted w x h k l qs (rs ++ [r]) [])
  | ServerStop k | ServerClose k => Some (Acted w x h k l qs rs [])
  | Connect ip port k =>
      if fail then Some (Acted w x h (k false) Hang qs rs (abandoned l))
      else
        a ← endpoint ip port;
        t ← accepted a w;
        Some (Acted w x h (k true) (Link [] [] t) qs rs (abandoned l))
  | Send d k =>
      match l with
      | Hang => Some (Acted w x h (k false) l qs rs [])
      | Link qs' rs' t =>
          if fail then Some (Acted w x h (k false) l qs rs [])
          else Some (Acted w x h (k true) (Link (qs' ++ [d]) rs' t) qs rs [])
      end
  | Recv k =>
      match l with
      | Hang => Some (Acted w x h (k []) l qs rs [])
      | Link qs' rs' t =>
          if fail then Some (Acted w x h (k []) l qs rs [])
          else match rs' with
               | m :: ms => Some (Acted w x h (k m) (Link qs' ms t) qs rs [])
               | [] => None
               end
      end
  | Close k => Some (Acted w x h k Hang qs rs (abandoned l))
  end.

(** The loop of a handler goes round. *)
Definition restart {S} (body p : io S bool) : option (io S bool) :=
  match p with Ret true => Some body | _ => None end.

(** A step of the handler at the end of a connection. *)
Definition thread_do (fail : bool) (w : world) (h : locks) (qs rs : list bytes) (t : thread)
    : option (world * locks * link * list link) :=
  match t with
  | SThread a p l =>
      match act (storage_cell a) (Some a) fail w tt h p l qs rs with
      | Some r => Some (a_world r, a_locks r,
                    Link (a_requests r) (a_replies r) (SThread a (a_prog r) (a_link r)), a_left r)
      | None => p' ← restart StorageNode.handleClient p; Some (w, h, Link qs rs (SThread a p' l), [])
      end
  | MThread a body p l =>
      match act (metadata_cell a) (Some a) fail w tt h p l qs rs with
      | Some r => Some (a_world r, a_locks r,
                    Link (a_requests r) (a_replies r) (MThread a body (a_prog r) (a_link r)), a_left r)
      | None => p' ← restart body p; Some (w, h, Link qs rs (MThread a body p' l), [])
      end
  end.

(** A step of the handler [n] connections further away. *)
Fixpoint link_do (n : nat) (fail : bool) (w : world) (h : locks) (l : link)
    : option (world * locks * link * list link) :=
  match l with
  | Hang => None
  | Link qs rs t =>
      match n with
      | O => thread_do fail w h qs rs t
      | S n' =>
          match t with
          | SThread a p l' =>
              '(w', h', l'', lost) ← link_do n' fail w h l';
              Some (w', h', Link qs rs (SThread a p l''), lost)
          | MThread a body p l' =>
              '(w', h', l'', lost) ← link_do n' fail w h l';
              Some (w', h', Link qs rs (MThread a body p l''), lost)
          end
      end
  end.

(** A choice of the schedule: start a client, start the health check of a node, or
    let the thread [n] connections below root [i] take a step. *)
Inductive choice :=
| Begin (c : Client) (j : job) (d : fs)
| Watch (a : address)
| Step (i n : nat) (fail : bool).

Definition root_do (n : nat) (fail : bool) (w : world) (h : locks) (r : root)
    : option (world * locks * root * list link) :=
  match r, n with
  | Orphan l, _ =>
      '(w', h', l', lost) ← link_do n fail w h l; Some (w', h', Orphan l', lost)
  | Running c j d0 p d l, O =>
      r ← act client_cell None fail w d h p l [] [];
      Some (a_world r, a_locks r, Running c j d0 (a_prog r) (a_own r) (a_link r), a_left r)
  | Running c j d0 p d l, S n' =>
      '(w', h', l', lost) ← link_do n' fail w h l; Some (w', h', Running c j d0 p d l', lost)
  end.

Definition watcher (a : address) : link :=
  Link [] [] (MThread a MetadataNode.healthCheck MetadataNode.healthCheck Hang).

Definition net_do (ch : choice) (c : net) : option net :=
  match ch with
  | Begin cl j d =>
      Some (Net (nodes c) (locked c) (roots c ++ [Running cl j d (job_program cl j) d Hang]))
  | Watch a =>
      match nodes c !! a with
      | Some (Metadata _) => Some (Net (nodes c) (locked c) (roots c ++ [Orphan (watcher a)]))
      | _ => None
      end
  | Step i n fail =>
      r ← roots c !! i;
      '(w', h', r', lost) ← root_do n fail (nodes c) (locked c) r;
      Some (Net w' h' (<[i := r']> (roots c) ++ (Orphan <$> lost)))
  end.

Fixpoint net_exec (chs : list choice) (c : net) : option net :=
  match chs with
  | [] => Some c
  | ch :: chs' => c' ← net_do ch c; net_exec chs' c'
  end.

Definition start_net (w : world) : net := Net w (fun _ _ => false) [].

(** A calm step fails no call; only a handler may find, where it waits for a request, that
    its connection has ended. *)
Definition is_read {S A : Type} (p : io S A) : bool := match p with ServerRecv _ => true | _ => false end.

Definition thread_reads (t : thread) : bool :=
  match t with SThread _ p _ => is_read p | MThread _ _ p _ => is_read p end.

Fixpoint reads_at (n : nat) (l : link) : bool :=
  match l with
  | Hang => false
  | Link _ _ t =>
      match n with
      | O => thread_reads t
      | S n' => match t with SThread _ _ l' | MThread _ _ _ l' => reads_at n' l' end
      end
  end.

Definition root_reads (n : nat) (r : root) : bool :=
  match r, n with
  | Orphan l, _ => reads_at n l
  | Running _ _ _ _ _ _, O => false
  | Running _ _ _ _ _ l, S n' => reads_at n' l
  end.

Definition calm (ch : choice) (c : net) : bool :=
  match ch with
  | Step i n true => match roots c !! i with Some r => root_reads n r | None => false end
  | _ => true
  end.

(** Schedules for examples: in [(k, i, n)] the thread [n] connections below root [i]
    takes [k] steps in which nothing fails. *)
Definition runs_of (l : list (nat * nat * nat)) : list choice :=
  concat ((fun '(k, i, n) => replicate k (Step i n false)) <$> l).

Lemma default_executed chs c0 (o := net_exec chs c0) :
  bool_decide (is_Some o) = true -> o = Some (default c0 o).
Proof. rewrite bool_decide_eq_true. by intros [c ->]. Qed.

(** The clients a schedule starts. *)
Definition begun_in (chs : list choice) : list (Client * job * fs) :=
  omap (fun ch => match ch with Begin cl j d => Some (cl, j, d) | _ => None end) chs.

Lemma begun_in_elem chs cl j d : Begin cl j d ∈ chs <-> (cl, j, d) ∈ begun_in chs.
Proof.
  unfold begun_in. rewrite list_elem_of_omap. split.
  - intros Hin. by exists (Begin cl j d).
  - intros ([cl' j' d'| |] & Hin & E); try done. by simplify_eq.
Qed.

(** [admits] says which clients are started. *)
Definition net_reach (admits : Client -> job -> fs -> Prop) (w : world) (c : net) : Prop :=
  exists chs, net_exec chs (start_net w) = Some c /\
    forall cl j d, Begin cl j d ∈ chs -> admits cl j d.

(** ** Contracts *)

(** What passes a connection, as its server sees it. *)
Inductive label := Asked (d : bytes) | Answered (r : bytes).

Definition asked (tr : list label) : list bytes :=
  omap (fun e => match e with Asked d => Some d | _ => None end) tr.
Definition answered (tr : list label) : list bytes :=
  omap (fun e => match e with Answered r => Some r | _ => None end) tr.

(** Two worlds with the same nodes, related one by one. *)
Definition pointwise (R : node -> node -> Prop) (w w' : world) : Prop :=
  forall a, option_relation R (fun _ => False) (fun _ => False) (w !! a) (w' !! a).

Definition same_kind (n n' : node) : Prop :=
  match n, n' with Storage _, Storage _ | Metadata _, Metadata _ => True | _, _ => False end.

(** The interface between the nodes and whoever talks to them: the states of a
    connection, the answers a node may give in them, the facts of the world these
    answers vouch for, the requests it may be sent, its invariant, and how its state
    may evolve.  What an answer vouches for stays true as nodes evolve.  A [reliable]
    contract is one for schedules in which no call fails. *)
Class Contract := {
  session : Type;
  opening : node -> session;
  on_request : session -> bytes -> session;
  may_answer : world -> address -> session -> bytes -> session -> Prop;
  honest : node -> list bytes -> Prop;
  node_ok : address -> node -> Prop;
  node_le : node -> node -> Prop;
  node_le_preorder :: PreOrder node_le;
  node_le_kind n n' : node_le n n' -> same_kind n n';
  opening_le n n' : node_le n n' -> opening n' = opening n;
  honest_le n n' ds : node_le n n' -> honest n ds -> honest n' ds;
  honest_prefix n ds ds' : honest n (ds ++ ds') -> honest n ds;
  may_answer_le w w' b s r s' :
    pointwise node_le w w' -> may_answer w b s r s' -> may_answer w' b s r s';
  reliable : bool
}.

(** ** The logic *)

(** The connection a program has opened: its peer, what was asked and what came. *)
Abbreviation opened := (option (address * list bytes * list bytes)).

Section Logic.
Context `{Contract}.

Definition world_le : world -> world -> Prop := pointwise node_le.
Definition world_ok (w : world) : Prop := forall a n, w !! a = Some n -> node_ok a n.

#[export] Instance world_le_preorder : PreOrder world_le.
Proof.
  split.
  - intros w a. destruct (w !! a); simpl; [reflexivity|done].
  - intros w1 w2 w3 H12 H23 a. specialize (H12 a). specialize (H23 a).
    destruct (w1 !! a), (w2 !! a), (w3 !! a); simpl in *; try done. by etransitivity.
Qed.

Lemma world_le_lookup w w' a n : world_le w w' -> w !! a = Some n -> exists n', w' !! a = Some n' /\ node_le n n'.
Proof. intros Hle E. specialize (Hle a). rewrite E in Hle. destruct (w' !! a); [eauto|done]. Qed.

Lemma world_le_back w w' a n : world_le w w' -> w' !! a = Some n -> exists n', w !! a = Some n' /\ node_le n' n.
Proof. intros Hle E. specialize (Hle a). rewrite E in Hle. destruct (w !! a); [eauto|done]. Qed.

Lemma world_le_insert w a n n' : w !! a = Some n -> node_le n n' -> world_le w (<[a := n']> w).
Proof.
  intros E Hn b. destruct (decide (b = a)) as [->|Hne].
  - by rewrite lookup_insert_eq, E.
  - rewrite lookup_insert_ne by done. destruct (w !! b); simpl; [reflexivity|done].
Qed.

Lemma world_ok_insert w a n : world_ok w -> node_ok a n -> world_ok (<[a := n]> w).
Proof. intros Hw Hn b m [[<- <-]|[_ E]]%lookup_insert_Some; [done|]. by apply Hw. Qed.

(** The connection went from [s] to [s'] through [tr]. *)
Fixpoint path (w : world) (b : address) (s : session) (tr : list label) (s' : session) : Prop :=
  match tr with
  | [] => s = s'
  | Asked d :: tr' => path w b (on_request s d) tr' s'
  | Answered r :: tr' => exists s1, may_answer w b s r s1 /\ path w b s1 tr' s'
  end.

Lemma path_app w b s tr1 s1 tr2 s2 : path w b s tr1 s1 -> path w b s1 tr2 s2 -> path w b s (tr1 ++ tr2) s2.
Proof.
  revert s. induction tr1 as [|[d|r] tr1 IH]; simpl; intros s H1 H2; [by subst|by apply IH|].
  destruct H1 as (s' & ? & ?). exists s'. auto.
Qed.

Lemma path_le w w' b s tr s' : world_le w w' -> path w b s tr s' -> path w' b s tr s'.
Proof.
  intros Hle. revert s. induction tr as [|[d|r] tr IH]; simpl; intros s Hp; [done|by apply IH|].
  destruct Hp as (s1 & ? & ?). exists s1. split; [by eapply may_answer_le|auto].
Qed.

(** What the owner of a connection knows: it asked [ds] and got [rs]. *)
Definition knows (w : world) (b : address) (ds rs : list bytes) : Prop :=
  exists n tr s, w !! b = Some n /\ path w b (opening n) tr s /\
    asked tr `prefix_of` ds /\ rs `prefix_of` answered tr.

Section Safe.
Context {S X : Type} (c : cell S X) (here : option address).

(** [safe Q w x s o p]: from the world [w], with the members of the client [x], the
    connection it serves in the state [s] and the one it opened in [o], the program
    [p] keeps the contract whatever the others do, and ends in [Q]. *)
Fixpoint safe {A} (Q : world -> X -> session -> opened -> A -> Prop)
    (w : world) (x : X) (s : session) (o : opened) (p : io S A) : Prop :=
  match p with
  | Ret a => Q w x s o a
  | Atomic f k => forall w' m, world_le w w' -> world_ok w' -> look c w' x = Some m ->
      let '(w2, x2) := write c (f m) w' x in
      world_le w' w2 /\ world_ok w2 /\ safe Q w2 x2 s o (k m)
  | Acquire _ k | Release _ k | ServerStop k | ServerClose k => safe Q w x s o k
  | ServerRecv k => forall w', world_le w w' -> world_ok w' ->
      safe Q w' x s o (k []) /\
      forall d b n tr, here = Some b -> w' !! b = Some n -> path w' b (opening n) tr s ->
        honest n (asked tr ++ [d]) -> safe Q w' x (on_request s d) o (k d)
  | ServerSend r k =>
      match here with
      | Some b => exists s', may_answer w b s r s' /\ safe Q w x s' o k
      | None => False
      end
  | Connect ip port k =>
      (forall w' a n, world_le w w' -> world_ok w' -> endpoint ip port = Some a -> w' !! a = Some n ->
        honest n [] /\ safe Q w' x s (Some (a, [], [])) (k true)) /\
      (reliable = false -> safe Q w x s None (k false))
  | Send d k =>
      match o with
      | Some (b, ds, rs) =>
          (forall n, w !! b = Some n -> honest n (ds ++ [d])) /\
          safe Q w x s (Some (b, ds ++ [d], rs)) (k true) /\ (reliable = false -> safe Q w x s o (k false))
      | None => safe Q w x s None (k false)
      end
  | Recv k =>
      match o with
      | Some (b, ds, rs) => forall w' r rs', world_le w w' -> world_ok w' ->
          rs' = rs ++ [r] \/ (reliable = false /\ r = [] /\ rs' = rs) -> knows w' b ds rs' ->
          safe Q w' x s (Some (b, ds, rs')) (k r)
      | None => safe Q w x s None (k [])
      end
  | Close k => safe Q w x s None k
  end.

Lemma safe_mono {A} (Q Q' : world -> X -> session -> opened -> A -> Prop) w x s o p :
  (forall w' x s o a, world_le w w' -> Q w' x s o a -> Q' w' x s o a) ->
  safe Q w x s o p -> safe Q' w x s o p.
Proof.
  revert w x s o. induction p; intros w x s o HQ; simpl; auto.
  - apply HQ. reflexivity.
  - intros Hs w' st Hle Hok Hl. specialize (Hs w' st Hle Hok Hl).
    destruct (write c (f st) w' x) as [w2 x2]. destruct Hs as (? & ? & ?). split_and!; [done..|].
    eapply H0; [|done]. intros. apply HQ; [|done]. by do 2 (etransitivity; [done|]).
  - intros Hs w' Hle Hok. destruct (Hs w' Hle Hok) as [H1 H2]. split.
    + eapply H0; [|done]. intros. apply HQ; [|done]. by etransitivity.
    + intros. eapply H0; [|by eapply H2]. intros. apply HQ; [|done]. by etransitivity.
  - destruct here; [|done]. intros (s' & ? & ?). exists s'. split; [done|]. by apply IHp.
  - intros [H1 H2]. split; [|intros Hrel; eapply H0; [done|by apply H2]].
    intros w' a n Hle Hok Ha Hn. destruct (H1 w' a n Hle Hok Ha Hn). split; [done|].
    eapply H0; [|done]. intros. apply HQ; [|done]. by etransitivity.
  - destruct o as [[[b ds] rs]|]; [|by eapply H0]. intros (Hn & H1 & H2).
    split_and!; [done|by eapply H0|intros Hrel; eapply H0; [done|by apply H2]].
  - destruct o as [[[b ds] rs]|]; [|by eapply H0]. intros Hs w' r rs' Hle Hok Hr Hk.
    eapply H0; [|by eapply Hs]. intros. apply HQ; [|done]. by etransitivity.
Qed.

Lemma safe_bind {A B} (p : io S A) (f : A -> io S B) Q w x s o :
  safe (fun w x s o a => safe Q w x s o (f a)) w x s o p -> safe Q w x s o (p ≫= f).
Proof.
  unfold mbind, io_mbind. revert w x s o. induction p; intros w x s o; simpl; auto.
  - intros Hs w' st Hle Hok Hl. specialize (Hs w' st Hle Hok Hl).
    destruct (write c (f0 st) w' x) as [w2 x2]. naive_solver.
  - intros Hs w' Hle Hok. destruct (Hs w' Hle Hok) as [H1 H2]. split; [auto|]. intros. eapply H0. eauto.
  - destruct here; [|done]. intros (s' & ? & ?). eauto.
  - intros [H1 H2]. split; [|auto]. intros w' a n Hle Hok Ha Hn. destruct (H1 w' a n Hle Hok Ha Hn). auto.
  - destruct o as [[[b ds] rs]|]; [|auto]. intros (? & ? & ?). auto.
  - destruct o as [[[b ds] rs]|]; [|auto]. intros Hs w' r rs' Hle Hok Hr Hk. eapply H0. eauto.
Qed.

(** The others may move the world on. *)
Lemma safe_le {A} (Q : world -> X -> session -> opened -> A -> Prop) w w' x s o p :
  (forall w w' x s o a, world_le w w' -> Q w x s o a -> Q w' x s o a) ->
  world_le w w' -> safe Q w x s o p -> safe Q w' x s o p.
Proof.
  intros HQ. revert w w' x s o. induction p; intros w w' x s o Hle; simpl; eauto.
  - intros Hs w1 st Hle1 Hok. apply Hs; [by etransitivity|done].
  - intros Hs w1 Hle1 Hok. apply Hs; [by etransitivity|done].
  - destruct here; [|done]. intros (s' & ? & ?). exists s'. split; [by eapply may_answer_le|eauto].
  - intros [H1 H2]. split; [|eauto]. intros w1 a n Hle1. apply H1. by etransitivity.
  - destruct o as [[[b ds] rs]|]; [|eauto]. intros (Hn & ? & ?). split_and!; [|eauto..].
    intros n Hw'. destruct (world_le_back _ _ _ _ Hle Hw') as (n0 & E & Hn0).
    eapply honest_le; [done|auto].
  - destruct o as [[[b ds] rs]|]; [|eauto]. intros Hs w1 r rs' Hle1. apply Hs. by etransitivity.
Qed.
End Safe.

(** ** Soundness *)

(** A turn of a handler's loop ends where it began. *)
Definition turn_done (a : address) {X : Type} (w : world) (_ : X) (s : session) (o : opened) (again : bool) : Prop :=
  again = true -> (forall n, w !! a = Some n -> s = opening n) /\ o = None.

Lemma turn_done_le {X : Type} a w w' (x : X) s o b : world_le w w' -> turn_done a w x s o b -> turn_done a w' x s o b.
Proof.
  intros Hle Hd Hb. destruct (Hd Hb) as [Hs Ho]. split; [|done]. intros n Hn.
  destruct (world_le_back _ _ _ _ Hle Hn) as (n0 & E & Hn0). rewrite (opening_le _ _ Hn0). auto.
Qed.

Definition storage_body_ok (a : address) (body : io StorageNode.StorageNode bool) : Prop :=
  forall w m, world_ok w -> w !! a = Some (Storage m) ->
    safe (storage_cell a) (Some a) (turn_done a) w tt (opening (Storage m)) None body.

Definition metadata_body_ok (a : address) (body : io MetadataNode.MetadataNode bool) : Prop :=
  forall w m, world_ok w -> w !! a = Some (Metadata m) ->
    safe (metadata_cell a) (Some a) (turn_done a) w tt (opening (Metadata m)) None body.

(** The handler at [here] is in the state [s] on a connection whose owner asked [ds],
    got [got], and on which [qs] and [rs] are on their way. *)
Definition serves (here : option address) (w : world) (s : session) (got ds qs rs : list bytes) : Prop :=
  match here with
  | Some b => exists n tr, w !! b = Some n /\ path w b (opening n) tr s /\
      asked tr ++ qs = ds /\ answered tr = got ++ rs /\ honest n ds
  | None => qs = []
  end.

Lemma serves_le here w w' s got ds qs rs :
  world_le w w' -> serves here w s got ds qs rs -> serves here w' s got ds qs rs.
Proof.
  destruct here as [b|]; [|done]. intros Hle (n & tr & E & Hp & ? & ? & Hh).
  destruct (world_le_lookup _ _ _ _ Hle E) as (n' & E' & Hn). exists n', tr.
  rewrite (opening_le _ _ Hn). split_and!; [done|by eapply path_le|done|done|by eapply honest_le].
Qed.

(** The handler's program obeys, and so does the whole tree below. *)
Fixpoint thread_ok (w : world) (s : session) (t : thread) : Prop :=
  match t with
  | SThread a p l => exists o m, w !! a = Some (Storage m) /\
      safe (storage_cell a) (Some a) (turn_done a) w tt s o p /\ link_ok w o l
  | MThread a body p l => exists o m, w !! a = Some (Metadata m) /\ metadata_body_ok a body /\
      safe (metadata_cell a) (Some a) (turn_done a) w tt s o p /\ link_ok w o l
  end
with link_ok (w : world) (o : opened) (l : link) : Prop :=
  match l with
  | Hang => o = None
  | Link qs rs t => exists b ds got s, o = Some (b, ds, got) /\ home t = b /\
      serves (Some b) w s got ds qs rs /\ thread_ok w s t
  end.

Definition orphan_ok (w : world) (l : link) : Prop := exists o, link_ok w o l.

Scheme thread_ind2 := Induction for thread Sort Prop
  with link_ind2 := Induction for link Sort Prop.
Combined Scheme thread_link_ind from thread_ind2, link_ind2.

Lemma ok_le w w' : world_le w w' ->
  (forall t s, thread_ok w s t -> thread_ok w' s t) /\ (forall l o, link_ok w o l -> link_ok w' o l).
Proof.
  intros Hle. apply thread_link_ind; simpl.
  - intros a p l IH s (o & m & E & Hs & Hl).
    destruct (world_le_lookup _ _ _ _ Hle E) as ([m'|m'] & E' & Hn); [|by apply node_le_kind in Hn].
    exists o, m'. split_and!; [done| |auto]. eapply safe_le; [|done|done]. intros *. apply turn_done_le.
  - intros a body p l IH s (o & m & E & Hb & Hs & Hl).
    destruct (world_le_lookup _ _ _ _ Hle E) as ([m'|m'] & E' & Hn); [by apply node_le_kind in Hn|].
    exists o, m'. split_and!; [done|done| |auto]. eapply safe_le; [|done|done]. intros *. apply turn_done_le.
  - done.
  - intros qs rs t IH o (b & ds & got & s & -> & Hh & Hserv & Ht). exists b, ds, got, s.
    split_and!; [done|done|exact (serves_le (Some b) _ _ _ _ _ _ _ Hle Hserv)|auto].
Qed.

Lemma link_ok_le w w' o l : world_le w w' -> link_ok w o l -> link_ok w' o l.
Proof. intros Hle. by apply ok_le. Qed.

Lemma orphan_ok_le w w' l : world_le w w' -> orphan_ok w l -> orphan_ok w' l.
Proof. intros Hle [o Ho]. exists o. by eapply link_ok_le. Qed.

Lemma abandoned_ok w o l : link_ok w o l -> Forall (orphan_ok w) (abandoned l).
Proof. destruct l; [constructor|]. intros. repeat constructor. by exists o. Qed.

(** What a connection's owner knows. *)
Lemma link_knows w b ds got qs rs t r :
  link_ok w (Some (b, ds, got)) (Link qs rs t) -> (exists ms, rs = r ++ ms) -> knows w b ds (got ++ r).
Proof.
  intros (b' & ds' & got' & s & [= -> -> ->] & _ & (n & tr & E & Hp & Ha & Hr & _) & _) [ms ->].
  exists n, tr, s. split_and!; [done|done|by exists qs|]. exists ms. by rewrite Hr, app_assoc.
Qed.

(** The handler of a new connection. *)
Section Handlers.
Context (Hstorage : forall a, storage_body_ok a StorageNode.handleClient)
        (Hmetadata : forall a, metadata_body_ok a MetadataNode.handleClient).

Lemma accepted_ok w a t n :
  world_ok w -> accepted a w = Some t -> w !! a = Some n -> honest n [] ->
  link_ok w (Some (a, [], [])) (Link [] [] t).
Proof.
  intros Hok Ht E Hh. exists a, [], [], (opening n).
  assert (serves (Some a) w (opening n) [] [] [] []) as Hs.
  { exists n, []. by split_and!. }
  unfold accepted in Ht. rewrite E in Ht. destruct n as [m|m].
  - injection Ht as <-. split_and!; [done..|].
    exists None, m. split_and!; [done|by apply Hstorage|done].
  - injection Ht as <-. split_and!; [done..|].
    exists None, m. split_and!; [done|apply Hmetadata|by apply Hmetadata|done].
Qed.

Lemma serves_recv w b s got ds d qs rs :
  serves (Some b) w s got ds (d :: qs) rs -> serves (Some b) w (on_request s d) got ds qs rs.
Proof.
  intros (n & tr & E & Hp & Ha & Hr & Hh). exists n, (tr ++ [Asked d]).
  split_and!; [done|by eapply path_app| | |done].
  - unfold asked in *. rewrite omap_app. simpl. by rewrite <- app_assoc.
  - unfold answered in *. rewrite omap_app. simpl. by rewrite app_nil_r.
Qed.

Lemma serves_send w b s s' got ds qs rs r :
  serves (Some b) w s got ds qs rs -> may_answer w b s r s' -> serves (Some b) w s' got ds qs (rs ++ [r]).
Proof.
  intros (n & tr & E & Hp & Ha & Hr & Hh) Hm. exists n, (tr ++ [Answered r]).
  split_and!; [done| | | |done].
  - eapply path_app; [done|]. simpl. eauto.
  - unfold asked in *. rewrite omap_app. simpl. by rewrite app_nil_r.
  - unfold answered in *. rewrite omap_app, Hr. simpl. by rewrite app_assoc.
Qed.

Lemma serves_asked w b s got ds d qs rs :
  serves (Some b) w s got ds (d :: qs) rs ->
  exists n tr, w !! b = Some n /\ path w b (opening n) tr s /\ honest n (asked tr ++ [d]).
Proof.
  intros (n & tr & E & Hp & Ha & Hr & Hh). exists n, tr. split_and!; [done..|].
  apply (honest_prefix n _ qs). rewrite <- app_assoc. simpl. by rewrite Ha.
Qed.

(** The connection after a send and after a receive. *)
Lemma link_send w b ds got qs rs t d :
  (forall n, w !! b = Some n -> honest n (ds ++ [d])) ->
  link_ok w (Some (b, ds, got)) (Link qs rs t) ->
  link_ok w (Some (b, ds ++ [d], got)) (Link (qs ++ [d]) rs t).
Proof.
  intros Hh (b' & ds' & got' & s & [= -> -> ->] & Hb & (n & tr & E & Hp & Ha & Hr & _) & Ht).
  eexists _, _, _, s. split_and!; [done|done| |done]. exists n, tr.
  split_and!; [done|done| |done|auto]. by rewrite app_assoc, Ha.
Qed.

Lemma link_recv w b ds got qs m ms t :
  link_ok w (Some (b, ds, got)) (Link qs (m :: ms) t) -> link_ok w (Some (b, ds, got ++ [m])) (Link qs ms t).
Proof.
  intros (b' & ds' & got' & s & [= -> -> ->] & Hb & (n & tr & E & Hp & Ha & Hr & Hh) & Ht).
  eexists _, _, _, s. split_and!; [done|done| |done]. exists n, tr.
  split_and!; [done..| |done]. by rewrite Hr, <- app_assoc.
Qed.

(** Under a reliable contract only reads of handlers may fail. *)
Definition steady (fail reads : bool) : Prop := fail = true -> reliable = true -> reads = true.

Lemma not_steady : steady true false -> reliable = false.
Proof. intros Hs. destruct reliable eqn:E; [|done]. by discriminate (Hs eq_refl). Qed.

(** One action keeps the obligations. *)
Lemma act_ok {S X A : Type} (c : cell S X) here fail Q w x h (p : io S A) l qs rs s o got ds r :
  act c here fail w x h p l qs rs = Some r -> steady fail (is_read p) -> world_ok w ->
  safe c here Q w x s o p -> link_ok w o l -> serves here w s got ds qs rs ->
  let w' := a_world r in
  world_le w w' /\ world_ok w' /\ Forall (orphan_ok w') (a_left r) /\
  exists s' o', safe c here Q w' (a_own r) s' o' (a_prog r) /\ link_ok w' o' (a_link r) /\
    serves here w' s' got ds (a_requests r) (a_replies r).
Proof.
  intros Hact Hcalm Hok Hsafe Hl Hserv. pose proof (abandoned_ok w o l Hl) as Habn.
  assert (world_le w w) as Hrefl by reflexivity.
  destruct p; simpl in *; try done.
  - destruct (look c w x) as [m|] eqn:El; [|done]. simpl in Hact.
    specialize (Hsafe w m Hrefl Hok El). destruct (write c (f m) w x) as [w2 x2].
    simplify_eq/=. destruct Hsafe as (Hle & Hok2 & Hs). split_and!; [done..|constructor|].
    exists s, o. split_and!; [done|by eapply link_ok_le|by eapply serves_le].
  - destruct here as [a|]; [|done]. destruct (h a m); [done|]. simplify_eq/=.
    split_and!; [done..|constructor|]. eauto.
  - destruct here as [a|]; [|done]. simplify_eq/=. split_and!; [done..|constructor|]. eauto.
  - destruct (Hsafe w Hrefl Hok) as [H1 H2]. destruct fail; [|destruct qs as [|d qs]; [done|]]; simplify_eq/=.
    { split_and!; [done..|constructor|]. eauto. }
    split_and!; [done..|constructor|]. destruct here as [b|].
    + destruct (serves_asked _ _ _ _ _ _ _ _ Hserv) as (n & tr & ? & ? & ?).
      exists (on_request s d), o. split_and!; [by eapply H2|done|by eapply serves_recv].
    + done.
  - destruct here as [b|]; [|done]. destruct Hsafe as (s' & Hm & Hs). simplify_eq/=.
    split_and!; [done..|constructor|]. exists s', o. split_and!; [done|done|by eapply serves_send].
  - simplify_eq/=. split_and!; [done..|constructor|]. eauto.
  - simplify_eq/=. split_and!; [done..|constructor|]. eauto.
  - destruct Hsafe as [H1 H2]. destruct fail; simplify_eq/=.
    { specialize (H2 (not_steady Hcalm)). split_and!; [done..|]. exists s, None. by split_and!. }
    destruct (endpoint ip port) as [a|] eqn:Ea; [|done]. simpl in Hact.
    destruct (accepted a w) as [t|] eqn:Et; [|done]. simplify_eq/=.
    assert (exists n, w !! a = Some n) as [n E].
    { unfold accepted in Et. destruct (w !! a); [eauto|done]. }
    destruct (H1 w a n Hrefl Hok eq_refl E) as [Hh Hs]. split_and!; [done..|].
    eexists s, _. split_and!; [exact Hs|by eapply accepted_ok|done].
  - destruct o as [[[b ds'] got']|], l as [|qs' rs' t]; try (by destruct Hl as (? & ? & ? & ? & ? & _)); try done.
    + destruct Hsafe as (Hn & H1 & H2). destruct fail; simplify_eq/=.
      * specialize (H2 (not_steady Hcalm)).
        split_and!; [done..|constructor|]. exists s, (Some (b, ds', got')). by split_and!.
      * split_and!; [done..|constructor|]. exists s, (Some (b, ds' ++ [d], got')).
        split_and!; [done|by eapply (link_send w)|done].
    + simplify_eq/=. split_and!; [done..|constructor|]. exists s, None. by split_and!.
  - destruct o as [[[b ds'] got']|], l as [|qs' rs' t]; try (by destruct Hl as (? & ? & ? & ? & ? & _)); try done.
    + destruct fail; [|destruct rs' as [|m ms]; [done|]]; simplify_eq/=.
      * split_and!; [done..|constructor|]. exists s, (Some (b, ds', got')). split_and!; [|done..].
        apply (Hsafe w [] got' Hrefl Hok); [by right; split; [apply not_steady|]|].
        pose proof (link_knows _ _ _ _ _ _ _ [] Hl) as Hk. rewrite app_nil_r in Hk. eauto.
      * split_and!; [done..|constructor|]. exists s, (Some (b, ds', got' ++ [m])).
        split_and!; [|by apply (link_recv w)|done].
        apply (Hsafe w m (got' ++ [m]) Hrefl Hok); [by left|].
        apply (link_knows _ _ _ _ _ _ _ [m] Hl). by exists ms.
    + simplify_eq/=. split_and!; [done..|constructor|]. exists s, None. by split_and!.
  - simplify_eq/=. split_and!; [done..|]. exists s, None. by split_and!.
Qed.

(** A handler's step keeps what its connection's owner relies on. *)
Lemma thread_do_ok w h qs rs t fail w' h' l' lost o :
  thread_do fail w h qs rs t = Some (w', h', l', lost) -> steady fail (thread_reads t) ->
  world_ok w -> link_ok w o (Link qs rs t) ->
  world_le w w' /\ world_ok w' /\ Forall (orphan_ok w') lost /\ link_ok w' o l'.
Proof.
  intros Hdo Hcalm Hok (b & ds & got & s & -> & Hb & Hserv & Ht). destruct t as [a p l|a body p l]; simpl in *; subst b.
  - destruct Ht as (o & m & E & Hs & Hl). destruct (act _ _ _ _ _ _ _ _ _ _) as [r|] eqn:Er; simplify_eq/=.
    + destruct (act_ok _ _ _ _ _ _ _ _ _ _ _ _ _ _ _ _ Er Hcalm Hok Hs Hl Hserv)
        as (Hle & Hok' & Hlost & s' & o' & Hs' & Hl' & Hserv').
      destruct (world_le_lookup _ _ _ _ Hle E) as ([m'|m'] & E' & Hn); [|by apply node_le_kind in Hn].
      split_and!; [done..|]. exists a, ds, got, s'. split_and!; [done|done|done|].
      exists o', m'. by destruct (a_own r).
    + destruct p as [[]| | | | | | | | | | |]; simplify_eq/=. split_and!; [reflexivity|done|constructor|].
      destruct (Hs eq_refl) as [Hopen ->]. exists a, ds, got, s. split_and!; [done..|].
      exists None, m. rewrite (Hopen _ E). split_and!; [done|by apply Hstorage|done].
  - destruct Ht as (o & m & E & Hbody & Hs & Hl).
    destruct (act _ _ _ _ _ _ _ _ _ _) as [r|] eqn:Er; simplify_eq/=.
    + destruct (act_ok _ _ _ _ _ _ _ _ _ _ _ _ _ _ _ _ Er Hcalm Hok Hs Hl Hserv)
        as (Hle & Hok' & Hlost & s' & o' & Hs' & Hl' & Hserv').
      destruct (world_le_lookup _ _ _ _ Hle E) as ([m'|m'] & E' & Hn); [by apply node_le_kind in Hn|].
      split_and!; [done..|]. exists a, ds, got, s'. split_and!; [done|done|done|].
      exists o', m'. by destruct (a_own r).
    + destruct p as [[]| | | | | | | | | | |]; simplify_eq/=. split_and!; [reflexivity|done|constructor|].
      destruct (Hs eq_refl) as [Hopen ->]. exists a, ds, got, s. split_and!; [done..|].
      exists None, m. rewrite (Hopen _ E). split_and!; [done|done|by apply Hbody|done].
Qed.

Lemma link_do_ok n fail w h l w' h' l' lost o :
  link_do n fail w h l = Some (w', h', l', lost) -> steady fail (reads_at n l) -> world_ok w -> link_ok w o l ->
  world_le w w' /\ world_ok w' /\ Forall (orphan_ok w') lost /\ link_ok w' o l'.
Proof.
  revert l l' o. induction n as [|n IH]; intros [|qs rs t] l' o Hdo Hcalm Hok Hl; try done.
  - exact (thread_do_ok _ _ _ _ _ _ _ _ _ _ _ Hdo Hcalm Hok Hl).
  - destruct Hl as (b & ds & got & s & -> & Hb & Hserv & Ht). destruct t as [a p l|a body p l]; simpl in *; subst b.
    + destruct Ht as (o & m & E & Hs & Hl). destruct (link_do n fail w h l) as [[[[w2 h2] l2] lost2]|] eqn:Ed;
        simplify_eq/=. destruct (IH _ _ _ Ed Hcalm Hok Hl) as (Hle & Hok' & Hlost & Hl2). split_and!; [done..|].
      destruct (proj1 (ok_le _ _ Hle) (SThread a p l) s) as (o' & m' & E' & Hs' & _); [by exists o, m|].
      exists a, ds, got, s. split_and!; [done|done|by apply (serves_le (Some a) w)|].
      exists o, m'. split_and!; [done| |done]. eapply safe_le; [|done|done]. intros *. apply turn_done_le.
    + destruct Ht as (o & m & E & Hbd & Hs & Hl). destruct (link_do n fail w h l) as [[[[w2 h2] l2] lost2]|] eqn:Ed;
        simplify_eq/=. destruct (IH _ _ _ Ed Hcalm Hok Hl) as (Hle & Hok' & Hlost & Hl2). split_and!; [done..|].
      destruct (proj1 (ok_le _ _ Hle) (MThread a body p l) s) as (o' & m' & E' & Hb' & Hs' & _);
        [by exists o, m|].
      exists a, ds, got, s. split_and!; [done|done|by apply (serves_le (Some a) w)|].
      exists o, m'. split_and!; [done|done| |done]. eapply safe_le; [|done|done]. intros *. apply turn_done_le.
Qed.

(** The clients: what each may rely on when it ends. *)
Section Clients.
Context (w0 : world) (admits : Client -> job -> fs -> Prop)
        (post : Client -> job -> fs -> world -> fs -> outcome -> Prop).
Context (Hwatch : forall a, metadata_body_ok a MetadataNode.healthCheck)
        (Hpost : forall cl j d w w' d' r, world_le w w' -> post cl j d w d' r -> post cl j d w' d' r)
        (Hquiet : forall a n, w0 !! a = Some n -> honest n [])
        (Hclient : forall cl j d w s, admits cl j d -> world_le w0 w -> world_ok w ->
           safe client_cell None (fun w d' _ _ r => post cl j d w d' r) w d s None (job_program cl j)).

Definition root_ok (w : world) (r : root) : Prop :=
  match r with
  | Orphan l => orphan_ok w l
  | Running cl j d0 p d l => exists s o,
      safe client_cell None (fun w d' _ _ r => post cl j d0 w d' r) w d s o p /\ link_ok w o l
  end.

Lemma root_ok_le w w' r : world_le w w' -> root_ok w r -> root_ok w' r.
Proof.
  destruct r as [l|cl j d0 p d l]; simpl; [apply orphan_ok_le|].
  intros Hle (s & o & Hs & Hl). exists s, o. split; [|by eapply link_ok_le].
  eapply safe_le; [|done|done]. intros w1 w2 d1 s1 o1 r1 Hw. exact (Hpost _ _ _ _ _ _ _ Hw).
Qed.

Lemma root_do_ok n fail w h r w' h' r' lost :
  root_do n fail w h r = Some (w', h', r', lost) -> steady fail (root_reads n r) -> world_ok w -> root_ok w r ->
  world_le w w' /\ world_ok w' /\ Forall (orphan_ok w') lost /\ root_ok w' r'.
Proof.
  intros Hdo Hcalm Hok Hr. destruct r as [l|cl j d0 p d l]; simpl in *.
  - destruct (link_do n fail w h l) as [[[[w2 h2] l2] lost2]|] eqn:Ed; simplify_eq/=.
    destruct Hr as [o Ho]. destruct (link_do_ok _ _ _ _ _ _ _ _ _ _ Ed Hcalm Hok Ho) as (? & ? & ? & ?).
    split_and!; [done..|]. by exists o.
  - destruct Hr as (s & o & Hs & Hl). destruct n as [|n].
    + destruct (act _ _ _ _ _ _ _ _ _ _) as [r|] eqn:Er; simplify_eq/=.
      assert (steady fail (is_read p)) as Hst by (intros Hf Hrel; discriminate (Hcalm Hf Hrel)).
      destruct (act_ok _ _ _ _ _ _ _ _ _ _ _ s o [] [] _ Er Hst Hok Hs Hl eq_refl)
        as (Hle & Hok' & Hlost & s' & o' & Hs' & Hl' & _). split_and!; [done..|]. by exists s', o'.
    + destruct (link_do n fail w h l) as [[[[w2 h2] l2] lost2]|] eqn:Ed; simplify_eq/=.
      destruct (link_do_ok _ _ _ _ _ _ _ _ _ _ Ed Hcalm Hok Hl) as (Hle & ? & ? & ?).
      split_and!; [done..|]. exists s, o. split; [|done].
      eapply safe_le; [|done|done]. intros w1 w2 d1 s1 o1 r1 Hw. exact (Hpost _ _ _ _ _ _ _ Hw).
Qed.

Record net_ok (c : net) : Prop := {
  ok_from : world_le w0 (nodes c);
  ok_world : world_ok (nodes c);
  ok_roots : Forall (root_ok (nodes c)) (roots c)
}.

Lemma calm_steady i n fail c r :
  (reliable = true -> calm (Step i n fail) c = true) -> roots c !! i = Some r -> steady fail (root_reads n r).
Proof. intros Hcalm Ei -> Hrel. specialize (Hcalm Hrel). simpl in Hcalm. by rewrite Ei in Hcalm. Qed.

Lemma net_do_ok ch c c' :
  net_do ch c = Some c' -> (reliable = true -> calm ch c = true) ->
  (forall cl j d, ch = Begin cl j d -> admits cl j d) -> net_ok c -> net_ok c'.
Proof.
  intros Hdo Hcalm Hadm [Hfrom Hok Hroots]. destruct ch as [cl j d|a|i n fail]; simpl in Hdo.
  - simplify_eq. split; simpl; [done..|]. apply Forall_app. split; [done|]. apply Forall_singleton.
    exists (opening (Storage StorageNode.new_node)), None. split; [|done]. apply Hclient; [by eapply Hadm|done..].
  - destruct (nodes c !! a) as [[m|m]|] eqn:E; simplify_eq. split; simpl; [done..|].
    apply Forall_app. split; [done|]. apply Forall_singleton. exists (Some (a, [], [])).
    exists a, [], [], (opening (Metadata m)). split_and!; [done|done| |].
    + exists (Metadata m), []. split_and!; [done..|].
      destruct (world_le_back _ _ _ _ Hfrom E) as (n0 & E0 & Hn0). eapply honest_le; [done|eauto].
    + exists None, m. split_and!; [done|apply Hwatch|by apply Hwatch|done].
  - destruct (roots c !! i) as [r|] eqn:Ei; [|done]. simpl in Hdo.
    destruct (root_do n fail (nodes c) (locked c) r) as [[[[w' h'] r'] lost]|] eqn:Er; simplify_eq/=.
    pose proof (Forall_lookup_1 _ _ _ _ Hroots Ei) as Hr.
    assert (steady fail (root_reads n r)) as Hst by by eapply calm_steady.
    destruct (root_do_ok _ _ _ _ _ _ _ _ _ Er Hst Hok Hr) as (Hle & Hok' & Hlost & Hr').
    split; simpl; [by etransitivity|done|]. apply Forall_app. split.
    + apply Forall_insert; [|done]. eapply Forall_impl; [exact Hroots|]. intros x. by apply root_ok_le.
    + apply Forall_fmap. eapply Forall_impl; [exact Hlost|]. done.
Qed.

(** What every reachable configuration satisfies. *)
Lemma net_sound c : reliable = false -> world_ok w0 -> net_reach admits w0 c -> net_ok c.
Proof.
  intros Hrel Hok (chs & Hex & Hadm).
  assert (net_ok (start_net w0)) as H0 by (split; simpl; [reflexivity|done|constructor]).
  revert H0 Hex Hadm. generalize (start_net w0). induction chs as [|ch chs IH]; intros c0 H0 Hex Hadm.
  { simpl in Hex. by simplify_eq. }
  simpl in Hex. destruct (net_do ch c0) as [c1|] eqn:E; [|done].
  apply (IH c1); [|done|intros cl j d Hin; eapply Hadm; by right].
  eapply net_do_ok; [done|congruence| |done]. intros cl j d ->. eapply Hadm. left.
Qed.

(** ... and so a client that ended did so in its postcondition. *)
Lemma client_sound c cl j d0 r d l :
  reliable = false -> world_ok w0 -> net_reach admits w0 c -> Running cl j d0 (Ret r) d l ∈ roots c ->
  post cl j d0 (nodes c) d r.
Proof.
  intros Hrel Hok Hreach Hin. destruct (net_sound c Hrel Hok Hreach) as [_ _ Hr].
  rewrite Forall_forall in Hr. by destruct (Hr _ Hin) as (s & o & Hs & _).
Qed.
End Clients.
End Handlers.
End Logic.

(** ** Rules for the nodes' programs *)

Section Node.
Context `{Contract} {A : Type} (a : address).

Lemma storage_look w x m : look (storage_cell a) w x = Some m -> w !! a = Some (Storage m).
Proof. simpl. destruct (w !! a) as [[m'|m']|]; simpl; congruence. Qed.

Lemma metadata_look w x m : look (metadata_cell a) w x = Some m -> w !! a = Some (Metadata m).
Proof. simpl. destruct (w !! a) as [[m'|m']|]; simpl; congruence. Qed.

(** A read, and an assignment that keeps the invariant and the order. *)
Lemma storage_reads (Q : world -> unit -> session -> opened -> A -> Prop) here w s o k :
  (forall w' m, world_le w w' -> world_ok w' -> w' !! a = Some (Storage m) ->
     safe (storage_cell a) here Q w' tt s o (k m)) ->
  safe (storage_cell a) here Q w tt s o (Atomic (fun m => m) k).
Proof.
  intros Hk w' m Hle Hok Hl. apply storage_look in Hl. simpl.
  rewrite (insert_id _ _ _ Hl). split_and!; [reflexivity|done|by apply Hk].
Qed.

Lemma storage_writes (Q : world -> unit -> session -> opened -> A -> Prop) here w s o f k :
  (forall w' m, world_le w w' -> world_ok w' -> w' !! a = Some (Storage m) ->
     node_le (Storage m) (Storage (f m)) /\ node_ok a (Storage (f m)) /\
     forall w2, world_le w' w2 -> w2 !! a = Some (Storage (f m)) ->
       safe (storage_cell a) here Q w2 tt s o (k m)) ->
  safe (storage_cell a) here Q w tt s o (Atomic f k).
Proof.
  intros Hk w' m Hle Hok Hl. apply storage_look in Hl. simpl.
  destruct (Hk w' m Hle Hok Hl) as (Hg & Hs & Hn).
  assert (world_le w' (<[a := Storage (f m)]> w')) as Hle2 by (by eapply world_le_insert).
  split_and!; [done|by apply world_ok_insert|]. apply Hn; [done|]. apply lookup_insert_eq.
Qed.

Lemma metadata_reads (Q : world -> unit -> session -> opened -> A -> Prop) here w s o k :
  (forall w' m, world_le w w' -> world_ok w' -> w' !! a = Some (Metadata m) ->
     safe (metadata_cell a) here Q w' tt s o (k m)) ->
  safe (metadata_cell a) here Q w tt s o (Atomic (fun m => m) k).
Proof.
  intros Hk w' m Hle Hok Hl. apply metadata_look in Hl. simpl.
  rewrite (insert_id _ _ _ Hl). split_and!; [reflexivity|done|by apply Hk].
Qed.

Lemma metadata_writes (Q : world -> unit -> session -> opened -> A -> Prop) here w s o f k :
  (forall w' m, world_le w w' -> world_ok w' -> w' !! a = Some (Metadata m) ->
     node_le (Metadata m) (Metadata (f m)) /\ node_ok a (Metadata (f m)) /\
     forall w2, world_le w' w2 -> w2 !! a = Some (Metadata (f m)) ->
       safe (metadata_cell a) here Q w2 tt s o (k m)) ->
  safe (metadata_cell a) here Q w tt s o (Atomic f k).
Proof.
  intros Hk w' m Hle Hok Hl. apply metadata_look in Hl. simpl.
  destruct (Hk w' m Hle Hok Hl) as (Hg & Hs & Hn).
  assert (world_le w' (<[a := Metadata (f m)]> w')) as Hle2 by (by eapply world_le_insert).
  split_and!; [done|by apply world_ok_insert|]. apply Hn; [done|]. apply lookup_insert_eq.
Qed.
End Node.

(** ** Rules for the client's programs *)

(** An exchange: it leaves the files alone and no connection open. *)
Definition exchanged {St A : Type} (d : fs) (R : world -> A -> Prop) (w : world) (d' : fs) (_ : St)
    (o : opened) (r : A) : Prop := d' = d /\ o = None /\ R w r.

Section Client.
Context `{Contract}.

Abbreviation csafe := (safe client_cell None).

Lemma client_step {A : Type} (Q : world -> fs -> session -> opened -> A -> Prop) w d (s : session) o f
    (k : fs -> io fs A) :
  (forall w', world_le w w' -> world_ok w' -> csafe Q w' (f d) s o (k d)) ->
  csafe Q w d s o (Atomic f k).
Proof.
  intros Hk w' m Hle Hok Hl. simpl in Hl. injection Hl as <-. simpl.
  split_and!; [reflexivity|done|by apply Hk].
Qed.

Lemma safe_and_then {A B : Type} (d : fs) (R : world -> option A -> Prop) (R' : world -> option B -> Prop)
    (p : io fs (option A)) (f : A -> io fs (option B)) (w : world) (s : session) :
  csafe (exchanged d R) w d s None p ->
  (forall w', R' w' None) ->
  (forall w' s' a, world_le w w' -> R w' (Some a) -> csafe (exchanged d R') w' d s' None (f a)) ->
  csafe (exchanged d R') w d s None (and_then p f).
Proof.
  intros Hp Hn Hf. unfold and_then. apply safe_bind. eapply safe_mono; [|exact Hp].
  intros w' d' s' o [a|] Hle (-> & -> & Hr); [by apply Hf|]. by split_and!.
Qed.
End Client.
