(* ===== verification/Sessions.v ===== *)
(** * What the nodes promise on their connections

    The contract of the two kinds of nodes, as an instance of the interface of
    [Network.v], and the proof that every program a node runs keeps it: both
    [handleClient]s and the health check.

    Which chunks and records the clients upload is a parameter of the contract, the
    class [Uploads].  A storage node that answered [ACK] has a chunk under the hash it
    was asked to store, and a chunk it sends after [FOUND] is one that was uploaded
    under the requested hash.  A metadata node that answered [ACK] to a [PUT] has a
    record under the name, and so have all nodes of the chain after it; a record it
    sends is one that was uploaded under the requested name.  Chunks and names are
    never lost, and a node's successor changes only by the chain ending there.

    The promises hold among requests that are honest: what is sent to be stored is a
    chunk of [Uploads] under its hash, what is sent with [PUT] a record of [Uploads],
    and nobody rewires the chain with [UPDATE_NEXT] or [SET_SKIP]; no program of the
    repository sends these two commands. *)
From S2P Require Import Prelude IoStream Sha256 Chunks ConsistentHash Wire Proc Client Cluster Network.
From S2P Require StorageNode MetadataNode.

#[local] Open Scope Z_scope.
#[local] Existing Instance MetadataNode.Role_eq_dec.

(** ** Sessions *)

Inductive session_state :=
| SIdle
| SAwait (hash : string)
| SReady (hash : string)
| SGot (hash : string) (data : bytes)
| SGet (hash : string)
| SFound (hash : string)
| SOther
| MIdle
| MPut (command : string)
| MGet (name : string)
| MOther.

Definition command_words (d : bytes) : string * istream :=
  let '(o, iss) := extract_string (istringstream (string_of_bytes d)) in (default EmptyString o, iss).

(** The state after a command, to a storage node and to a metadata node. *)
Definition storage_command (d : bytes) : session_state :=
  let '(op, iss) := command_words d in
  if bool_decide (op = "STORE") then
    match (extract_string iss).1 with Some h => SAwait h | None => SOther end
  else if bool_decide (op = "GET") then
    match (extract_string iss).1 with Some h => SGet h | None => SOther end
  else SOther.

Definition metadata_command (d : bytes) : session_state :=
  let '(op, iss) := command_words d in
  if bool_decide (op = "PUT") then MPut (string_of_bytes d)
  else if bool_decide (op = "GET") then
    match (extract_string iss).1 with Some name => MGet name | None => MIdle end
  else if bool_decide (op = "UPDATE_PREV") then
    match MetadataNode.extract_address iss with Some _ => MOther | None => MIdle end
  else if bool_decide (op = "DIE") then MIdle
  else MOther.

Definition request_state (s : session_state) (d : bytes) : session_state :=
  match s with
  | SIdle => storage_command d
  | SAwait h | SReady h => SGot h d
  | MIdle => metadata_command d
  | _ => s
  end.

(** ** What answers vouch for *)

Definition has_chunk (w : world) (b : address) (h : string) : Prop :=
  exists m, w !! b = Some (Storage m) /\ is_Some (StorageNode.storage_ m !! h).

(** The name is known to the node and to the nodes after it, up to where the chain
    ends now. *)
Inductive replicated (w : world) (f : string) : address -> Prop :=
| replicated_end b m :
    w !! b = Some (Metadata m) -> is_Some (MetadataNode.metadataStore_ m !! f) ->
    MetadataNode.has_next m = false \/ MetadataNode.nextNodeIp_ m = EmptyString ->
    replicated w f b
| replicated_next b m b' :
    w !! b = Some (Metadata m) -> is_Some (MetadataNode.metadataStore_ m !! f) ->
    endpoint (MetadataNode.nextNodeIp_ m) (MetadataNode.nextNodePort_ m) = Some b' -> replicated w f b' ->
    replicated w f b.

(** Where data comes from: the chunks and the records that are uploaded. *)
Class Uploads := { is_chunk : bytes -> Prop; is_record : FileMetadata -> Prop }.

Section Promises.
Context {U : Uploads}.

Definition answers (w : world) (b : address) (s : session_state) (r : bytes) (s' : session_state) : Prop :=
  match s with
  | SAwait h => r = bytes_of_string "READY" /\ s' = SReady h
  | SGot h x => s' = SIdle /\ (r = bytes_of_string "ACK" -> has_chunk w b h)
  | SGet h => if bool_decide (r = bytes_of_string "FOUND") then s' = SFound h else s' = SIdle
  | SFound h => s' = SIdle /\ sha256 r = h /\ is_chunk r
  | SOther => s' = SIdle /\ r = bytes_of_string "ERROR"
  | MPut c => s' = MIdle /\
      (r = bytes_of_string "ACK" -> forall m, parse_put c = Some m -> replicated w (filename m) b)
  | MGet name => s' = MIdle /\
      let m := parse_found name (string_of_bytes r) in is_found m = true -> is_record m
  | MOther => s' = MIdle
  | SIdle | SReady _ | MIdle => False
  end.

(** ** Honest requests *)

Definition honest_command (d : bytes) : Prop :=
  let op := (command_words d).1 in
  op <> "UPDATE_NEXT" /\ op <> "SET_SKIP" /\
  (op = "PUT" -> forall m, parse_put (string_of_bytes d) = Some m -> is_record m).

Definition honest_requests (n : node) (ds : list bytes) : Prop :=
  match n with
  | Storage _ => (length ds <= 2)%nat /\
      forall c x h, ds = [c; x] -> storage_command c = SAwait h -> sha256 x = h /\ is_chunk x
  | Metadata _ => Forall honest_command ds
  end.

Lemma honest_nil n : honest_requests n [].
Proof. destruct n; simpl; [|constructor]. split; [lia|]. by intros ? ? ? [=]. Qed.

(** ** The nodes *)

(** Chunks are stored under their hashes, records are well formed, nobody has told
    the node whom to skip to, and the last node of a chain has no successor. *)
Definition node_sound (a : address) (n : node) : Prop :=
  a.1 <> EmptyString /\ a.2 <> -1 /\
  match n with
  | Storage m => forall h x, StorageNode.storage_ m !! h = Some x -> x <> [] /\ sha256 x = h /\ is_chunk x
  | Metadata m => MetadataNode.skipToPort_ m = -1 /\
      (MetadataNode.is_last m = true -> MetadataNode.has_next m = false) /\
      forall f r, MetadataNode.metadataStore_ m !! f = Some r -> wf_meta r /\ filename r = f /\ is_record r
  end.

Definition keys_kept {V} (m m' : gmap string V) : Prop := forall k, is_Some (m !! k) -> is_Some (m' !! k).

Record successor_kept (s s' : MetadataNode.MetadataNode) : Prop := {
  kept_next :
    (MetadataNode.nextNodeIp_ s' = MetadataNode.nextNodeIp_ s /\
     MetadataNode.nextNodePort_ s' = MetadataNode.nextNodePort_ s) \/
    MetadataNode.nextNodeIp_ s' = EmptyString;
  kept_cut : MetadataNode.nextNodeIp_ s = EmptyString -> MetadataNode.nextNodeIp_ s' = EmptyString;
  kept_port : MetadataNode.has_next s = false -> MetadataNode.has_next s' = false
}.

Definition node_grows (n n' : node) : Prop :=
  match n, n' with
  | Storage m, Storage m' => keys_kept (StorageNode.storage_ m) (StorageNode.storage_ m')
  | Metadata m, Metadata m' =>
      keys_kept (MetadataNode.metadataStore_ m) (MetadataNode.metadataStore_ m') /\ successor_kept m m'
  | _, _ => False
  end.

#[export] Instance keys_kept_preorder {V} : PreOrder (@keys_kept V).
Proof. split; [by intros ? ?|]. intros m1 m2 m3 H12 H23 k ?. auto. Qed.

#[export] Instance successor_kept_preorder : PreOrder successor_kept.
Proof.
  split; [intros s; split; auto|]. intros s1 s2 s3 [] []. split; auto.
  destruct kept_next1 as [[E1 E2]|]; [|auto]. rewrite E1, E2. destruct kept_next0; auto.
Qed.

#[export] Instance node_grows_preorder : PreOrder node_grows.
Proof.
  split.
  - intros [m|m]; simpl; [reflexivity|split; reflexivity].
  - intros [m1|m1] [m2|m2] [m3|m3]; simpl; try done; [by etransitivity|].
    intros [] []. split; by etransitivity.
Qed.

Lemma has_chunk_le w w' b h : pointwise node_grows w w' -> has_chunk w b h -> has_chunk w' b h.
Proof.
  intros Hle (m & E & Hh). specialize (Hle b). rewrite E in Hle.
  destruct (w' !! b) as [[m'|m']|] eqn:E'; try done. exists m'. auto.
Qed.

Lemma replicated_le w w' f b : pointwise node_grows w w' -> replicated w f b -> replicated w' f b.
Proof.
  intros Hle. induction 1 as [b m E Hf Hend|b m b1 E Hf Hb1 Hn IH]; pose proof (Hle b) as Hb; rewrite E in Hb;
    destruct (w' !! b) as [[m'|m']|] eqn:E'; try done; destruct Hb as [Hk [Hnext Hcut Hport]].
  - eapply replicated_end; [done|by apply Hk|]. destruct Hend; auto.
  - destruct Hnext as [[E1 E2]|Hnext].
    + eapply replicated_next; [done|by apply Hk|by rewrite E1, E2|done].
    + eapply replicated_end; [done|by apply Hk|auto].
Qed.

#[export] Program Instance node_contract : Contract := {|
  session := session_state;
  opening n := match n with Storage _ => SIdle | Metadata _ => MIdle end;
  on_request := request_state;
  may_answer := answers;
  honest := honest_requests;
  node_ok := node_sound;
  node_le := node_grows;
  reliable := false
|}.
Next Obligation. intros [m|m] [m'|m']; simpl; done. Qed.
Next Obligation. intros [m|m] [m'|m']; simpl; done. Qed.
Next Obligation. intros [m|m] [m'|m'] ds; simpl; done. Qed.
Next Obligation.
  intros [m|m] ds ds'; simpl.
  - rewrite length_app. intros [Hl Hc]. split; [lia|]. intros c x h ->. simpl in Hl.
    assert (ds' = []) as -> by (destruct ds'; [done|simpl in Hl; lia]). by apply Hc.
  - by intros [? _]%Forall_app.
Qed.
Next Obligation.
  intros w w' b s r s' Hle. destruct s; simpl; try done.
  - intros [? Ha]. split; [done|]. intros. eapply has_chunk_le; eauto.
  - intros [? Ha]. split; [done|]. intros. eapply replicated_le; eauto.
Qed.

(** ** The nodes' programs *)

(** A turn that ends, and one that goes round again. *)
Lemma done_false a w (x : unit) s o : turn_done a w x s o false.
Proof. done. Qed.

Lemma storage_again a w (x : unit) m : w !! a = Some (Storage m) -> turn_done a w x SIdle None true.
Proof. intros E _. split; [|done]. intros n En. rewrite E in En. by simplify_eq. Qed.

Lemma metadata_again a w (x : unit) m : w !! a = Some (Metadata m) -> turn_done a w x MIdle None true.
Proof. intros E _. split; [|done]. intros n En. rewrite E in En. by simplify_eq. Qed.

Lemma command_words_eq d o iss :
  extract_string (istringstream (string_of_bytes d)) = (o, iss) -> command_words d = (default EmptyString o, iss).
Proof. unfold command_words. by intros ->. Qed.

(** ** [StorageNode::handleClient] *)

Lemma command_not_ready d h : storage_command d <> SReady h.
Proof. unfold storage_command. by repeat case_match. Qed.

Lemma awaiting w b s tr h : path w b s tr (SReady h) -> asked tr = [] -> s = SAwait h \/ s = SReady h.
Proof.
  revert s. induction tr as [|[d|r] tr IH]; intros s; simpl; [by right|done|].
  intros (s1 & Hm & Hp) Ha. destruct (IH s1 Hp Ha) as [->| ->];
    destruct s; simpl in Hm; repeat case_bool_decide; destruct_and?; simplify_eq; by left.
Qed.

(** The body of a connection's first message: its last one is sent, or refused. *)
Lemma honest_data n c tr x h w b :
  honest_requests n (asked tr ++ [x]) -> (exists m, n = Storage m) -> path w b SIdle tr (SReady h) ->
  asked tr = c -> sha256 x = h /\ is_chunk x.
Proof.
  intros Hh [m ->] Hp <-. destruct Hh as [Hlen Hc]. rewrite length_app in Hlen. simpl in Hlen.
  destruct tr as [|[d|r] tr]; simpl in Hp; [done| |by destruct Hp as (? & [] & _)].
  change (asked (Asked d :: tr)) with (d :: asked tr) in *. simpl in Hlen.
  destruct (asked tr) eqn:Ea; [|simpl in Hlen; lia]. apply (Hc d x h); [done|].
  destruct (awaiting _ _ _ _ _ Hp Ea) as [?|?]; [done|by destruct (command_not_ready d h)].
Qed.

Lemma storage_store_ok a w n m h iss iss' :
  w !! a = Some (Storage m) -> n = Storage m -> extract_string iss = (Some h, iss') ->
  safe (storage_cell a) (Some a) (turn_done a) w tt (SAwait h) None (StorageNode.handleStore iss).
Proof.
  intros Hw -> E. unfold StorageNode.handleStore. rewrite E.
  exists (SReady h). split; [done|]. intros w1 Hle1 Hok1. split; [apply done_false|].
  intros d b n tr [= <-] En Hp Hh. cbn [mbind io_mbind io_bind server_recvData with_lock acquire release mret io_ret].
  destruct (world_le_lookup _ _ _ _ Hle1 Hw) as ([m1|m1] & E1 & Hg); [|done].
  rewrite En in E1. injection E1 as ->.
  pose proof (honest_data _ _ _ _ _ _ _ Hh ltac:(by eexists) Hp eq_refl) as Hd.
  destruct (bool_decide (d = [])) eqn:Hne; [apply done_false|]. apply bool_decide_eq_false in Hne.
  cbn [with_lock acquire release modify mbind io_mbind io_bind mret io_ret server_sendMessage server_sendData].
  apply storage_writes. intros w2 m2 Hle2 Hok2 Hm2. split_and!.
  - intros k Hk. simpl. destruct (decide (h = k)) as [->|?];
      [by rewrite lookup_insert_eq|by rewrite lookup_insert_ne].
  - destruct (Hok2 _ _ Hm2) as (? & ? & Hs). split_and!; [done..|]. simpl.
    intros k x [[<- <-]|[_ ?]]%lookup_insert_Some; [done|by apply Hs].
  - intros w3 Hle3 Hw3. exists SIdle. split.
    + split; [done|]. intros _. exists (StorageNode.set_storage (<[h:=d]>) m2). split; [done|]. simpl.
      by rewrite lookup_insert_eq.
    + by eapply storage_again.
Qed.

Lemma storage_get_ok a w m h iss iss' :
  w !! a = Some (Storage m) -> extract_string iss = (Some h, iss') ->
  safe (storage_cell a) (Some a) (turn_done a) w tt (SGet h) None (StorageNode.handleGet iss).
Proof.
  intros Hw E. unfold StorageNode.handleGet. rewrite E.
  cbn [with_lock reads acquire release modify mbind io_mbind io_bind mret io_ret server_sendMessage server_sendData].
  apply storage_reads. intros w1 m1 Hle1 Hok1 Hm1. cbn [safe].
  destruct (bool_decide (default [] (StorageNode.storage_ m1 !! h) = [])) eqn:Hd.
  - exists SIdle. split; [done|]. by eapply storage_again.
  - apply bool_decide_eq_false in Hd. exists (SFound h). split; [done|].
    exists SIdle. split; [|by eapply storage_again]. split; [done|].
    destruct (Hok1 _ _ Hm1) as (_ & _ & Hs).
    destruct (StorageNode.storage_ m1 !! h) as [x|] eqn:Ex; [|done]. by apply Hs.
Qed.

Lemma storage_handler_ok a : storage_body_ok a StorageNode.handleClient.
Proof.
  intros w m Hok Hw. unfold StorageNode.handleClient. apply safe_bind.
  eapply (safe_mono _ _ (turn_done a)).
  { intros w' x s o [] _ Hd; [exact Hd|apply done_false]. }
  unfold StorageNode.handleClient_turn. cbn [reads mbind io_mbind io_bind].
  apply storage_reads. intros w1 m1 Hle1 Hok1 Hm1. destruct (StorageNode.running_ m1); [|apply done_false].
  cbn [negb server_recvMessage mbind io_mbind io_bind with_lock acquire release mret io_ret]. intros w2 Hle2 Hok2. split; [apply done_false|].
  intros d b n tr [= <-] En Hp Hh.
  destruct (world_le_lookup _ _ _ _ Hle2 Hm1) as ([m2|m2] & Hm2 & Hg2); [|done].
  destruct (bool_decide (string_of_bytes d = EmptyString)); [apply done_false|].
  change (on_request _ d) with (storage_command d). unfold storage_command.
  destruct (extract_string (istringstream (string_of_bytes d))) as [o iss] eqn:E.
  rewrite (command_words_eq _ _ _ E). destruct (bool_decide (_ = "STORE")) eqn:Hop.
  { destruct (extract_string iss) as [[h|] iss'] eqn:Eh; simpl; [by eapply storage_store_ok|].
    unfold StorageNode.handleStore. rewrite Eh. exists SIdle. split; [done|by eapply storage_again]. }
  destruct (bool_decide (_ = "GET")) eqn:Hop2.
  { destruct (extract_string iss) as [[h|] iss'] eqn:Eh; simpl; [by eapply storage_get_ok|].
    unfold StorageNode.handleGet. rewrite Eh. exists SIdle. split; [done|by eapply storage_again]. }
  destruct (bool_decide (_ = "DIE")).
  - cbn [modify mbind io_mbind io_bind server_stop mret io_ret with_lock acquire release]. apply storage_writes.
    intros w3 m3 Hle3 Hok3 Hm3. split_and!; [by intros k|exact (Hok3 _ _ Hm3)|]. intros. apply done_false.
  - exists SIdle. split; [done|]. by eapply storage_again.
Qed.

(** ** [MetadataNode::handleClient] *)

(** A connection on which one request was answered. *)
Lemma knows_one w b d r :
  knows w b [d] [r] -> exists n s, w !! b = Some n /\ answers w b (request_state (opening n) d) r s.
Proof.
  intros (n & tr & s & E & Hp & [ds' Ha] & [rs' Hr]). exists n.
  destruct n as [m|m]; (destruct tr as [|[d'|r'] tr]; simpl in *; [done| |by destruct Hp as (? & [] & _)]);
    injection Ha as <- Ha; destruct tr as [|[d'|r'] tr]; simpl in *; try done;
    injection Hr as <- Hr; destruct Hp as (s1 & Hm & _); by exists s1.
Qed.

Lemma command_words_put c iss :
  extract_string (istringstream c) = (Some "PUT", iss) -> command_words (bytes_of_string c) = ("PUT", iss).
Proof. intros E. unfold command_words. by rewrite string_bytes_id, E. Qed.

Lemma knows_put w b c iss m r :
  knows w b [bytes_of_string c] [r] -> string_of_bytes r = "ACK" ->
  extract_string (istringstream c) = (Some "PUT", iss) -> parse_put c = Some m ->
  replicated w (filename m) b.
Proof.
  intros (n & s & E & Ha)%knows_one Hr Hc Hm. apply string_of_bytes_iff in Hr as ->.
  destruct n as [x|x]; simpl in Ha.
  - unfold storage_command in Ha. rewrite (command_words_put _ _ Hc) in Ha. by destruct Ha.
  - unfold metadata_command in Ha. rewrite (command_words_put _ _ Hc), string_bytes_id in Ha.
    destruct Ha as [_ Ha]. by apply Ha.
Qed.

(** The name is in the node's own store. *)
Definition known_at (w : world) (a : address) (f : string) : Prop :=
  exists m, w !! a = Some (Metadata m) /\ is_Some (MetadataNode.metadataStore_ m !! f).

Definition ended_at (w : world) (a : address) : Prop :=
  exists m, w !! a = Some (Metadata m) /\ MetadataNode.has_next m = false.

Lemma metadata_le w w' a m :
  world_le w w' -> w !! a = Some (Metadata m) ->
  exists m', w' !! a = Some (Metadata m') /\
    keys_kept (MetadataNode.metadataStore_ m) (MetadataNode.metadataStore_ m') /\ successor_kept m m'.
Proof.
  intros Hle E. destruct (world_le_lookup _ _ _ _ Hle E) as ([m'|m'] & E' & Hg); [done|].
  exists m'. by destruct Hg.
Qed.

Lemma known_at_le w w' a f : world_le w w' -> known_at w a f -> known_at w' a f.
Proof.
  intros Hle (m & E & Hf). destruct (metadata_le _ _ _ _ Hle E) as (m' & E' & Hk & _).
  exists m'. auto.
Qed.

Lemma ended_at_le w w' a : world_le w w' -> ended_at w a -> ended_at w' a.
Proof.
  intros Hle (m & E & He). destruct (metadata_le _ _ _ _ Hle E) as (m' & E' & _ & []).
  exists m'. auto.
Qed.

Lemma ended_replicated w a f : known_at w a f -> ended_at w a -> replicated w f a.
Proof.
  intros (m & E & Hf) (m' & E' & He). rewrite E in E'. injection E' as <-.
  eapply replicated_end; eauto.
Qed.

(** The successor that was read: it is the successor still, or the chain was cut. *)
Definition next_was (w : world) (a b : address) : Prop :=
  exists m, w !! a = Some (Metadata m) /\
    ((MetadataNode.nextNodeIp_ m, MetadataNode.nextNodePort_ m) = b \/ MetadataNode.nextNodeIp_ m = EmptyString).

Lemma next_was_le w w' a b : world_le w w' -> next_was w a b -> next_was w' a b.
Proof.
  intros Hle (m & E & Hn). destruct (metadata_le _ _ _ _ Hle E) as (m' & E' & _ & [[[E1 E2]|Hnext] Hcut _]).
  - exists m'. split; [done|]. rewrite E1, E2. done.
  - exists m'. auto.
Qed.

Lemma next_replicated w a ip port b f :
  known_at w a f -> next_was w a (ip, port) -> endpoint ip port = Some b -> replicated w f b -> replicated w f a.
Proof.
  intros (m & E & Hf) (m' & E' & Hn) Hb Hr. rewrite E in E'. injection E' as <-.
  destruct Hn as [[= <- <-]|Hn]; [by eapply replicated_next|]. eapply replicated_end; eauto.
Qed.

Section Put.
Context (a : address) (c : string) (m : FileMetadata) (iss : istream).
Context (Hput : extract_string (istringstream c) = (Some "PUT", iss))
        (Hparse : parse_put c = Some m) (Hroot : is_record m).

Lemma put_honest n : honest_requests n [bytes_of_string c].
Proof.
  destruct n as [x|x]; simpl.
  - split; [lia|]. by intros ? ? ? [=].
  - apply Forall_singleton. unfold honest_command. rewrite (command_words_put _ _ Hput), string_bytes_id.
    simpl. split_and!; [done..|]. intros _ m' E. rewrite Hparse in E. by injection E as <-.
Qed.

(** The forwarding: [true] means that the successor answered for its part. *)
Lemma forward_safe w s :
  known_at w a (filename m) ->
  safe (metadata_cell a) (Some a)
    (fun w _ s' o ok => s' = s /\ o = None /\ known_at w a (filename m) /\
       (ok = true -> replicated w (filename m) a)) w tt s None (MetadataNode.forwardPut c).
Proof.
  intros Hk. unfold MetadataNode.forwardPut. cbn [reads mbind io_mbind io_bind].
  apply metadata_reads. intros w1 m1 Hle1 Hok1 Hm1. apply metadata_reads. intros w2 m2 Hle2 Hok2 Hm2.
  assert (known_at w2 a (filename m)) as Hk2 by (do 2 (eapply known_at_le; [done|]); done).
  set (ip := MetadataNode.nextNodeIp_ m1). set (port := MetadataNode.nextNodePort_ m2).
  assert (next_was w2 a (ip, port)) as Hnext.
  { destruct (metadata_le _ _ _ _ Hle2 Hm1) as (m2' & E & _ & [[[E1 E2]|Hnext] _ _]);
      rewrite Hm2 in E; injection E as <-; exists m2; split; auto. left. unfold ip, port. by rewrite E1. }
  cbn [client_connect client_sendMessage client_recvMessage client_closes mbind io_mbind io_bind negb].
  split; [|intros _; by split_and!]. intros w3 b n Hle3 Hok3 Hb En. split; [apply honest_nil|].
  cbn [negb safe mbind io_mbind io_bind]. split_and!.
  - intros n' _. apply (put_honest n').
  - intros w4 r rs Hle4 Hok4 Hr Hkn.
    assert (world_le w2 w4) as Hle by by etransitivity.
    cbn [safe]. split_and!; [done|done|by eapply known_at_le|]. intros Hresp%bool_decide_eq_true.
    destruct Hr as [->|(_ & -> & _)]; [|done]. eapply next_replicated; [by eapply known_at_le|by eapply next_was_le|exact Hb|].
    by eapply knows_put.
  - intros _. split_and!; [done|done|by eapply known_at_le|done].
Qed.

(** Whether to forward: [false] means that the chain ends here. *)
Lemma not_last_safe w s :
  safe (metadata_cell a) (Some a)
    (fun w _ s' o b => s' = s /\ o = None /\ (b = false -> ended_at w a)) w tt s None MetadataNode.not_last.
Proof.
  unfold MetadataNode.not_last. cbn [reads mbind io_mbind io_bind].
  apply metadata_reads. intros w1 m1 Hle1 Hok1 Hm1.
  destruct (Hok1 _ _ Hm1) as (_ & _ & _ & Hl1 & _).
  destruct (bool_decide (_ = MetadataNode.TAIL)) eqn:Ht.
  - split_and!; [done..|]. intros _. exists m1. split; [done|]. apply Hl1. unfold MetadataNode.is_last.
    apply bool_decide_eq_true in Ht. by rewrite bool_decide_eq_true_2 by auto.
  - apply metadata_reads. intros w2 m2 Hle2 Hok2 Hm2. split_and!; [done..|].
    destruct (Hok2 _ _ Hm2) as (_ & _ & _ & Hl2 & _).
    intros Hs%bool_decide_eq_false%dec_stable. exists m2. split; [done|]. apply Hl2.
    unfold MetadataNode.is_last. by rewrite bool_decide_eq_true_2 by auto.
Qed.
End Put.

(** After an answer: idle again. *)
Definition idle (a : address) {A : Type} (w : world) (_ : unit) (s : session_state) (o : opened) (_ : A) : Prop :=
  s = MIdle /\ o = None /\ exists m, w !! a = Some (Metadata m).

Lemma is_metadata_le w w' a :
  world_le w w' -> (exists m, w !! a = Some (Metadata m)) -> exists m, w' !! a = Some (Metadata m).
Proof. intros Hle [m E]. destruct (metadata_le _ _ _ _ Hle E) as (m' & ? & _). eauto. Qed.

Lemma put_grows a m x :
  is_record m -> wf_meta m -> node_sound a (Metadata x) ->
  let y := MetadataNode.set_store (<[filename m := m]>) x in
  node_grows (Metadata x) (Metadata y) /\ node_sound a (Metadata y).
Proof.
  intros Hr Hwf (H1 & H2 & Hskip & Hlast & Hrec). split.
  - split; [|split; auto].
    intros k Hk. simpl. destruct (decide (filename m = k)) as [->|?];
      [by rewrite lookup_insert_eq|by rewrite lookup_insert_ne].
  - split_and!; [done..|]. simpl. intros f r [[<- <-]|[_ ?]]%lookup_insert_Some; [done|by apply Hrec].
Qed.

Lemma put_safe a c iss w :
  extract_string (istringstream c) = (Some "PUT", iss) ->
  (forall m, parse_put c = Some m -> is_record m) -> (exists x, w !! a = Some (Metadata x)) ->
  safe (metadata_cell a) (Some a) (idle a) w tt (MPut c) None (MetadataNode.handlePut c).
Proof.
  intros Hput Hroot Hmeta. unfold MetadataNode.handlePut. destruct (parse_put c) as [m|] eqn:Hp.
  2: { exists MIdle. split; [by split|by split_and!]. }
  specialize (Hroot m eq_refl).
  cbn [with_lock acquire release modify mbind io_mbind io_bind mret io_ret safe].
  apply metadata_writes. intros w1 x Hle1 Hok1 Hx.
  destruct (put_grows a m x Hroot (parse_put_wf _ _ Hp) (Hok1 _ _ Hx)) as [Hg Hs].
  split_and!; [done..|]. intros w2 Hle2 Hx2. cbn [safe].
  assert (known_at w2 a (filename m)) as Hk.
  { eexists. split; [done|]. simpl. by rewrite lookup_insert_eq. }
  assert (forall w3, world_le w2 w3 -> exists m, w3 !! a = Some (Metadata m)) as Hmeta3.
  { intros w3 Hle3. eapply is_metadata_le; [done|]. eauto. }
  apply (safe_bind (S := MetadataNode.MetadataNode)). apply (safe_bind (S := MetadataNode.MetadataNode)).
  eapply safe_mono; [|by apply not_last_safe]. intros w3 [] s o b Hle3 (-> & -> & Hend). cbv beta.
  assert (forall w4 ok, world_le w3 w4 -> (ok = true -> replicated w4 (filename m) a) ->
    safe (metadata_cell a) (Some a) (idle a) w4 tt (MPut c) None
      (server_sendMessage (if ok : bool then "ACK" else "ERROR_FORWARD"))) as Hsend.
  { intros w4 ok Hle4 Hrep. exists MIdle. split.
    - split; [done|]. intros Hr m' E. rewrite Hp in E. injection E as <-. apply Hrep. by destruct ok.
    - split_and!; [done..|]. apply Hmeta3. by etransitivity. }
  assert (known_at w3 a (filename m)) as Hk3 by by eapply known_at_le.
  destruct b; cbn [reads mbind io_mbind io_bind mret io_ret safe].
  2: { apply (Hsend w3 true); [reflexivity|]. intros _. by apply ended_replicated; [|apply Hend]. }
  apply metadata_reads. intros w4 y Hle4 Hok4 Hy. cbn [safe].
  destruct (bool_decide (MetadataNode.nextNodePort_ y <> -1)) eqn:Hnext.
  - eapply (safe_bind (S := MetadataNode.MetadataNode)).
    eapply safe_mono; [|by eapply forward_safe; [..|by eapply known_at_le]].
    intros w5 [] s o ok Hle5 (-> & -> & _ & Hrep). apply (Hsend w5 ok); [by etransitivity|done].
  - apply (Hsend w4 true); [done|]. intros _. eapply ended_replicated; [by eapply known_at_le|].
    exists y. by split.
Qed.

(** An answer that is no record. *)
Lemma no_record w a name r :
  is_found (parse_found name r) = false -> answers w a (MGet name) (bytes_of_string r) MIdle.
Proof. intros Hn. split; [done|]. intros m. unfold m. by rewrite string_bytes_id, Hn. Qed.

Lemma get_safe a f w :
  (exists x, w !! a = Some (Metadata x)) ->
  safe (metadata_cell a) (Some a) (idle a) w tt (MGet f) None (MetadataNode.handleGet f).
Proof.
  intros Hmeta. unfold MetadataNode.handleGet. apply safe_bind.
  eapply safe_mono; [|by apply not_last_safe]. intros w1 [] s o b Hle1 (-> & -> & _). cbv beta.
  assert (exists x, w1 !! a = Some (Metadata x)) as Hmeta1 by by eapply is_metadata_le.
  destruct b.
  { exists MIdle. split; [apply no_record; by vm_compute|]. by split_and!. }
  cbn [acquire reads mbind io_mbind io_bind safe]. apply metadata_reads. intros w2 x Hle2 Hok2 Hx.
  destruct (MetadataNode.metadataStore_ x !! f) as [m|] eqn:Em; cbn [release mbind io_mbind io_bind safe].
  - exists MIdle. split; [|split_and!; [done|done|by eexists]].
    destruct (Hok2 _ _ Hx) as (_ & _ & _ & _ & Hrec). destruct (Hrec _ _ Em) as (Hwf & Hf & Hroot).
    split; [done|]. rewrite string_bytes_id. cbv zeta.
    destruct (decide (chunkHashes m = [])) as [Hnil|Hne].
    + by rewrite parse_found_empty.
    + intros _. rewrite parse_found_any by done. subst f. by destruct m.
  - exists MIdle. split; [apply no_record; by vm_compute|]. split_and!; [done|done|by eexists].
Qed.

(** Members of the chain that may change freely. *)
Lemma sound_same a m m' :
  node_sound a (Metadata m) -> MetadataNode.metadataStore_ m' = MetadataNode.metadataStore_ m ->
  MetadataNode.skipToPort_ m' = MetadataNode.skipToPort_ m -> successor_kept m m' ->
  (MetadataNode.is_last m' = true -> MetadataNode.has_next m' = false) ->
  node_grows (Metadata m) (Metadata m') /\ node_sound a (Metadata m').
Proof.
  intros (H1 & H2 & Hskip & Hlast & Hrec) Es Ek Hs Hl. split.
  - split; [rewrite Es; reflexivity|done].
  - split_and!; [done|done|by rewrite Ek|done|]. by rewrite Es.
Qed.

Lemma metadata_sets {A : Type} (a : address) (Q : world -> unit -> session -> opened -> A -> Prop)
    w s o f (k : io MetadataNode.MetadataNode A) :
  (forall w2 m, world_le w w2 -> w2 !! a = Some (Metadata m) -> node_sound a (Metadata m) ->
     MetadataNode.metadataStore_ (f m) = MetadataNode.metadataStore_ m /\
     MetadataNode.skipToPort_ (f m) = MetadataNode.skipToPort_ m /\ successor_kept m (f m) /\
     (MetadataNode.is_last (f m) = true -> MetadataNode.has_next (f m) = false)) ->
  (forall w2 m, world_le w w2 -> world_ok w2 -> w2 !! a = Some (Metadata (f m)) ->
     safe (metadata_cell a) (Some a) Q w2 tt s o k) ->
  safe (metadata_cell a) (Some a) Q w tt s o (Atomic f (fun _ => k)).
Proof.
  intros Hf Hk w' m Hle Hok Hl. apply metadata_look in Hl. simpl.
  destruct (Hf w' m Hle Hl (Hok _ _ Hl)) as (Es & Ek & Hs & Hlast).
  destruct (sound_same a m (f m) (Hok _ _ Hl) Es Ek Hs Hlast) as [Hg Hsound].
  assert (world_le w' (<[a := Metadata (f m)]> w')) as Hle2 by (by eapply world_le_insert).
  split_and!; [done|by apply world_ok_insert|].
  eapply Hk; [by etransitivity|by apply world_ok_insert|by apply lookup_insert_eq].
Qed.

(** An assignment to members the promises do not mention. *)
Ltac kept :=
  intros ? ? _ _ (_ & _ & _ & ? & _); split_and!; [done|done|by split; simpl; auto|simpl; auto].

(** The next access or call of the program; mutexes need no care. *)
Ltac run_code :=
  cbn [with_lock acquire release reads modify mbind io_mbind io_bind mret io_ret negb];
  repeat match goal with
  | |- safe ?c ?h ?Q ?w ?x ?s ?o (Acquire _ ?k) => change (safe c h Q w x s o k)
  | |- safe ?c ?h ?Q ?w ?x ?s ?o (Release _ ?k) => change (safe c h Q w x s o k)
  end.

(** The assignments to the role. *)
Lemma set_role_safe a (b : bool) v w s :
  (b = true -> v = MetadataNode.MIDDLE \/ ended_at w a) -> (exists x, w !! a = Some (Metadata x)) ->
  safe (metadata_cell a) (Some a)
    (fun w _ s' o _ => s' = s /\ o = None /\ exists x, w !! a = Some (Metadata x)) w tt s None
    (if b then modify (MetadataNode.set_role v) else mret tt).
Proof.
  intros Hb Hmeta. destruct b; [|by split_and!]. apply metadata_sets.
  - intros w2 m Hle Hm (_ & _ & _ & Hl & _). split_and!; [done|done|by split; simpl; auto|].
    destruct (Hb eq_refl) as [->|He]; [done|]. intros _.
    destruct (ended_at_le _ _ _ Hle He) as (m' & E & Hn). rewrite Hm in E. by injection E as <-.
  - intros w2 m Hle _ Hm. split_and!; [done|done|by eexists].
Qed.

Lemma last_ended w a m :
  world_ok w -> w !! a = Some (Metadata m) -> MetadataNode.is_last m = true -> ended_at w a.
Proof. intros Hok Hm Hl. exists m. destruct (Hok _ _ Hm) as (_ & _ & _ & H & _). auto. Qed.

Lemma updatePrev_safe a ip port w :
  (exists x, w !! a = Some (Metadata x)) ->
  safe (metadata_cell a) (Some a) (idle a) w tt MOther None (MetadataNode.updatePrev ip port).
Proof.
  intros Hmeta. unfold MetadataNode.updatePrev. run_code.
  apply metadata_sets; [kept|]. intros w1 m1 Hle1 _ _. run_code.
  apply metadata_sets; [kept|]. intros w2 m2 Hle2 _ _. run_code.
  apply metadata_reads. intros w3 m3 Hle3 Hok3 Hm3. run_code.
  change (io_bind ?f ?p) with (p ≫= f). do 2 apply safe_bind.
  eapply safe_mono; [|apply set_role_safe; [by left|by eexists]].
  intros w4 [] s o [] Hle4 (-> & -> & Hmeta4). run_code. apply metadata_reads.
  intros w5 m5 Hle5 Hok5 Hm5. apply safe_bind.
  eapply safe_mono; [|apply set_role_safe; [|by eexists]].
  - intros w6 [] s o [] Hle6 (-> & -> & Hmeta6). exists MIdle. by split_and!.
  - intros Hr%bool_decide_eq_true. right. eapply last_ended; [done..|].
    unfold MetadataNode.is_last. by rewrite bool_decide_eq_true_2 by auto.
Qed.

Lemma getStatus_safe a w :
  (exists x, w !! a = Some (Metadata x)) ->
  safe (metadata_cell a) (Some a) (idle a) w tt MOther None MetadataNode.getStatus.
Proof.
  intros Hmeta. unfold MetadataNode.getStatus. apply safe_bind.
  eapply (safe_mono (H := node_contract) _ _ (fun w (_ : unit) (s : session_state) o _ =>
    s = MOther /\ o = None /\ exists x, w !! a = Some (Metadata x))).
  - intros w1 [] s o name Hle1 (-> & -> & Hmeta1). run_code.
    apply metadata_reads. intros w2 m2 Hle2 Hok2 Hm2. run_code.
    apply metadata_reads. intros w3 m3 Hle3 Hok3 Hm3. exists MIdle. split; [done|].
    split_and!; [done|done|by eexists].
  - unfold MetadataNode.read_role_name. run_code.
    do 3 (apply metadata_reads; intros ? ? ? ? ?; case_bool_decide; [split_and!; [done|done|by eexists]|run_code]).
    split_and!; [done|done|by eexists].
Qed.

Lemma metadata_handler_ok a : metadata_body_ok a MetadataNode.handleClient.
Proof.
  intros w m Hok Hw. unfold MetadataNode.handleClient. apply safe_bind.
  eapply (safe_mono _ _ (turn_done a)).
  { intros w' x s o [] _ Hd; [exact Hd|apply done_false]. }
  unfold MetadataNode.handleClient_turn. run_code.
  apply metadata_reads. intros w1 m1 Hle1 Hok1 Hm1. destruct (MetadataNode.running_ m1); [|apply done_false].
  cbn [negb server_recvMessage mbind io_mbind io_bind with_lock acquire release mret io_ret]. intros w2 Hle2 Hok2. split; [apply done_false|].
  intros d b n tr [= <-] En Hp Hh.
  destruct (metadata_le _ _ _ _ Hle2 Hm1) as (m2 & Hm2 & _). rewrite Hm2 in En. injection En as <-.
  change (Forall honest_command (asked tr ++ [d])) in Hh.
  rewrite Forall_app, Forall_singleton in Hh. destruct Hh as [_ Hh].
  destruct (bool_decide (string_of_bytes d = EmptyString)); [apply done_false|].
  assert (forall (p : io MetadataNode.MetadataNode unit) (s : session_state),
    safe (metadata_cell a) (Some a) (idle a) w2 tt s None p ->
    safe (metadata_cell a) (Some a) (turn_done a) w2 tt s None (p;; mret true)) as Hagain.
  { intros p s Hp'. apply safe_bind. eapply safe_mono; [|exact Hp'].
    intros w3 [] s' o [] _ (-> & -> & x & Hx). by eapply metadata_again. }
  assert (exists x, w2 !! a = Some (Metadata x)) as Hmeta by eauto.
  change (on_request _ d) with (metadata_command d). unfold metadata_command. unfold honest_command in Hh.
  destruct (extract_string (istringstream (string_of_bytes d))) as [o iss] eqn:E.
  rewrite (command_words_eq _ _ _ E) in *. cbn [fst] in Hh. destruct Hh as (Hno1 & Hno2 & Hroot).
  destruct (bool_decide (_ = "PUT")) eqn:H1.
  { apply bool_decide_eq_true in H1. apply Hagain. eapply put_safe; [|auto|done].
    rewrite E. destruct o; simpl in H1; [by rewrite H1|done]. }
  destruct (bool_decide (_ = "GET")).
  { destruct (extract_string iss).1; [by apply Hagain, get_safe|by eapply metadata_again]. }
  destruct (bool_decide (_ = "PING")) eqn:H3.
  { apply bool_decide_eq_true in H3. rewrite H3. exists MIdle. split; [done|by eapply metadata_again]. }
  destruct (bool_decide (_ = "UPDATE_PREV")).
  { destruct (MetadataNode.extract_address iss) as [[ip port]|];
      [by apply Hagain, updatePrev_safe|by eapply metadata_again]. }
  rewrite (bool_decide_eq_false_2 _ Hno1), (bool_decide_eq_false_2 _ Hno2).
  destruct (bool_decide (_ = "GET_STATUS")) eqn:H5.
  { apply bool_decide_eq_true in H5. rewrite H5. by apply Hagain, getStatus_safe. }
  destruct (bool_decide (_ = "DIE")).
  - run_code. apply metadata_sets; [kept|]. intros. apply done_false.
  - exists MIdle. split; [done|by eapply metadata_again].
Qed.

(** ** The health check *)

Lemma honest_plain n c o iss :
  extract_string (istringstream c) = (Some o, iss) ->
  o <> "UPDATE_NEXT" -> o <> "SET_SKIP" -> o <> "PUT" -> honest_requests n [bytes_of_string c].
Proof.
  intros E H1 H2 H3. destruct n as [x|x]; simpl.
  - split; [lia|]. by intros ? ? ? [=].
  - apply Forall_singleton. unfold honest_command, command_words. by rewrite string_bytes_id, E.
Qed.

(** Between two turns of the health check. *)
Definition watching (a : address) {A : Type} (w : world) (_ : unit) (s : session_state) (o : opened) (_ : A)
    : Prop := s = MIdle /\ o = None /\ exists m, w !! a = Some (Metadata m).

Lemma ping_safe a w :
  (exists x, w !! a = Some (Metadata x)) ->
  safe (metadata_cell a) (Some a) (watching a) w tt MIdle None MetadataNode.pingNext.
Proof.
  intros Hmeta. unfold MetadataNode.pingNext. run_code.
  apply metadata_reads. intros w1 m1 Hle1 Hok1 Hm1. run_code.
  apply metadata_reads. intros w2 m2 Hle2 Hok2 Hm2.
  cbn [client_connect client_sendMessage client_recvMessage client_closes mbind io_mbind io_bind negb].
  split; [|intros _; split_and!; [done|done|by eexists]]. intros w3 b n Hle3 Hok3 _ En. split; [apply honest_nil|].
  assert (exists x, w3 !! a = Some (Metadata x)) as Hmeta3 by (eapply is_metadata_le; [done|]; by eexists).
  cbn [negb safe mbind io_mbind io_bind]. split_and!.
  - intros n' _. by eapply (honest_plain n' "PING").
  - intros w4 r rs Hle4 Hok4 Hr Hkn. split_and!; [done|done|]. by eapply is_metadata_le.
  - intros _. by split_and!.
Qed.

Lemma repair_safe a w :
  (exists x, w !! a = Some (Metadata x)) ->
  safe (metadata_cell a) (Some a) (watching a) w tt MIdle None MetadataNode.handleNextNodeFailure.
Proof.
  intros Hmeta. unfold MetadataNode.handleNextNodeFailure. run_code.
  apply metadata_reads. intros w1 m1 Hle1 Hok1 Hm1. destruct (Hok1 _ _ Hm1) as (_ & _ & Hskip & _).
  rewrite (bool_decide_eq_false_2 (_ <> -1)) by (intros Hn; by apply Hn). run_code.
  apply metadata_sets.
  { intros w2 m2 _ _ (_ & _ & _ & Hl & _). split_and!; [done|done|split; simpl; auto|simpl; auto]. }
  intros w2 m2 Hle2 _ Hm2. run_code. apply metadata_sets.
  { intros w3 m3 Hle3 Hm3 (_ & _ & _ & Hl & _).
    destruct (metadata_le _ _ _ _ Hle3 Hm2) as (m3' & E & _ & [_ Hcut _]). rewrite Hm3 in E. injection E as <-.
    specialize (Hcut eq_refl). split_and!; [done|done|split; simpl; auto|done]. }
  intros w3 m3 Hle3 _ Hm3. run_code.
  apply metadata_reads. intros w4 m4 Hle4 Hok4 Hm4. run_code.
  assert (ended_at w4 a) as He by (eapply ended_at_le; [done|]; by eexists).
  apply metadata_sets.
  { intros w5 m5 Hle5 Hm5 _. split_and!; [done|done|split; simpl; auto|]. intros _.
    destruct (ended_at_le _ _ _ Hle5 He) as (m & E & Hn). rewrite Hm5 in E. by injection E as <-. }
  intros w5 m5 Hle5 _ Hm5. split_and!; [done|done|by eexists].
Qed.

Lemma health_check_ok a : metadata_body_ok a MetadataNode.healthCheck.
Proof.
  intros w m Hok Hw. unfold MetadataNode.healthCheck. run_code.
  apply metadata_reads. intros w1 m1 Hle1 Hok1 Hm1. destruct (MetadataNode.running_ m1); [|apply done_false].
  run_code. apply metadata_reads. intros w2 m2 Hle2 Hok2 Hm2.
  destruct (bool_decide (_ <> -1)); [|by eapply metadata_again]. run_code.
  apply safe_bind. eapply safe_mono; [|apply ping_safe; by eexists].
  intros w3 [] s o ok Hle3 (-> & -> & Hmeta3). apply safe_bind.
  assert (forall w4, (exists x, w4 !! a = Some (Metadata x)) ->
    turn_done a w4 tt (opening (Metadata m)) None true) as Hend by (intros w4 [x Hx]; by eapply metadata_again).
  destruct ok; cbn [negb].
  - by apply Hend.
  - eapply safe_mono; [|by apply repair_safe]. intros w4 [] s o [] _ (-> & -> & Hmeta4). by apply Hend.
Qed.
End Promises.
