(* ===== verification/Integrity.v ===== *)
(** * Durability and integrity under concurrency

    What a client may conclude in the setting of [Network.v]: with any number of
    other clients, with handlers, health checks and repairs at any point, and
    whatever the network does to its calls.

    The theorems: after an upload that reported success, every chunk is on one of its
    replicas and the record on every node of the chain behind the metadata node that
    acknowledged it, then and at any later moment; a download that reports success
    has written exactly the content of a file that was given to an upload under the
    requested name. *)
From S2P Require Import Prelude IoStream Sha256 Chunks ConsistentHash Wire Proc Client Records Cluster Network Sessions.
From S2P Require StorageNode MetadataNode.

#[local] Open Scope Z_scope.

(** ** What a client is started with *)

Definition is_storage (n : node) : Prop := match n with Storage _ => True | Metadata _ => False end.

(** The client's addresses are those of nodes of the right kind, where there is a
    node at all. *)
Record wired (w : world) (c : Client) : Prop := {
  wired_ring : ring_wf (dht_ c);
  wired_storage : forall addr a n, addr ∈ getAllNodes (dht_ c) -> target addr = Some a ->
    w !! a = Some n -> is_storage n;
  wired_metadata : forall addr a n, addr ∈ metadataNodes_ c -> target addr = Some a ->
    w !! a = Some n -> ~ is_storage n
}.

(** An upload is of a file with a one-word name and a size that can be numbered. *)
Definition honest_job (j : job) (d : fs) : Prop :=
  match j with
  | Upload path => token (base_name path) /\ (forall content, files d !! path = Some content -> numberable content)
  | Download _ _ => True
  end.

Section Integrity.
Context (begun : Client -> job -> fs -> Prop)
        (Hhonest : forall cl j d, begun cl j d -> honest_job j d).

(** The file was given to an upload, and so the chunks and records are. *)
Definition given (path : string) (content : bytes) : Prop :=
  exists cl d, begun cl (Upload path) d /\ files d !! path = Some content.

#[local] Instance uploads : Uploads := {
  is_chunk x := exists path content, given path content /\ x ∈ pieces (read_fuel content) content;
  is_record m := exists path content, given path content /\ m = record_of path content
}.

Lemma wired_le w w' c : world_le w w' -> wired w c -> wired w' c.
Proof.
  intros Hle [Hr Hs Hm]. split; [done| |]; intros addr a n Hin Ha Hn;
    destruct (world_le_back _ _ _ _ Hle Hn) as (n0 & E & Hg).
  - specialize (Hs addr a n0 Hin Ha E). by destruct n0, n.
  - specialize (Hm addr a n0 Hin Ha E). by destruct n0, n.
Qed.

(** ** Rules for the client *)

Abbreviation csafe := (safe (H := node_contract) client_cell None).

Lemma with_node_safe {A : Type} (addr : string) (failed : A) (p : io fs A) (d : fs) (w : world)
    (s : session_state) (R : world -> option A -> Prop) :
  (forall w', world_le w w' -> R w' (Some failed) /\ R w' None) ->
  (forall w' a n, world_le w w' -> world_ok w' -> target addr = Some a -> w' !! a = Some n ->
     csafe (exchanged d (fun w r => R w (Some r))) w' d s (Some (a, [], [])) p) ->
  csafe (exchanged d R) w d s None (with_node addr failed p).
Proof.
  intros Hf Hp. destruct (Hf w ltac:(reflexivity)) as [Hf1 Hf2].
  unfold with_node, target, address_of in *. destruct (split_address addr) as [[ip ps]|]; [|by split_and!].
  simpl in Hp. destruct (stoi ps) as [port|]; [|by split_and!].
  cbn [client_connect mbind io_mbind io_bind]. split; [|intros _; by split_and!].
  intros w' a n Hle Hok Ha Hn. split; [apply honest_nil|]. cbn [negb].
  change (io_bind ?f ?p) with (p ≫= f). apply safe_bind.
  eapply safe_mono; [|by eapply (Hp w' a n)].
  intros w2 d2 s2 o2 r Hle2 (-> & -> & Hr). by split_and!.
Qed.

(** ** One chunk up *)

Definition stored_on (addr h : string) (w : world) : Prop :=
  exists a, target addr = Some a /\ has_chunk w a h.

Lemma stored_on_le addr h w w' : world_le w w' -> stored_on addr h w -> stored_on addr h w'.
Proof. intros Hle (a & Ha & Hh). exists a. split; [done|]. by eapply has_chunk_le. Qed.

Lemma store_command h : token h -> storage_command (bytes_of_string ("STORE " +:+ h)) = SAwait h.
Proof.
  intros Hh. unfold storage_command, command_words. rewrite string_bytes_id.
  unfold istringstream. change ("STORE " +:+ h) with ("STORE" +:+ String " " h).
  rewrite read_word by done. cbn [default from_option id]. by rewrite read_last_word.
Qed.

Lemma get_command h : token h -> storage_command (bytes_of_string ("GET " +:+ h)) = SGet h.
Proof.
  intros Hh. unfold storage_command, command_words. rewrite string_bytes_id.
  unfold istringstream. change ("GET " +:+ h) with ("GET" +:+ String " " h).
  rewrite read_word by done. cbn [default from_option id]. by rewrite read_last_word.
Qed.

Lemma knows_stored w b m c x h :
  w !! b = Some (Storage m) -> storage_command c = SAwait h ->
  knows w b [c; x] [bytes_of_string "READY"; bytes_of_string "ACK"] -> has_chunk w b h.
Proof.
  intros Hw Hc (n & tr & s & E & Hp & Ha & Hr). rewrite Hw in E. injection E as <-.
  destruct tr as [|[c1|r1] tr]; [by destruct Hr| |by destruct Hp as (? & [] & _)].
  destruct Ha as [ds Ha]. injection Ha as <- Ha. simpl in Hp. rewrite Hc in Hp. simpl in Hp.
  destruct Hr as [rs Hr].
  destruct tr as [|[x1|r1] tr]; [done| |].
  - injection Ha as <- Ha. simpl in Hp. destruct tr as [|[y|r1] tr]; [done|done|].
    destruct Hp as (s1 & [-> _] & Hp). injection Hr as -> Hr.
    destruct tr as [|[y|r2] tr]; [done|done|]. by destruct Hp as (? & [] & _).
  - destruct Hp as (s1 & [-> ->] & Hp). injection Hr as Hr. simpl in Hp.
    destruct tr as [|[x1|r2] tr]; [done| |].
    + injection Ha as <- Ha. simpl in Hp. destruct tr as [|[y|r2] tr]; [done|done|].
      destruct Hp as (s1 & [-> Hack] & Hp). injection Hr as -> Hr. by apply Hack.
    + by destruct Hp as (? & [] & _).
Qed.

(** The two receptions of an exchange: what was understood was received. *)
Lemma received_as (P : Prop) rs rs' r m :
  rs' = rs ++ [r] \/ (P /\ r = [] /\ rs' = rs) -> string_of_bytes r = m -> m <> EmptyString ->
  rs' = rs ++ [bytes_of_string m].
Proof. intros [->|(_ & -> & _)] <- Hm; [|done]. by rewrite bytes_string_id. Qed.

Lemma uploadChunk_safe chunk addr d w (s : session_state) :
  c_hash chunk = sha256 (c_data chunk) -> is_chunk (c_data chunk) ->
  (forall w' a n, world_le w w' -> target addr = Some a -> w' !! a = Some n -> is_storage n) ->
  csafe (exchanged d (fun w r => r = Some true -> stored_on addr (c_hash chunk) w)) w d s None
    (uploadChunkToNode chunk addr).
Proof.
  intros Hh Hpiece Hkind. apply with_node_safe; [by split|]. intros w1 a n Hle1 Hok1 Ha Hn.
  assert (token (c_hash chunk)) as Htok by (rewrite Hh; apply sha256_token).
  cbn [client_sendMessage client_recvMessage client_sendData client_closes mbind io_mbind io_bind negb].
  set (c := bytes_of_string ("STORE " +:+ c_hash chunk)).
  assert (forall w' n', world_le w1 w' -> w' !! a = Some n' -> exists m, n' = Storage m) as Hst.
  { intros w' n' Hle Hn'. specialize (Hkind w' a n' ltac:(by etransitivity) Ha Hn').
    destruct n' as [m|m]; [by exists m|done]. }
  split_and!; [|cbn [negb mbind io_mbind io_bind]|intros _; by split_and!].
  { intros n' Hn'. destruct (Hst w1 n' ltac:(reflexivity) Hn') as [m ->]. split; [simpl; lia|]. by intros ? ? ? [=]. }
  intros w2 r1 rs1 Hle2 Hok2 Hr1 Hk1. destruct (bool_decide (_ <> "READY")) eqn:Hready; [by split_and!|].
  apply bool_decide_eq_false, dec_stable in Hready.
  pose proof (received_as _ _ _ _ _ Hr1 Hready ltac:(done)) as ->.
  split_and!; [|cbn [negb mbind io_mbind io_bind]|intros _; by split_and!].
  { intros n' Hn'. destruct (Hst w2 n' Hle2 Hn') as [m ->]. split; [simpl; lia|].
    intros c' x h [= <- <-]. unfold c. rewrite store_command by done. by intros [= <-]. }
  intros w3 r2 rs2 Hle3 Hok3 Hr2 Hk2. split_and!; [done|done|]. intros [= Hack%bool_decide_eq_true].
  pose proof (received_as _ _ _ _ _ Hr2 Hack ltac:(done)) as ->.
  exists a. split; [done|].
  assert (exists n', w3 !! a = Some n') as [n' Hn'].
  { destruct Hk2 as (n' & ? & ? & ? & _). by exists n'. }
  destruct (Hst w3 n' ltac:(by etransitivity) Hn') as [m ->].
  eapply (knows_stored _ _ _ c); [done|by apply store_command|exact Hk2].
Qed.

(** ** One chunk down *)

Lemma knows_fetched w b m c x h :
  w !! b = Some (Storage m) -> storage_command c = SGet h ->
  knows w b [c] [bytes_of_string "FOUND"; x] -> sha256 x = h /\ is_chunk x.
Proof.
  intros Hw Hc (n & tr & s & E & Hp & Ha & Hr). rewrite Hw in E. injection E as <-.
  destruct tr as [|[c1|r1] tr]; [by destruct Hr| |by destruct Hp as (? & [] & _)].
  destruct Ha as [ds Ha]. injection Ha as <- Ha. simpl in Hp. rewrite Hc in Hp. simpl in Hp.
  destruct Hr as [rs Hr]. destruct tr as [|[x1|r1] tr]; [done..|].
  destruct Hp as (s1 & Hs1 & Hp). injection Hr as -> Hr. unfold may_answer in Hs1. simpl in Hs1. subst s1.
  destruct tr as [|[x1|r2] tr]; [done..|]. destruct Hp as (s2 & (_ & Hs & Hx) & _). by injection Hr as -> Hr.
Qed.

Lemma downloadChunk_safe hash addr d w (s : session_state) :
  (forall w' a n, world_le w w' -> target addr = Some a -> w' !! a = Some n -> is_storage n) ->
  csafe (exchanged d (fun w r => forall data, r = Some data -> data <> [] -> token hash ->
           sha256 data = hash /\ is_chunk data)) w d s None
    (downloadChunkFromNode hash addr).
Proof.
  intros Hkind. apply with_node_safe; [split; naive_solver|]. intros w1 a n Hle1 Hok1 Ha Hn.
  cbn [client_sendMessage client_recvMessage client_recvData client_closes mbind io_mbind io_bind negb].
  set (c := bytes_of_string ("GET " +:+ hash)).
  split_and!; [|cbn [negb mbind io_mbind io_bind]|intros _; split_and!; naive_solver].
  { intros n' Hn'. specialize (Hkind w1 a n' Hle1 Ha Hn').
    destruct n' as [m|m]; [|done]. split; [simpl; lia|]. by intros ? ? ? [=]. }
  intros w2 r1 rs1 Hle2 Hok2 Hr1 Hk1. destruct (bool_decide (_ = "FOUND")) eqn:Hfound.
  2: { split_and!; naive_solver. }
  apply bool_decide_eq_true in Hfound. pose proof (received_as _ _ _ _ _ Hr1 Hfound ltac:(done)) as ->.
  intros w3 r2 rs2 Hle3 Hok3 Hr2 Hk2. split_and!; [done|done|]. intros data [= <-] Hne Htok.
  destruct Hr2 as [->|(_ & -> & _)]; [|done].
  assert (exists n', w3 !! a = Some n') as [n' Hn'].
  { destruct Hk2 as (n' & ? & ? & ? & _). by exists n'. }
  assert (world_le w w3) as Hle by (do 2 (etransitivity; [done|]); done).
  specialize (Hkind w3 a n' Hle Ha Hn'). destruct n' as [m|m]; [|done].
  eapply (knows_fetched _ _ _ c); [done|by apply get_command|exact Hk2].
Qed.

(** ** The record up and down *)

Lemma putMetadata_safe addr path chunks d w (s : session_state) :
  let m := put_metadata (getFileSize d path) path chunks (computeRootHash (c_hash <$> chunks)) in
  wf_meta m -> chunkHashes m <> [] -> is_record m ->
  csafe (exchanged d (fun w r => r = Some true ->
           exists a, target addr = Some a /\ replicated w (base_name path) a)) w d s None
    (putMetadataToNode addr path chunks (computeRootHash (c_hash <$> chunks))).
Proof.
  intros m Hwf Hne Hrec. apply with_node_safe; [by split|]. intros w1 a n Hle1 Hok1 Ha Hn.
  cbn [reads mbind io_mbind io_bind]. apply client_step. intros w2 Hle2 Hok2.
  cbn [client_sendMessage client_recvMessage client_closes mbind io_mbind io_bind negb]. fold m.
  destruct (put_command_word m) as (_ & iss & Hc). pose proof (parse_put_command m Hwf Hne) as Hp.
  split_and!; [|cbn [negb mbind io_mbind io_bind]|intros _; by split_and!].
  { intros n' _. by eapply (put_honest (put_command m) m iss). }
  intros w3 r rs Hle3 Hok3 Hr Hk. split_and!; [done|done|]. intros [= Hack%bool_decide_eq_true].
  destruct Hr as [->|(_ & -> & _)]; [|done]. exists a. split; [done|].
  by eapply (knows_put _ _ (put_command m) iss m).
Qed.

Lemma parse_found_name name r : is_found (parse_found name r) = true -> filename (parse_found name r) = name.
Proof. unfold parse_found. repeat case_match; done. Qed.

Lemma knows_found w b m name r :
  w !! b = Some (Metadata m) -> token name -> knows w b [bytes_of_string ("GET " +:+ name)] [r] ->
  is_found (parse_found name (string_of_bytes r)) = true -> is_record (parse_found name (string_of_bytes r)).
Proof.
  intros Hw Htok (n & s & E & Ha)%knows_one. rewrite Hw in E. injection E as <-. simpl in Ha.
  unfold metadata_command, command_words in Ha. rewrite string_bytes_id in Ha.
  change ("GET " +:+ name) with ("GET" +:+ String " " name) in Ha. unfold istringstream in Ha.
  rewrite read_word in Ha by done. cbn [default from_option id] in Ha.
  rewrite (bool_decide_eq_false_2 ("GET" = "PUT")), bool_decide_eq_true_2 in Ha by done.
  rewrite read_last_word in Ha by done. apply Ha.
Qed.

(** What a client may conclude from a record it was given. *)
Definition trusted (name : string) (m : FileMetadata) : Prop :=
  is_found m = true -> token name -> is_record m /\ filename m = name.

Lemma getMetadata_safe addr name d w (s : session_state) :
  (forall w' a n, world_le w w' -> target addr = Some a -> w' !! a = Some n -> ~ is_storage n) ->
  csafe (exchanged d (fun w r => forall m, r = Some m -> trusted name m)) w d s None
    (getMetadataFromNode addr name).
Proof.
  intros Hkind. apply with_node_safe.
  { intros w' _. split; intros m [= <-]; by intros ?. }
  intros w1 a n Hle1 Hok1 Ha Hn.
  cbn [client_sendMessage client_recvMessage client_closes mbind io_mbind io_bind negb].
  assert (forall m, Some no_metadata = Some m -> trusted name m) as Hnone by (intros m [= <-]; by intros ?).
  split_and!; [|cbn [negb mbind io_mbind io_bind]|intros _; by split_and!].
  { intros n' _. destruct n' as [m|m]; [split; [simpl; lia|]; by intros ? ? ? [=]|].
    apply Forall_singleton. unfold honest_command, command_words. rewrite string_bytes_id.
    change ("GET " +:+ name) with ("GET" +:+ String " " name). unfold istringstream.
    by rewrite read_word by done. }
  intros w2 r rs Hle2 Hok2 Hr Hk. split_and!; [done|done|]. intros m [= <-] Hfound Htok.
  split; [|by apply parse_found_name]. destruct Hr as [->|(_ & -> & _)]; [|done].
  assert (exists n', w2 !! a = Some n') as [n' Hn'].
  { destruct Hk as (n' & ? & ? & ? & _). by exists n'. }
  specialize (Hkind w2 a n' ltac:(by etransitivity) Ha Hn').
  destruct n' as [m|m]; [by destruct Hkind|]. by eapply knows_found.
Qed.

(** ** The client's programs *)

Section Programs.
Context (w0 : world) (c : Client) (Hwired : wired w0 c).

Lemma replicas_nodes hash addr : addr ∈ replicas (dht_ c) hash -> addr ∈ getAllNodes (dht_ c).
Proof.
  unfold replicas. destruct (getNodesForKey_wf (dht_ c) hash replicationFactor (wired_ring _ _ Hwired))
    as (nodes & -> & _ & _ & _ & Hin). apply Hin.
Qed.

(** A copy of the chunk is on one of the nodes. *)
Definition copy_on (nodes : list string) (h : string) (w : world) : Prop :=
  exists addr, addr ∈ nodes /\ stored_on addr h w.

Lemma copy_on_le nodes h w w' : world_le w w' -> copy_on nodes h w -> copy_on nodes h w'.
Proof. intros Hle (addr & Hin & Hs). exists addr. split; [done|]. by eapply stored_on_le. Qed.

Lemma wired_node w addr a n :
  world_le w0 w -> addr ∈ getAllNodes (dht_ c) -> target addr = Some a -> w !! a = Some n -> is_storage n.
Proof. intros Hle Hin Ha Hn. by eapply (wired_storage _ _ (wired_le _ _ _ Hle Hwired)). Qed.

Lemma upload_to_nodes_safe chunk nodes k d w (s : session_state) :
  world_le w0 w -> (forall addr, addr ∈ nodes -> addr ∈ getAllNodes (dht_ c)) ->
  c_hash chunk = sha256 (c_data chunk) -> is_chunk (c_data chunk) ->
  csafe (exchanged d (fun w r => forall n, r = Some n -> k <= n /\ (k < n -> copy_on nodes (c_hash chunk) w)))
    w d s None (upload_to_nodes chunk nodes k).
Proof.
  intros Hle Hin Hh Hx. revert k w s Hle. induction nodes as [|addr nodes IH]; intros k w s Hle.
  { split_and!; [done|done|]. intros n [= <-]. lia. }
  cbn [upload_to_nodes]. eapply safe_and_then; [|done|].
  - apply uploadChunk_safe; [done|done|]. intros w' a n Hle' Ha Hn.
    eapply (wired_node w'); [by etransitivity|by apply Hin; left|done..].
  - intros w' s' ok Hle' Hok. eapply safe_mono; [|apply IH; [intros; apply Hin; by right|by etransitivity]].
    intros w2 d2 s2 o2 r Hle2 (-> & -> & Hr). split_and!; [done|done|]. intros n ->.
    destruct (Hr n eq_refl) as [H1 H2]. destruct ok; cbv iota in H1, H2.
    + split; [lia|]. intros _. exists addr. split; [left|]. eapply stored_on_le; [done|]. by apply Hok.
    + split; [done|]. intros Hlt. destruct (H2 Hlt) as (addr' & Ha & Hs). exists addr'. split; [by right|done].
Qed.

Definition copied_in (w : world) (ch : Chunk) : Prop := copy_on (replicas (dht_ c) (c_hash ch)) (c_hash ch) w.

Lemma upload_chunks_safe chunks d w (s : session_state) :
  world_le w0 w -> Forall (fun ch => c_hash ch = sha256 (c_data ch) /\ is_chunk (c_data ch)) chunks ->
  csafe (exchanged d (fun w r => r = Some None -> Forall (copied_in w) chunks)) w d s None
    (upload_chunks (dht_ c) chunks).
Proof.
  intros Hle Hall. revert w s Hle. induction Hall as [|ch chunks [Hh Hx] Hall IH]; intros w s Hle.
  { by split_and!. }
  cbn [upload_chunks]. pose proof (fun addr => replicas_nodes (c_hash ch) addr) as Hin.
  unfold replicas in *. destruct (getNodesForKey _ _ _) as [nodes|] eqn:En; [|by split_and!].
  eapply safe_and_then; [by apply (upload_to_nodes_safe ch nodes 0)|done|].
  intros w' s' n Hle' Hn. destruct (Hn n eq_refl) as [Hn0 Hcopy].
  destruct (bool_decide (n = 0)) eqn:Hz; [by split_and!|]. apply bool_decide_eq_false in Hz.
  eapply safe_mono; [|apply IH; by etransitivity].
  intros w2 d2 s2 o2 r Hle2 (-> & -> & Hr). split_and!; [done|done|]. intros Hs. constructor; [|by apply Hr].
  unfold copied_in, replicas. rewrite En. eapply copy_on_le; [done|]. apply Hcopy. lia.
Qed.

(** The record is on a node the client knows, and on those after it. *)
Definition recorded (name : string) (w : world) : Prop :=
  exists addr a, addr ∈ metadataNodes_ c /\ target addr = Some a /\ replicated w name a.

Lemma upload_metadata_safe nodes path content d w (s : session_state) :
  files d !! path = Some content -> given path content -> content <> [] -> numberable content ->
  token (base_name path) -> (forall addr, addr ∈ nodes -> addr ∈ metadataNodes_ c) ->
  csafe (exchanged d (fun w r => r = Some true -> recorded (base_name path) w)) w d s None
    (upload_metadata nodes path (chunks_of content) (computeRootHash (c_hash <$> chunks_of content))).
Proof.
  intros Hd Hgiven Hne Hnum Htok. revert w s. induction nodes as [|addr nodes IH]; intros w s Hin.
  { by split_and!. }
  cbn [upload_metadata]. eapply safe_and_then; [apply putMetadata_safe|done|]; rewrite ?put_metadata_record by done.
  - by apply record_of_wf.
  - intros E%fmap_nil_inv. by apply chunks_of_nil in E.
  - by exists path, content.
  - intros w' s' ok Hle' Hok. destruct ok.
    + split_and!; [done|done|]. intros _. destruct (Hok eq_refl) as (a & Ha & Hr).
      exists addr, a. split_and!; [apply Hin; left|done|done].
    + apply IH. intros addr' ?. apply Hin. by right.
Qed.

(** What a finished upload leaves. *)
Definition upload_left (path : string) (d : fs) (w : world) : Prop :=
  exists content, files d !! path = Some content /\ given path content /\ content <> [] /\
    Forall (copied_in w) (chunks_of content) /\ recorded (base_name path) w.

Lemma upload_left_le path d w w' : world_le w w' -> upload_left path d w -> upload_left path d w'.
Proof.
  intros Hle (content & Hd & Hg & Hne & Hall & addr & a & Hin & Ha & Hr). exists content. split_and!; [done..| |].
  - eapply Forall_impl; [exact Hall|]. intros ch. by apply copy_on_le.
  - exists addr, a. split_and!; [done|done|]. by eapply replicated_le.
Qed.

Lemma uploadFile_safe path d w (s : session_state) :
  world_le w0 w -> begun c (Upload path) d ->
  csafe (exchanged d (fun w r => r = Some UploadComplete -> upload_left path d w)) w d s None (uploadFile c path).
Proof.
  intros Hle Hbegun. destruct (Hhonest _ _ _ Hbegun) as [Htok Hnum].
  unfold uploadFile. cbn [reads mbind io_mbind io_bind]. apply client_step.
  intros w1 Hle1 Hok1. cbn [mret io_ret io_bind].
  destruct (bool_decide (splitFileIntoChunks d path = [])) eqn:Hne; [by split_and!|].
  apply bool_decide_eq_false in Hne. destruct (split_readable _ _ Hne) as (content & Hd & Hc).
  specialize (Hnum content Hd). specialize (Hc Hnum). rewrite (upload_hashes _ _ _ Hd Hnum). cbv zeta.
  assert (given path content) as Hgiven by by exists c, d.
  eapply safe_and_then; [apply upload_chunks_safe; [by etransitivity|]|done|].
  { apply Forall_forall. intros ch Hch. split; [by eapply chunks_of_hash|]. exists path, content.
    split; [done|]. rewrite <- chunks_of_data. by apply list_elem_of_fmap_2. }
  intros w2 s2 failed Hle2 Hup. destruct failed as [i|]; [by split_and!|].
  eapply safe_and_then; [by apply upload_metadata_safe|done|].
  intros w3 s3 ok Hle3 Hok. split_and!; [done|done|]. intros [= Huc]. destruct ok; [|done].
  exists content. split_and!; [done..| |by apply Hok].
  eapply Forall_impl; [by apply Hup|]. intros ch. by apply copy_on_le.
Qed.

(** *** Downloads *)

Lemma find_metadata_safe nodes name d w (s : session_state) :
  world_le w0 w -> (forall addr, addr ∈ nodes -> addr ∈ metadataNodes_ c) ->
  csafe (exchanged d (fun w r => forall m, r = Some (Some m) -> is_found m = true /\ trusted name m)) w d s None
    (find_metadata nodes name).
Proof.
  intros Hle. revert w s Hle. induction nodes as [|addr nodes IH]; intros w s Hle Hin.
  { by split_and!. }
  cbn [find_metadata]. eapply safe_and_then; [apply getMetadata_safe|done|].
  - intros w' a n Hle' Ha Hn. assert (world_le w0 w') as Hle0 by by etransitivity.
    eapply (wired_metadata _ _ (wired_le _ _ _ Hle0 Hwired)); [by apply Hin; left|done..].
  - intros w' s' m Hle' Hm. destruct (is_found m) eqn:Hfound.
    + split_and!; [done|done|]. intros m' [= <-]. split; [done|]. by apply Hm.
    + apply IH; [by etransitivity|]. intros addr' ?. apply Hin. by right.
Qed.

(** A chunk that was fetched under a hash. *)
Definition authentic (hash : string) (data : bytes) : Prop :=
  token hash -> sha256 data = hash /\ is_chunk data.

Lemma download_from_nodes_safe hash nodes d w (s : session_state) :
  world_le w0 w -> (forall addr, addr ∈ nodes -> addr ∈ getAllNodes (dht_ c)) ->
  csafe (exchanged d (fun w r => forall data, r = Some data -> data <> [] -> authentic hash data)) w d s None
    (download_from_nodes hash nodes).
Proof.
  intros Hle. revert w s Hle. induction nodes as [|addr nodes IH]; intros w s Hle Hin.
  { split_and!; [done|done|]. by intros data [= <-]. }
  cbn [download_from_nodes]. eapply safe_and_then; [apply downloadChunk_safe|done|].
  - intros w' a n Hle' Ha Hn. eapply (wired_node w'); [by etransitivity|by apply Hin; left|done..].
  - intros w' s' data Hle' Hdata. destruct (bool_decide (data = [])).
    + apply IH; [by etransitivity|]. intros addr' ?. apply Hin. by right.
    + split_and!; [done|done|]. intros data' [= <-] Hne Htok. by apply Hdata.
Qed.

Lemma download_chunks_safe i hashes chunks d w (s : session_state) :
  world_le w0 w ->
  csafe (exchanged d (fun w r => forall cs, r = Some (inr cs) -> exists datas,
           cs = chunks ++ received i hashes datas /\ Forall2 authentic hashes datas)) w d s None
    (download_chunks (dht_ c) i hashes chunks).
Proof.
  intros Hle. revert i chunks w s Hle. induction hashes as [|hash hashes IH]; intros i chunks w s Hle.
  { split_and!; [done|done|]. intros cs [= <-]. exists []. by rewrite app_nil_r. }
  cbn [download_chunks]. pose proof (fun addr => replicas_nodes hash addr) as Hin.
  unfold replicas, replicationFactor in Hin. destruct (getNodesForKey _ _ _) as [nodes|] eqn:En; [|by split_and!].
  eapply safe_and_then; [by apply download_from_nodes_safe|done|].
  intros w' s' data Hle' Hdata. destruct (bool_decide (data = [])) eqn:Hne; [by split_and!|].
  apply bool_decide_eq_false in Hne. specialize (Hdata data eq_refl Hne).
  eapply safe_mono; [|apply IH; by etransitivity].
  intros w2 d2 s2 o2 r Hle2 (-> & -> & Hr). split_and!; [done|done|]. intros cs Hcs.
  destruct (Hr cs Hcs) as (datas & -> & Hall). exists (data :: datas). split; [by rewrite <- app_assoc|by constructor].
Qed.

(** Pieces of uploaded files with the digests of the pieces of [content]. *)
Definition same_digests (content : bytes) (datas : list bytes) : Prop :=
  Forall2 (fun p x => sha256 x = sha256 p /\ is_chunk x) (pieces (read_fuel content) content) datas.

(** What a finished download has written. *)
Definition download_left (name out : string) (d d' : fs) : Prop :=
  exists path content datas, given path content /\ base_name path = name /\ same_digests content datas /\
    d' = FS (<[out := concat datas]> (files d)) (creatable d).

Lemma given_numberable path content : given path content -> numberable content.
Proof. intros (cl & d & Hb & Hd). by apply (Hhonest _ _ _ Hb). Qed.

Lemma is_chunk_size x : is_chunk x -> zlen x <= INT_MAX.
Proof.
  intros (path & content & _ & Hx). apply list_elem_of_lookup in Hx as [i Hi].
  destruct (pieces_sizes _ _ _ _ Hi) as [[_ H] _]. by etransitivity.
Qed.

Lemma authentic_pieces content datas :
  Forall2 authentic (c_hash <$> chunks_of content) datas -> same_digests content datas.
Proof.
  rewrite chunks_of_hashes, Forall2_fmap_l. intros Hall. eapply Forall2_impl; [exact Hall|].
  intros p x Ha. by apply Ha, sha256_token.
Qed.

Lemma reconstruct_authentic content datas d out d' :
  numberable content -> same_digests content datas ->
  reconstructFile d (received 0 (c_hash <$> chunks_of content) datas) out = Some (true, d') ->
  d' = FS (<[out := concat datas]> (files d)) (creatable d).
Proof.
  intros Hnum Hp Hr. pose proof (numberable_pieces _ Hnum) as Hmax. pose proof (Forall2_length _ _ _ Hp) as Hlen.
  unfold zlen in Hmax. rewrite Hlen in Hmax. fold (zlen datas) in Hmax.
  destruct (received_chunks 0 (c_hash <$> chunks_of content) datas) as (H1 & H2 & H3); [lia| |lia| |].
  { by rewrite chunks_of_hashes, length_fmap. }
  { clear -Hp. induction Hp as [|p x ps xs [_ Hx] _ IH]; constructor; [by apply is_chunk_size|done]. }
  assert (zlen (received 0 (c_hash <$> chunks_of content) datas) = zlen datas) as Hl.
  { unfold zlen. rewrite <- H3 at 2. by rewrite length_fmap. }
  rewrite reconstruct_in_order in Hr by (rewrite ?Hl; done). rewrite H3 in Hr.
  destruct (_ && _) in Hr; congruence.
Qed.

Lemma downloadFile_safe name out d w (s : session_state) :
  world_le w0 w ->
  csafe (fun _ d' _ o r => o = None /\ (r <> Some Reconstructed -> d' = d) /\
           (r = Some Reconstructed -> token name -> download_left name out d d')) w d s None
    (downloadFile c name out).
Proof.
  intros Hle. unfold downloadFile. unfold and_then at 1. apply safe_bind.
  eapply safe_mono; [|apply find_metadata_safe; [done|]].
  2: { intros addr. by rewrite list_elem_of_In, <- in_rev, <- list_elem_of_In. }
  intros w1 d1 s1 o1 [[m|]|] Hle1 (-> & -> & Hm); [|by split_and!..].
  destruct (Hm m eq_refl) as [Hfound Htrust]. unfold and_then. apply safe_bind.
  eapply safe_mono; [|apply download_chunks_safe; by etransitivity].
  intros w2 d2 s2 o2 [[i|cs]|] Hle2 (-> & -> & Hc); [by split_and!| |by split_and!].
  destruct (Hc cs eq_refl) as (datas & -> & Hall). cbn [app]. unfold reconstruct. apply client_step.
  intros w3 Hle3 Hok3. destruct (reconstructFile d _ out) as [[[] d']|] eqn:Er; cbn [safe mret io_ret].
  - split_and!; [done|done|]. intros _ Htok. destruct (Htrust Hfound Htok) as [(path & content & Hg & ->) <-].
    cbn [chunkHashes record_of] in *. apply authentic_pieces in Hall.
    exists path, content, datas. split_and!; [done|done|done|].
    eapply reconstruct_authentic; [by eapply given_numberable|done|exact Er].
  - split_and!; [done| |done]. intros _. by apply reconstructFile_false in Er.
  - by split_and!.
Qed.
End Programs.

(** *** Every client *)

Definition finished (cl : Client) (j : job) (d0 : fs) (w : world) (d : fs) (r : outcome) : Prop :=
  match j, r with
  | Upload path, Uploaded r => d = d0 /\ (r = Some UploadComplete -> upload_left cl path d0 w)
  | Download name out, Downloaded r =>
      (r <> Some Reconstructed -> d = d0) /\
      (r = Some Reconstructed -> token name -> download_left name out d0 d)
  | _, _ => False
  end.

Lemma finished_le cl j d0 w w' d r : world_le w w' -> finished cl j d0 w d r -> finished cl j d0 w' d r.
Proof.
  intros Hle. destruct j, r; simpl; try done. intros [? Hu]. split; [done|]. intros E.
  eapply upload_left_le; eauto.
Qed.

Lemma job_safe w0 cl j d w (s : session_state) :
  wired w0 cl -> begun cl j d -> world_le w0 w ->
  csafe (fun w d' _ _ r => finished cl j d w d' r) w d s None (job_program cl j).
Proof.
  intros Hwired Hb Hle. destruct j as [path|name out]; cbn [job_program]; apply safe_bind.
  - eapply safe_mono; [|by eapply (uploadFile_safe w0)]. intros w1 d1 s1 o1 r Hle1 (-> & _ & Hr). by split.
  - eapply safe_mono; [|by eapply (downloadFile_safe w0)]. intros w1 d1 s1 o1 r Hle1 (_ & H1 & H2). by split.
Qed.

(** No two of the chunks that were uploaded collide. *)
Definition chunks_tell : Prop :=
  forall x y, is_chunk x -> is_chunk y -> sha256 x = sha256 y -> x = y.

Lemma same_digests_same content datas path :
  chunks_tell -> given path content -> same_digests content datas -> concat datas = content.
Proof.
  intros Htell Hg Hs. transitivity (concat (pieces (read_fuel content) content)); [|apply pieces_file].
  f_equal. assert (forall p, p ∈ pieces (read_fuel content) content -> is_chunk p) as Hp.
  { intros p Hp. by exists path, content. }
  revert Hp. unfold same_digests in Hs. induction Hs as [|p x ps xs [Hx Hc] _ IH]; intros Hp; [done|].
  f_equal; [apply Htell; [done| |done]; apply Hp; left|]. apply IH. intros q Hq. apply Hp. by right.
Qed.

Lemma stored_chunk w a h :
  world_ok w -> has_chunk w a h ->
  exists m x, w !! a = Some (Storage m) /\ StorageNode.storage_ m !! h = Some x /\ sha256 x = h /\ is_chunk x.
Proof.
  intros Hok (m & E & x & Hx). destruct (Hok _ _ E) as (_ & _ & Hs). destruct (Hs _ _ Hx) as (_ & ? & ?).
  by exists m, x.
Qed.
End Integrity.

(** ** From a fresh cluster *)

(** Nodes as their mains start them: with empty stores, nobody to skip to, and the
    last of a chain without a successor. *)
Definition fresh_node (a : address) (n : node) : Prop :=
  a.1 <> EmptyString /\ a.2 <> -1 /\
  match n with
  | Storage m => StorageNode.storage_ m = ∅
  | Metadata m => MetadataNode.metadataStore_ m = ∅ /\ MetadataNode.skipToPort_ m = -1 /\
      (MetadataNode.is_last m = true -> MetadataNode.has_next m = false)
  end.

Definition fresh (w : world) : Prop := forall a n, w !! a = Some n -> fresh_node a n.

Lemma fresh_ok {U : Uploads} w0 : fresh w0 -> world_ok (H := node_contract (U := U)) w0.
Proof.
  intros Hfresh a n E. destruct (Hfresh a n E) as (H1 & H2 & Hn). split_and!; [done|done|]. destruct n as [m|m].
  - intros h x. by rewrite Hn.
  - destruct Hn as (Hs & Hskip & Hlast). split_and!; [done|done|]. intros f r. by rewrite Hs.
Qed.

(** What a schedule starts. *)
Definition begins (chs : list choice) (cl : Client) (j : job) (d : fs) : Prop := Begin cl j d ∈ chs.

(** Every client of the schedule knows the nodes and has an honest job. *)
Definition proper (w : world) (chs : list choice) : Prop :=
  forall cl j d, begins chs cl j d -> wired w cl /\ honest_job j d.

Section Schedule.
Context (w0 : world) (chs : list choice) (Hfresh : fresh w0) (Hproper : proper w0 chs).

Lemma schedule_sound c :
  net_exec chs (start_net w0) = Some c ->
  net_ok (H := node_contract (U := uploads (begins chs))) w0 (finished (begins chs)) c.
Proof.
  intros He. eapply (net_sound storage_handler_ok metadata_handler_ok w0 (begins chs) _ health_check_ok).
  - intros *. apply finished_le.
  - intros a n _. apply honest_nil.
  - intros cl j d w s Hb Hle _. apply (job_safe (begins chs) (fun cl j d Hb => proj2 (Hproper cl j d Hb)) w0);
      [by apply (Hproper cl j d)|done|done].
  - done.
  - by apply fresh_ok.
  - by exists chs.
Qed.

(** What holds for a client that has ended. *)
Lemma schedule_finished c cl j d0 r d l :
  net_exec chs (start_net w0) = Some c -> Running cl j d0 (Ret r) d l ∈ roots c ->
  finished (begins chs) cl j d0 (nodes c) d r.
Proof.
  intros He Hin. destruct (schedule_sound c He) as [_ _ Hr].
  rewrite Forall_forall in Hr. by destruct (Hr _ Hin) as (s & o & Hs & _).
Qed.
End Schedule.

(** ** An example: two storage nodes, a chain of two, an upload and a download *)

Module Sample.
Definition client : Client := new_client ["10.0.0.1:80"; "10.0.0.2:80"] ["10.0.0.11:90"; "10.0.0.12:91"].
Definition head : MetadataNode.MetadataNode := MetadataNode.started 90 (MetadataNode.new_node "10.0.0.12" 91).
Definition tail : MetadataNode.MetadataNode := MetadataNode.started 91 (MetadataNode.new_node EmptyString (-1)).
Definition cluster : world :=
  {[("10.0.0.1", 80) := Storage (StorageNode.MkStorage ∅ true); ("10.0.0.2", 80) := Storage (StorageNode.MkStorage ∅ true);
    ("10.0.0.11", 90) := Metadata head; ("10.0.0.12", 91) := Metadata tail]}.
Definition content : bytes := bytes_of_string "some data".
Definition disk : fs := FS {["dir/f.txt" := content]} (fun _ => true).

(** The client, the handler it talks to, and the handler that one talks to. *)
Definition chs : list choice :=
  Begin client (Upload "dir/f.txt") disk ::
  runs_of [(3, 0, 0); (7, 0, 1); (2, 0, 0); (9, 0, 1); (4, 0, 0); (7, 0, 1); (2, 0, 0); (9, 0, 1);
           (5, 0, 0); (14, 0, 1); (11, 0, 2); (5, 0, 1); (2, 0, 0)]%nat ++
  Begin client (Download "f.txt" "g") disk ::
  runs_of [(2, 5, 0); (11, 5, 1); (4, 5, 0); (10, 5, 1); (1, 5, 0); (3, 5, 1); (3, 5, 0)]%nat.

Definition reached : net := default (start_net cluster) (net_exec chs (start_net cluster)).

Lemma executes : net_exec chs (start_net cluster) = Some reached.
Proof. apply default_executed. by vm_compute. Qed.

Lemma nodes_cluster a n :
  cluster !! a = Some n ->
  n = Storage (StorageNode.MkStorage ∅ true) /\ (a = ("10.0.0.1", 80) \/ a = ("10.0.0.2", 80)) \/
  n = Metadata head /\ a = ("10.0.0.11", 90) \/ n = Metadata tail /\ a = ("10.0.0.12", 91).
Proof.
  unfold cluster. rewrite !lookup_insert_Some, lookup_singleton_Some. naive_solver.
Qed.

Lemma cluster_fresh : fresh cluster.
Proof.
  intros a n H. destruct (nodes_cluster a n H) as [[-> [->| ->]]|[[-> ->]|[-> ->]]];
    split_and!; done.
Qed.

Lemma chs_begins cl j d :
  begins chs cl j d -> cl = client /\ d = disk /\ (j = Upload "dir/f.txt" \/ j = Download "f.txt" "g").
Proof.
  unfold begins. rewrite begun_in_elem.
  assert (begun_in chs = [(client, Upload "dir/f.txt", disk); (client, Download "f.txt" "g", disk)]) as ->
    by by vm_compute.
  rewrite !elem_of_cons, elem_of_nil. naive_solver.
Qed.

Lemma client_wired : wired cluster client.
Proof.
  assert (getAllNodes (dht_ client) = ["10.0.0.1:80"; "10.0.0.2:80"]) as Hs by by vm_compute. split.
  - unfold client, new_client. simpl. auto with dfs.
  - intros addr a n. rewrite Hs. intros Hin Ha Hn.
    assert (a = ("10.0.0.1", 80) \/ a = ("10.0.0.2", 80)) as Hcase.
    { rewrite !elem_of_cons, elem_of_nil in Hin. destruct Hin as [->|[->|[]]]; vm_compute in Ha; naive_solver. }
    destruct (nodes_cluster a n Hn) as [[-> _]|[[-> ->]|[-> ->]]]; [done|naive_solver..].
  - intros addr a n Hin Ha Hn.
    assert (a = ("10.0.0.11", 90) \/ a = ("10.0.0.12", 91)) as Hcase.
    { simpl in Hin. rewrite !elem_of_cons, elem_of_nil in Hin.
      destruct Hin as [->|[->|[]]]; vm_compute in Ha; naive_solver. }
    destruct (nodes_cluster a n Hn) as [[-> H]|[[-> ->]|[-> ->]]]; [naive_solver|by intros []..].
Qed.

Lemma chs_proper : proper cluster chs.
Proof.
  intros cl j d (-> & -> & Hj)%chs_begins. split; [exact client_wired|]. destruct Hj as [->| ->]; [|done].
  split; [apply (bool_decide_unpack (_ /\ _)); by vm_compute|].
  intros c Hc. assert (c = content) as -> by (vm_compute in Hc; by injection Hc).
  apply (bool_decide_unpack (_ < _)). by vm_compute.
Qed.

Lemma chs_tell : chunks_tell (begins chs).
Proof.
  assert (forall x, is_chunk (Uploads := uploads (begins chs)) x -> x = content) as H.
  { intros x (path & c & (cl & d & (-> & -> & Hj)%chs_begins & Hd) & Hx).
    destruct Hj as [[= ->]|?]; [|done].
    assert (c = content) as -> by (vm_compute in Hd; by injection Hd).
    assert (pieces (read_fuel content) content = [content]) as E by by vm_compute.
    rewrite E in Hx. by apply list_elem_of_singleton in Hx. }
  intros x y Hx%H Hy%H _. by rewrite Hx, Hy.
Qed.
End Sample.

(** ** Properties *)

(** C3. An upload that reported success is durable, whatever else happens: in every
    configuration that any schedule of clients, handlers, health checks, repairs and
    network failures reaches from a fresh cluster, each chunk of the file is stored
    under its hash on one of its replicas, and the record's name is known to every
    node of the chain from a metadata node of the client on, up to where the chain
    ends at that moment.  The clients' jobs are honest and no two uploaded chunks
    collide under SHA-256. *)
Theorem upload_is_durable w0 chs c cl path d0 d l :
  fresh w0 -> proper w0 chs -> chunks_tell (begins chs) ->
  net_exec chs (start_net w0) = Some c ->
  Running cl (Upload path) d0 (Ret (Uploaded (Some UploadComplete))) d l ∈ roots c ->
  exists content, files d0 !! path = Some content /\ content <> [] /\ d = d0 /\
    (forall x, x ∈ pieces (read_fuel content) content ->
       exists addr a m, addr ∈ replicas (dht_ cl) (sha256 x) /\ target addr = Some a /\
         nodes c !! a = Some (Storage m) /\ StorageNode.storage_ m !! sha256 x = Some x) /\
    (exists addr a, addr ∈ metadataNodes_ cl /\ target addr = Some a /\
       replicated (nodes c) (base_name path) a).
Proof.
  intros Hf Hp Htell He Hin.
  destruct (schedule_finished _ _ Hf Hp _ _ _ _ _ _ _ He Hin) as [-> Hleft].
  destruct (Hleft eq_refl) as (content & Hd & Hg & Hne & Hall & Hrec). exists content.
  split_and!; [done..| |done]. rewrite <- chunks_of_data. intros x (ch & -> & Hch)%list_elem_of_fmap.
  rewrite Forall_forall in Hall. destruct (Hall ch Hch) as (addr & Hin2 & a & Ha & Hs).
  rewrite <- (chunks_of_hash _ _ Hch).
  destruct (stored_chunk (begins chs) _ _ _ (ok_world _ _ _ (schedule_sound _ _ Hf Hp _ He)) Hs)
    as (m & y & Hm & Hy & Hsha & Hck).
  exists addr, a, m. split_and!; [done..|]. rewrite Hy. f_equal. apply Htell; [done| |].
  - exists path, content. split; [done|]. rewrite <- chunks_of_data. by apply list_elem_of_fmap_2.
  - by rewrite Hsha, (chunks_of_hash _ _ Hch).
Qed.

Lemma upload_is_durable_witness :
  exists content, files Sample.disk !! "dir/f.txt" = Some content /\ content <> [] /\
    (exists addr a, addr ∈ ["10.0.0.11:90"; "10.0.0.12:91"] /\ target addr = Some a /\
       replicated (nodes Sample.reached) "f.txt" a).
Proof.
  destruct (upload_is_durable Sample.cluster Sample.chs Sample.reached Sample.client "dir/f.txt"
              Sample.disk Sample.disk Hang) as (content & H1 & H2 & _ & _ & H3).
  - exact Sample.cluster_fresh.
  - exact Sample.chs_proper.
  - exact Sample.chs_tell.
  - exact Sample.executes.
  - apply list_elem_of_lookup. exists 0%nat. by vm_compute.
  - exists content. split; [exact H1|]. split; [exact H2|exact H3].
Defined.

(** C4. A download that reported success has written what somebody uploaded, whatever
    else happens: in every configuration that any schedule of clients, handlers,
    health checks, repairs and network failures reaches from a fresh cluster, the
    output file is, byte for byte, the content of one file that an upload was started
    for under the requested name, and no other file of the client has changed.  The
    clients' jobs are honest and no two uploaded chunks collide under SHA-256. *)
Theorem download_returns_upload w0 chs c cl name out d0 d l :
  fresh w0 -> proper w0 chs -> chunks_tell (begins chs) -> token name ->
  net_exec chs (start_net w0) = Some c ->
  Running cl (Download name out) d0 (Ret (Downloaded (Some Reconstructed))) d l ∈ roots c ->
  exists cl' path d1 content, Begin cl' (Upload path) d1 ∈ chs /\ base_name path = name /\
    files d1 !! path = Some content /\ d = FS (<[out := content]> (files d0)) (creatable d0).
Proof.
  intros Hf Hp Htell Htok He Hin.
  destruct (schedule_finished _ _ Hf Hp _ _ _ _ _ _ _ He Hin) as [_ Hleft].
  destruct (Hleft eq_refl Htok) as (path & content & datas & Hg & Hname & Hs & ->).
  rewrite (same_digests_same _ _ _ _ Htell Hg Hs). destruct Hg as (cl' & d1 & Hb & Hd).
  by exists cl', path, d1, content.
Qed.

Lemma download_returns_upload_witness :
  exists cl path d1 content, Begin cl (Upload path) d1 ∈ Sample.chs /\ base_name path = "f.txt" /\
    files d1 !! path = Some content /\
    FS {["dir/f.txt" := Sample.content; "g" := Sample.content]} (fun _ => true) =
      FS (<["g" := content]> (files Sample.disk)) (creatable Sample.disk).
Proof.
  apply (download_returns_upload Sample.cluster Sample.chs Sample.reached Sample.client "f.txt" "g" Sample.disk
           (FS {["dir/f.txt" := Sample.content; "g" := Sample.content]} (fun _ => true)) Hang).
  - exact Sample.cluster_fresh.
  - exact Sample.chs_proper.
  - exact Sample.chs_tell.
  - apply (bool_decide_unpack (_ /\ _)). by vm_compute.
  - exact Sample.executes.
  - apply list_elem_of_lookup. exists 5%nat. by vm_compute.
Defined.
