(* ===== verification/Reliable.v ===== *)
(** * What the nodes promise when no call fails

    A second instance of the interface of [Network.v], for schedules in which no call
    fails ([calm]).  Where [Sessions.v] says what an answer means if it is a success, the
    nodes here promise the success itself: every [STORE] is acknowledged, every [PUT] has
    reached the end of the chain when it is, a [GET] of a chunk or a record is answered
    with it.  In return only requests that can be served are honest: a [GET] asks for
    something the node has.

    The files that are uploaded, the shape of the chain and the kind of each address are
    parameters.  The second half are the client's programs: an upload of such a file ends
    with [UploadComplete], and after it a download of its name with the file. *)
From S2P Require Import Prelude IoStream Sha256 Chunks ConsistentHash Wire Proc Client Records Cluster Network Sessions Integrity.
From S2P Require StorageNode MetadataNode.

#[local] Open Scope Z_scope.
#[local] Existing Instance MetadataNode.Role_eq_dec.

(** The files, the successor of each node of the chain, and where metadata nodes are. *)
Class Setting := {
  given_file : string -> bytes -> Prop;
  successor : address -> option address;
  metadata_at : address -> bool
}.

Section Reliable.
Context {T : Setting}.

#[local] Instance file_uploads : Uploads := {
  is_chunk x := exists path content, given_file path content /\ x ∈ pieces (read_fuel content) content;
  is_record m := exists path content, given_file path content /\ m = record_of path content
}.

(** ** The contract *)

Definition sure_answers (w : world) (b : address) (s : session_state) (r : bytes) (s' : session_state) : Prop :=
  match s with
  | SAwait h => r = bytes_of_string "READY" /\ s' = SReady h
  | SGot h x => s' = SIdle /\ r = bytes_of_string "ACK" /\ has_chunk w b h
  | SGet h => r = bytes_of_string "FOUND" /\ s' = SFound h
  | SFound h => s' = SIdle /\ sha256 r = h /\ is_chunk r
  | MPut c => s' = MIdle /\ r = bytes_of_string "ACK" /\
      forall m, parse_put c = Some m -> replicated w (filename m) b
  | MGet name => s' = MIdle /\
      exists m, is_record m /\ filename m = name /\ r = bytes_of_string (found_message m)
  | MOther => s' = MIdle /\ r = bytes_of_string "PONG"
  | SOther | SIdle | SReady _ | MIdle => False
  end.

Definition storing (h : string) : bytes := bytes_of_string ("STORE " +:+ h).
Definition getting (name : string) : bytes := bytes_of_string ("GET " +:+ name).

(** One request per connection; a chunk follows its [STORE]. *)
Inductive sure_requests : node -> list bytes -> Prop :=
| sure_nothing n : sure_requests n []
| sure_store m h : token h -> sure_requests (Storage m) [storing h]
| sure_data m h x : token h -> sha256 x = h -> is_chunk x -> sure_requests (Storage m) [storing h; x]
| sure_fetch m h : token h -> is_Some (StorageNode.storage_ m !! h) -> sure_requests (Storage m) [getting h]
| sure_put m r : is_record r -> sure_requests (Metadata m) [bytes_of_string (put_command r)]
| sure_ask m r :
    is_record r -> MetadataNode.is_last m = true -> is_Some (MetadataNode.metadataStore_ m !! filename r) ->
    sure_requests (Metadata m) [getting (filename r)]
| sure_ping m : sure_requests (Metadata m) [bytes_of_string "PING"].

(** The place of a node in the chain. *)
Definition placed (a : address) (m : MetadataNode.MetadataNode) : Prop :=
  match successor a with
  | Some b => MetadataNode.is_last m = false /\ MetadataNode.has_next m = true /\
      endpoint (MetadataNode.nextNodeIp_ m) (MetadataNode.nextNodePort_ m) = Some b
  | None => MetadataNode.is_last m = true /\ MetadataNode.has_next m = false
  end.

Definition node_sure (a : address) (n : node) : Prop :=
  match n with
  | Storage m => metadata_at a = false /\ StorageNode.running_ m = true /\
      forall h x, StorageNode.storage_ m !! h = Some x -> sha256 x = h /\ is_chunk x
  | Metadata m => metadata_at a = true /\ MetadataNode.running_ m = true /\ placed a m /\
      forall f r, MetadataNode.metadataStore_ m !! f = Some r -> is_record r /\ filename r = f
  end.

(** The chain does not change. *)
Definition node_keeps (n n' : node) : Prop :=
  match n, n' with
  | Storage m, Storage m' => keys_kept (StorageNode.storage_ m) (StorageNode.storage_ m')
  | Metadata m, Metadata m' =>
      keys_kept (MetadataNode.metadataStore_ m) (MetadataNode.metadataStore_ m') /\
      MetadataNode.nextNodeIp_ m' = MetadataNode.nextNodeIp_ m /\
      MetadataNode.nextNodePort_ m' = MetadataNode.nextNodePort_ m /\
      MetadataNode.role_ m' = MetadataNode.role_ m
  | _, _ => False
  end.

#[export] Instance node_keeps_preorder : PreOrder node_keeps.
Proof.
  split.
  - intros [m|m]; simpl; [reflexivity|by split_and!].
  - intros [m1|m1] [m2|m2] [m3|m3]; simpl; try done; [by etransitivity|].
    intros (H1 & -> & -> & ->) (H2 & -> & -> & ->). split_and!; [by etransitivity|done..].
Qed.

Lemma keeps_grows n n' : node_keeps n n' -> node_grows n n'.
Proof.
  destruct n as [m|m], n' as [m'|m']; simpl; try done. intros (H & E1 & E2 & _). split; [done|].
  split; [left; by split|congruence|]. unfold MetadataNode.has_next. by rewrite E2.
Qed.

Lemma keeps_pointwise w w' : pointwise node_keeps w w' -> pointwise node_grows w w'.
Proof. intros H a. specialize (H a). destruct (w !! a), (w' !! a); simpl in *; try done. by apply keeps_grows. Qed.

#[local] Program Instance sure_contract : Contract := {|
  session := session_state;
  opening n := match n with Storage _ => SIdle | Metadata _ => MIdle end;
  on_request := request_state;
  may_answer := sure_answers;
  honest := sure_requests;
  node_ok := node_sure;
  node_le := node_keeps;
  reliable := true
|}.
Next Obligation. intros [m|m] [m'|m']; simpl; done. Qed.
Next Obligation. intros [m|m] [m'|m']; simpl; done. Qed.
Next Obligation.
  intros n n' ds Hle. destruct 1; destruct n' as [m'|m']; simpl in Hle; try done; try (by constructor).
  - apply sure_fetch; [done|]. by apply Hle.
  - destruct Hle as (Hk & _ & _ & Er). apply sure_ask; [done| |by apply Hk].
    unfold MetadataNode.is_last. by rewrite Er.
Qed.
Next Obligation.
  intros n ds ds' H. inversion H as [n' E|m h ? E|m h x ? ? ? E|m h ? ? E|m r ? E|m r ? ? ? E|m E];
    destruct ds as [|d1 [|d2 [|]]]; simplify_eq/=; try (by constructor); try done.
Qed.
Next Obligation.
  intros w w' b s r s' Hle%keeps_pointwise. destruct s; simpl; try done.
  - intros (? & ? & ?). split_and!; [done..|]. by eapply has_chunk_le.
  - intros (? & ? & Ha). split_and!; [done..|]. intros. eapply replicated_le; eauto.
Qed.

(** ** What the setting must satisfy *)

(** One-word names, files that can be numbered, one content per name, chunks that do not
    collide, and successors that are metadata nodes. *)
Record setting_ok : Prop := {
  files_fit path content : given_file path content -> token (base_name path) /\ numberable content /\ content <> [];
  files_agree path content path' content' : given_file path content -> given_file path' content' ->
    base_name path = base_name path' -> content = content';
  chunks_differ x y : is_chunk x -> is_chunk y -> sha256 x = sha256 y -> x = y;
  chain_fits a b : successor a = Some b -> metadata_at b = true
}.

Context (Hset : setting_ok).

Lemma chunk_fits x : is_chunk x -> x <> [] /\ zlen x <= INT_MAX.
Proof.
  intros (path & content & _ & Hx). apply list_elem_of_lookup in Hx as [i Hi].
  destruct (pieces_sizes _ _ _ _ Hi) as [[H1 H2] _]. split; [by intros ->|by etransitivity].
Qed.

Lemma record_fits m : is_record m ->
  token (filename m) /\ wf_meta m /\ chunkHashes m <> [] /\ parse_put (put_command m) = Some m /\
  parse_found (filename m) (found_message m) = m.
Proof.
  intros (path & content & Hg & ->). destruct (files_fit Hset _ _ Hg) as (Htok & Hnum & Hne).
  assert (wf_meta (record_of path content)) as Hwf by by apply record_of_wf.
  assert (chunkHashes (record_of path content) <> []) as Hh.
  { intros E%fmap_nil_inv. by apply chunks_of_nil in E. }
  split_and!; [done|done|done|by apply parse_put_command|by rewrite parse_found_any].
Qed.

(** ** Storage nodes *)

Abbreviation ssafe a := (safe (H := sure_contract) (storage_cell a) (Some a)).
Abbreviation msafe a := (safe (H := sure_contract) (metadata_cell a) (Some a)).

Lemma sure_storage_again a w (x : unit) m : w !! a = Some (Storage m) -> turn_done (H := sure_contract) a w x SIdle None true.
Proof. intros E _. split; [|done]. intros n En. rewrite E in En. by simplify_eq. Qed.

Lemma sure_metadata_again a w (x : unit) m : w !! a = Some (Metadata m) -> turn_done (H := sure_contract) a w x MIdle None true.
Proof. intros E _. split; [|done]. intros n En. rewrite E in En. by simplify_eq. Qed.

(** Without another request a node that waits for a chunk goes on waiting. *)
Lemma awaits w b h tr s :
  path (H := sure_contract) w b (SAwait h) tr s -> asked tr = [] ->
  s = SAwait h \/ s = SReady h.
Proof.
  destruct tr as [|[d|r] tr]; simpl; [by left|done|]. intros (s1 & [_ ->] & Hp) Ha. right.
  destruct tr as [|[d|r'] tr]; [done|done|]. by destruct Hp as (? & [] & _).
Qed.

Lemma storing_command h : token h -> storage_command (storing h) = SAwait h.
Proof. apply store_command. Qed.

Lemma getting_command h : token h -> storage_command (getting h) = SGet h.
Proof. apply get_command. Qed.

Lemma storage_requests m ds : sure_requests (Storage m) ds ->
  ds = [] \/ (exists h, token h /\ ds = [storing h]) \/
  (exists h x, token h /\ sha256 x = h /\ is_chunk x /\ ds = [storing h; x]) \/
  (exists h, token h /\ is_Some (StorageNode.storage_ m !! h) /\ ds = [getting h]).
Proof. inversion 1; eauto 10. Qed.

Lemma metadata_requests m ds : sure_requests (Metadata m) ds ->
  ds = [] \/ (exists r, is_record r /\ ds = [bytes_of_string (put_command r)]) \/
  (exists r, is_record r /\ MetadataNode.is_last m = true /\
     is_Some (MetadataNode.metadataStore_ m !! filename r) /\ ds = [getting (filename r)]) \/
  ds = [bytes_of_string "PING"].
Proof. inversion 1; eauto 10. Qed.

(** A request that finds the node idle is the first on its connection. *)
Lemma idle_request w b m tr d :
  path (H := sure_contract) w b SIdle tr SIdle -> sure_requests (Storage m) (asked tr ++ [d]) ->
  (exists h, token h /\ d = storing h) \/
  (exists h, token h /\ d = getting h /\ is_Some (StorageNode.storage_ m !! h)).
Proof.
  intros Hp Hh%storage_requests. destruct tr as [|[c|r] tr]; [| |by destruct Hp as (? & [] & _)].
  - destruct Hh as [?|[(h & ? & E)|[(h & x & _ & _ & _ & E)|(h & ? & ? & E)]]]; simplify_eq/=; eauto.
  - change (asked (Asked c :: tr)) with (c :: asked tr) in Hh. simpl in Hp, Hh.
    assert (asked tr = [] /\ exists h, token h /\ c = storing h) as (Ha & h & Htok & ->).
    { destruct Hh as [?|[(h & ? & E)|[(h & x & ? & _ & _ & E)|(h & ? & ? & E)]]];
        destruct (asked tr) as [|? [|]]; simplify_eq/=; eauto. }
    rewrite storing_command in Hp by done. by destruct (awaits _ _ _ _ _ Hp Ha).
Qed.

(** What comes to a node that waits for a chunk. *)
Lemma await_request w b m tr h x :
  path (H := sure_contract) w b SIdle tr (SReady h) -> sure_requests (Storage m) (asked tr ++ [x]) ->
  sha256 x = h /\ is_chunk x.
Proof.
  intros Hp Hh%storage_requests. destruct tr as [|[c|r] tr]; [done| |by destruct Hp as (? & [] & _)].
  change (asked (Asked c :: tr)) with (c :: asked tr) in Hh. simpl in Hp, Hh.
  destruct Hh as [?|[(h' & ? & E)|[(h' & x' & ? & ? & ? & E)|(h' & ? & ? & E)]]];
    destruct (asked tr) as [|? [|]] eqn:Ea; simplify_eq/=.
  rewrite storing_command in Hp by done. destruct (awaits _ _ _ _ _ Hp Ea); by simplify_eq.
Qed.

Lemma sure_storage_store a w m h :
  token h -> w !! a = Some (Storage m) ->
  ssafe a (turn_done a) w tt (SAwait h) None
    (StorageNode.handleStore (snd (extract_string (istringstream ("STORE " +:+ h))))).
Proof.
  intros Htok Hw. change ("STORE " +:+ h) with ("STORE" +:+ String " " h). unfold istringstream.
  rewrite read_word by done. unfold StorageNode.handleStore. cbn [snd]. rewrite read_last_word by done.
  cbn [with_lock acquire release modify mbind io_mbind io_bind mret io_ret server_sendMessage server_recvData server_sendData].
  exists (SReady h). split; [done|]. intros w1 Hle1 Hok1. split; [by intros ?|].
  intros x b n tr [= <-] Hn Hp Hh. destruct (world_le_lookup _ _ _ _ Hle1 Hw) as ([m1|m1] & E1 & Hg); [|done].
  rewrite Hn in E1. injection E1 as ->. destruct (await_request _ _ _ _ _ _ Hp Hh) as [Hsha Hx].
  rewrite bool_decide_eq_false_2 by by apply chunk_fits.
  cbn [with_lock acquire release modify mbind io_mbind io_bind mret io_ret server_sendMessage server_sendData].
  apply storage_writes. intros w2 m2 Hle2 Hok2 Hm2. split_and!.
  - intros k Hk. simpl. destruct (decide (h = k)) as [->|?]; [by rewrite lookup_insert_eq|by rewrite lookup_insert_ne].
  - destruct (Hok2 _ _ Hm2) as (H1 & H2 & H3). split_and!; [done|done|].
    intros k y. simpl. intros [[<- <-]|[_ ?]]%lookup_insert_Some; [done|by apply H3].
  - intros w3 Hle3 Hm3. exists SIdle. split; [|by eapply sure_storage_again]. split_and!; [done|done|].
    eexists. split; [exact Hm3|]. simpl. rewrite lookup_insert_eq. by eexists.
Qed.

Lemma sure_storage_get a w m h :
  token h -> is_Some (StorageNode.storage_ m !! h) -> w !! a = Some (Storage m) ->
  ssafe a (turn_done a) w tt (SGet h) None
    (StorageNode.handleGet (snd (extract_string (istringstream ("GET " +:+ h))))).
Proof.
  intros Htok Hs Hw. change ("GET " +:+ h) with ("GET" +:+ String " " h). unfold istringstream.
  rewrite read_word by done. unfold StorageNode.handleGet. cbn [snd]. rewrite read_last_word by done.
  cbn [with_lock reads acquire release mbind io_mbind io_bind mret io_ret server_sendMessage server_sendData].
  apply storage_reads. intros w1 m1 Hle1 Hok1 Hm1. cbn [safe].
  destruct (world_le_lookup _ _ _ _ Hle1 Hw) as (n & E & Hk). rewrite Hm1 in E. injection E as <-.
  destruct (Hk _ Hs) as [x Hx]. destruct (Hok1 _ _ Hm1) as (_ & _ & Hst). destruct (Hst _ _ Hx) as [Hsha Hchunk].
  rewrite Hx. cbn [default from_option id]. rewrite bool_decide_eq_false_2 by by apply chunk_fits.
  exists (SFound h). split; [done|]. exists SIdle. split; [done|]. by eapply sure_storage_again.
Qed.

Lemma sure_storage_handler a : storage_body_ok (H := sure_contract) a StorageNode.handleClient.
Proof.
  intros w m Hok Hw. unfold StorageNode.handleClient. apply safe_bind.
  eapply (safe_mono _ _ (turn_done a)).
  { intros w' x s o [] _ Hd; [exact Hd|by intros ?]. }
  unfold StorageNode.handleClient_turn. cbn [reads mbind io_mbind io_bind].
  apply storage_reads. intros w1 m1 Hle1 Hok1 Hm1. destruct (StorageNode.running_ m1); [|by intros ?].
  cbn [negb server_recvMessage mbind io_mbind io_bind with_lock acquire release mret io_ret]. intros w2 Hle2 Hok2. split; [by intros ?|].
  intros d b n tr [= <-] En Hp Hh.
  destruct (world_le_lookup _ _ _ _ Hle2 Hm1) as ([m2|m2] & Hm2 & Hg2); [|done].
  rewrite Hm2 in En. injection En as <-.
  change (on_request _ d) with (storage_command d).
  destruct (idle_request _ _ _ _ _ Hp Hh) as [(h & Htok & ->)|(h & Htok & -> & Hs)].
  - rewrite storing_command by done. unfold storing. rewrite string_bytes_id, bool_decide_eq_false_2 by done.
    pose proof (sure_storage_store a w2 m2 h Htok Hm2) as Hsafe.
    change ("STORE " +:+ h) with ("STORE" +:+ String " " h) in *. unfold istringstream in *.
    rewrite read_word in * by done. cbn [default from_option id]. by rewrite bool_decide_eq_true_2.
  - rewrite getting_command by done. unfold getting. rewrite string_bytes_id, bool_decide_eq_false_2 by done.
    pose proof (sure_storage_get a w2 m2 h Htok Hs Hm2) as Hsafe.
    change ("GET " +:+ h) with ("GET" +:+ String " " h) in *. unfold istringstream in *.
    rewrite read_word in * by done. cbn [default from_option id].
    by rewrite (bool_decide_eq_false_2 ("GET" = "STORE")), bool_decide_eq_true_2.
Qed.

(** ** Metadata nodes *)

Lemma sure_knows_one w b d r :
  knows (H := sure_contract) w b [d] [r] ->
  exists n s, w !! b = Some n /\ sure_answers w b (request_state (opening (Contract := sure_contract) n) d) r s.
Proof.
  intros (n & tr & s & E & Hp & [ds' Ha] & [rs' Hr]). exists n.
  destruct n as [m|m]; (destruct tr as [|[d'|r'] tr]; simpl in *; [done| |by destruct Hp as (? & [] & _)]);
    injection Ha as <- Ha; destruct tr as [|[d'|r'] tr]; simpl in *; try done;
    injection Hr as <- Hr; destruct Hp as (s1 & Hm & _); by exists s1.
Qed.

Lemma metadata_keeps w w' a m :
  world_le w w' -> w !! a = Some (Metadata m) -> exists m', w' !! a = Some (Metadata m') /\ node_keeps (Metadata m) (Metadata m').
Proof.
  intros Hle E. destruct (world_le_lookup _ _ _ _ Hle E) as ([m'|m'] & E' & Hg); [done|]. by exists m'.
Qed.

Lemma sure_known_le w w' a f : world_le w w' -> known_at w a f -> known_at w' a f.
Proof.
  intros Hle (m & E & Hf). destruct (metadata_keeps _ _ _ _ Hle E) as (m' & E' & Hk & _).
  exists m'. auto.
Qed.

Lemma sure_metadata w a n : world_ok w -> metadata_at a = true -> w !! a = Some n ->
  exists m, n = Metadata m /\ node_sure a (Metadata m).
Proof. intros Hok Ha Hn. specialize (Hok _ _ Hn). destruct n as [m|m]; [destruct Hok; congruence|by exists m]. Qed.

Lemma put_request r : is_record r -> metadata_command (bytes_of_string (put_command r)) = MPut (put_command r).
Proof.
  intros _. destruct (put_command_word r) as (_ & iss & Hc). unfold metadata_command.
  rewrite (command_words_put _ _ Hc), string_bytes_id. done.
Qed.

Lemma get_request name : token name -> metadata_command (getting name) = MGet name.
Proof.
  intros Htok. unfold metadata_command, command_words, getting. rewrite string_bytes_id.
  change ("GET " +:+ name) with ("GET" +:+ String " " name). unfold istringstream.
  rewrite read_word by done. cbn [default from_option id].
  rewrite (bool_decide_eq_false_2 ("GET" = "PUT")), bool_decide_eq_true_2 by done. by rewrite read_last_word.
Qed.

(** What the answers of a metadata node tell. *)
Lemma sure_put_known w b x r :
  world_ok w -> metadata_at b = true -> is_record r -> knows w b [bytes_of_string (put_command r)] [x] ->
  x = bytes_of_string "ACK" /\ replicated w (filename r) b.
Proof.
  intros Hok Hb Hr (n & s & E & Hans)%sure_knows_one. destruct (sure_metadata _ _ _ Hok Hb E) as (m & -> & _).
  change (request_state _ _) with (metadata_command (bytes_of_string (put_command r))) in Hans.
  rewrite put_request in Hans by done. destruct Hans as (_ & -> & Hrep). split; [done|]. apply Hrep.
  by destruct (record_fits _ Hr) as (_ & _ & _ & -> & _).
Qed.

Lemma sure_get_known w b x name :
  world_ok w -> metadata_at b = true -> token name -> knows w b [getting name] [x] ->
  exists m, is_record m /\ filename m = name /\ x = bytes_of_string (found_message m).
Proof.
  intros Hok Hb Ht (n & s & E & Hans)%sure_knows_one. destruct (sure_metadata _ _ _ Hok Hb E) as (m & -> & _).
  change (request_state _ _) with (metadata_command (getting name)) in Hans.
  rewrite get_request in Hans by done. apply Hans.
Qed.

Section Node.
Context (a : address).

Lemma sure_not_last w s :
  msafe a (fun w _ s' o b => s' = s /\ o = None /\ b = bool_decide (is_Some (successor a)) /\
    (b = false -> ended_at w a)) w tt s None MetadataNode.not_last.
Proof.
  unfold MetadataNode.not_last. cbn [reads mbind io_mbind io_bind].
  apply metadata_reads. intros w1 m1 Hle1 Hok1 Hm1. destruct (Hok1 _ _ Hm1) as (_ & _ & Hpl1 & _).
  assert (forall w m, world_ok w -> w !! a = Some (Metadata m) -> successor a = None -> ended_at w a) as Hend.
  { intros w' m Hok Hm Hs. exists m. split; [done|]. destruct (Hok _ _ Hm) as (_ & _ & Hpl & _).
    unfold placed in Hpl. rewrite Hs in Hpl. apply Hpl. }
  unfold placed, MetadataNode.is_last in Hpl1. destruct (successor a) as [b|] eqn:Hs; destruct Hpl1 as [Hl _].
  - apply bool_decide_eq_false in Hl. rewrite (bool_decide_eq_false_2 (MetadataNode.role_ m1 = _)) by auto.
    apply metadata_reads. intros w2 m2 Hle2 Hok2 Hm2.
    destruct (metadata_keeps _ _ _ _ Hle2 Hm1) as (m & E & _ & _ & _ & Er). rewrite Hm2 in E. injection E as <-.
    rewrite Er. cbn [safe mret io_ret]. rewrite !bool_decide_eq_true_2 by eauto. done.
  - apply bool_decide_eq_true in Hl.
    destruct (decide (MetadataNode.role_ m1 = MetadataNode.TAIL)) as [Ht|Ht].
    + rewrite (bool_decide_eq_true_2 (MetadataNode.role_ m1 = _)) by done.
      split_and!; [done..|]. intros _. by eapply Hend.
    + destruct Hl as [?|Hsi]; [done|]. rewrite (bool_decide_eq_false_2 (MetadataNode.role_ m1 = _)) by done.
      apply metadata_reads. intros w2 m2 Hle2 Hok2 Hm2.
      destruct (metadata_keeps _ _ _ _ Hle2 Hm1) as (m & E & _ & _ & _ & Er). rewrite Hm2 in E. injection E as <-.
      rewrite Er, Hsi.
      split_and!; [done..|]. intros _. by eapply Hend.
Qed.

(** The successor answers [ACK] when the record has reached the end of the chain. *)
Lemma sure_forward b r w s :
  successor a = Some b -> is_record r -> known_at w a (filename r) ->
  msafe a (fun w _ s' o ok => s' = s /\ o = None /\ ok = true /\ replicated w (filename r) a) w tt s None
    (MetadataNode.forwardPut (put_command r)).
Proof.
  intros Hsucc Hrec Hk. pose proof (chain_fits Hset _ _ Hsucc) as Hmeta.
  unfold MetadataNode.forwardPut. cbn [reads mbind io_mbind io_bind].
  apply metadata_reads. intros w1 m1 Hle1 Hok1 Hm1. apply metadata_reads. intros w2 m2 Hle2 Hok2 Hm2.
  assert (known_at w2 a (filename r)) as Hk2 by (do 2 (eapply sure_known_le; [done|]); done).
  assert (endpoint (MetadataNode.nextNodeIp_ m1) (MetadataNode.nextNodePort_ m2) = Some b) as Eb.
  { destruct (Hok1 _ _ Hm1) as (_ & _ & Hpl & _). unfold placed in Hpl. rewrite Hsucc in Hpl. destruct Hpl as (_ & _ & <-).
    destruct (metadata_keeps _ _ _ _ Hle2 Hm1) as (m & E & _ & _ & Ep & _). rewrite Hm2 in E. injection E as <-. by rewrite Ep. }
  cbn [client_connect client_sendMessage client_recvMessage client_closes mbind io_mbind io_bind negb].
  split; [|done]. rewrite Eb. intros w3 b' n Hle3 Hok3 [= <-] En. split; [apply sure_nothing|].
  cbn [negb safe mbind io_mbind io_bind]. split_and!; [|intros w4 x rs Hle4 Hok4 Hr Hkn|done].
  - intros n' En'. destruct (sure_metadata _ _ _ Hok3 Hmeta En') as (m & -> & _). by apply sure_put.
  - cbn [safe]. destruct Hr as [->|[? _]]; [|done]. apply sure_put_known in Hkn as [-> Hrep]; [|done..].
    split_and!; [done|done|by vm_compute|].
    assert (world_le w2 w4) as Hle by by etransitivity.
    destruct (sure_known_le _ _ _ _ Hle Hk2) as (m4 & Em4 & Hs4). eapply replicated_next; [done|done| |done].
    destruct (Hok4 _ _ Em4) as (_ & _ & Hpl & _). unfold placed in Hpl. rewrite Hsucc in Hpl. by destruct Hpl as (_ & _ & ->).
Qed.

Definition sure_idle {A : Type} (w : world) (_ : unit) (s : session_state) (o : opened) (_ : A) : Prop :=
  s = MIdle /\ o = None /\ exists m, w !! a = Some (Metadata m).

Lemma sure_handlePut r w m :
  is_record r -> w !! a = Some (Metadata m) ->
  msafe a sure_idle w tt (MPut (put_command r)) None (MetadataNode.handlePut (put_command r)).
Proof.
  intros Hrec Hm. destruct (record_fits _ Hrec) as (_ & _ & _ & Hparse & _).
  unfold MetadataNode.handlePut. rewrite Hparse.
  cbn [with_lock acquire release modify mbind io_mbind io_bind mret io_ret safe].
  apply metadata_writes. intros w1 x Hle1 Hok1 Hx. destruct (Hok1 _ _ Hx) as (H1 & H2 & H3 & H4). split_and!.
  { split_and!; [|done..]. intros k Hk. simpl. destruct (decide (filename r = k)) as [->|?];
      [by rewrite lookup_insert_eq|by rewrite lookup_insert_ne]. }
  { split_and!; [done..|]. simpl. intros f y [[<- <-]|[_ ?]]%lookup_insert_Some; [done|by apply H4]. }
  intros w2 Hle2 Hx2. cbn [safe].
  assert (known_at w2 a (filename r)) as Hk.
  { eexists. split; [done|]. simpl. by rewrite lookup_insert_eq. }
  assert (forall w3, world_le w2 w3 -> replicated w3 (filename r) a ->
    msafe a sure_idle w3 tt (MPut (put_command r)) None (server_sendMessage "ACK")) as Hack.
  { intros w3 Hle3 Hrep. exists MIdle. split.
    - split_and!; [done|done|]. intros y Hy. rewrite Hparse in Hy. by injection Hy as <-.
    - split_and!; [done|done|]. destruct (metadata_keeps _ _ _ _ Hle3 Hx2) as (y & ? & _). by exists y. }
  apply (safe_bind (S := MetadataNode.MetadataNode)). apply (safe_bind (S := MetadataNode.MetadataNode)).
  eapply safe_mono; [|by apply sure_not_last]. intros w3 [] s o b Hle3 (-> & -> & -> & Hend). cbv beta.
  destruct (successor a) as [b|] eqn:Hsucc; [rewrite bool_decide_eq_true_2 by by eexists|rewrite bool_decide_eq_false_2 by by intros []];
    cbn [reads mbind io_mbind io_bind mret io_ret safe].
  - apply metadata_reads. intros w4 y Hle4 Hok4 Hy. cbn [safe].
    destruct (Hok4 _ _ Hy) as (_ & _ & Hpl & _). unfold placed in Hpl. rewrite Hsucc in Hpl. destruct Hpl as (_ & Hport & _).
    unfold MetadataNode.has_next in Hport. rewrite Hport.
    eapply (safe_bind (S := MetadataNode.MetadataNode)). assert (world_le w2 w4) as Hle by by etransitivity.
    eapply safe_mono; [|by eapply sure_forward; [..|by eapply sure_known_le]].
    intros w5 [] s o ok Hle5 (-> & -> & -> & Hrep). apply Hack; [by etransitivity|done].
  - apply Hack; [done|]. apply ended_replicated; [by eapply sure_known_le|]. apply Hend.
    rewrite bool_decide_eq_false_2; [done|]. by intros [].
Qed.

Lemma sure_handleGet name w m :
  successor a = None -> token name -> is_Some (MetadataNode.metadataStore_ m !! name) -> w !! a = Some (Metadata m) ->
  msafe a sure_idle w tt (MGet name) None (MetadataNode.handleGet name).
Proof.
  intros Hs Htok Hin Hm. unfold MetadataNode.handleGet. apply (safe_bind (S := MetadataNode.MetadataNode)).
  eapply safe_mono; [|by apply sure_not_last]. intros w1 [] s o b Hle1 (-> & -> & -> & _). cbv beta.
  rewrite Hs, bool_decide_eq_false_2 by by intros [].
  cbn [reads acquire release mbind io_mbind io_bind mret io_ret safe].
  apply metadata_reads. intros w2 m2 Hle2 Hok2 Hm2. assert (world_le w w2) as Hle by by etransitivity.
  destruct (metadata_keeps _ _ _ _ Hle Hm) as (m' & E & Hk & _). rewrite Hm2 in E. injection E as <-.
  destruct (Hk _ Hin) as [r Hr]. destruct (Hok2 _ _ Hm2) as (_ & _ & _ & Hst). destruct (Hst _ _ Hr) as [Hrec Hname].
  rewrite Hr. cbn [release mbind io_mbind io_bind server_sendMessage safe server_sendData with_lock acquire mret io_ret]. exists MIdle. split.
  - split; [done|]. by exists r.
  - split_and!; [done|done|]. by exists m2.
Qed.

(** A request is the only one on its connection. *)
Lemma only_request w (m : MetadataNode.MetadataNode) tr d :
  path (H := sure_contract) w a MIdle tr MIdle -> sure_requests (Metadata m) (asked tr ++ [d]) -> sure_requests (Metadata m) [d].
Proof.
  intros Hp Hh. destruct tr as [|[c|r] tr]; [done| |by destruct Hp as (? & [] & _)].
  assert (asked tr ++ [d] <> []) as Hne by by destruct (asked tr).
  change (asked (Asked c :: tr)) with (c :: asked tr) in Hh. simpl in Hh.
  apply metadata_requests in Hh as [E|[(r & _ & E)|[(r & _ & _ & _ & E)|E]]]; try done; by injection E.
Qed.

Lemma sure_metadata_handler : metadata_body_ok (H := sure_contract) a MetadataNode.handleClient.
Proof.
  intros w m Hok Hw. unfold MetadataNode.handleClient. apply safe_bind.
  eapply (safe_mono _ _ (turn_done a)).
  { intros w' x s o [] _ Hd; [exact Hd|by intros ?]. }
  unfold MetadataNode.handleClient_turn. cbn [reads mbind io_mbind io_bind].
  apply metadata_reads. intros w1 m1 Hle1 Hok1 Hm1. destruct (MetadataNode.running_ m1); [|by intros ?].
  cbn [negb server_recvMessage mbind io_mbind io_bind with_lock acquire release mret io_ret]. intros w2 Hle2 Hok2. split; [by intros ?|].
  intros d b n tr [= <-] En Hp Hh.
  destruct (metadata_keeps _ _ _ _ Hle2 Hm1) as (m2 & Hm2 & _). rewrite Hm2 in En. injection En as <-.
  assert (forall (p : io MetadataNode.MetadataNode unit) (s : session_state),
    msafe a sure_idle w2 tt s None p -> msafe a (turn_done a) w2 tt s None (p;; mret true)) as Hagain.
  { intros p s Hp'. apply safe_bind. eapply safe_mono; [|exact Hp'].
    intros w3 [] s' o [] _ (-> & -> & x & Hx). by eapply sure_metadata_again. }
  change (on_request _ d) with (metadata_command d).
  destruct (metadata_requests _ _ (only_request _ _ _ _ Hp Hh)) as [?|[(r & Hr & [= ->])|[(r & Hr & Hlast & Hin & [= ->])|[= ->]]]]; [done|..].
  - rewrite put_request, string_bytes_id by done. destruct (put_command_word r) as (Hne & iss & E).
    rewrite E, bool_decide_eq_false_2 by done. cbn [default from_option id]. rewrite bool_decide_eq_true_2 by done.
    by eapply Hagain, sure_handlePut.
  - destruct (record_fits _ Hr) as (Htok & _). rewrite get_request by done. unfold getting. rewrite string_bytes_id.
    assert (successor a = None) as Hs.
    { destruct (Hok2 _ _ Hm2) as (_ & _ & Hpl & _). unfold placed in Hpl. destruct (successor a); [|done].
      destruct Hpl. congruence. }
    pose proof (sure_handleGet (filename r) w2 m2 Hs Htok Hin Hm2) as Hsafe.
    change ("GET " +:+ filename r) with ("GET" +:+ String " " (filename r)). unfold istringstream.
    rewrite read_word by done. cbn [default from_option id].
    rewrite bool_decide_eq_false_2, (bool_decide_eq_false_2 ("GET" = "PUT")), bool_decide_eq_true_2, read_last_word by done.
    by apply Hagain.
  - exists MIdle. split; [done|]. by eapply sure_metadata_again.
Qed.

(** The successor is alive, and so the chain is never repaired. *)
Lemma sure_health_check : metadata_body_ok (H := sure_contract) a MetadataNode.healthCheck.
Proof.
  intros w m Hok Hw. unfold MetadataNode.healthCheck. cbn [reads mbind io_mbind io_bind].
  apply metadata_reads. intros w1 m1 Hle1 Hok1 Hm1. destruct (MetadataNode.running_ m1); [|by intros ?]. cbn [negb].
  apply metadata_reads. intros w2 m2 Hle2 Hok2 Hm2. destruct (bool_decide (_ <> -1)) eqn:Hport; [|by eapply sure_metadata_again].
  apply bool_decide_eq_true in Hport. apply safe_bind. unfold MetadataNode.pingNext.
  cbn [reads mbind io_mbind io_bind client_connect].
  apply metadata_reads. intros w3 m3 Hle3 Hok3 Hm3. apply metadata_reads. intros w4 m4 Hle4 Hok4 Hm4.
  destruct (metadata_keeps _ _ _ _ Hle3 Hm2) as (x & E3 & _ & Ei3 & Ep3 & _). rewrite Hm3 in E3. injection E3 as <-.
  destruct (metadata_keeps _ _ _ _ Hle4 Hm3) as (x & E4 & _ & Ei4 & Ep4 & _). rewrite Hm4 in E4. injection E4 as <-.
  assert (forall b, endpoint (MetadataNode.nextNodeIp_ m3) (MetadataNode.nextNodePort_ m4) = Some b -> metadata_at b = true) as Hb'.
  { intros b0. destruct (Hok2 _ _ Hm2) as (_ & _ & Hpl & _). unfold placed, MetadataNode.has_next in Hpl.
    destruct (successor a) as [b|] eqn:Hs.
    - destruct Hpl as (_ & _ & Eb). rewrite Ei3, Ep4, Ep3, Eb. intros [= <-]. by apply (chain_fits Hset _ _ Hs).
    - destruct Hpl as [_ Hno%bool_decide_eq_false]. by destruct Hno. }
  split; [|done]. intros w5 b n Hle5 Hok5 Hb%Hb' En. split; [apply sure_nothing|].
  cbn [negb client_sendMessage client_recvMessage client_closes safe mbind io_mbind io_bind].
  split_and!; [|intros w6 x rs Hle6 Hok6 Hr Hkn|done].
  - intros n' En'. destruct (sure_metadata _ _ _ Hok5 Hb En') as (m5 & -> & _). apply sure_ping.
  - destruct Hr as [->|[? _]]; [|done]. apply sure_knows_one in Hkn as (n' & s' & En' & Hans).
    destruct (sure_metadata _ _ _ Hok6 Hb En') as (m6 & -> & _). destruct Hans as [_ ->].
    rewrite string_bytes_id. cbn [safe mret io_ret]. rewrite bool_decide_eq_true_2 by done.
    cbn [negb safe mbind io_mbind io_bind mret io_ret].
    assert (world_le w4 w6) as Hle by by etransitivity.
    destruct (metadata_keeps _ _ _ _ Hle Hm4) as (y & Hy & _). by eapply sure_metadata_again.
Qed.
End Node.

(** ** The client *)

Abbreviation rsafe := (safe (H := sure_contract) client_cell None).

(** The program returns, without an exception, and leaves files and connections alone. *)
Definition sure {A : Type} (d : fs) (R : world -> A -> Prop) : world -> fs -> session_state -> opened -> option A -> Prop :=
  exchanged d (fun w o => exists x, o = Some x /\ R w x).

Lemma sure_and_then {A B : Type} (d : fs) (R : world -> A -> Prop) (Q : world -> fs -> session_state -> opened -> option B -> Prop)
    (p : io fs (option A)) (f : A -> io fs (option B)) (w : world) (s : session_state) :
  rsafe (sure d R) w d s None p ->
  (forall w' s' x, world_le w w' -> R w' x -> rsafe Q w' d s' None (f x)) -> rsafe Q w d s None (and_then p f).
Proof.
  intros Hp Hf. unfold and_then. apply safe_bind. eapply safe_mono; [|exact Hp].
  intros w' d' s' o r Hle (-> & -> & x & -> & Hr). by apply Hf.
Qed.

Lemma sure_with_node {A : Type} (addr : string) (a : address) (failed : A) (p : io fs A) (d : fs) (w : world) (s : session_state) (R : world -> A -> Prop) :
  target addr = Some a ->
  (forall w' n, world_le w w' -> world_ok w' -> w' !! a = Some n -> rsafe (exchanged d R) w' d s (Some (a, [], [])) p) ->
  rsafe (sure d R) w d s None (with_node addr failed p).
Proof.
  intros (ip & port & He & ->)%(with_node_target _ _ failed p) Hp.
  cbn [client_connect mbind io_mbind io_bind]. split; [|done]. rewrite He.
  intros w' a' n Hle Hok [= <-] Hn. split; [apply sure_nothing|].
  change (io_bind ?f ?p) with (p ≫= f). apply safe_bind. eapply safe_mono; [|by eapply Hp].
  intros w2 d2 s2 o2 r Hle2 (-> & -> & Hr). split_and!; [done|done|]. by exists r.
Qed.

(** What the answers of a storage node tell. *)
Lemma sure_storage w a n : world_ok w -> metadata_at a = false -> w !! a = Some n -> exists m, n = Storage m.
Proof. intros Hok Ha Hn. specialize (Hok _ _ Hn). destruct n as [m|m]; [by exists m|destruct Hok; congruence]. Qed.

Lemma sure_ready_known w b x h :
  world_ok w -> metadata_at b = false -> token h -> knows w b [storing h] [x] -> x = bytes_of_string "READY".
Proof.
  intros Hok Hb Ht (n & s & E & Hans)%sure_knows_one. destruct (sure_storage _ _ _ Hok Hb E) as (m & ->).
  change (request_state _ _) with (storage_command (storing h)) in Hans.
  rewrite storing_command in Hans by done. apply Hans.
Qed.

Lemma sure_stored_known w b h x r :
  world_ok w -> metadata_at b = false -> token h -> knows w b [storing h; x] [bytes_of_string "READY"; r] ->
  r = bytes_of_string "ACK" /\ has_chunk w b h.
Proof.
  intros Hok Hb Ht (n & tr & s & E & Hp & [ds Ha] & [rs Hr]). destruct (sure_storage _ _ _ Hok Hb E) as (m & ->).
  destruct tr as [|[c|y] tr]; [done| |by destruct Hp as (? & [] & _)]. injection Ha as <- Ha. simpl in Hp, Hr.
  rewrite storing_command in Hp by done. destruct tr as [|[c|y] tr]; [done| |].
  - injection Ha as <- Ha. destruct tr as [|[c|y] tr]; [done|done|].
    destruct Hp as (s1 & (-> & -> & _) & Hp). by injection Hr.
  - destruct Hp as (s1 & [-> ->] & Hp). injection Hr as Hr. simpl in Hr.
    destruct tr as [|[c|y] tr]; [done| |by destruct Hp as (? & [] & _)]. injection Ha as <- Ha. simpl in Hp, Hr.
    destruct tr as [|[c|y] tr]; [done|done|]. destruct Hp as (s1 & (_ & -> & Hc) & Hp). by injection Hr as ->.
Qed.

Lemma sure_found_known w b h r :
  world_ok w -> metadata_at b = false -> token h -> knows w b [getting h] [r] -> r = bytes_of_string "FOUND".
Proof.
  intros Hok Hb Ht (n & s & E & Hans)%sure_knows_one. destruct (sure_storage _ _ _ Hok Hb E) as (m & ->).
  change (request_state _ _) with (storage_command (getting h)) in Hans.
  rewrite getting_command in Hans by done. apply Hans.
Qed.

Lemma sure_fetched_known w b h r x :
  world_ok w -> metadata_at b = false -> token h -> knows w b [getting h] [r; x] -> sha256 x = h /\ is_chunk x.
Proof.
  intros Hok Hb Ht (n & tr & s & E & Hp & [ds Ha] & [rs Hr]). destruct (sure_storage _ _ _ Hok Hb E) as (m & ->).
  destruct tr as [|[c|y] tr]; [done| |by destruct Hp as (? & [] & _)]. injection Ha as <- Ha. simpl in Hp, Hr.
  rewrite getting_command in Hp by done. destruct tr as [|[c|y] tr]; [done|done|].
  destruct Hp as (s1 & [-> ->] & Hp). injection Hr as <- Hr. destruct tr as [|[c|y] tr]; [done|done|].
  destruct Hp as (s1 & (_ & Hx) & _). by injection Hr as ->.
Qed.

(** ** The four exchanges *)

Lemma chunk_le w w' a h : world_le (H := sure_contract) w w' -> has_chunk w a h -> has_chunk w' a h.
Proof. intros Hle. by eapply has_chunk_le, keeps_pointwise. Qed.

Lemma uploadChunk_sure (chunk : Chunk) (addr : string) (a : address) (d : fs) (w : world) (s : session_state) :
  target addr = Some a -> metadata_at a = false -> c_hash chunk = sha256 (c_data chunk) -> is_chunk (c_data chunk) ->
  rsafe (sure d (fun w ok => ok = true /\ has_chunk w a (c_hash chunk))) w d s None (uploadChunkToNode chunk addr).
Proof.
  intros Ha Hkind Hh Hx. assert (token (c_hash chunk)) as Htok by (rewrite Hh; apply sha256_token).
  eapply sure_with_node; [exact Ha|]. intros w1 n Hle1 Hok1 Hn.
  cbn [client_sendMessage client_recvMessage client_sendData client_closes mbind io_mbind io_bind negb].
  split_and!; [|cbn [negb mbind io_mbind io_bind]|done].
  { intros n' Hn'. destruct (sure_storage _ _ _ Hok1 Hkind Hn') as (m & ->). by apply sure_store. }
  intros w2 r1 rs1 Hle2 Hok2 [->|[? _]]; [|done]. intros Hk1. pose proof (sure_ready_known _ _ _ _ Hok2 Hkind Htok Hk1) as ->.
  rewrite string_bytes_id, bool_decide_eq_false_2 by auto. split_and!; [|cbn [negb mbind io_mbind io_bind]|done].
  { intros n' Hn'. destruct (sure_storage _ _ _ Hok2 Hkind Hn') as (m & ->). by apply sure_data. }
  intros w3 r2 rs2 Hle3 Hok3 [->|[? _]]; [|done]. intros Hk2.
  destruct (sure_stored_known _ _ _ _ _ Hok3 Hkind Htok Hk2) as [-> Hc]. rewrite string_bytes_id. by split_and!.
Qed.

Lemma downloadChunk_sure (hash : string) (addr : string) (a : address) (d : fs) (w : world) (s : session_state) :
  target addr = Some a -> metadata_at a = false -> token hash -> has_chunk w a hash ->
  rsafe (sure d (fun w data => sha256 data = hash /\ is_chunk data)) w d s None (downloadChunkFromNode hash addr).
Proof.
  intros Ha Hkind Htok Hc. eapply sure_with_node; [exact Ha|]. intros w1 n Hle1 Hok1 Hn.
  cbn [client_sendMessage client_recvMessage client_recvData client_closes mbind io_mbind io_bind negb].
  split_and!; [|cbn [negb mbind io_mbind io_bind]|done].
  { intros n' Hn'. destruct (chunk_le _ _ _ _ Hle1 Hc) as (m & Em & Hs). rewrite Em in Hn'. injection Hn' as <-.
    by apply sure_fetch. }
  intros w2 r1 rs1 Hle2 Hok2 [->|[? _]]; [|done]. intros Hk1. pose proof (sure_found_known _ _ _ _ Hok2 Hkind Htok Hk1) as ->.
  rewrite string_bytes_id, bool_decide_eq_true_2 by done.
  intros w3 r2 rs2 Hle3 Hok3 [->|[? _]]; [|done]. intros Hk2. split; [done|split; [done|]].
  by apply (sure_fetched_known _ _ _ _ _ Hok3 Hkind Htok Hk2).
Qed.

Lemma putMetadata_sure (addr : string) (a : address) (path : string) (content : bytes) (d : fs) (w : world) (s : session_state) :
  target addr = Some a -> metadata_at a = true -> given_file path content -> files d !! path = Some content ->
  rsafe (sure d (fun w ok => ok = true /\ replicated w (base_name path) a)) w d s None
    (putMetadataToNode addr path (chunks_of content) (computeRootHash (c_hash <$> chunks_of content))).
Proof.
  intros Ha Hkind Hg Hd. assert (is_record (record_of path content)) as Hrec by by exists path, content.
  eapply sure_with_node; [exact Ha|]. intros w1 n Hle1 Hok1 Hn. cbn [reads mbind io_mbind io_bind].
  apply client_step. intros w2 Hle2 Hok2. rewrite put_metadata_record by done.
  cbn [client_sendMessage client_recvMessage client_closes mbind io_mbind io_bind negb].
  split_and!; [|cbn [negb mbind io_mbind io_bind]|done].
  { intros n' Hn'. destruct (sure_metadata _ _ _ Hok2 Hkind Hn') as (m & -> & _). by apply sure_put. }
  intros w3 r rs Hle3 Hok3 [->|[? _]]; [|done]. intros Hk.
  destruct (sure_put_known _ _ _ _ Hok3 Hkind Hrec Hk) as [-> Hr]. by split_and!.
Qed.

Lemma getMetadata_sure (addr : string) (a : address) (path : string) (content : bytes) (d : fs) (w : world) (s : session_state) :
  target addr = Some a -> metadata_at a = true -> successor a = None -> given_file path content ->
  (forall w', world_le w w' -> world_ok w' -> known_at w' a (base_name path)) ->
  rsafe (sure d (fun _ m => is_record m /\ filename m = base_name path /\ is_found m = true)) w d s None
    (getMetadataFromNode addr (base_name path)).
Proof.
  intros Ha Hkind Hs Hg Hk. destruct (files_fit Hset _ _ Hg) as (Htok & _).
  assert (is_record (record_of path content)) as Hrec by by exists path, content.
  eapply sure_with_node; [exact Ha|]. intros w1 n Hle1 Hok1 Hn.
  cbn [client_sendMessage client_recvMessage client_closes mbind io_mbind io_bind negb].
  split_and!; [|cbn [negb mbind io_mbind io_bind]|done].
  { intros n' Hn'. destruct (sure_metadata _ _ _ Hok1 Hkind Hn') as (m & -> & Hm).
    destruct (Hk _ Hle1 Hok1) as (m' & Em' & Hin). rewrite Em' in Hn'. injection Hn' as ->.
    apply (sure_ask m (record_of path content)); [done| |done].
    destruct Hm as (_ & _ & Hpl & _). unfold placed in Hpl. rewrite Hs in Hpl. by destruct Hpl. }
  intros w2 r rs Hle2 Hok2 [->|[? _]]; [|done]. intros Hkn.
  destruct (sure_get_known _ _ _ _ Hok2 Hkind Htok Hkn) as (m & Hm & Hname & ->). split; [done|split; [done|]].
  destruct (record_fits _ Hm) as (_ & _ & Hne & _ & Hfound). rewrite string_bytes_id, <- Hname, Hfound.
  split_and!; [done|done|]. unfold is_found. by rewrite (bool_decide_eq_false_2 _ Hne), orb_true_r.
Qed.

(** ** Its programs *)

(** The client is given storage nodes, the head of the chain first and its tail last. *)
Record knows_cluster (c : Client) (head tail : address) : Prop := {
  ring_fits : ring_wf (dht_ c);
  ring_some : dht_ c <> [];
  ring_storage addr : addr ∈ getAllNodes (dht_ c) -> exists a : address, target addr = Some a /\ metadata_at a = false;
  chain_first : exists addr rest, metadataNodes_ c = addr :: rest /\ target addr = Some head;
  chain_last : exists addr rest, rev (metadataNodes_ c) = addr :: rest /\ target addr = Some tail;
  chain_kinds : metadata_at head = true /\ metadata_at tail = true;
  chain_ends : successor tail = None;
  chain_links : rtc (fun a b => successor a = Some b) head tail
}.

Section Programs.
Context (c : Client) (head tail : address) (Hc : knows_cluster c head tail).

Lemma sure_replicas h : exists addr rest,
  getNodesForKey (dht_ c) h 2 = Some (addr :: rest) /\ replicas (dht_ c) h = addr :: rest /\
  forall x, x ∈ addr :: rest -> x ∈ getAllNodes (dht_ c).
Proof.
  unfold replicas, replicationFactor.
  destruct (getNodesForKey_wf (dht_ c) h 2 (ring_fits _ _ _ Hc)) as (nodes & -> & _ & _ & Hlen & Hin).
  pose proof (ring_some _ _ _ Hc) as Hne. destruct (dht_ c) as [|e r]; [done|]. destruct nodes as [|addr rest]; [done|].
  by exists addr, rest.
Qed.

Definition all_stored (w : world) (h : string) (nodes : list string) : Prop :=
  Forall (fun addr => stored_on addr h w) nodes.

Lemma all_stored_le w w' h nodes : world_le (H := sure_contract) w w' -> all_stored w h nodes -> all_stored w' h nodes.
Proof.
  intros Hle Hall. eapply Forall_impl; [exact Hall|]. intros addr (a & Ha & Hs). exists a. split; [done|]. by eapply chunk_le.
Qed.

Lemma upload_to_nodes_sure (chunk : Chunk) (nodes : list string) (k : Z) (d : fs) (w : world) (s : session_state) :
  (forall addr, addr ∈ nodes -> addr ∈ getAllNodes (dht_ c)) ->
  c_hash chunk = sha256 (c_data chunk) -> is_chunk (c_data chunk) ->
  rsafe (sure d (fun w n => n = k + zlen nodes /\ all_stored w (c_hash chunk) nodes)) w d s None
    (upload_to_nodes chunk nodes k).
Proof.
  intros Hin Hh Hx. revert k w s. induction nodes as [|addr nodes IH]; intros k w s.
  { split_and!; [done|done|]. exists k. split; [done|]. split; [unfold zlen; simpl; lia|constructor]. }
  destruct (ring_storage _ _ _ Hc addr) as (a & Ha & Hkind); [by apply Hin; left|].
  cbn [upload_to_nodes]. eapply sure_and_then; [by eapply uploadChunk_sure|]. intros w1 s1 ok Hle1 [-> Hs].
  eapply safe_mono; [|apply IH; intros; apply Hin; by right].
  intros w2 d2 s2 o2 r Hle2 (-> & -> & n & -> & -> & Hall). split_and!; [done|done|]. eexists. split; [done|]. split.
  - unfold zlen. simpl. lia.
  - constructor; [|done]. exists a. split; [done|]. by eapply chunk_le.
Qed.

Definition chunk_stored (w : world) (h : string) : Prop := all_stored w h (replicas (dht_ c) h).

Lemma upload_chunks_sure (chunks : list Chunk) (d : fs) (w : world) (s : session_state) :
  Forall (fun ch => c_hash ch = sha256 (c_data ch) /\ is_chunk (c_data ch)) chunks ->
  rsafe (sure d (fun w failed => failed = None /\ Forall (chunk_stored w) (c_hash <$> chunks))) w d s None
    (upload_chunks (dht_ c) chunks).
Proof.
  intros Hall. revert w s. induction Hall as [|ch chunks [Hh Hx] Hall IH]; intros w s.
  { split_and!; [done|done|]. exists None. split; [done|]. split; [done|constructor]. }
  cbn [upload_chunks]. destruct (sure_replicas (c_hash ch)) as (addr & rest & En & Er & Hin).
  unfold replicationFactor. rewrite En. eapply sure_and_then; [by apply upload_to_nodes_sure|].
  intros w1 s1 n Hle1 [-> Hs]. rewrite bool_decide_eq_false_2 by (unfold zlen; simpl; lia).
  eapply safe_mono; [|apply IH]. intros w2 d2 s2 o2 r Hle2 (-> & -> & x & -> & -> & Hrest).
  split_and!; [done|done|]. eexists. split; [done|]. split; [done|]. rewrite fmap_cons. constructor; [|done].
  unfold chunk_stored. rewrite Er. by eapply all_stored_le.
Qed.

(** What an upload leaves. *)
Definition uploaded (path : string) (content : bytes) (w : world) : Prop :=
  Forall (chunk_stored w) (c_hash <$> chunks_of content) /\ replicated w (base_name path) head.

Lemma uploaded_le path content w w' :
  world_le (H := sure_contract) w w' -> uploaded path content w -> uploaded path content w'.
Proof.
  intros Hle [Hall Hr]. split.
  - eapply Forall_impl; [exact Hall|]. intros h. by apply all_stored_le.
  - eapply replicated_le; [by apply keeps_pointwise|done].
Qed.

Lemma uploadFile_sure (path : string) (content : bytes) (d : fs) (w : world) (s : session_state) :
  given_file path content -> files d !! path = Some content ->
  rsafe (sure d (fun w r => r = UploadComplete /\ uploaded path content w)) w d s None (uploadFile c path).
Proof.
  intros Hg Hd. destruct (files_fit Hset _ _ Hg) as (_ & Hnum & Hne).
  unfold uploadFile. cbn [reads mbind io_mbind io_bind]. apply client_step. intros w1 Hle1 Hok1. cbn [mret io_ret io_bind].
  rewrite bool_decide_eq_false_2.
  2: { intros E. pose proof (upload_hashes _ _ _ Hd Hnum) as Hh. rewrite E in Hh. injection Hh as Hh. by apply (chunks_of_nil content). }
  rewrite (upload_hashes _ _ _ Hd Hnum). cbv zeta. eapply sure_and_then; [apply upload_chunks_sure|].
  { apply Forall_forall. intros ch Hch. split; [by eapply chunks_of_hash|]. exists path, content.
    split; [done|]. rewrite <- chunks_of_data. by apply list_elem_of_fmap_2. }
  intros w2 s2 failed Hle2 [-> Hall]. destruct (chain_first _ _ _ Hc) as (addr & rest & -> & Ha).
  cbn [upload_metadata]. destruct (chain_kinds _ _ _ Hc) as [Hkind _].
  eapply sure_and_then; [eapply sure_and_then; [by eapply putMetadata_sure|]|].
  - intros w3 s3 ok Hle3 Hok. instantiate (1 := fun w ok => ok = true /\ replicated w (base_name path) head).
    destruct Hok as [-> Hr]. split_and!; [done|done|]. by exists true.
  - intros w3 s3 ok Hle3 [-> Hr]. split_and!; [done|done|]. eexists. split; [done|]. split; [done|]. split; [|done].
    eapply Forall_impl; [exact Hall|]. intros h. by apply all_stored_le.
Qed.

(** The record has come to every node of the chain. *)
Lemma replicated_chain w f (a b : address) :
  world_ok w -> replicated w f a -> rtc (fun a b => successor a = Some b) a b -> known_at w b f.
Proof.
  intros Hok Hr Hl. induction Hl as [a|a a' b Hs _ IH]; [by inversion Hr; exists m|]. apply IH.
  inversion Hr as [a0 m Em Hin Hend|a0 m b' Em Hin Hn]; simplify_eq;
    destruct (Hok _ _ Em) as (_ & _ & Hpl & _); unfold placed in Hpl; rewrite Hs in Hpl; destruct Hpl as (_ & Hport & Hb).
  - exfalso. destruct Hend as [Hend|Hend]; [congruence|]. by rewrite Hend in Hb.
  - congruence.
Qed.

Lemma find_metadata_sure (path : string) (content : bytes) (d : fs) (w : world) (s : session_state) :
  given_file path content -> replicated w (base_name path) head ->
  rsafe (sure d (fun _ found => exists m, found = Some m /\ chunkHashes m = c_hash <$> chunks_of content)) w d s None
    (find_metadata (rev (metadataNodes_ c)) (base_name path)).
Proof.
  intros Hg Hr. destruct (chain_last _ _ _ Hc) as (addr & rest & -> & Ha).
  destruct (chain_kinds _ _ _ Hc) as [_ Hkind]. pose proof (chain_ends _ _ _ Hc) as Hend.
  cbn [find_metadata]. eapply sure_and_then; [eapply getMetadata_sure; [done..|]|].
  { intros w' Hle Hok. eapply replicated_chain; [done| |by eapply chain_links]. eapply replicated_le; [by apply keeps_pointwise|done]. }
  intros w1 s1 m Hle1 ((path' & content' & Hg' & ->) & Hname & ->). split_and!; [done|done|].
  eexists. split; [done|]. eexists. split; [done|]. by rewrite (files_agree Hset _ _ _ _ Hg' Hg Hname).
Qed.

Lemma download_chunks_sure (i : Z) (hashes : list string) (chunks : list Chunk) (d : fs) (w : world) (s : session_state) :
  Forall (fun h => token h /\ chunk_stored w h) hashes ->
  rsafe (sure d (fun _ r => exists datas, r = inr (chunks ++ received i hashes datas) /\
           Forall2 (fun h x => sha256 x = h /\ is_chunk x) hashes datas)) w d s None
    (download_chunks (dht_ c) i hashes chunks).
Proof.
  revert i chunks w s. induction hashes as [|h hashes IH]; intros i chunks w s Hall.
  { split_and!; [done|done|]. eexists. split; [done|]. exists []. by rewrite app_nil_r. }
  apply Forall_cons in Hall as [[Htok Hs] Hall]. unfold chunk_stored in Hs.
  destruct (sure_replicas h) as (addr & rest & En & Er & Hin). rewrite Er in Hs. apply Forall_cons in Hs as [(a & Ha & Hs) _].
  destruct (ring_storage _ _ _ Hc addr) as (a' & Ha' & Hkind); [by apply Hin; left|]. rewrite Ha in Ha'. injection Ha' as <-.
  cbn [download_chunks]. rewrite En. cbn [download_from_nodes].
  eapply (sure_and_then _ (fun _ x => sha256 x = h /\ is_chunk x)).
  - eapply sure_and_then; [by eapply downloadChunk_sure|]. intros w1 s1 x Hle1 Hx.
    rewrite bool_decide_eq_false_2 by apply chunk_fits, Hx. split; [done|split; [done|]]. by exists x.
  - intros w1 s1 x Hle1 Hx. rewrite bool_decide_eq_false_2 by apply chunk_fits, Hx.
    eapply safe_mono; [|apply IH].
    + intros w2 d2 s2 o2 r Hle2 (-> & -> & y & -> & datas & -> & Hd). split_and!; [done|done|]. eexists. split; [done|].
      exists (x :: datas). split; [by rewrite <- app_assoc|by constructor].
    + eapply Forall_impl; [exact Hall|]. intros k [Ht Hk]. split; [done|]. by eapply all_stored_le.
Qed.

Lemma fetched_content (path : string) (content : bytes) datas :
  given_file path content -> Forall2 (fun h x => sha256 x = h /\ is_chunk x) (c_hash <$> chunks_of content) datas ->
  datas = c_data <$> chunks_of content.
Proof.
  intros Hg. rewrite chunks_of_hashes, Forall2_fmap_l, chunks_of_data. intros Hall.
  assert (forall p, p ∈ pieces (read_fuel content) content -> is_chunk p) as Hp by by (intros p Hp; exists path, content).
  revert Hp. induction Hall as [|p x ps xs [Hx Hck] _ IH]; intros Hp; [done|].
  f_equal; [apply (chunks_differ Hset); [done| |done]; apply Hp; left|]. apply IH. intros q Hq. apply Hp. by right.
Qed.

Lemma downloadFile_sure (path out : string) (content : bytes) (d : fs) (w : world) (s : session_state) :
  given_file path content -> creatable d out = true -> uploaded path content w ->
  rsafe (fun _ d' _ o r => o = None /\ r = Some Reconstructed /\ d' = FS (<[out := content]> (files d)) (creatable d))
    w d s None (downloadFile c (base_name path) out).
Proof.
  intros Hg Hcr [Hall Hr]. destruct (files_fit Hset _ _ Hg) as (_ & Hnum & Hne).
  unfold downloadFile. eapply sure_and_then; [by eapply find_metadata_sure|].
  intros w1 s1 found Hle1 (m & -> & ->). eapply sure_and_then; [apply download_chunks_sure|].
  { rewrite Forall_fmap in Hall |- *. apply Forall_forall. intros ch Hch. rewrite Forall_forall in Hall. split.
    - simpl. rewrite (chunks_of_hash _ _ Hch). apply sha256_token.
    - eapply all_stored_le; [done|]. by apply Hall. }
  intros w2 s2 r Hle2 (datas & -> & Hd). apply (fetched_content _ _ _ Hg) in Hd as ->. cbn [app].
  unfold reconstruct. apply client_step. intros w3 Hle3 Hok3.
  destruct (received_chunks_of content Hnum) as (H1 & H2 & H3 & H4).
  rewrite (reconstruct_in_order _ _ _ H1 H2 H3), H4, chunks_of_data, pieces_file, Hcr, bool_decide_eq_true_2; [done|].
  intros E. rewrite chunks_of_data, E in H4. by apply Hne, pieces_nil.
Qed.
End Programs.
End Reliable.
