(* ===== verification/Divergence.v ===== *)
(** * Two writers of one name: the chain's replicas disagree

    A metadata node stores a record under its lock and forwards it after the lock is
    released ([handlePut]), on a connection of its own.  Two records for one name can
    therefore reach the next node in the other order.  This file executes such a run
    with the schedules of [Network.v]: both uploads report success, head and tail keep
    different records for good, and when the health check of the head later takes over
    from a tail it cannot reach, reads go back to the other file. *)
From S2P Require Import Prelude IoStream Sha256 Chunks ConsistentHash Wire Proc Client Records Cluster Network.
From S2P Require Import Sessions Integrity.
From S2P Require StorageNode MetadataNode.

#[local] Open Scope Z_scope.

(** ** The run *)

Module Run.
Import Sample.

(** Files of two clients, and the empty disk of a third. *)
Definition disk_a : fs := FS {["a/f" := bytes_of_string "aaa"]} (fun _ => true).
Definition disk_b : fs := FS {["b/f" := bytes_of_string "bb"]} (fun _ => true).
Definition disk_c : fs := FS ∅ (fun _ => true).

(** What ended how, and what a download wrote. *)
Definition result (r : root) : option (job * outcome * option bytes) :=
  match r with
  | Running _ j _ (Ret o) d _ => Some (j, o, match j with Download _ out => files d !! out | _ => None end)
  | _ => None
  end.

Definition results (c : net) : list (job * outcome * option bytes) := omap result (roots c).

Definition record_at (c : net) (a : address) : option FileMetadata :=
  match nodes c !! a with Some (Metadata s) => MetadataNode.metadataStore_ s !! "f" | _ => None end.

(** The first upload, up to the moment the head has stored its record; the second
    upload, all of it; and the rest of the first, whose record reaches the tail last. *)
Definition both_uploads : list choice :=
  Begin client (Upload "a/f") disk_a ::
  runs_of [(3, 0, 0); (7, 0, 1); (2, 0, 0); (9, 0, 1); (4, 0, 0); (7, 0, 1); (2, 0, 0); (9, 0, 1);
           (5, 0, 0); (7, 0, 1)]%nat ++
  Begin client (Upload "b/f") disk_b ::
  runs_of [(3, 3, 0); (7, 3, 1); (2, 3, 0); (9, 3, 1); (4, 3, 0); (7, 3, 1); (2, 3, 0); (9, 3, 1);
           (5, 3, 0); (14, 3, 1); (11, 3, 2); (5, 3, 1); (2, 3, 0)]%nat ++
  runs_of [(7, 0, 1); (11, 0, 2); (5, 0, 1); (2, 0, 0)]%nat.

Definition first_read : list choice :=
  Begin client (Download "f" "x") disk_c ::
  runs_of [(2, 10, 0); (11, 10, 1); (4, 10, 0); (10, 10, 1); (1, 10, 0); (3, 10, 1); (3, 10, 0)]%nat.

(** The health check of the head fails to reach the tail, and repairs; then the second
    reader does not reach it either. *)
Definition second_read : list choice :=
  Watch ("10.0.0.11", 90) :: runs_of [(4, 13, 0)]%nat ++ Step 13 0 true :: runs_of [(7, 13, 0)]%nat ++
  Begin client (Download "f" "x") disk_c :: Step 14 0 true ::
  runs_of [(2, 14, 0); (12, 14, 1); (4, 14, 0); (10, 14, 1); (1, 14, 0); (3, 14, 1); (3, 14, 0)]%nat.

(** What the run shows: how the uploads ended, the records of head and tail, and the
    two reads. *)
Definition shown : option (list (job * outcome * option bytes) * option FileMetadata * option FileMetadata *
    option (job * outcome * option bytes) * option (job * outcome * option bytes)) :=
  c1 ← net_exec both_uploads (start_net cluster);
  c2 ← net_exec first_read c1;
  c3 ← net_exec second_read c2;
  Some (results c1, record_at c1 ("10.0.0.11", 90), record_at c1 ("10.0.0.12", 91), results c2 !! 2%nat, results c3 !! 3%nat).

Lemma shown_eq :
  shown =
  Some ([(Upload "a/f", Uploaded (Some UploadComplete), None); (Upload "b/f", Uploaded (Some UploadComplete), None)],
        Some (record_of "b/f" (bytes_of_string "bb")), Some (record_of "a/f" (bytes_of_string "aaa")),
        Some (Download "f" "x", Downloaded (Some Reconstructed), Some (bytes_of_string "aaa")),
        Some (Download "f" "x", Downloaded (Some Reconstructed), Some (bytes_of_string "bb"))).
Proof. by vm_compute. Qed.
End Run.

(** ** Properties *)

(** C19. Metadata is not linearizable: there is a run of the fresh sample cluster in
    which two overlapping uploads of one name both report success and leave different
    records on the head and on the tail of the chain; the next download returns the
    file of one of them, and a later one, which finds only the head, the file of the
    other, with no upload in between. *)
Theorem replicas_diverge :
  exists s1 s2 s3 c1 c2 c3 ra rb,
    net_exec s1 (start_net Sample.cluster) = Some c1 /\ net_exec s2 c1 = Some c2 /\
    net_exec s3 c2 = Some c3 /\
    begun_in s1 = [(Sample.client, Upload "a/f", Run.disk_a); (Sample.client, Upload "b/f", Run.disk_b)] /\
    begun_in s2 = [(Sample.client, Download "f" "x", Run.disk_c)] /\
    begun_in s3 = [(Sample.client, Download "f" "x", Run.disk_c)] /\
    Run.results c1 = [(Upload "a/f", Uploaded (Some UploadComplete), None);
                      (Upload "b/f", Uploaded (Some UploadComplete), None)] /\
    Run.record_at c1 ("10.0.0.11", 90) = Some rb /\ Run.record_at c1 ("10.0.0.12", 91) = Some ra /\
    rootHash rb <> rootHash ra /\
    (exists k, Run.results c2 !! k =
       Some (Download "f" "x", Downloaded (Some Reconstructed), Some (bytes_of_string "aaa"))) /\
    (exists k, Run.results c3 !! k =
       Some (Download "f" "x", Downloaded (Some Reconstructed), Some (bytes_of_string "bb"))).
Proof.
  pose proof Run.shown_eq as H. unfold Run.shown in H.
  destruct (net_exec Run.both_uploads _) as [c1|] eqn:E1; [|discriminate H]. cbn [mbind option_bind] in H.
  destruct (net_exec Run.first_read c1) as [c2|] eqn:E2; [|discriminate H]. cbn [mbind option_bind] in H.
  destruct (net_exec Run.second_read c2) as [c3|] eqn:E3; [|discriminate H]. cbn [mbind option_bind] in H.
  apply Some_inj in H. rewrite !pair_equal_spec in H. destruct H as ((((H1 & H2) & H3) & H4) & H5).
  exists Run.both_uploads, Run.first_read, Run.second_read, c1, c2, c3,
    (record_of "a/f" (bytes_of_string "aaa")), (record_of "b/f" (bytes_of_string "bb")).
  split_and!;
    [exact E1|exact E2|exact E3|by vm_compute|by vm_compute|by vm_compute|exact H1|exact H2|exact H3| |exists 2%nat; exact H4|exists 3%nat; exact H5].
  apply (bool_decide_unpack (_ <> _)). by vm_compute.
Qed.
