(* ===== verification/Replication.v ===== *)
(** * Files in the cluster: [uploadFile] and [downloadFile] against running nodes

    What an upload leaves in the world of [Cluster.v] and what a download reads from
    it, also when nodes have gone in between.  The theorem: a file that was uploaded
    is the file that is downloaded, also after the loss of one storage node. *)
From S2P Require Import Prelude IoStream Sha256 Chunks ConsistentHash Wire Proc Client Records Cluster.
From S2P Require StorageNode MetadataNode.

#[local] Open Scope Z_scope.

(** ** Storage nodes *)

(** A running storage node listens at the address. *)
Definition serving (w : world) (addr : string) : Prop :=
  exists a s, target addr = Some a /\ w !! a = Some (Storage s) /\ StorageNode.running_ s = true.

(** ... and holds the chunk under its hash. *)
Definition has (w : world) (addr : string) (c : Chunk) : Prop :=
  exists a s, target addr = Some a /\ w !! a = Some (Storage s) /\
    StorageNode.running_ s = true /\ StorageNode.storage_ s !! c_hash c = Some (c_data c).

(** What an upload does to a node: a storage node keeps the chunks of [cs] it has,
    a metadata node is not touched. *)
Definition node_grown (cs : list Chunk) (x y : node) : Prop :=
  match x, y with
  | Storage s, Storage s' =>
      StorageNode.running_ s' = StorageNode.running_ s /\
      forall c, c ∈ cs -> StorageNode.storage_ s !! c_hash c = Some (c_data c) ->
        StorageNode.storage_ s' !! c_hash c = Some (c_data c)
  | Metadata s, Metadata s' => s = s'
  | _, _ => False
  end.

Definition grown (cs : list Chunk) (w w' : world) : Prop :=
  forall a, option_relation (node_grown cs) (fun _ => False) (fun _ => False) (w !! a) (w' !! a).

#[export] Instance node_grown_preorder cs : PreOrder (node_grown cs).
Proof.
  split.
  - by intros [s|s]; simpl.
  - intros [x|x] [y|y] [z|z]; simpl; try done; [|congruence].
    intros [H1 H2] [H3 H4]. split; [congruence|auto].
Qed.

#[export] Instance grown_preorder cs : PreOrder (grown cs).
Proof.
  split.
  - intros w a. destruct (w !! a); simpl; [reflexivity|done].
  - intros w1 w2 w3 H12 H23 a. specialize (H12 a). specialize (H23 a).
    destruct (w1 !! a), (w2 !! a), (w3 !! a); simpl in *; try done. by etransitivity.
Qed.

Lemma grown_storage cs w w' a s :
  grown cs w w' -> w !! a = Some (Storage s) ->
  exists s', w' !! a = Some (Storage s') /\ node_grown cs (Storage s) (Storage s').
Proof.
  intros Hg Hw. specialize (Hg a). rewrite Hw in Hg.
  destruct (w' !! a) as [[s'|s']|]; try done. by exists s'.
Qed.

Lemma grown_metadata cs w w' a s :
  grown cs w w' -> w !! a = Some (Metadata s) -> w' !! a = Some (Metadata s).
Proof.
  intros Hg Hw. specialize (Hg a). rewrite Hw in Hg.
  destruct (w' !! a) as [[s'|s']|]; try done. simpl in Hg. by subst.
Qed.

Lemma grown_serving cs w w' addr : grown cs w w' -> serving w addr -> serving w' addr.
Proof.
  intros Hg (a & s & Ha & Hw & Hr). destruct (grown_storage _ _ _ _ _ Hg Hw) as (s' & Hw' & Hr' & _).
  exists a, s'. split_and!; [done..|]. by rewrite Hr'.
Qed.

Lemma grown_has cs w w' addr c : grown cs w w' -> c ∈ cs -> has w addr c -> has w' addr c.
Proof.
  intros Hg Hc (a & s & Ha & Hw & Hr & Hs).
  destruct (grown_storage _ _ _ _ _ Hg Hw) as (s' & Hw' & Hr' & Hk).
  exists a, s'. split_and!; [done..|by rewrite Hr'|by apply Hk].
Qed.

Lemma grown_chain cs w w' l : grown cs w w' -> chain w l -> chain w' l.
Proof.
  intros Hg. induction 1 as [a s H1 H2 H3|a b l s H1 H2 H3 H4 H5 H6 H7 IH].
  - by eapply chain_last; [eapply grown_metadata|..].
  - by eapply chain_next; [eapply grown_metadata|..].
Qed.

Lemma grown_dial cs w w' a : grown cs w w' -> dial a w = None -> dial a w' = None.
Proof.
  intros Hg. specialize (Hg a). unfold dial. destruct (w !! a) as [[s|s]|], (w' !! a) as [[s'|s']|]; try done.
  - destruct Hg as [-> _]. by destruct (StorageNode.running_ s).
  - by simpl in Hg; subst.
Qed.

(** ** Nodes that are gone *)

(** The nodes at the addresses are gone. *)
Definition lose (lost : list address) (w : world) : world := filter (fun x => x.1 ∉ lost) w.

(** What is left when the nodes at the addresses cannot be reached any more. *)
Record without (lost : list address) (w v : world) : Prop := {
  left_others : forall a, a ∉ lost -> v !! a = w !! a;
  left_lost : forall a, a ∈ lost -> dial a v = None
}.

Lemma lose_lookup lost w a : a ∉ lost -> lose lost w !! a = w !! a.
Proof.
  intros Ha. unfold lose. destruct (w !! a) as [x|] eqn:E.
  - by apply map_lookup_filter_Some_2.
  - apply map_lookup_filter_None_2. by left.
Qed.

Lemma lose_gone lost w a : a ∈ lost -> dial a (lose lost w) = None.
Proof.
  intros Ha. unfold dial, lose. rewrite map_lookup_filter_None_2; [done|]. right.
  intros x _ H. by apply H.
Qed.

Lemma lose_without lost w : without lost w (lose lost w).
Proof. split; intros a; [apply lose_lookup|apply lose_gone]. Qed.

Lemma without_nil w : without [] w w.
Proof. split; [done|]. by intros a ?%not_elem_of_nil. Qed.

Definition lost_node (lost : list address) (addr : string) : Prop :=
  exists a, target addr = Some a /\ a ∈ lost.

Definition gone (lost : list address) (w : world) : Prop := forall a, a ∈ lost -> dial a w = None.

Lemma gone_nil w : gone [] w.
Proof. by intros a ?%not_elem_of_nil. Qed.

(** Every node of [nodes] has the chunk, those that are gone apart. *)
Definition reaches (lost : list address) (w : world) (c : Chunk) (nodes : list string) : Prop :=
  Forall (fun addr => lost_node lost addr \/ has w addr c) nodes.

#[export] Instance lost_node_dec lost addr : Decision (lost_node lost addr).
Proof.
  unfold lost_node. destruct (target addr) as [a|] eqn:E.
  - destruct (decide (a ∈ lost)); [left; by exists a|right; naive_solver].
  - right. naive_solver.
Defined.

Lemma reaches_without lost w v c nodes :
  without lost w v -> Forall (fun addr => has w addr c) nodes -> reaches lost v c nodes.
Proof.
  intros Hv H. eapply Forall_impl; [exact H|]. intros addr (a & s & Ha & Hw & Hr & Hs).
  destruct (decide (a ∈ lost)) as [Hl|Hl]; [left; by exists a|right]. exists a, s.
  split_and!; [done|by rewrite (left_others _ _ _ Hv)|done|done].
Qed.

(** At most one node of the ring is gone: one of two replicas is left. *)
Definition one_lost (r : ring) (lost : list address) : Prop :=
  forall x y, x ∈ getAllNodes r -> y ∈ getAllNodes r -> lost_node lost x -> lost_node lost y -> x = y.

Lemma one_lost_nil r : one_lost r [].
Proof. intros x y _ _ (a & _ & []%not_elem_of_nil). Qed.

Lemma replica_left r key lost :
  ring_wf r -> (2 <= length r)%nat -> one_lost r lost ->
  exists nodes, getNodesForKey r key 2 = Some nodes /\ Exists (fun addr => ~ lost_node lost addr) nodes.
Proof.
  intros Hr Hlen Hone. destruct (getNodesForKey_wf r key 2 Hr) as (nodes & E & _ & Hnd & Hl & Hin).
  exists nodes. split; [done|]. rewrite Nat.min_l in Hl by done.
  destruct nodes as [|x [|y [|]]]; try done. rewrite !Exists_cons.
  destruct (lost_node_dec lost x) as [Hx|Hx]; [|by left]. destruct (lost_node_dec lost y) as [Hy|Hy]; [|by right; left].
  exfalso. apply NoDup_cons in Hnd as [Hxy _]. apply Hxy.
  assert (x = y) as ->; [|by left].
  apply Hone; [apply Hin; by left|apply Hin; right; by left|done|done].
Qed.

(** What is left of the ring: its nodes serve, those that are gone apart, and every key
    has a replica among the others. *)
Record storage_left (r : ring) (lost : list address) (w : world) : Prop := {
  stand_ring : ring_wf r;
  stand_serving : forall addr, addr ∈ getAllNodes r -> lost_node lost addr \/ serving w addr;
  stand_gone : gone lost w;
  stand_replica : forall key, Exists (fun addr => ~ lost_node lost addr) (replicas r key)
}.

Lemma storage_left_all r w :
  ring_wf r -> r <> [] -> (forall addr, addr ∈ getAllNodes r -> serving w addr) -> storage_left r [] w.
Proof.
  intros Hr Hne Hs. split; [done|auto|apply gone_nil|]. intros key.
  destruct (getNodesForKey_wf r key 2 Hr) as (nodes & E & _ & _ & Hlen & _).
  unfold replicas, replicationFactor. rewrite E. simpl.
  destruct nodes as [|x nodes]; [by destruct r|]. left. intros (a & _ & []%not_elem_of_nil).
Qed.

Lemma storage_left_one r lost w :
  ring_wf r -> (2 <= length r)%nat -> one_lost r lost -> gone lost w ->
  (forall addr, addr ∈ getAllNodes r -> lost_node lost addr \/ serving w addr) -> storage_left r lost w.
Proof.
  intros Hr Hlen Hone Hg Hs. split; [done..|]. intros key.
  destruct (replica_left r key lost Hr Hlen Hone) as (nodes & E & Hex).
  unfold replicas, replicationFactor. by rewrite E.
Qed.

(** ** Storing the chunks *)

(** Equal hashes mean equal data: no collision among the chunks. *)
Definition hashes_tell (cs : list Chunk) : Prop :=
  forall c c', c ∈ cs -> c' ∈ cs -> c_hash c = c_hash c' -> c_data c = c_data c'.

Definition sendable (c : Chunk) : Prop := token (c_hash c) /\ c_data c <> [].

Section Upload.
Context (cs : list Chunk) (Htell : hashes_tell cs) (Hsend : Forall sendable cs).

Lemma store_grown w a s c :
  c ∈ cs -> w !! a = Some (Storage s) ->
  grown cs w (<[a := Storage (StorageNode.set_storage (<[c_hash c := c_data c]>) s)]> w).
Proof.
  intros Hc Hw b. destruct (decide (b = a)) as [->|Hne].
  - rewrite lookup_insert_eq, Hw. simpl. split; [done|]. intros c' Hc' Hs.
    destruct (decide (c_hash c = c_hash c')) as [E|E].
    + rewrite <- E, lookup_insert_eq. f_equal. by apply Htell.
    + by rewrite lookup_insert_ne.
  - rewrite lookup_insert_ne by done. destruct (w !! b); simpl; [reflexivity|done].
Qed.

(** Nodes that are gone are passed over; one that is left is enough. *)
Lemma runs_upload_to_nodes n c nodes lost k d w :
  c ∈ cs -> Forall (fun addr => lost_node lost addr \/ serving w addr) nodes -> gone lost w ->
  exists k' w', runs (S n) (upload_to_nodes c nodes k) d w (Some k') w' /\
    grown cs w w' /\ reaches lost w' c nodes /\ k <= k' /\
    (Exists (fun addr => ~ lost_node lost addr) nodes -> k < k').
Proof.
  intros Hc. destruct (proj1 (Forall_forall _ _) Hsend c Hc) as [Ht Hd].
  revert k w. induction nodes as [|addr nodes IH]; intros k w Hs Hg.
  { exists k, w. split_and!; [done|reflexivity|constructor|done|by intros []%Exists_nil]. }
  apply Forall_cons in Hs as [Ha Hs]. cbn [upload_to_nodes].
  assert (lost_node lost addr \/ (~ lost_node lost addr /\ serving w addr)) as [Hl|[Hl Hsv]].
  { destruct (lost_node_dec lost addr); [by left|right]. by destruct Ha. }
  - destruct (IH k w Hs Hg) as (k' & w' & H & Hgr & Hall & Hk & Hex). exists k', w'. split_and!; [|done| |done|].
    + destruct Hl as (a & Haddr & Hin).
      eapply (runs_and_then _ _ _ _ _ false w); [eapply with_node_refused; [done|by apply Hg]|exact H].
    + constructor; [by left|done].
    + intros [?|?]%Exists_cons; [done|auto].
  - destruct Hsv as (a & s & Haddr & Hw & Hr).
    set (w1 := <[a := Storage (StorageNode.set_storage (<[c_hash c := c_data c]>) s)]> w).
    assert (grown cs w w1) as Hg1 by by apply store_grown.
    destruct (IH (k + 1) w1) as (k' & w2 & H2 & Hg2 & Hall & Hk & Hex).
    { eapply Forall_impl; [exact Hs|]. intros x [?|?]; [by left|right; by eapply grown_serving]. }
    { intros x Hx. eapply grown_dial; [done|by apply Hg]. }
    exists k', w2. split_and!; [|by etransitivity| |lia|lia].
    + eapply runs_and_then; [by apply runs_uploadChunk|exact H2].
    + constructor; [right|done]. apply (grown_has cs w1); [done..|].
      exists a, (StorageNode.set_storage (<[c_hash c := c_data c]>) s).
      split_and!; [done|by apply lookup_insert_eq|done|by apply lookup_insert_eq].
Qed.

Lemma reaches_grown lost w w' c nodes :
  grown cs w w' -> c ∈ cs -> reaches lost w c nodes -> reaches lost w' c nodes.
Proof.
  intros Hg Hc H. eapply Forall_impl; [exact H|]. intros x [?|?]; [by left|right; by eapply grown_has].
Qed.

Lemma storage_left_grown r lost w w' : grown cs w w' -> storage_left r lost w -> storage_left r lost w'.
Proof.
  intros Hg [H1 H2 H3 H4]. split; [done| | |done].
  - intros addr [?|?]%H2; [by left|right; by eapply grown_serving].
  - intros a Ha. eapply grown_dial; [done|by apply H3].
Qed.

Lemma runs_upload_chunks n r l lost d w :
  storage_left r lost w -> (forall c, c ∈ l -> c ∈ cs) ->
  exists w', runs (S n) (upload_chunks r l) d w (Some None) w' /\ grown cs w w' /\
    forall c, c ∈ l -> reaches lost w' c (replicas r (c_hash c)).
Proof.
  revert w. induction l as [|c l IH]; intros w Hleft Hl.
  { exists w. split_and!; [done|reflexivity|]. by intros c ?%not_elem_of_nil. }
  destruct (getNodesForKey_wf r (c_hash c) replicationFactor (stand_ring _ _ _ Hleft)) as (nodes & E & _ & _ & _ & Hin).
  pose proof (stand_replica _ _ _ Hleft (c_hash c)) as Hex. unfold replicas in Hex. rewrite E in Hex. simpl in Hex.
  destruct (runs_upload_to_nodes n c nodes lost 0 d w) as (k & w1 & H1 & Hg1 & Hall & _ & Hk).
  { apply Hl. by left. } { apply Forall_forall. intros x Hx. by apply Hleft, Hin. } { apply Hleft. }
  destruct (IH w1) as (w2 & H2 & Hg2 & Hrest).
  { by eapply storage_left_grown. } { intros c' ?. apply Hl. by right. }
  exists w2. split_and!; [|by etransitivity|].
  - simpl. rewrite E. eapply runs_and_then; [exact H1|]. cbv beta.
    specialize (Hk Hex). rewrite bool_decide_eq_false_2; [done|lia].
  - intros c' [->|Hc']%elem_of_cons; [|by apply Hrest]. unfold replicas. rewrite E.
    apply (reaches_grown lost w1); [done| |done]. apply Hl. by left.
Qed.
End Upload.

(** ** The whole upload *)

(** Everything is up: the nodes of the ring serve and the metadata nodes, in the
    order of the client's list, are a chain. *)
Record cluster_up (c : Client) (w : world) (ms : list address) : Prop := {
  up_ring : ring_wf (dht_ c);
  up_storage : forall addr, addr ∈ getAllNodes (dht_ c) -> serving w addr;
  up_addresses : mapM target (metadataNodes_ c) = Some ms;
  up_chain : chain w ms
}.

(** Every replica of every chunk has it, and every node of the chain the record. *)
Record kept (c : Client) (ms : list address) (path : string) (content : bytes) (w : world) : Prop := {
  kept_chunks : forall chunk, chunk ∈ chunks_of content ->
    Forall (fun addr => has w addr chunk) (replicas (dht_ c) (c_hash chunk));
  kept_record : forall a, a ∈ ms -> exists s, w !! a = Some (Metadata s) /\
    MetadataNode.metadataStore_ s !! base_name path = Some (record_of path content);
  kept_chain : chain w ms
}.

Lemma chunks_of_sendable content : Forall sendable (chunks_of content).
Proof.
  apply Forall_forall. intros c Hc. split; [|by destruct (chunks_of_sizes _ _ Hc)].
  rewrite (chunks_of_hash _ _ Hc). apply sha256_token.
Qed.

Lemma put_storage m l w w' a s :
  put_everywhere m l w w' -> w !! a = Some (Storage s) -> w' !! a = Some (Storage s).
Proof. intros Hp Hw. rewrite (Hp a), Hw. by destruct (decide _). Qed.

Lemma put_has m l w w' addr c : put_everywhere m l w w' -> has w addr c -> has w' addr c.
Proof.
  intros Hp (a & s & Ha & Hw & Hr & Hs). exists a, s. split_and!; [done| |done..].
  by eapply put_storage.
Qed.

Lemma put_serving m l w w' addr : put_everywhere m l w w' -> serving w addr -> serving w' addr.
Proof.
  intros Hp (a & s & Ha & Hw & Hr). exists a, s. split_and!; [done| |done]. by eapply put_storage.
Qed.

Lemma put_chain m l w w' l' : put_everywhere m l w w' -> chain w l' -> chain w' l'.
Proof.
  intros Hp. assert (forall a s, w !! a = Some (Metadata s) ->
    w' !! a = Some (Metadata s) \/ w' !! a = Some (Metadata (stored m s))) as Hw.
  { intros a s Ha. rewrite (Hp a), Ha. destruct (decide _); auto. }
  induction 1 as [a s H1 H2 H3|a b l0 s H1 H2 H3 H4 H5 H6 H7 IH].
  - destruct (Hw a s H1); by eapply chain_last.
  - destruct (Hw a s H1); by eapply chain_next.
Qed.

(** ** What an upload leaves *)

(** What the upload of a file does to a world whose uploads have chunks in [cs]: the
    storage nodes keep what they have of [cs], the replicas get the chunks, and then
    the record reaches the nodes of the chain. *)
Definition uploaded (cs : list Chunk) (c : Client) (lost ms : list address) (path : string) (content : bytes)
    (w w' : world) : Prop :=
  exists w1, grown cs w w1 /\ put_everywhere (record_of path content) ms w1 w' /\
    forall chunk, chunk ∈ chunks_of content -> reaches lost w1 chunk (replicas (dht_ c) (c_hash chunk)).

Lemma put_dial m l w w' a : put_everywhere m l w w' -> dial a w = None -> dial a w' = None.
Proof.
  intros Hp. unfold dial. rewrite (Hp a). destruct (decide (a ∈ l)); [|done].
  by destruct (w !! a) as [[s|s]|].
Qed.

(** Metadata nodes that cannot be reached are passed over. *)
Lemma runs_upload_skips n path chunks root d w r w' addrs gone nodes :
  mapM target addrs = Some gone -> Forall (fun a => dial a w = None) gone ->
  runs n (upload_metadata nodes path chunks root) d w r w' ->
  runs n (upload_metadata (addrs ++ nodes) path chunks root) d w r w'.
Proof.
  intros Hg%mapM_Some Hd H. revert Hd. induction Hg as [|addr a addrs gone Ha Hg IH]; intros Hd; [done|].
  apply Forall_cons in Hd as [Hd Hds]. cbn [upload_metadata app].
  eapply (runs_and_then _ _ _ _ _ false w); [by eapply with_node_refused|by apply IH].
Qed.

Lemma runs_uploads cs n c lost pre ms rest path content d w :
  files d !! path = Some content -> content <> [] -> numberable content ->
  token (base_name path) -> hashes_tell cs -> Forall sendable cs -> chunks_of content ⊆ cs ->
  storage_left (dht_ c) lost w -> mapM target (metadataNodes_ c) = Some (pre ++ ms ++ rest) -> Forall (fun a => dial a w = None) pre ->
  chain w ms -> (length ms <= S n)%nat ->
  exists w', runs (S n) (uploadFile c path) d w (Some UploadComplete) w' /\
    uploaded cs c lost ms path content w w'.
Proof.
  intros Hd Hne Hnum Htok Htell Hsend Hsub Hleft Hms Hpre Hch Hlen.
  destruct (runs_upload_chunks _ Htell Hsend n (dht_ c) (chunks_of content) lost d w Hleft ltac:(done))
    as (w1 & H1 & Hg & Hall).
  destruct ms as [|a l]; [inversion Hch|]. apply mapM_Some in Hms.
  apply Forall2_app_inv_r in Hms as (l1 & l2 & Hl1 & Hms & El).
  inversion Hms as [|addr ? nodes ? Ha Hrest]; subst.
  pose proof (grown_chain _ _ _ _ Hg Hch) as Hch1.
  pose proof (put_metadata_record d path content Hd) as Hm.
  destruct (runs_putMetadata n addr a l path (chunks_of content)
              (computeRootHash (c_hash <$> chunks_of content)) d w1) as (w2 & H2 & Hp).
  { rewrite Hm. by apply record_of_wf. }
  { rewrite Hm. simpl. intros E%fmap_nil_inv. by apply chunks_of_nil in E. }
  { done. } { done. } { simpl in Hlen. lia. }
  rewrite Hm in Hp. exists w2. split; [|by exists w1].
  unfold uploadFile, runs. cbn [reads mbind io_mbind io_bind talk].
  rewrite bool_decide_eq_false_2 by (by eapply split_not_empty).
  rewrite (upload_hashes _ _ _ Hd Hnum).
  eapply runs_and_then; [exact H1|]. cbv beta iota.
  eapply (runs_and_then _ _ _ _ _ true w2); [|done]. rewrite El.
  eapply runs_upload_skips; [by apply mapM_Some| |].
  { eapply Forall_impl; [exact Hpre|]. intros x. by eapply grown_dial. }
  cbn [upload_metadata]. by eapply runs_and_then.
Qed.

Section Uploaded.
Context (cs : list Chunk) (c : Client) (lost ms : list address) (path : string) (content : bytes).
Context (w w' : world) (Hup : uploaded cs c lost ms path content w w').

Lemma uploaded_serving addr : serving w addr -> serving w' addr.
Proof. destruct Hup as (w1 & Hg & Hp & _). intros Hs. by eapply put_serving, grown_serving. Qed.

Lemma uploaded_chain l : chain w l -> chain w' l.
Proof. destruct Hup as (w1 & Hg & Hp & _). intros Hc. by eapply put_chain, grown_chain. Qed.

Lemma uploaded_has addr chunk : chunk ∈ cs -> has w addr chunk -> has w' addr chunk.
Proof. destruct Hup as (w1 & Hg & Hp & _). intros Hc Hh. by eapply put_has, grown_has. Qed.

Lemma uploaded_chunks chunk :
  chunk ∈ chunks_of content -> reaches lost w' chunk (replicas (dht_ c) (c_hash chunk)).
Proof.
  destruct Hup as (w1 & Hg & Hp & Hall). intros Hc. eapply Forall_impl; [by apply Hall|].
  intros x [?|?]; [by left|right; by eapply put_has].
Qed.

Lemma uploaded_reaches lost' chunk nodes : chunk ∈ cs -> reaches lost' w chunk nodes -> reaches lost' w' chunk nodes.
Proof.
  intros Hc H. eapply Forall_impl; [exact H|]. intros x [?|?]; [by left|right; by apply uploaded_has].
Qed.

Lemma uploaded_metadata a s :
  w !! a = Some (Metadata s) ->
  w' !! a = Some (Metadata (if decide (a ∈ ms) then stored (record_of path content) s else s)).
Proof.
  destruct Hup as (w1 & Hg & Hp & _). intros Hw. rewrite (Hp a), (grown_metadata _ _ _ _ _ Hg Hw).
  by destruct (decide (a ∈ ms)).
Qed.

Lemma uploaded_dial a : dial a w = None -> dial a w' = None.
Proof. destruct Hup as (w1 & Hg & Hp & _). intros Hd. by eapply put_dial, grown_dial. Qed.

Lemma uploaded_storage r : storage_left r lost w -> storage_left r lost w'.
Proof.
  intros [H1 H2 H3 H4]. split; [done| | |done].
  - intros addr [?|?]%H2; [by left|right; by apply uploaded_serving].
  - intros a Ha. by apply uploaded_dial, H3.
Qed.
End Uploaded.

Lemma reaches_all w c nodes : reaches [] w c nodes -> Forall (fun addr => has w addr c) nodes.
Proof. intros H. eapply Forall_impl; [exact H|]. by intros x [(a & _ & []%not_elem_of_nil)|]. Qed.

Lemma runs_uploadFile n c ms path content d w :
  files d !! path = Some content -> content <> [] -> numberable content ->
  token (base_name path) -> hashes_tell (chunks_of content) ->
  dht_ c <> [] -> cluster_up c w ms -> (length ms <= S n)%nat ->
  exists w', runs (S n) (uploadFile c path) d w (Some UploadComplete) w' /\ kept c ms path content w' /\
    cluster_up c w' ms.
Proof.
  intros Hd Hne Hnum Htok Htell Hring Hup Hlen. pose proof Hup as [Hr Hs Hms Hch].
  rewrite <- (app_nil_r ms) in Hms.
  destruct (runs_uploads (chunks_of content) n c [] [] ms [] path content d w) as (w' & H1 & H2);
    [done..|apply chunks_of_sendable|done|by apply storage_left_all|done|constructor|done|done|].
  exists w'. split_and!; [done| |].
  - split; [| |by eapply uploaded_chain].
    + intros chunk Hc. by eapply reaches_all, uploaded_chunks.
    + intros a Ha. destruct (chain_member _ _ _ Hch Ha) as [s Ha'].
      pose proof (uploaded_metadata _ _ _ _ _ _ _ _ H2 _ _ Ha') as Hs'. rewrite decide_True in Hs' by done.
      eexists. split; [exact Hs'|]. apply lookup_insert_eq.
  - split; [done| |by rewrite app_nil_r in Hms|by eapply uploaded_chain].
    intros addr Haddr. by eapply uploaded_serving, Hs.
Qed.

(** ** The whole download *)

(** A replica that is gone is skipped; the first one that is there has the data. *)
Lemma runs_download_from_nodes n c nodes lost d v :
  gone lost v -> sendable c -> reaches lost v c nodes ->
  Exists (fun addr => ~ lost_node lost addr) nodes ->
  runs (S n) (download_from_nodes (c_hash c) nodes) d v (Some (c_data c)) v.
Proof.
  intros Hv [Ht Hne]. induction 1 as [|addr nodes Haddr Hall IH]; intros Hex; [by apply Exists_nil in Hex|].
  cbn [download_from_nodes]. destruct (lost_node_dec lost addr) as [Hl|Hl].
  - destruct Hl as (a & Ha & Hin). eapply (runs_and_then _ _ _ _ _ [] v).
    { eapply with_node_refused; [done|by apply Hv]. }
    cbv beta. rewrite bool_decide_eq_true_2 by done. apply IH.
    apply Exists_cons in Hex as [Hex|Hex]; [|done]. destruct Hex. by exists a.
  - destruct Haddr as [?|(a & s & Ha & Hw & Hr & Hs)]; [done|]. eapply (runs_and_then _ _ _ _ _ (c_data c) v).
    { pose proof (runs_downloadChunk n (c_hash c) addr a d _ s Ha Hw Hr Ht) as H. rewrite Hs in H. exact H. }
    cbv beta. by rewrite bool_decide_eq_false_2.
Qed.

Lemma runs_download_chunks n r lost d v i cs acc :
  gone lost v -> ring_wf r -> (forall key, Exists (fun addr => ~ lost_node lost addr) (replicas r key)) ->
  Forall sendable cs -> (forall c, c ∈ cs -> reaches lost v c (replicas r (c_hash c))) ->
  runs (S n) (download_chunks r i (c_hash <$> cs) acc) d v
    (Some (inr (acc ++ received i (c_hash <$> cs) (c_data <$> cs)))) v.
Proof.
  intros Hv Hr Hex Hsend. revert i acc. induction Hsend as [|c cs Hc Hcs IH]; intros i acc Hall.
  { simpl. by rewrite app_nil_r. }
  destruct (getNodesForKey_wf r (c_hash c) 2 Hr) as (nodes & E & _).
  pose proof (Hall c ltac:(by left)) as Hnodes. pose proof (Hex (c_hash c)) as Hex1.
  unfold replicas, replicationFactor in Hnodes, Hex1.
  rewrite E in Hnodes, Hex1. cbn [default from_option id] in Hnodes, Hex1.
  rewrite !fmap_cons. cbn [download_chunks received]. rewrite E.
  eapply runs_and_then; [by eapply runs_download_from_nodes|]. cbv beta.
  rewrite bool_decide_eq_false_2 by (by destruct Hc).
  epose proof (IH (i + 1) (acc ++ [_]) _) as H. rewrite <- app_assoc in H. exact H.
  Unshelve. intros c' ?. apply Hall. by right.
Qed.

(** The last node of a chain answers. *)
Lemma chain_end w l : chain w l ->
  exists a s, last l = Some a /\ w !! a = Some (Metadata s) /\ MetadataNode.running_ s = true /\
    MetadataNode.is_last s = true.
Proof.
  induction 1 as [a s H1 H2 H3|a b l s H1 H2 H3 H4 H5 H6 H7 (a' & s' & IH & ?)].
  - by exists a, s.
  - exists a', s'. by rewrite last_cons_cons.
Qed.

(** What becomes of the output file. *)
Definition written (d : fs) (out : string) (content : bytes) : download_result * fs :=
  if creatable d out then (Reconstructed, FS (<[out := content]> (files d)) (creatable d))
  else (ReconstructionFailed, d).

Lemma runs_reconstruct n cs out d w content :
  Forall chunk_wf cs -> c_index <$> cs = seqZ 0 (zlen cs) -> zlen cs <= INT_MAX -> cs <> [] ->
  concat (c_data <$> cs) = content ->
  ran n (reconstruct cs out) d w (Some (written d out content).1) (written d out content).2 w.
Proof.
  intros Hwf Hi Hmax Hne Hc. unfold ran, reconstruct, written. cbn [talk].
  rewrite reconstruct_in_order, bool_decide_eq_true_2 by done. cbn [andb]. rewrite Hc.
  by destruct (creatable d out).
Qed.

(** A metadata node of the client's list that does not have the record: it is gone,
    it is not the end of its chain, or it does not know the name. *)
Definition no_record (v : world) (name : string) (addr : string) : Prop :=
  exists a, target addr = Some a /\
    (dial a v = None \/
     exists s, v !! a = Some (Metadata s) /\ MetadataNode.running_ s = true /\
       (MetadataNode.is_last s = false \/ MetadataNode.metadataStore_ s !! name = None)).

Lemma runs_no_record n v name addr d :
  no_record v name addr -> token name ->
  exists m, runs (S n) (getMetadataFromNode addr name) d v (Some m) v /\ is_found m = false.
Proof.
  intros (a & Ha & [Hd|(s & Hw & Hr & Hs)]) Ht.
  - exists no_metadata. split; [by eapply with_node_refused|done].
  - eexists. split; [by eapply runs_getMetadata|]. unfold MetadataNode.get_answer.
    destruct (MetadataNode.is_last s); [|done]. by destruct Hs as [?| ->].
Qed.

Lemma runs_find_skips n v name d l l' r :
  Forall (no_record v name) l -> token name ->
  runs (S n) (find_metadata l' name) d v r v -> runs (S n) (find_metadata (l ++ l') name) d v r v.
Proof.
  intros Hl Ht H. induction Hl as [|addr l Ha Hl IH]; [done|].
  destruct (runs_no_record n v name addr d Ha Ht) as (m & Hm & Hf).
  cbn [find_metadata app]. eapply runs_and_then; [exact Hm|]. cbv beta. by rewrite Hf.
Qed.

(** The download finds the record at one node of the list, when those after it do
    not have it. *)
Lemma ran_download_from n c pre addr rest t s path out content lost d v :
  gone lost v -> ring_wf (dht_ c) -> (forall key, Exists (fun addr => ~ lost_node lost addr) (replicas (dht_ c) key)) ->
  content <> [] -> numberable content -> token (base_name path) ->
  metadataNodes_ c = pre ++ addr :: rest -> target addr = Some t ->
  v !! t = Some (Metadata s) -> MetadataNode.running_ s = true -> MetadataNode.is_last s = true ->
  MetadataNode.metadataStore_ s !! base_name path = Some (record_of path content) ->
  Forall (no_record v (base_name path)) rest ->
  (forall chunk, chunk ∈ chunks_of content -> reaches lost v chunk (replicas (dht_ c) (c_hash chunk))) ->
  ran (S n) (downloadFile c (base_name path) out) d v
    (Some (written d out content).1) (written d out content).2 v.
Proof.
  intros Hv Hr Hex Hne Hnum Htok El Ha Hw Hrun Hend Hs Hrest Hch.
  assert (is_found (record_of path content) = true) as Hf.
  { unfold is_found. rewrite (bool_decide_eq_false_2 (filename _ = _)); [done|]. by destruct Htok. }
  assert (chunks_of content <> []) as Hcs by by apply chunks_of_nil.
  unfold ran, downloadFile, and_then. rewrite talk_bind, El, rev_app_distr. simpl rev. rewrite <- app_assoc.
  rewrite (runs_find_skips n v _ d (rev rest) _ (Some (Some (record_of path content)))); [|by apply Forall_rev|done|].
  - rewrite talk_bind. cbn [record_of chunkHashes].
    rewrite (runs_download_chunks n _ lost d v 0 (chunks_of content) [] Hv Hr Hex
               (chunks_of_sendable content) Hch). cbn [app].
    destruct (received_chunks_of content Hnum) as (H1 & H2 & H3 & H4).
    apply (runs_reconstruct (S n) _ _ _ _ content H1 H2 H3).
    + intros E. rewrite E in H4. by destruct (chunks_of content).
    + by rewrite H4, chunks_of_data, pieces_file.
  - cbn [find_metadata app].
    eapply (runs_and_then _ _ _ _ _ (record_of path content) v); [|cbv beta; by rewrite Hf].
    pose proof (runs_getMetadata n addr t (base_name path) d _ s Ha Hw Hrun Htok) as H.
    unfold MetadataNode.get_answer in H. rewrite Hend, Hs in H.
    assert (chunkHashes (record_of path content) <> []) as Hh.
    { simpl. by intros E%fmap_nil_inv. }
    pose proof (parse_found_message _ (record_of_wf path content Htok Hnum) Hh) as Hpf.
    change (filename (record_of path content)) with (base_name path) in Hpf.
    by rewrite Hpf in H.
Qed.

Lemma addresses_last nodes ms rest t :
  mapM target nodes = Some (ms ++ rest) -> last ms = Some t ->
  exists pre addr post, nodes = pre ++ addr :: post /\ target addr = Some t /\ mapM target post = Some rest.
Proof.
  intros Hms [ms' ->]%last_Some. rewrite <- app_assoc in Hms. apply mapM_Some in Hms.
  apply Forall2_app_inv_r in Hms as (pre & l & _ & Hl & ->).
  inversion Hl as [|addr ? post ? Ha Hpost]; subst. exists pre, addr, post.
  split_and!; [done|done|by apply mapM_Some].
Qed.

Lemma ran_downloadFile n c ms path out content lost d w v t :
  without lost w v ->
  content <> [] -> numberable content -> token (base_name path) ->
  ring_wf (dht_ c) -> (2 <= length (dht_ c))%nat -> mapM target (metadataNodes_ c) = Some ms ->
  kept c ms path content w -> one_lost (dht_ c) lost -> last ms = Some t -> t ∉ lost ->
  creatable d out = true ->
  ran (S n) (downloadFile c (base_name path) out) d v
    (Some Reconstructed) (FS (<[out := content]> (files d)) (creatable d)) v.
Proof.
  intros Hv Hne Hnum Htok Hr Hlen Hms [Hch Hrec Hchain] Hone Hlast Ht Hd.
  destruct (chain_end _ _ Hchain) as (t' & s & Hlast' & Hw & Hrun & Hend).
  rewrite Hlast in Hlast'. injection Hlast' as <-.
  destruct (Hrec t) as (s' & Hw' & Hs); [by apply last_Some_elem_of|].
  rewrite Hw in Hw'. injection Hw' as <-. rewrite <- (app_nil_r ms) in Hms.
  destruct (addresses_last _ _ _ _ Hms Hlast) as (pre & addr & post & El & Ha & Hpost).
  apply mapM_Some in Hpost. inversion Hpost; subst.
  rewrite <- (left_others _ _ _ Hv t Ht) in Hw.
  epose proof (ran_download_from n c pre addr [] t s path out content lost d v) as H.
  unfold written in H. rewrite Hd in H. apply H; try done.
  - exact (left_lost _ _ _ Hv).
  - intros key. destruct (replica_left (dht_ c) key lost Hr Hlen Hone) as (nodes & E & Hex).
    unfold replicas, replicationFactor. by rewrite E.
  - intros chunk Hc. by eapply reaches_without, Hch.
Qed.

(** ** Properties *)

(** C1. A file that was uploaded is the file that is downloaded, also after one
    storage node and any metadata nodes but the last have stopped or gone: in a cluster
    that is up, the upload of a readable, non-empty file succeeds, and the download of
    its name from what is left of the cluster writes the same bytes.  The name must be
    one word, no two chunks may collide under SHA-256, and the ring must have two
    nodes at different addresses. *)
Theorem upload_then_download c ms path out content lost d d' w t :
  files d !! path = Some content -> content <> [] -> numberable content ->
  token (base_name path) -> hashes_tell (chunks_of content) ->
  cluster_up c w ms -> (2 <= length (dht_ c))%nat -> one_lost (dht_ c) lost ->
  last ms = Some t -> t ∉ lost -> creatable d' out = true ->
  exists w',
    run_client (length ms) (uploadFile c path) d w = Some (Some UploadComplete, d, w') /\
    forall v, without lost w' v ->
      run_client (length ms) (downloadFile c (base_name path) out) d' v =
        Some (Some Reconstructed, FS (<[out := content]> (files d')) (creatable d'), v).
Proof.
  intros Hd Hne Hnum Htok Htell Hup Hlen Hone Hlast Ht Hc.
  assert (exists n, length ms = S n) as [n Hn] by (destruct ms; [done|]; by eexists).
  destruct (runs_uploadFile n c ms path content d w) as (w' & H1 & Hk & _); [done..| |done|lia|].
  { intros E. rewrite E in Hlen. simpl in Hlen. lia. }
  exists w'. rewrite Hn. split.
  - unfold run_client. by rewrite H1.
  - intros v Hv. destruct Hup. by eapply ran_client, ran_downloadFile.
Qed.

(** A small file in a cluster of two storage nodes and a chain of two, whose first
    storage node and whose head are then lost. *)
Lemma upload_then_download_witness :
  let c := new_client ["10.0.0.1:80"; "10.0.0.2:80"] ["10.0.0.11:90"; "10.0.0.12:91"] in
  let head := MetadataNode.started 90 (MetadataNode.new_node "10.0.0.12" 91) in
  let tail := MetadataNode.started 91 (MetadataNode.new_node EmptyString (-1)) in
  let store := StorageNode.MkStorage ∅ true in
  let w := {[("10.0.0.1", 80) := Storage store; ("10.0.0.2", 80) := Storage store;
             ("10.0.0.11", 90) := Metadata head; ("10.0.0.12", 91) := Metadata tail]} : world in
  let lost := [("10.0.0.1", 80); ("10.0.0.11", 90)] in
  let d := FS {["dir/f.txt" := bytes_of_string "some data"]} (fun _ => true) in
  exists w',
    run_client 2 (uploadFile c "dir/f.txt") d w = Some (Some UploadComplete, d, w') /\
    run_client 2 (downloadFile c "f.txt" "g") d (lose lost w') =
      Some (Some Reconstructed, FS (<["g" := bytes_of_string "some data"]> (files d)) (creatable d),
            lose lost w').
Proof.
  intros c head tail store w lost d.
  destruct (upload_then_download c [("10.0.0.11", 90); ("10.0.0.12", 91)] "dir/f.txt" "g" (bytes_of_string "some data")
              lost d d w ("10.0.0.12", 91)) as (w' & Hup & Hdown).
  - by vm_compute.
  - done.
  - apply (bool_decide_unpack (_ < _)). by vm_compute.
  - apply (bool_decide_unpack (_ /\ _)). by vm_compute.
  - assert (length (chunks_of (bytes_of_string "some data")) = 1%nat) as Hl by by vm_compute.
    destruct (chunks_of _) as [|x [|]]; try done. by intros y z ->%list_elem_of_singleton ->%list_elem_of_singleton.
  - assert (getAllNodes (dht_ c) ≡ₚ ["10.0.0.1:80"; "10.0.0.2:80"]) as Hr.
    { apply (bool_decide_unpack _). by vm_compute. }
    split.
    + unfold c, new_client. simpl. auto with dfs.
    + intros addr. rewrite Hr. intros [->|[->|[]%not_elem_of_nil]%elem_of_cons]%elem_of_cons.
      * exists ("10.0.0.1", 80), store. split_and!; by vm_compute.
      * exists ("10.0.0.2", 80), store. split_and!; by vm_compute.
    + by vm_compute.
    + eapply (chain_next _ _ _ _ head); [by vm_compute|done..| |]; [by apply (bool_decide_unpack _); vm_compute|].
      by apply (chain_last _ _ tail).
  - by vm_compute.
  - assert (getAllNodes (dht_ c) ≡ₚ ["10.0.0.1:80"; "10.0.0.2:80"]) as Hr.
    { apply (bool_decide_unpack _). by vm_compute. }
    assert (forall x, x ∈ getAllNodes (dht_ c) -> lost_node lost x -> x = "10.0.0.1:80") as H.
    { intros x. rewrite Hr. intros [->|[->|[]%not_elem_of_nil]%elem_of_cons]%elem_of_cons; [done|].
      intros (a & Ha & Hin). vm_compute in Ha. injection Ha as <-. exfalso. revert Hin.
      by apply (bool_decide_unpack (_ ∉ _)); vm_compute. }
    intros x y Hx Hy Hlx Hly. by rewrite (H x), (H y).
  - done.
  - by apply (bool_decide_unpack (_ ∉ _)); vm_compute.
  - done.
  - exists w'. split; [exact Hup|]. apply Hdown, lose_without.
Defined.
