(* ===== verification/Deployment.v ===== *)
(** * From a configuration file to a running cluster

    Every node of the configuration is started by its main: the nodes from
    identifier 11 on by [apps/main_metadata_node.cpp], the others by
    [apps/main_storage_node.cpp].  The result is a world of [Cluster.v].

    The theorems: the metadata nodes of a configuration form a chain, in the order of
    their identifiers, and its storage nodes serve; so the theorems of [Cluster.v]
    and [Replication.v] apply to the cluster that was started.  And a client started
    with the same configuration meets what [Integrity.v] asks of a cluster. *)
From S2P Require Import Prelude IoStream Sha256 Chunks ConsistentHash Wire Proc NodeConfig Client Apps Cluster.
From S2P Require Import Network Sessions Integrity.
From S2P Require StorageNode MetadataNode.

#[local] Open Scope Z_scope.

(** ** Starting the nodes *)

Definition location (n : NodeInfo) : address := (host n, port n).

(** The process of a node on the machine of its host, and where it can be reached: its server
    casts the port to 16 bits as the clients do.  [None] when its main ends at once, and when
    nobody can connect to it: the host is no IPv4 address, or the port is 0. *)
Definition boot_node (file : option string) (n : NodeInfo) : option (address * node) :=
  if bool_decide (11 <= id n) then
    '(s, p) ← main_metadata_node file (to_string (id n));
    a ← endpoint (host n) p;
    Some (a, Metadata s)
  else
    p ← main_storage_node file (to_string (id n));
    a ← endpoint (host n) p;
    Some (a, Storage (StorageNode.set_running true StorageNode.new_node)).

(** A node starts when its [bind] finds the port of its machine free; otherwise its main ends. *)
Definition bind_node (w : world) (x : address * node) : world :=
  match w !! x.1 with Some _ => w | None => <[x.1 := x.2]> w end.

(** The nodes are started in the order of the file, on machines where nothing runs yet.  A
    server listens at every address of its machine; the hosts of the file name one machine each. *)
Definition boot (file : option string) : world :=
  foldl bind_node ∅ (omap (boot_node file) (loadConfig file)).

Lemma foldl_bind_lookup (l : list (address * node)) (w : world) (a : address) :
  foldl bind_node w l !! a = match w !! a with Some x => Some x | None => (list_to_map l : world) !! a end.
Proof.
  revert w. induction l as [|[b x] l IH]; intros w; cbn [foldl]; [by destruct (w !! a)|].
  rewrite IH. unfold bind_node. cbn [fst snd]. rewrite list_to_map_cons.
  destruct (decide (a = b)) as [->|Hne].
  - rewrite lookup_insert_eq. destruct (w !! b) eqn:E; [by rewrite E|]. by rewrite lookup_insert_eq.
  - rewrite (lookup_insert_ne (list_to_map l)) by done. destruct (w !! b); [done|]. by rewrite lookup_insert_ne.
Qed.

(** Of two nodes with one address the first one gets it. *)
Lemma boot_first file : boot file = list_to_map (omap (boot_node file) (loadConfig file)).
Proof. apply map_eq. intros a. unfold boot. by rewrite foldl_bind_lookup, lookup_empty. Qed.

(** ** The nodes that were started *)

(** Different identifiers, different addresses, IPv4 hosts and ports of 16 bits. *)
Record wf_nodes (nodes : list NodeInfo) : Prop := {
  wf_ids : NoDup (id <$> nodes);
  wf_locations : NoDup (location <$> nodes);
  wf_usable : Forall (fun n => in_int (id n) /\ inet_pton (host n) = true /\ 0 < port n < 2 ^ 16) nodes
}.

Definition successor_of (nodes : list NodeInfo) (n : NodeInfo) : MetadataNode.MetadataNode :=
  match next_node nodes (id n) with
  | Some m => MetadataNode.new_node (host m) (port m)
  | None => MetadataNode.new_node EmptyString (-1)
  end.

Definition started_node (nodes : list NodeInfo) (n : NodeInfo) : node :=
  if bool_decide (11 <= id n) then Metadata (MetadataNode.started (port n) (successor_of nodes n))
  else Storage (StorageNode.set_running true StorageNode.new_node).

Lemma getMyNode_elem nodes n : NoDup (id <$> nodes) -> n ∈ nodes -> getMyNode nodes (id n) = n.
Proof.
  unfold getMyNode. induction nodes as [|m nodes IH]; intros Hnd Hin; [by apply not_elem_of_nil in Hin|].
  simpl in *. apply NoDup_cons in Hnd as [Hm Hnd]. apply elem_of_cons in Hin as [->|Hin].
  - by rewrite bool_decide_eq_true_2.
  - rewrite bool_decide_eq_false_2; [by apply IH|]. intros E. apply Hm. rewrite E.
    by apply list_elem_of_fmap_2.
Qed.

Lemma boot_node_started file n :
  wf_nodes (loadConfig file) -> n ∈ loadConfig file ->
  boot_node file n = Some (location n, started_node (loadConfig file) n).
Proof.
  intros [Hids _ Hu] Hin. rewrite Forall_forall in Hu. destruct (Hu n Hin) as (Hi & Hh & Hp).
  assert (node_missing n = false) as Hm.
  { unfold node_missing. by rewrite bool_decide_eq_false_2 by lia. }
  unfold boot_node, started_node, main_metadata_node, main_storage_node.
  rewrite stoi_to_string by done. cbn [mbind option_bind].
  rewrite (getMyNode_elem _ _ Hids Hin), Hm.
  destruct (bool_decide (11 <= id n)); cbn [mbind option_bind]; by rewrite (endpoint_valid _ _ Hh Hp).
Qed.

Lemma boot_lookup file n :
  wf_nodes (loadConfig file) -> n ∈ loadConfig file ->
  boot file !! location n = Some (started_node (loadConfig file) n).
Proof.
  intros Hwf Hin. rewrite boot_first.
  assert (omap (boot_node file) (loadConfig file) =
          (fun m => (location m, started_node (loadConfig file) m)) <$> loadConfig file) as ->.
  { pose proof (boot_node_started file) as H. revert H. generalize (boot_node file). intros f H.
    specialize (fun m => H m Hwf). revert H. generalize (started_node (loadConfig file)).
    clear Hwf Hin. induction (loadConfig file) as [|m l IH]; intros g H; [done|].
    simpl. rewrite H by left. f_equal. apply IH. intros m' ?. apply H. by right. }
  apply elem_of_list_to_map_1.
  - rewrite <- list_fmap_compose. apply Hwf.
  - apply list_elem_of_fmap. by exists n.
Qed.

(** ** The chain *)

Lemma next_after_middle l1 n l2 : NoDup (id <$> l1 ++ n :: l2) -> next_after (id n) (l1 ++ n :: l2) = head l2.
Proof.
  induction l1 as [|m l1 IH]; simpl; intros Hnd; [by rewrite bool_decide_eq_true_2|].
  apply NoDup_cons in Hnd as [Hm Hnd]. rewrite bool_decide_eq_false_2; [by apply IH|].
  intros E. apply Hm. rewrite E, fmap_app, fmap_cons. set_solver.
Qed.

Lemma boot_chain_from file l1 n l2 :
  wf_nodes (loadConfig file) -> chain_of (loadConfig file) = l1 ++ n :: l2 ->
  chain (boot file) (location <$> n :: l2).
Proof.
  intros Hwf. pose proof Hwf as [Hids Hlocs Hu].
  assert (forall m, m ∈ chain_of (loadConfig file) ->
    boot file !! location m =
      Some (Metadata (MetadataNode.started (port m) (successor_of (loadConfig file) m)))) as Hlook.
  { intros m [Hi Hm]%chain_of_elem. rewrite boot_lookup by done. unfold started_node.
    by rewrite bool_decide_eq_true_2. }
  assert (forall m, m ∈ chain_of (loadConfig file) -> inet_pton (host m) = true /\ 0 < port m < 2 ^ 16) as Hport.
  { intros m [_ Hm]%chain_of_elem. rewrite Forall_forall in Hu. by apply Hu. }
  assert (NoDup (id <$> chain_of (loadConfig file)) /\ NoDup (location <$> chain_of (loadConfig file)))
    as [Hnd Hndl].
  { unfold chain_of. rewrite merge_sort_Permutation.
    split; (eapply sublist_NoDup; [|apply fmap_sublist, sublist_filter]); done. }
  revert l1 n. induction l2 as [|m l2 IH]; intros l1 n El.
  - assert (next_node (loadConfig file) (id n) = None) as Hnext.
    { unfold next_node. rewrite El in *. by rewrite next_after_middle. }
    assert (n ∈ chain_of (loadConfig file)) as Hn by (rewrite El; set_solver).
    eapply chain_last; [exact (Hlook n Hn)|done|]. unfold successor_of. by rewrite Hnext.
  - assert (next_node (loadConfig file) (id n) = Some m) as Hnext.
    { unfold next_node. rewrite El in *. by rewrite next_after_middle. }
    assert (n ∈ chain_of (loadConfig file)) as Hn by (rewrite El; set_solver).
    assert (inet_pton (host m) = true /\ 0 < port m < 2 ^ 16) as [Hhm Hpm] by (apply Hport; rewrite El; set_solver).
    specialize (IH (l1 ++ [n]) m ltac:(by rewrite <- app_assoc)).
    assert (location n ∉ location m :: (location <$> l2)) as Hnot.
    { rewrite El, fmap_app, !fmap_cons in Hndl. apply NoDup_app in Hndl as (_ & _ & Hndl).
      by apply NoDup_cons in Hndl as [? _]. }
    assert (successor_of (loadConfig file) n = MetadataNode.new_node (host m) (port m)) as Hsucc.
    { unfold successor_of. by rewrite Hnext. }
    specialize (Hlook n Hn). rewrite Hsucc in Hlook. unfold MetadataNode.new_node in Hlook.
    rewrite bool_decide_eq_false_2 in Hlook by lia.
    rewrite !fmap_cons in *. eapply chain_next; [exact Hlook|done|done| |by apply endpoint_valid|exact Hnot|exact IH].
    unfold MetadataNode.has_next. simpl. by rewrite bool_decide_eq_true_2 by lia.
Qed.

(** ** What the clients rely on *)

Lemma boot_inverse file a x :
  wf_nodes (loadConfig file) -> boot file !! a = Some x ->
  exists n, n ∈ loadConfig file /\ a = location n /\ x = started_node (loadConfig file) n.
Proof.
  intros Hwf Hx. rewrite boot_first in Hx. apply elem_of_list_to_map_2 in Hx. apply list_elem_of_omap in Hx as (n & Hn & E).
  rewrite (boot_node_started _ _ Hwf Hn) in E. injection E as <- <-. by exists n.
Qed.

(** ** Properties *)

(** C30. Starting every node of a configuration (with different identifiers and
    addresses, hosts that are IPv4 addresses, one for each machine, and ports from 1
    to 65535) gives a working cluster: the metadata nodes are a
    chain from the smallest identifier to the largest, each one knowing the next and
    only the last one answering reads, and every storage node serves an empty store. *)
Theorem boot_cluster file :
  wf_nodes (loadConfig file) -> chain_of (loadConfig file) <> [] ->
  chain (boot file) (location <$> chain_of (loadConfig file)) /\
  forall n, n ∈ loadConfig file -> id n < 11 ->
    boot file !! location n = Some (Storage (StorageNode.set_running true StorageNode.new_node)).
Proof.
  intros Hwf Hne. split.
  - destruct (chain_of (loadConfig file)) as [|n l] eqn:E; [done|].
    by apply (boot_chain_from file [] n l).
  - intros n Hin Hlt. rewrite boot_lookup by done. unfold started_node.
    by rewrite bool_decide_eq_false_2 by lia.
Qed.

(** The nodes the client's addresses stand for, the chain in another order. *)
Lemma boot_cluster_witness :
  let nodes := [Node 13 "127.0.0.1" 9003; Node 1 "127.0.0.1" 8001; Node 11 "127.0.0.1" 9001;
                Node 2 "127.0.0.1" 8002; Node 12 "127.0.0.1" 9002] in
  let file := Some (show_config ((fun n => NodeLine EmptyString n EmptyString) <$> nodes)) in
  chain (boot file) [("127.0.0.1", 9001); ("127.0.0.1", 9002); ("127.0.0.1", 9003)] /\
  boot file !! ("127.0.0.1", 8002) = Some (Storage (StorageNode.MkStorage ∅ true)).
Proof.
  intros nodes file. assert (loadConfig file = nodes) as E by by vm_compute.
  assert (chain_of nodes = [Node 11 "127.0.0.1" 9001; Node 12 "127.0.0.1" 9002; Node 13 "127.0.0.1" 9003])
    as Ec by by vm_compute.
  destruct (boot_cluster file) as [Hc Hs]; rewrite ?E in *.
  - split; apply (bool_decide_unpack _); by vm_compute.
  - by rewrite Ec.
  - rewrite Ec in Hc. split; [exact Hc|]. apply (Hs (Node 2 "127.0.0.1" 8002)); [|done].
    apply (bool_decide_unpack _). by vm_compute.
Defined.

(** A cluster started from a configuration (as above) is one the theorems on concurrent clients
    start from: every store is empty, only the end of the chain has no successor, and
    a client whose storage addresses are those of storage nodes, and whose metadata
    addresses those of metadata nodes, never takes the one for the other. *)
Theorem boot_ready file ss ms :
  wf_nodes (loadConfig file) ->
  (forall addr a, addr ∈ ss -> target addr = Some a ->
     exists n, n ∈ loadConfig file /\ id n < 11 /\ a = location n) ->
  (forall addr a, addr ∈ ms -> target addr = Some a ->
     exists n, n ∈ loadConfig file /\ 11 <= id n /\ a = location n) ->
  fresh (boot file) /\ wired (boot file) (new_client ss ms).
Proof.
  intros Hwf Hss Hms. pose proof Hwf as [_ _ Hu]. rewrite Forall_forall in Hu. split.
  - intros a x (n & Hn & -> & ->)%boot_inverse; [|done]. destruct (Hu n Hn) as (_ & Hh & Hp).
    split_and!; [by intros E; simpl in E; rewrite E in Hh|simpl; lia|]. unfold started_node. case_bool_decide; [|done].
    unfold successor_of. destruct (next_node _ _) as [m|] eqn:En; [|done].
    assert (m ∈ loadConfig file) as Hm.
    { apply next_after_Some in En as (l1 & m0 & l2 & El & _).
      assert (m ∈ chain_of (loadConfig file)) as [_ ?]%chain_of_elem; [|done]. rewrite El. set_solver. }
    destruct (Hu m Hm) as (_ & _ & Hpm). split_and!; [done|done|].
    unfold MetadataNode.is_last, MetadataNode.new_node, MetadataNode.started.
    rewrite (bool_decide_eq_false_2 (port m = -1)) by lia. done.
  - split; [apply new_client_wf| |].
    + intros addr a x Hin%new_client_nodes Ha Hx. destruct (Hss _ _ Hin Ha) as (n & Hn & Hi & ->).
      rewrite boot_lookup in Hx by done. injection Hx as <-. unfold started_node.
      by rewrite bool_decide_eq_false_2 by lia.
    + intros addr a x Hin Ha Hx. destruct (Hms _ _ Hin Ha) as (n & Hn & Hi & ->).
      rewrite boot_lookup in Hx by done. injection Hx as <-. unfold started_node.
      rewrite bool_decide_eq_true_2 by lia. by intros [].
Qed.

(** The cluster and the addresses the client program is compiled with. *)
Lemma boot_ready_witness :
  let nodes := [Node 1 "127.0.0.1" 8001; Node 2 "127.0.0.1" 8002; Node 11 "127.0.0.1" 9001;
                Node 12 "127.0.0.1" 9002; Node 13 "127.0.0.1" 9003] in
  let file := Some (show_config ((fun n => NodeLine EmptyString n EmptyString) <$> nodes)) in
  fresh (boot file) /\ wired (boot file) (new_client storageNodes metadataNodes).
Proof.
  intros nodes file. assert (loadConfig file = nodes) as E by by vm_compute.
  assert (target <$> storageNodes = [Some ("127.0.0.1", 8001); Some ("127.0.0.1", 8002)]) as Hs by by vm_compute.
  assert (target <$> metadataNodes =
    [Some ("127.0.0.1", 9001); Some ("127.0.0.1", 9002); Some ("127.0.0.1", 9003)]) as Hm by by vm_compute.
  apply boot_ready; rewrite E.
  - split; apply (bool_decide_unpack _); by vm_compute.
  - intros addr a Hin Ha. apply (list_elem_of_fmap_2 target) in Hin. rewrite Ha, Hs in Hin.
    rewrite !elem_of_cons, elem_of_nil in Hin. destruct Hin as [[= ->]|[[= ->]|[]]].
    + exists (Node 1 "127.0.0.1" 8001). split_and!; [left|done|done].
    + exists (Node 2 "127.0.0.1" 8002). split_and!; [right; left|done|done].
  - intros addr a Hin Ha. apply (list_elem_of_fmap_2 target) in Hin. rewrite Ha, Hm in Hin.
    rewrite !elem_of_cons, elem_of_nil in Hin. destruct Hin as [[= ->]|[[= ->]|[[= ->]|[]]]].
    + exists (Node 11 "127.0.0.1" 9001). split_and!; [do 2 right; left|done|done].
    + exists (Node 12 "127.0.0.1" 9002). split_and!; [do 3 right; left|done|done].
    + exists (Node 13 "127.0.0.1" 9003). split_and!; [do 4 right; left|done|done].
Defined.
