(* ===== verification/LocalCluster.v ===== *)
(** * A cluster inside one process: the common parts of the measurement and test
    programs of [apps/]

    They start the nodes as detached threads, which changes the world of [Cluster.v],
    write and remove files, and kill nodes with [DIE], as programs of [Proc.v].  The
    lemmas say what starting and killing leave, whatever was there before.

    A killed node closes its listening socket while its own thread may be blocked in [accept]
    on it.  When the kernel gives the port free is its choice: on Linux only after one
    more client has connected, if [accept] was entered before the [close].  Until then no node can
    be started at the address; [pause] is where ports are given free.  The theorems: after
    a pause in which all are, [startCluster] finds the cluster as it was at first; and the programs
    make no difference between a connection that is refused and one that is
    accepted by a stopped node and closed. *)
From S2P Require Import Prelude IoStream Sha256 Chunks ConsistentHash Wire Proc Client Records Apps Cluster Replication.
From S2P Require StorageNode MetadataNode.

#[local] Open Scope Z_scope.

(** ** Starting and killing nodes *)

Definition localhost : string := "127.0.0.1".

(** A detached thread that runs a node's [start]: it ends at once when [bind] finds the
    port taken, by a node that runs or by a stopped one whose socket is still there. *)
Definition start_node (a : address) (x : node) (w : world) : world :=
  match w !! a with Some _ => w | None => <[a := x]> w end.

Definition startStorageNode (port : Z) (w : world) : world :=
  start_node (localhost, port) (Storage (StorageNode.set_running true StorageNode.new_node)) w.

Definition startMetadataNode (port : Z) (nextIp : string) (nextPort : Z) (w : world) : world :=
  start_node (localhost, port)
    (Metadata (MetadataNode.started port (MetadataNode.new_node nextIp nextPort))) w.

Definition start_chain (w : world) : world :=
  startMetadataNode 9001 localhost 9002
    (startMetadataNode 9002 localhost 9003 (startMetadataNode 9003 EmptyString (-1) w)).

(** [startCluster] of the evaluation and of the experiments. *)
Definition startCluster (w : world) : world :=
  start_chain (startStorageNode 8002 (startStorageNode 8001 w)).

Definition startCluster_of (storageCount : Z) (w : world) : world :=
  start_chain (foldl (fun w i => startStorageNode (8000 + i) w) w (seqZ 1 storageCount)).

(** The node clears [running_], which is what [dial] looks at, and closes its listening socket. *)
Definition killNode (port : Z) : io fs unit :=
  ok ← client_connect localhost port;
  if ok : bool then client_sendMessage "DIE";; client_closes else mret tt.

Fixpoint kill_all (ports : list Z) : io fs unit :=
  match ports with
  | [] => mret tt
  | port :: ports' => killNode port;; kill_all ports'
  end.

Definition stopCluster (storageCount : Z) : io fs unit :=
  kill_all ((fun i => 8000 + i) <$> seqZ 1 storageCount);;
  killNode 9001;; killNode 9002;; killNode 9003.

(** ** Files *)

(** A [std::ofstream] that is written once. *)
Definition write_file (path : string) (data : bytes) : io fs unit :=
  modify (fun d => if creatable d path then FS (<[path := data]> (files d)) (creatable d) else d).

Definition remove_file (path : string) : io fs unit :=
  modify (fun d => FS (delete path (files d)) (creatable d)).

(** ** A node is killed *)

Definition stopped (x : node) : node :=
  match x with
  | Storage s => Storage (StorageNode.set_running false s)
  | Metadata s => Metadata (MetadataNode.set_running false s)
  end.

Definition is_running (x : node) : bool :=
  match x with Storage s => StorageNode.running_ s | Metadata s => MetadataNode.running_ s end.

(** What the kernel has done when a program has slept: of the ports of stopped nodes, those
    in [freed] are free again. *)
Definition pause (freed : address -> bool) (w : world) : world :=
  filter (fun x => is_running x.2 = true \/ freed x.1 = false) w.

Lemma dial_running (a : address) (w : world) (x : node) :
  w !! a = Some x -> is_running x = true ->
  dial a w = Some (Conn a (match x with Storage _ => HStorage StorageNode.handleClient
                           | Metadata _ => HMetadata MetadataNode.handleClient end) []).
Proof. intros Hw Hr. unfold dial. rewrite Hw. destruct x as [s|s]; simpl in Hr; by rewrite Hr. Qed.

Lemma dial_not_running (a : address) (w : world) : (forall x, w !! a = Some x -> is_running x = false) -> dial a w = None.
Proof.
  intros Hr. unfold dial. destruct (w !! a) as [x|]; [|done]. specialize (Hr x eq_refl).
  destruct x as [s|s]; simpl in Hr; by rewrite Hr.
Qed.

Lemma stopped_idle (x : node) : is_running x = false -> stopped x = x.
Proof. destruct x as [[]|[]]; simpl; by intros ->. Qed.

Lemma storage_die dl s w :
  StorageNode.running_ s = true ->
  talk dl StorageNode.handleClient s w None (Some (bytes_of_string "DIE")) [] =
  Some (Talking (Ret false) (StorageNode.set_running false s) w None None []).
Proof. intros Hr. by rewrite storage_turn. Qed.

Lemma metadata_die dl s w :
  MetadataNode.running_ s = true ->
  talk dl MetadataNode.handleClient s w None (Some (bytes_of_string "DIE")) [] =
  Some (Talking (Ret false) (MetadataNode.set_running false s) w None None []).
Proof.
  intros Hr. unfold MetadataNode.handleClient, MetadataNode.handleClient_turn.
  cbn [reads mbind io_mbind io_bind talk]. by rewrite Hr.
Qed.

Lemma alter_running (f : node -> node) (a : address) (x : node) (w : world) : w !! a = Some x -> alter f a w = <[a := f x]> w.
Proof.
  intros Hw. apply map_eq. intros b. destruct (decide (a = b)) as [->|Hne].
  - by rewrite lookup_alter_eq, lookup_insert_eq, Hw.
  - by rewrite lookup_alter_ne, lookup_insert_ne.
Qed.

(** The delivery of [DIE], and the end of its connection. *)
Lemma deliver_die (n : nat) (a : address) (x : node) (w : world) :
  w !! a = Some x -> is_running x = true ->
  exists c, dial a w = Some c /\ exists c',
    deliver (S n) (bytes_of_string "DIE") c w = Some (c', alter stopped a w) /\
    exists c'', deliver (S n) [] c' (alter stopped a w) = Some (c'', alter stopped a w).
Proof.
  intros Hw Hr. eexists. split; [by eapply dial_running|]. rewrite (alter_running _ _ _ _ Hw).
  destruct x as [s|s]; eexists; cbn [deliver peer at_peer inbox]; rewrite Hw, ?storage_die, ?metadata_die by done;
    (split; [cbn -[bytes_of_string]; by rewrite insert_delete_eq|]); cbn [deliver peer at_peer inbox again prog];
    rewrite lookup_insert_eq; eexists; cbn; by rewrite insert_delete_eq, insert_insert_eq.
Qed.

(** A port that [::connect] is given as it is. *)
Definition real_port (port : Z) : Prop := 0 < port < 2 ^ 16.

Lemma local_endpoint port : real_port port -> endpoint localhost port = Some (localhost, port).
Proof. intros Hp. by apply endpoint_valid. Qed.

Lemma ran_killNode (n : nat) (port : Z) (d : fs) (w : world) :
  real_port port -> ran (S n) (killNode port) d w tt d (alter stopped (localhost, port) w).
Proof.
  intros Hp. unfold ran, killNode. cbn [client_connect mbind io_mbind io_bind talk].
  rewrite local_endpoint by done. cbn [mbind option_bind]. set (a := (localhost, port)).
  destruct (w !! a) as [x|] eqn:Hw; [destruct (is_running x) eqn:Hr|].
  - destruct (deliver_die n a x w Hw Hr) as (c & -> & c' & H1 & c'' & H2).
    cbn [client_sendMessage client_closes mbind io_mbind io_bind talk]. by rewrite H1, H2.
  - rewrite dial_not_running by (intros y E; congruence).
    rewrite (alter_running _ _ _ _ Hw), (stopped_idle _ Hr). by rewrite insert_id.
  - rewrite dial_not_running by (intros y E; congruence). cbn. do 2 f_equal.
    symmetry. apply alter_id. intros y E. congruence.
Qed.

Definition stop_all (ports : list Z) (w : world) : world :=
  foldl (fun w port => alter stopped (localhost, port) w) w ports.

Lemma ran_kill_all (n : nat) (ports : list Z) (d : fs) (w : world) :
  Forall real_port ports -> ran (S n) (kill_all ports) d w tt d (stop_all ports w).
Proof.
  intros Hp. revert w. induction Hp as [|port ports Hp _ IH]; intros w; [done|]. cbn [kill_all].
  eapply ran_bind; [by apply ran_killNode|apply IH].
Qed.

(** The ports of a cluster, as they are stopped, and its nodes, as they are started. *)
Definition cluster_ports (k : Z) : list Z := ((fun i => 8000 + i) <$> seqZ 1 k) ++ [9001; 9002; 9003].

Lemma ran_stopCluster (n : nat) (k : Z) (d : fs) (w : world) :
  k <= 1000 -> ran (S n) (stopCluster k) d w tt d (stop_all (cluster_ports k) w).
Proof.
  intros Hk. unfold stopCluster. eapply ran_bind; [apply ran_kill_all|].
  { apply Forall_fmap, Forall_forall. intros i Hi%elem_of_seqZ. unfold real_port. simpl. lia. }
  eapply ran_bind; [by apply ran_killNode|]. eapply ran_bind; [by apply ran_killNode|].
  pose proof (fun w => ran_killNode n 9003 d w ltac:(done)) as H. unfold stop_all, cluster_ports. rewrite foldl_app. apply H.
Qed.

(** Nothing that runs at the address. *)
Definition down (a : address) (w : world) : Prop := forall x, w !! a = Some x -> is_running x = false.

Lemma down_alter (a b : address) (w : world) : a = b \/ down a w -> down a (alter stopped b w).
Proof.
  intros Hd x. destruct (decide (b = a)) as [->|Hne].
  - rewrite lookup_alter_eq. intros ([s|s] & _ & ->)%fmap_Some; done.
  - rewrite lookup_alter_ne by done. destruct Hd; [by subst|auto].
Qed.

Lemma stop_all_down (ports : list Z) (a : address) (w : world) :
  (exists port, port ∈ ports /\ a = (localhost, port)) \/ down a w -> down a (stop_all ports w).
Proof.
  revert w. induction ports as [|port ports IH]; intros w Hd.
  - destruct Hd as [(p & []%not_elem_of_nil & _)|Hd]; done.
  - apply IH. destruct Hd as [(p & [->|Hp]%elem_of_cons & ->)|Hd].
    + right. apply down_alter. by left.
    + left. by exists p.
    + right. apply down_alter. by right.
Qed.

Lemma stop_all_in (ports : list Z) (a : address) (w : world) : is_Some (w !! a) -> is_Some (stop_all ports w !! a).
Proof.
  revert w. induction ports as [|port ports IH]; intros w Ha; [done|]. apply IH. by apply lookup_alter_is_Some.
Qed.

Lemma stop_all_others (ports : list Z) (a : address) (w : world) :
  (forall port, port ∈ ports -> a <> (localhost, port)) -> stop_all ports w !! a = w !! a.
Proof.
  revert w. induction ports as [|port ports IH]; intros w Ha; [done|].
  simpl. rewrite IH by (intros p Hp; apply Ha; by right).
  rewrite lookup_alter_ne; [done|]. intros E. apply (Ha port); [left|done].
Qed.

Definition start_all (l : list (address * node)) (w : world) : world :=
  foldl (fun w e => start_node e.1 e.2 w) w l.

Lemma start_node_lookup (a b : address) (x : node) (w : world) :
  start_node b x w !! a = if decide (a = b) then Some (default x (w !! a)) else w !! a.
Proof.
  unfold start_node. destruct (decide (a = b)) as [->|Hne].
  - destruct (w !! b) eqn:E; [done|]. apply lookup_insert_eq.
  - destruct (w !! b); [done|]. by apply lookup_insert_ne.
Qed.

(** A port that is taken stays as it is. *)
Lemma start_all_taken (l : list (address * node)) (a : address) (x : node) (w : world) :
  w !! a = Some x -> start_all l w !! a = Some x.
Proof.
  revert w. induction l as [|[b y] l IH]; intros w Hx; [done|]. apply IH.
  simpl. rewrite start_node_lookup, Hx. by destruct (decide _).
Qed.

Lemma pause_lookup (freed : address -> bool) (w : world) (a : address) :
  pause freed w !! a = match w !! a with
    | Some x => if is_running x || negb (freed a) then Some x else None
    | None => None
    end.
Proof.
  unfold pause. destruct (w !! a) as [x|] eqn:E.
  - destruct (is_running x || negb (freed a)) eqn:Hb.
    + apply map_lookup_filter_Some_2; [done|]. simpl. destruct (is_running x); [by left|right]. by destruct (freed a).
    + apply map_lookup_filter_None_2. right. intros y Hy. assert (x = y) as <- by congruence. simpl.
      apply orb_false_iff in Hb as [-> Hf]. destruct (freed a); naive_solver.
  - apply map_lookup_filter_None_2. by left.
Qed.

Lemma pause_freed (freed : address -> bool) (w : world) (a : address) : down a w -> freed a = true -> pause freed w !! a = None.
Proof.
  intros Hd Hf. rewrite pause_lookup. destruct (w !! a) as [x|] eqn:E; [|done]. by rewrite (Hd x E), Hf.
Qed.

Lemma pause_kept (freed : address -> bool) (w : world) (a : address) : freed a = false -> pause freed w !! a = w !! a.
Proof.
  intros Hf. rewrite pause_lookup, Hf. destruct (w !! a) as [x|]; [|done]. by rewrite orb_true_r.
Qed.

Lemma start_all_others (l : list (address * node)) (a : address) (w : world) : a ∉ l.*1 -> start_all l w !! a = w !! a.
Proof.
  revert w. induction l as [|[b x] l IH]; intros w Ha; [done|]. simpl in *.
  apply not_elem_of_cons in Ha as [Hab Ha]. rewrite IH by done.
  by rewrite start_node_lookup, decide_False.
Qed.

Lemma start_all_lookup (l : list (address * node)) (a : address) (x : node) (w : world) :
  NoDup l.*1 -> (a, x) ∈ l -> w !! a = None -> start_all l w !! a = Some x.
Proof.
  revert w. induction l as [|[b y] l IH]; intros w Hnd Hin Hd; [by apply not_elem_of_nil in Hin|].
  simpl in *. apply NoDup_cons in Hnd as [Hb Hnd]. apply elem_of_cons in Hin as [[= -> ->]|Hin].
  - rewrite start_all_others by done. rewrite start_node_lookup, decide_True by done.
    by rewrite Hd.
  - apply IH; [done|done|]. rewrite start_node_lookup. destruct (decide (a = b)) as [->|]; [|apply Hd].
    destruct Hb. change b with (b, x).1. by apply list_elem_of_fmap_2.
Qed.

Definition cluster_nodes (k : Z) : list (address * node) :=
  ((fun i => ((localhost, 8000 + i), Storage (StorageNode.set_running true StorageNode.new_node))) <$> seqZ 1 k) ++
  [((localhost, 9003), Metadata (MetadataNode.started 9003 (MetadataNode.new_node EmptyString (-1))));
   ((localhost, 9002), Metadata (MetadataNode.started 9002 (MetadataNode.new_node localhost 9003)));
   ((localhost, 9001), Metadata (MetadataNode.started 9001 (MetadataNode.new_node localhost 9002)))].

Lemma startCluster_all (k : Z) (w : world) : startCluster_of k w = start_all (cluster_nodes k) w.
Proof.
  unfold startCluster_of, start_all, cluster_nodes. rewrite foldl_app. simpl. unfold start_chain.
  do 3 f_equal. revert w. induction (seqZ 1 k) as [|i l IH]; intros w; simpl; [done|]. apply IH.
Qed.

Lemma cluster_nodes_NoDup k : k <= 1000 -> NoDup (cluster_nodes k).*1.
Proof.
  intros Hk. unfold cluster_nodes. rewrite fmap_app, <- list_fmap_compose. apply NoDup_app. split_and!.
  - apply NoDup_fmap; [|apply NoDup_seqZ]. intros i j [= E]. lia.
  - intros a (i & -> & Hi%elem_of_seqZ)%list_elem_of_fmap. simpl. rewrite !elem_of_cons, elem_of_nil.
    intros [[= ?]|[[= ?]|[[= ?]|[]]]]; lia.
  - repeat constructor; set_solver.
Qed.

Lemma cluster_nodes_ports (k : Z) (a : address) (x : node) :
  (a, x) ∈ cluster_nodes k -> exists port, port ∈ cluster_ports k /\ a = (localhost, port).
Proof.
  unfold cluster_nodes, cluster_ports. intros [(i & [= -> ->] & Hi)%list_elem_of_fmap|Hin]%elem_of_app.
  - exists (8000 + i). split; [|done]. apply elem_of_app. left. apply list_elem_of_fmap. by exists i.
  - rewrite !elem_of_cons, elem_of_nil in Hin.
    destruct Hin as [[= -> ->]|[[= -> ->]|[[= -> ->]|[]]]]; eexists; (split; [|done]);
      apply elem_of_app; right; set_solver.
Qed.

(** ** Stopping and starting again *)

(** A cluster leaves nothing to the next one: whatever its nodes hold and whichever of them
    still run, [stopCluster] comes to an end and touches no other address.  A node
    whose port is free by then is started anew by [startCluster], with an empty store and its
    place in the chain; one whose port is not stays stopped. *)
Theorem restart_is_fresh (k : Z) (freed : address -> bool) (d : fs) (w : world) :
  k <= 1000 ->
  exists w', run_client 1 (stopCluster k) d w = Some (tt, d, w') /\
    (forall a x, (a, x) ∈ cluster_nodes k -> dial a w' = None /\
      (freed a = true -> startCluster_of k (pause freed w') !! a = Some x) /\
      (is_Some (w !! a) -> freed a = false -> dial a (startCluster_of k (pause freed w')) = None)) /\
    (forall a, (forall port, port ∈ cluster_ports k -> a <> (localhost, port)) -> w' !! a = w !! a).
Proof.
  intros Hk. exists (stop_all (cluster_ports k) w). split_and!.
  - by apply ran_client, ran_stopCluster.
  - intros a x Hin. assert (down a (stop_all (cluster_ports k) w)) as Hd.
    { apply stop_all_down. left. by eapply cluster_nodes_ports. }
    split; [by apply dial_not_running|]. rewrite startCluster_all. split; intros H.
    + apply start_all_lookup; [by apply cluster_nodes_NoDup|done|by apply pause_freed].
    + intros Hf. apply (stop_all_in (cluster_ports k)) in H as [y Hy]. apply dial_not_running. intros z Hz.
      rewrite (start_all_taken _ _ y) in Hz by by rewrite pause_kept. injection Hz as <-. by apply Hd.
  - intros a. apply stop_all_others.
Qed.

(** A head that holds a record is killed and comes back empty. *)
Lemma restart_is_fresh_witness :
  let used := Metadata (MetadataNode.set_store (fun _ => {["f" := no_metadata]})
                (MetadataNode.started 9001 (MetadataNode.new_node localhost 9002))) in
  exists w', run_client 1 (stopCluster 2) (FS ∅ (fun _ => true)) {[(localhost, 9001) := used]} =
      Some (tt, FS ∅ (fun _ => true), w') /\
    startCluster_of 2 (pause (fun _ => true) w') !! (localhost, 9001) =
      Some (Metadata (MetadataNode.started 9001 (MetadataNode.new_node localhost 9002))).
Proof.
  intros used.
  destruct (restart_is_fresh 2 (fun _ => true) (FS ∅ (fun _ => true)) {[(localhost, 9001) := used]}) as (w' & H1 & H2 & _);
    [done|].
  exists w'. split; [exact H1|]. apply H2; [|done]. apply elem_of_app. right. do 2 right. left.
Defined.

(** ** A connection to a stopped node *)

(** A stopped node whose listening socket is still there accepts a connection and closes it: a
    client that [SIGPIPE] does not end finds the same as when it is refused, whether or not its
    first message is taken. *)
Theorem unanswered addr chunk hash path chunks root name (d : fs) (connected sent : bool) :
  is_Some (address_of addr) ->
  let l := [Ok connected; Ok sent; Msg []] in
  (run (uploadChunkToNode chunk addr) d l).1.1.1 = Some false /\
  (run (downloadChunkFromNode hash addr) d l).1.1.1 = Some [] /\
  (run (putMetadataToNode addr path chunks root) d l).1.1.1 = Some false /\
  (run (getMetadataFromNode addr name) d l).1.1.1 = Some no_metadata.
Proof.
  intros [[ip port] Ha] l.
  unfold uploadChunkToNode, downloadChunkFromNode, putMetadataToNode, getMetadataFromNode.
  rewrite !(with_node_address _ _ _ _ _ Ha). by destruct connected, sent.
Qed.

(** ** The started cluster *)

Definition compiled_client : Client := new_client storageNodes metadataNodes.
Definition compiled_chain : list address := [(localhost, 9001); (localhost, 9002); (localhost, 9003)].

(** The ports of the cluster are free. *)
Definition all_down (w : world) : Prop := forall port, port ∈ cluster_ports 2 -> w !! (localhost, port) = None.

Lemma all_down_empty : all_down ∅.
Proof. intros port _. apply lookup_empty. Qed.

Lemma started_lookup (a : address) (x : node) (w : world) :
  all_down w -> (a, x) ∈ cluster_nodes 2 -> startCluster w !! a = Some x.
Proof.
  intros Hw Hin. change (startCluster w) with (startCluster_of 2 w). rewrite startCluster_all.
  apply start_all_lookup; [by apply cluster_nodes_NoDup|done|].
  destruct (cluster_nodes_ports _ _ _ Hin) as (port & Hp & ->). by apply Hw.
Qed.

Lemma startCluster_up w : all_down w -> cluster_up compiled_client (startCluster w) compiled_chain.
Proof.
  intros Hw.
  assert (forall i, i = 1 \/ i = 2 -> startCluster w !! (localhost, 8000 + i) =
    Some (Storage (StorageNode.set_running true StorageNode.new_node))) as Hs.
  { intros i Hi. apply started_lookup; [done|]. apply elem_of_app. left. apply list_elem_of_fmap. exists i. split; [done|].
    apply elem_of_seqZ. lia. }
  assert (forall x, x ∈ drop 2 (cluster_nodes 2) -> startCluster w !! x.1 = Some x.2) as Hm.
  { intros [a x] Hin. apply started_lookup; [done|].
    rewrite <- (take_drop 2 (cluster_nodes 2)). apply elem_of_app. by right. }
  split.
  - apply new_client_wf.
  - intros addr Hin%new_client_nodes.
    assert (target <$> storageNodes = [Some (localhost, 8000 + 1); Some (localhost, 8000 + 2)]) as E by by vm_compute.
    apply (list_elem_of_fmap_2 target) in Hin. rewrite E, !elem_of_cons, elem_of_nil in Hin.
    destruct Hin as [Ha|[Ha|[]]].
    + eexists _, _. split_and!; [exact Ha|apply Hs; by left|done].
    + eexists _, _. split_and!; [exact Ha|apply Hs; by right|done].
  - by vm_compute.
  - pose proof (Hm (_, _) ltac:(left)) as H3. pose proof (Hm (_, _) ltac:(right; left)) as H2.
    pose proof (Hm (_, _) ltac:(right; right; left)) as H1. cbn [fst snd] in H1, H2, H3. unfold compiled_chain.
    eapply chain_next; [exact H1|done..| |eapply chain_next; [exact H2|done..| |]].
    + apply (bool_decide_unpack (_ ∉ _)). by vm_compute.
    + apply (bool_decide_unpack (_ ∉ _)). by vm_compute.
    + by eapply chain_last.
Qed.
