(* ===== verification/Store.v ===== *)
(** * The cluster as a map from names to contents

    The specification of the whole system, for requests that come one after the other:
    a map from file names to contents, which an upload extends and a download reads.
    The theorem: any sequence of uploads and downloads, from any files of the clients,
    has in a running cluster the results and the effects the map gives. *)
From S2P Require Import Prelude IoStream Sha256 Chunks ConsistentHash Wire Proc Client Records Cluster Network Replication.
From S2P Require Import LocalCluster.
From S2P Require StorageNode MetadataNode.

#[local] Open Scope Z_scope.

(** ** The specification *)

Abbreviation contents := (gmap string bytes).

(** A request of a client with the files [d]: its outcome, the client's files after
    it, and the contents. *)
Definition spec_request (d : fs) (j : job) (m : contents) : outcome * fs * contents :=
  match j with
  | Upload path =>
      match files d !! path with
      | None | Some [] => (Uploaded (Some EmptyOrMissing), d, m)
      | Some content => (Uploaded (Some UploadComplete), d, <[base_name path := content]> m)
      end
  | Download name out =>
      match m !! name with
      | None => (Downloaded (Some NotInMetadata), d, m)
      | Some content =>
          if creatable d out
          then (Downloaded (Some Reconstructed), FS (<[out := content]> (files d)) (creatable d), m)
          else (Downloaded (Some ReconstructionFailed), d, m)
      end
  end.

Fixpoint spec_requests (rs : list (fs * job)) (m : contents) : list (outcome * fs) * contents :=
  match rs with
  | [] => ([], m)
  | (d, j) :: rs' =>
      let '(o, d', m') := spec_request d j m in
      let '(os, m'') := spec_requests rs' m' in ((o, d') :: os, m'')
  end.

(** ** The implementation *)

(** The same requests, each by a client of the configuration [c]. *)
Fixpoint run_requests (n : nat) (c : Client) (rs : list (fs * job)) (w : world)
    : option (list (outcome * fs) * world) :=
  match rs with
  | [] => Some ([], w)
  | (d, j) :: rs' =>
      '(o, d', w') ← run_client n (job_program c j) d w;
      '(os, w'') ← run_requests n c rs' w';
      Some ((o, d') :: os, w'')
  end.

(** ** Names *)

Lemma after_last_slash_idem s r : after_last_slash s = Some r -> after_last_slash r = None.
Proof.
  revert r. induction s as [|a s IH]; intros r; simpl; [done|].
  destruct (after_last_slash s) as [r'|] eqn:E; [intros [= <-]; by apply IH|].
  case_bool_decide; [|done]. by intros [= <-].
Qed.

Lemma base_name_idem path : base_name (base_name path) = base_name path.
Proof.
  unfold base_name. destruct (after_last_slash path) as [r|] eqn:E; simpl; [|by rewrite E].
  by rewrite (after_last_slash_idem _ _ E).
Qed.

Lemma record_of_base path content : record_of (base_name path) content = record_of path content.
Proof. unfold record_of. by rewrite base_name_idem. Qed.

(** ** The representation *)

(** What is left of a cluster: the storage nodes [lost] are gone, but every key has a
    replica among the others; and of the metadata nodes of the client's list those in the
    middle are a chain, those before and after them are gone. *)
Record cluster_left (c : Client) (lost pre ms post : list address) (w : world) : Prop := {
  left_storage : storage_left (dht_ c) lost w;
  left_addresses : mapM target (metadataNodes_ c) = Some (pre ++ ms ++ post);
  left_gone : Forall (fun a => dial a w = None) (pre ++ post);
  left_chain : chain w ms
}.

Lemma cluster_up_left c w ms : dht_ c <> [] -> cluster_up c w ms -> cluster_left c [] [] ms [] w.
Proof.
  intros Hne []. split; [by apply storage_left_all| |constructor|done]. by rewrite app_nil_r.
Qed.

Lemma chain_running w l a :
  chain w l -> a ∈ l -> exists s, w !! a = Some (Metadata s) /\ MetadataNode.running_ s = true.
Proof. induction 1; set_solver. Qed.

(** Nodes that are gone have no record. *)
Lemma gone_no_record v name addrs gone :
  mapM target addrs = Some gone -> Forall (fun a => dial a v = None) gone -> Forall (no_record v name) addrs.
Proof.
  intros Hg%mapM_Some. induction Hg as [|addr a addrs gone Ha Hg IH]; intros Hd; [constructor|].
  apply Forall_cons in Hd as [H1 H2]. constructor; [|by apply IH]. exists a. split; [done|]. by left.
Qed.

Section Represents.
(** The chunks of everything that is uploaded; no two collide. *)
Context (cs : list Chunk) (Htell : hashes_tell cs) (Hsend : Forall sendable cs).
Context (c : Client) (lost pre ms post : list address).

(** What may be uploaded, under its name. *)
Record storable (name : string) (content : bytes) : Prop := {
  storable_name : token name;
  storable_base : base_name name = name;
  storable_some : content <> [];
  storable_number : numberable content;
  storable_chunks : chunks_of content ⊆ cs
}.

Record represents (w : world) (m : contents) : Prop := {
  rep_left : cluster_left c lost pre ms post w;
  rep_records : forall a s name, a ∈ ms -> w !! a = Some (Metadata s) ->
    MetadataNode.metadataStore_ s !! name = record_of name <$> (m !! name);
  rep_storable : forall name content, m !! name = Some content -> storable name content;
  rep_chunks : forall name content chunk, m !! name = Some content -> chunk ∈ chunks_of content ->
    reaches lost w chunk (replicas (dht_ c) (c_hash chunk))
}.

(** An upload extends the map. *)
Lemma uploaded_represents w w' m path content :
  represents w m -> storable (base_name path) content -> uploaded cs c lost ms path content w w' ->
  represents w' (<[base_name path := content]> m).
Proof.
  intros [Hup Hrec Hst Hch] Hnew Hu. split.
  - destruct Hup as [H1 H2 H3 H4]. split; [by eapply uploaded_storage|done| |by eapply uploaded_chain].
    eapply Forall_impl; [exact H3|]. intros a. by eapply uploaded_dial.
  - intros a s name Ha Hs. destruct (chain_member w ms a) as [s0 Hs0]; [by apply left_chain in Hup|done|].
    pose proof (uploaded_metadata _ _ _ _ _ _ _ _ Hu _ _ Hs0) as Hs'.
    rewrite Hs, decide_True in Hs' by done. injection Hs' as ->.
    unfold stored. cbn [MetadataNode.set_store MetadataNode.metadataStore_].
    change (filename (record_of path content)) with (base_name path).
    destruct (decide (base_name path = name)) as [<-|Hne].
    + rewrite !lookup_insert_eq. simpl. by rewrite record_of_base.
    + rewrite !lookup_insert_ne by done. by eapply Hrec.
  - intros name x. rewrite lookup_insert_Some. intros [[<- <-]|[_ Hx]]; [done|by apply Hst].
  - intros name x chunk. rewrite lookup_insert_Some. intros [[<- <-]|[_ Hx]] Hc.
    + by eapply uploaded_chunks.
    + eapply uploaded_reaches; [done| |by eapply Hch].
      by apply (storable_chunks _ _ (Hst _ _ Hx)).
Qed.

(** ** The requests *)

(** A name is one word, and what is uploaded is among the chunks. *)
Definition admissible (r : fs * job) : Prop :=
  match r.2 with
  | Upload path => forall content, files r.1 !! path = Some content -> content <> [] ->
      token (base_name path) /\ numberable content /\ chunks_of content ⊆ cs
  | Download name _ => token name
  end.

Lemma uploadFile_nothing n path d w :
  files d !! path = None \/ files d !! path = Some [] ->
  runs (S n) (uploadFile c path) d w (Some EmptyOrMissing) w.
Proof.
  intros Hd. unfold runs, uploadFile. cbn [reads mbind io_mbind io_bind talk].
  assert (splitFileIntoChunks d path = []) as ->; [|done].
  destruct Hd as [Hd|Hd]; [unfold splitFileIntoChunks; by rewrite Hd|].
  rewrite (splitFileIntoChunks_eq _ _ _ Hd) by done. by rewrite (proj2 (pieces_nil [])).
Qed.

(** The client's list: what is before the last node of the chain, and what is after. *)
Lemma represents_end w m :
  represents w m -> exists before addr after t s, metadataNodes_ c = before ++ addr :: after /\
    target addr = Some t /\ t ∈ ms /\ w !! t = Some (Metadata s) /\
    MetadataNode.running_ s = true /\ MetadataNode.is_last s = true /\
    forall name, Forall (no_record w name) after.
Proof.
  intros [[_ Hms Hgone Hch] _ _ _]. destruct (chain_end _ _ Hch) as (t & s & Hl & Hw & Hr & He).
  rewrite app_assoc in Hms. apply Forall_app in Hgone as [_ Hgone].
  destruct (addresses_last _ (pre ++ ms) post t Hms) as (before & addr & after & E & Ha & Hp).
  { by rewrite last_app, Hl. }
  exists before, addr, after, t, s. split_and!; [done|done|by apply last_Some_elem_of|done..|].
  intros name. by eapply gone_no_record.
Qed.

Lemma downloadFile_unknown n w m name out d :
  represents w m -> token name -> m !! name = None ->
  runs (S n) (downloadFile c name out) d w (Some NotInMetadata) w.
Proof.
  intros [[_ Hms Hgone Hch] Hrec _ _] Htok Hnone. unfold downloadFile.
  eapply (runs_and_then _ _ _ _ _ None w); [|done]. rewrite <- (app_nil_r (rev _)).
  apply runs_find_skips; [|done|done]. apply Forall_rev. apply mapM_Some in Hms.
  apply Forall_forall. intros addr [i Hi]%list_elem_of_lookup.
  destruct (Forall2_lookup_l _ _ _ _ _ Hms Hi) as (a & Hm & Ha).
  apply list_elem_of_lookup_2 in Hm. exists a. split; [done|].
  rewrite Forall_forall in Hgone. destruct (decide (a ∈ ms)) as [Hin|Hin].
  - destruct (chain_running _ _ _ Hch Hin) as (s & Hs & Hr). right. exists s. split_and!; [done..|].
    right. by rewrite (Hrec _ _ _ Hin Hs), Hnone.
  - left. apply Hgone. rewrite !elem_of_app in *. naive_solver.
Qed.

Lemma run_request n w m d j :
  (length ms <= S n)%nat -> represents w m -> admissible (d, j) ->
  let '(o, d', m') := spec_request d j m in
  exists w', ran (S n) (job_program c j) d w o d' w' /\ represents w' m' /\
    (w' = w \/ exists path content, uploaded cs c lost ms path content w w').
Proof.
  intros Hn Hrep Hadm. pose proof Hrep as [Hup Hrec Hst Hch]. pose proof Hup as [Hs Hms Hgone Hchain].
  destruct j as [path|name out]; simpl in *.
  - assert (forall w' r, runs (S n) (uploadFile c path) d w r w' ->
      ran (S n) (r ← uploadFile c path; mret (Uploaded r)) d w (Uploaded r) d w') as Hjob.
    { intros w' r H. by eapply ran_bind. }
    destruct (files d !! path) as [content|] eqn:Hd.
    2: { exists w. split_and!; [|done|by left]. apply Hjob, uploadFile_nothing. by left. }
    destruct (decide (content = [])) as [->|Hne].
    { exists w. split_and!; [|done|by left]. apply Hjob, uploadFile_nothing. by right. }
    destruct (Hadm content Hd Hne) as (Htok & Hnum & Hsub).
    apply Forall_app in Hgone as [Hpre _].
    destruct (runs_uploads cs n c lost pre ms post path content d w) as (w' & H1 & H2); [done..|].
    destruct content as [|b content]; [done|]. exists w'. split_and!; [by apply Hjob| |right; by do 2 eexists].
    eapply uploaded_represents; [done|split|done]; try done. apply base_name_idem.
  - assert (forall w' d' r, ran (S n) (downloadFile c name out) d w r d' w' ->
      ran (S n) (r ← downloadFile c name out; mret (Downloaded r)) d w (Downloaded r) d' w') as Hjob.
    { intros w' d' r H. by eapply ran_bind. }
    destruct (m !! name) as [content|] eqn:Hm.
    2: { exists w. split_and!; [|done|by left]. apply Hjob. by eapply downloadFile_unknown. }
    destruct (Hst _ _ Hm) as [Htok Hbase Hne Hnum _].
    destruct (represents_end _ _ Hrep) as (before & addr & after & t & s & E & Ha & Ht & Hw & Hrun & Hend & Hafter).
    epose proof (ran_download_from n c before addr after t s name out content lost d w) as H.
    rewrite Hbase in H. unfold written in H. destruct Hs as [Hring _ Hlost Hex].
    assert (MetadataNode.metadataStore_ s !! name = Some (record_of name content)) as Hs'.
    { by rewrite (Hrec _ _ _ Ht Hw), Hm. }
    assert (forall chunk, chunk ∈ chunks_of content -> reaches lost w chunk (replicas (dht_ c) (c_hash chunk)))
      as Hchunks by (intros chunk; by eapply Hch).
    destruct (creatable d out); exists w; (split_and!; [apply Hjob, H; done|done|by left]).
Qed.

Lemma run_all n rs w m :
  (length ms <= S n)%nat -> represents w m -> Forall admissible rs ->
  exists w', run_requests (S n) c rs w = Some ((spec_requests rs m).1, w') /\
    represents w' (spec_requests rs m).2.
Proof.
  intros Hn Hrep Hrs. revert w m Hrep. induction Hrs as [|[d j] rs Hj Hrs IH]; intros w m Hrep; [by exists w|].
  pose proof (run_request n w m d j Hn Hrep Hj) as H. cbn [run_requests spec_requests].
  destruct (spec_request d j m) as [[o d'] m']. destruct H as (w1 & H1 & H2 & _).
  destruct (IH _ _ H2) as (w2 & H3 & H4). exists w2. rewrite (ran_client _ _ _ _ _ _ _ H1). simpl. rewrite H3.
  by destruct (spec_requests rs m').
Qed.
End Represents.

(** A cluster that is up and knows no file represents the empty map. *)
Lemma represents_empty cs c ms w :
  dht_ c <> [] -> cluster_up c w ms ->
  (forall a s, a ∈ ms -> w !! a = Some (Metadata s) -> MetadataNode.metadataStore_ s = ∅) ->
  represents cs c [] [] ms [] w ∅.
Proof.
  intros Hne Hup Hempty. split; [by apply cluster_up_left| |done|done]. intros a s name Ha Hs. by rewrite (Hempty _ _ Ha Hs).
Qed.

(** Different hashes: no collision. *)
Lemma nodup_tells cs : NoDup (c_hash <$> cs) -> hashes_tell cs.
Proof.
  intros Hnd x y [i Hi]%list_elem_of_lookup [j Hj]%list_elem_of_lookup E.
  assert (i = j) as ->; [|congruence].
  eapply (NoDup_lookup _ _ _ (c_hash x) Hnd); rewrite list_lookup_fmap, ?Hi, ?Hj; simpl; by rewrite ?E.
Qed.

(** The metadata nodes of [startCluster] are new. *)
Lemma started_metadata w a s :
  all_down w -> a ∈ compiled_chain -> startCluster w !! a = Some (Metadata s) ->
  exists port ip next, s = MetadataNode.started port (MetadataNode.new_node ip next).
Proof.
  intros Hw Ha Hs.
  assert (Forall (fun a => exists port ip next,
            (a, Metadata (MetadataNode.started port (MetadataNode.new_node ip next))) ∈ cluster_nodes 2)
            compiled_chain) as Hall.
  { unfold compiled_chain. rewrite !Forall_cons. split_and!; [..|by apply Forall_nil]; do 3 eexists;
      apply elem_of_app; right.
    1: do 2 right; left. 1: right; left. left. }
  rewrite Forall_forall in Hall. destruct (Hall a Ha) as (port & ip & next & Hin).
  rewrite (started_lookup _ _ _ Hw Hin) in Hs. injection Hs as <-. by do 3 eexists.
Qed.

(** The cluster of [startCluster] represents the empty map. *)
Lemma started_represents cs w : all_down w -> represents cs compiled_client [] [] compiled_chain [] (startCluster w) ∅.
Proof.
  intros Hw. apply represents_empty; [by vm_compute|by apply startCluster_up|]. intros a s Ha Hs.
  by destruct (started_metadata w a s Hw Ha Hs) as (port & ip & next & ->).
Qed.

(** ** Properties *)

(** The cluster implements a map from names to contents: from a world that represents
    the map [m], every sequence of uploads and downloads comes to an end, each with the
    outcome and the client's files that the specification gives, and in a world that
    represents the contents after them.  Some storage nodes may be gone, as
    long as every key has a replica left, and metadata nodes at both ends of the client's
    list, as long as those between them are a chain.  In particular a download
    writes what was last uploaded under the name, uploads under other names do not
    disturb it, unknown names are reported, and missing or empty files change nothing.
    Names are single words, and no two chunks of the uploaded files collide under
    SHA-256. *)
Theorem cluster_refines_map cs c lost pre ms post rs w m :
  hashes_tell cs -> Forall sendable cs ->
  represents cs c lost pre ms post w m -> Forall (admissible cs) rs ->
  exists w', run_requests (length ms) c rs w = Some ((spec_requests rs m).1, w') /\
    represents cs c lost pre ms post w' (spec_requests rs m).2.
Proof.
  intros Htell Hsend Hrep Hrs.
  assert (exists n, length ms = S n) as [n Hn].
  { destruct Hrep as [[_ _ _ Hch] _ _ _]. inversion Hch; by eexists. }
  rewrite Hn. apply run_all; [done..|lia|done|done].
Qed.

(** On the cluster of the measurement programs: a file is uploaded twice with different
    contents, then downloaded; a name that was never uploaded is not found, and an empty
    file is refused. *)
Lemma cluster_refines_map_witness :
  let one := bytes_of_string "one" in
  let two := bytes_of_string "two" in
  let d := FS (<["a/f" := one]> (<["b/f" := two]> {["e" := []]})) (fun _ => true) in
  exists w', run_requests 3 compiled_client
      [(d, Upload "a/f"); (d, Upload "b/f"); (d, Download "f" "out"); (d, Download "g" "out"); (d, Upload "e")]
      (startCluster ∅) =
    Some ([(Uploaded (Some UploadComplete), d); (Uploaded (Some UploadComplete), d);
           (Downloaded (Some Reconstructed), FS (<["out" := two]> (files d)) (creatable d));
           (Downloaded (Some NotInMetadata), d); (Uploaded (Some EmptyOrMissing), d)], w') /\
    represents (chunks_of one ++ chunks_of two) compiled_client [] [] compiled_chain [] w' {["f" := two]}.
Proof.
  intros one two d.
  destruct (cluster_refines_map (chunks_of one ++ chunks_of two) compiled_client [] [] compiled_chain []
     [(d, Upload "a/f"); (d, Upload "b/f"); (d, Download "f" "out"); (d, Download "g" "out"); (d, Upload "e")]
     (startCluster ∅) ∅) as (w' & H1 & H2).
  - apply nodup_tells, (bool_decide_unpack _). by vm_compute.
  - apply Forall_app. split; apply chunks_of_sendable.
  - apply started_represents, all_down_empty.
  - rewrite !Forall_cons. unfold admissible. cbn [fst snd]. split_and!; [..|by apply Forall_nil].
    + intros content [= <-] _. split_and!; [by apply (bool_decide_unpack (_ /\ _)); vm_compute|
        by apply (bool_decide_unpack (_ < _)); vm_compute|]. intros x Hx. apply elem_of_app. by left.
    + intros content [= <-] _. split_and!; [by apply (bool_decide_unpack (_ /\ _)); vm_compute|
        by apply (bool_decide_unpack (_ < _)); vm_compute|]. intros x Hx. apply elem_of_app. by right.
    + done.
    + done.
    + by intros content [= <-].
  - exists w'. split; [exact H1|exact H2].
Defined.
