(* ===== verification/Repair.v ===== *)
(** * The repair of the chain: health checks in the cluster

    One turn of [healthCheckLoop] of a node is a step of the world of [Cluster.v]: its
    [PING] and its [UPDATE_PREV] are answered by the nodes there.

    The theorems: the checks come to the same in every order; the loss of the tail costs
    nothing, and the cluster goes on as the map of [Store.v]; the loss of a node in the
    middle leaves two chains, and an overwritten file is read with its old contents; and
    the repair that [SET_SKIP] prepares joins the chain, but no program of the repository
    sends it. *)
From S2P Require Import Prelude IoStream Sha256 Chunks ConsistentHash Wire Proc Client Records Cluster Network Replication.
From S2P Require Import LocalCluster Store.
From S2P Require StorageNode MetadataNode.

#[local] Open Scope Z_scope.

(** ** Health checks *)

(** One health check of the node at [a]; nothing happens where no metadata node is.
    [None] is a check that waits for ever. *)
Definition health_check (n : nat) (a : address) (w : world) : option world :=
  match w !! a with
  | Some (Metadata s) =>
      match talk (deliver n) MetadataNode.healthCheck s (delete a w) None None [] with
      | Some (Talking (Ret _) s' w' _ _ _) => Some (<[a := Metadata s']> w')
      | _ => None
      end
  | _ => Some w
  end.

(** Health checks of several nodes, one after the other. *)
Fixpoint health_checks (n : nat) (l : list address) (w : world) : option world :=
  match l with
  | [] => Some w
  | a :: l' => w' ← health_check n a w; health_checks n l' w'
  end.

(** ** What the nodes answer *)

Lemma metadata_ping dl s w :
  MetadataNode.running_ s = true ->
  talk dl MetadataNode.handleClient s w None (Some (bytes_of_string "PING")) [] =
  Some (Talking (Ret true) s w None None [bytes_of_string "PONG"]).
Proof.
  intros Hr. unfold MetadataNode.handleClient, MetadataNode.handleClient_turn.
  cbn [reads mbind io_mbind io_bind talk]. by rewrite Hr.
Qed.

Lemma deliver_ping n b s w :
  w !! b = Some (Metadata s) -> MetadataNode.running_ s = true ->
  deliver (S n) (bytes_of_string "PING") (Conn b (HMetadata MetadataNode.handleClient) []) w =
  Some (Conn b (HMetadata MetadataNode.handleClient) [bytes_of_string "PONG"], w).
Proof.
  intros Hw Hr. rewrite (deliver_metadata _ _ _ _ _ _ _ Hw), (metadata_ping _ _ _ Hr).
  cbn [prog members others answers again app]. by rewrite insert_back.
Qed.

(** A node that got a predecessor. *)
Definition preceded (ip : string) (port : Z) (s : MetadataNode.MetadataNode) : MetadataNode.MetadataNode :=
  let s1 := MetadataNode.set_prevPort port (MetadataNode.set_prevIp ip s) in
  MetadataNode.set_role
    (match MetadataNode.role_ s1 with
     | MetadataNode.HEAD => MetadataNode.MIDDLE
     | MetadataNode.SINGLE => MetadataNode.TAIL
     | r => r
     end) s1.

Lemma read_address port :
  in_int port ->
  exists i, extract_string (istringstream ("UPDATE_PREV 127.0.0.1 " +:+ to_string port)) = (Some "UPDATE_PREV", i) /\
    MetadataNode.extract_address i = Some ("127.0.0.1", port).
Proof.
  intros Hp. change ("UPDATE_PREV 127.0.0.1 " +:+ ?x) with ("UPDATE_PREV" +:+ String " " ("127.0.0.1 " +:+ x)).
  unfold istringstream. rewrite read_word by done. eexists. split; [done|].
  change ("127.0.0.1 " +:+ ?x) with ("127.0.0.1" +:+ String " " x). unfold MetadataNode.extract_address.
  rewrite read_space_word by done.
  rewrite <- (str_app_nil_r (to_string port)), extract_int_space, extract_int_to_string by done. done.
Qed.

Lemma metadata_update_prev dl s w port :
  MetadataNode.running_ s = true -> in_int port ->
  talk dl MetadataNode.handleClient s w None
    (Some (bytes_of_string ("UPDATE_PREV 127.0.0.1 " +:+ to_string port))) [] =
  Some (Talking (Ret true) (preceded "127.0.0.1" port s) w None None [bytes_of_string "ACK"]).
Proof.
  intros Hr Hp. destruct (read_address port Hp) as (i & E & E').
  unfold MetadataNode.handleClient, MetadataNode.handleClient_turn.
  cbn [reads mbind io_mbind io_bind talk]. rewrite Hr.
  cbn [negb server_recvMessage mbind io_mbind io_bind talk with_lock acquire release mret io_ret].
  rewrite string_bytes_id, bool_decide_eq_false_2, E by done. cbn [default from_option id].
  rewrite 3!bool_decide_eq_false_2, bool_decide_eq_true_2, E' by done.
  destruct s as [? ? ? ? ? ? ? ? r ?]. by destruct r.
Qed.

Lemma deliver_update_prev n b s w port :
  w !! b = Some (Metadata s) -> MetadataNode.running_ s = true -> in_int port ->
  deliver (S n) (bytes_of_string ("UPDATE_PREV 127.0.0.1 " +:+ to_string port))
    (Conn b (HMetadata MetadataNode.handleClient) []) w =
  Some (Conn b (HMetadata MetadataNode.handleClient) [bytes_of_string "ACK"],
        <[b := Metadata (preceded "127.0.0.1" port s)]> w).
Proof.
  intros Hw Hr Hp. rewrite (deliver_metadata _ _ _ _ _ _ _ Hw), (metadata_update_prev _ _ _ _ Hr Hp).
  cbn [prog members others answers again app]. by rewrite insert_delete_eq.
Qed.

(** ** What a health check does *)

(** Where the successor of a node is reached. *)
Definition successor (s : MetadataNode.MetadataNode) : option address :=
  endpoint (MetadataNode.nextNodeIp_ s) (MetadataNode.nextNodePort_ s).

Section Check.
Context (n : nat) (a : address) (s : MetadataNode.MetadataNode) (w : world).
Context (Hw : w !! a = Some (Metadata s)) (Hr : MetadataNode.running_ s = true).

(** The end of the chain does nothing. *)
Lemma check_last : MetadataNode.nextNodePort_ s = -1 -> health_check n a w = Some w.
Proof.
  intros Hn. unfold health_check. rewrite Hw. unfold MetadataNode.healthCheck.
  cbn [reads mbind io_mbind io_bind talk]. rewrite Hr. cbn [negb reads mbind io_mbind io_bind talk]. rewrite Hn.
  rewrite bool_decide_eq_false_2 by (intros H; by apply H). cbn [mret io_ret talk]. by rewrite insert_back.
Qed.

Context (Hn : MetadataNode.nextNodePort_ s <> -1) (Hself : successor s <> Some a).

Lemma dial_delete b : b <> a -> dial b (delete a w) = dial b w.
Proof. intros Hb. unfold dial. by rewrite lookup_delete_ne. Qed.

(** A successor that answers is left alone. *)
Lemma check_quiet b s' :
  successor s = Some b -> w !! b = Some (Metadata s') -> MetadataNode.running_ s' = true ->
  health_check (S n) a w = Some w.
Proof.
  intros Hb Hw' Hr'. assert (b <> a) as Hba by (intros ->; by apply Hself).
  unfold health_check. rewrite Hw. unfold MetadataNode.healthCheck, MetadataNode.pingNext.
  cbn [reads mbind io_mbind io_bind talk]. rewrite Hr. cbn [negb reads mbind io_mbind io_bind talk].
  rewrite bool_decide_eq_true_2 by done. cbn [reads client_connect mbind io_mbind io_bind talk].
  fold (successor s). rewrite Hb. cbn [mbind option_bind]. rewrite dial_delete, (dial_metadata _ _ _ Hw' Hr') by done.
  cbn [negb client_sendMessage mbind io_mbind io_bind talk].
  assert (delete a w !! b = Some (Metadata s')) as Hw2 by (by rewrite lookup_delete_ne).
  rewrite (deliver_ping _ _ _ _ Hw2 Hr').
  cbn [negb client_recvMessage client_closes mbind io_mbind io_bind talk].
  rewrite (deliver_metadata_eof _ _ _ _ _ Hw2). cbn [negb mret io_ret mbind io_mbind io_bind talk].
  rewrite string_bytes_id, bool_decide_eq_true_2 by done.
  cbn [negb mret io_ret mbind io_mbind io_bind talk]. by rewrite insert_back.
Qed.

Context (Hdown : forall b, successor s = Some b -> dial b w = None).

Lemma dial_down : (successor s ≫= fun b => dial b (delete a w)) = None.
Proof.
  destruct (successor s) as [b|] eqn:E; [|done]. simpl. rewrite dial_delete; [by apply Hdown|].
  intros ->. by apply Hself.
Qed.

(** A node whose successor is gone becomes the last one ... *)
Lemma check_cuts :
  MetadataNode.skipToPort_ s = -1 ->
  health_check n a w = Some (<[a := Metadata (MetadataNode.cut_off s)]> w).
Proof.
  intros Hs. unfold health_check. rewrite Hw. unfold MetadataNode.healthCheck, MetadataNode.pingNext.
  cbn [reads mbind io_mbind io_bind talk]. rewrite Hr. cbn [negb reads mbind io_mbind io_bind talk].
  rewrite bool_decide_eq_true_2 by done. cbn [reads client_connect mbind io_mbind io_bind talk].
  fold (successor s). rewrite dial_down.
  unfold MetadataNode.handleNextNodeFailure, with_lock.
  cbn [negb acquire release reads modify mret io_ret mbind io_mbind io_bind talk].
  rewrite Hs, bool_decide_eq_false_2 by (intros H; by apply H).
  cbn [reads modify release mret io_ret mbind io_mbind io_bind talk].
  by rewrite insert_delete_eq.
Qed.

(** ... unless it knows whom to skip to: the node there gets it as its predecessor. *)
Lemma check_skips b s' :
  endpoint (MetadataNode.skipToIp_ s) (MetadataNode.skipToPort_ s) = Some b -> MetadataNode.skipToPort_ s <> -1 ->
  b <> a -> w !! b = Some (Metadata s') -> MetadataNode.running_ s' = true ->
  in_int (MetadataNode.myPort_ s) ->
  health_check (S n) a w =
    Some (<[a := Metadata (MetadataNode.bypassed s)]>
           (<[b := Metadata (preceded "127.0.0.1" (MetadataNode.myPort_ s) s')]> w)).
Proof.
  intros Hb Hs Hba Hw' Hr' Hp. unfold health_check. rewrite Hw.
  unfold MetadataNode.healthCheck, MetadataNode.pingNext.
  cbn [reads mbind io_mbind io_bind talk]. rewrite Hr. cbn [negb reads mbind io_mbind io_bind talk].
  rewrite bool_decide_eq_true_2 by done. cbn [reads client_connect mbind io_mbind io_bind talk].
  fold (successor s). rewrite dial_down.
  unfold MetadataNode.handleNextNodeFailure, with_lock, MetadataNode.notifyNextOfPredecessor.
  cbn [negb acquire release reads modify mret io_ret mbind io_mbind io_bind talk].
  rewrite bool_decide_eq_true_2 by done.
  cbn [acquire release reads modify client_connect mret io_ret mbind io_mbind io_bind talk].
  cbn [MetadataNode.nextNodeIp_ MetadataNode.nextNodePort_ MetadataNode.set_nextIp MetadataNode.set_nextPort
       MetadataNode.set_skipIp MetadataNode.set_skipPort MetadataNode.skipToIp_ MetadataNode.skipToPort_
       MetadataNode.myPort_].
  rewrite Hb. cbn [mbind option_bind]. rewrite dial_delete, (dial_metadata _ _ _ Hw' Hr') by done.
  cbn [negb client_sendMessage client_closes reads mbind io_mbind io_bind talk MetadataNode.myPort_].
  assert (delete a w !! b = Some (Metadata s')) as Hw2 by (by rewrite lookup_delete_ne).
  rewrite (deliver_update_prev _ _ _ _ _ Hw2 Hr' Hp).
  cbn [client_closes mbind io_mbind io_bind talk].
  rewrite (deliver_metadata_eof _ _ (preceded "127.0.0.1" (MetadataNode.myPort_ s) s')) by apply lookup_insert_eq.
  cbn [mbind io_mbind io_bind talk mret io_ret]. f_equal.
  by rewrite <- delete_insert_ne, insert_delete_eq.
Qed.
End Check.

(** ** Chains *)

Lemma chain_nodup w ms : chain w ms -> NoDup ms.
Proof. induction 1; [apply NoDup_singleton|by apply NoDup_cons]. Qed.

(** A node of a chain is its last one, or its successor is the next one. *)
Lemma chain_links w ms x :
  chain w ms -> x ∈ ms ->
  exists i s, ms !! i = Some x /\ w !! x = Some (Metadata s) /\ MetadataNode.running_ s = true /\
    ((MetadataNode.is_last s = true /\ last ms = Some x) \/
     (MetadataNode.is_last s = false /\ MetadataNode.has_next s = true /\
      exists y, successor s = Some y /\ y <> x /\ ms !! S i = Some y)).
Proof.
  induction 1 as [a s H1 H2 H3|a b l s H1 H2 H3 H4 H5 H6 H7 IH]; intros Hx.
  - apply list_elem_of_singleton in Hx as ->. exists O, s. split_and!; [done..|]. by left.
  - apply elem_of_cons in Hx as [->|Hx].
    + exists O, s. split_and!; [done..|]. right. split_and!; [done..|]. exists b. split_and!; [done| |done].
      intros ->. apply H6. by left.
    + destruct (IH Hx) as (i & s' & Hi & Hw & Hr & Hn). exists (S i), s'. split_and!; [done..|].
      destruct Hn as [[Hl Hlast]|Hn]; [left|by right]. split; [done|]. by rewrite last_cons_cons.
Qed.

Lemma chain_suffix w l ms : ms <> [] -> chain w (l ++ ms) -> chain w ms.
Proof.
  intros Hne. induction l as [|a l IH]; [done|]. intros Hch. apply IH. inversion Hch as [? s|]; subst; [|done].
  by destruct l, ms.
Qed.

(** A chain that goes on differently after [a], with fewer nodes. *)
Lemma chain_graft w w' l a r r' :
  chain w (l ++ a :: r) -> (forall x, x ∈ l -> w' !! x = w !! x) -> r' ⊆ r ->
  chain w' (a :: r') -> chain w' (l ++ a :: r').
Proof.
  intros Hch Hl Hsub Ha. induction l as [|x l IH]; [done|].
  assert (exists y l', l ++ a :: r = y :: l' /\ exists l'', l ++ a :: r' = y :: l'' /\ (forall z, z ∈ l'' -> z ∈ l')) as
    (y & l' & E & l'' & E' & Hin).
  { destruct l as [|y l]; [exists a, r|exists y, (l ++ a :: r)]; (split; [done|]); eexists; (split; [done|]).
    - exact Hsub.
    - intros z. rewrite !elem_of_app, !elem_of_cons. specialize (Hsub z). naive_solver. }
  cbn [app] in *. rewrite E in *. rewrite E' in *.
  inversion Hch as [|? ? ? s0 Hx Hrx Hlx Hnx Hb Hnin Hch']; subst. eapply chain_next; [| done..| |].
  - rewrite Hl by left. exact Hx.
  - intros [->|Hz]%elem_of_cons; apply Hnin; [left|right; by apply Hin].
  - apply IH; [done|]. intros z Hz. apply Hl. by right.
Qed.

(** The first node of a chain gets a predecessor. *)
Lemma chain_preceded w w' ip port c r s :
  chain w (c :: r) -> w !! c = Some (Metadata s) -> w' !! c = Some (Metadata (preceded ip port s)) ->
  (forall x, x ∈ r -> w' !! x = w !! x) -> chain w' (c :: r).
Proof.
  intros Hch Hw Hw' Hr.
  assert (MetadataNode.is_last (preceded ip port s) = MetadataNode.is_last s) as El.
  { unfold MetadataNode.is_last, preceded. simpl. by destruct (MetadataNode.role_ s). }
  inversion Hch as [? s0 H1 H2 H3|? b l s0 H1 H2 H3 H4 H5 H6 H7]; subst;
    rewrite Hw in H1; injection H1 as <-.
  - eapply chain_last; [exact Hw'|done|by rewrite El].
  - eapply chain_next; [exact Hw'|done|by rewrite El|done|done|done|]. by eapply chain_ext.
Qed.

(** Nobody has told the nodes whom to skip to, and only the last one has no successor. *)
Definition settled (w : world) (ms : list address) : Prop :=
  forall a s, a ∈ ms -> w !! a = Some (Metadata s) ->
    MetadataNode.chain_wf s /\ MetadataNode.skipToPort_ s = -1.

Lemma started_settled w : all_down w -> settled (startCluster w) compiled_chain.
Proof.
  intros Hw a s Ha Hs. destruct (started_metadata w a s Hw Ha Hs) as (port & ip & next & ->). split; [|done].
  unfold MetadataNode.chain_wf, MetadataNode.is_last. simpl. split; [|done].
  rewrite bool_decide_eq_true. case_bool_decide; naive_solver.
Qed.

Lemma uploaded_settled cs c lost ms path content w w' l :
  chain w l -> settled w l -> uploaded cs c lost ms path content w w' -> settled w' l.
Proof.
  intros Hch Hset Hu a s Ha Hs. destruct (chain_member _ _ _ Hch Ha) as [s0 Hs0].
  rewrite (uploaded_metadata _ _ _ _ _ _ _ _ Hu _ _ Hs0) in Hs. specialize (Hset _ _ Ha Hs0).
  by destruct (decide (a ∈ ms)); injection Hs as <-.
Qed.

(** A node of a chain whose successor is up, or which has none, changes nothing. *)
Lemma check_steady n w w' ms x :
  chain w ms -> settled w ms -> x ∈ ms -> w' !! x = w !! x ->
  (forall i y, ms !! i = Some x -> ms !! S i = Some y ->
     exists s, w' !! y = Some (Metadata s) /\ MetadataNode.running_ s = true) ->
  health_check (S n) x w' = Some w'.
Proof.
  intros Hch Hset Hx Hw Hnext. destruct (chain_links _ _ _ Hch Hx) as (i & s & Hi & Hs & Hr & Hn).
  rewrite Hs in Hw. destruct (Hset _ _ Hx Hs) as [[Hwf _] _].
  destruct Hn as [[Hl _]|(Hl & Hh & y & Hsy & Hself & Hy)].
  - apply (check_last _ _ s); [done|done|by apply Hwf].
  - destruct (Hnext _ _ Hi Hy) as (s' & Hs' & Hr').
    apply (check_quiet _ _ s _ Hw Hr) with (b := y) (s' := s'); [| |done..].
    + by apply bool_decide_eq_true in Hh.
    + rewrite Hsy. congruence.
Qed.

(** ** One node of the chain is lost *)

Section Lost.
Context (w v : world) (l r : list address) (a b : address).
Context (Hch : chain w (l ++ a :: b :: r)) (Hset : settled w (l ++ a :: b :: r)) (Hv : without [b] w v).

Lemma lost_nodup : NoDup (l ++ a :: b :: r).
Proof. by eapply chain_nodup. Qed.

Lemma lost_distinct x : x ∈ l ++ a :: r -> x <> b.
Proof.
  intros Hx ->. pose proof lost_nodup as Hnd. apply NoDup_app in Hnd as (_ & H1 & H2).
  apply NoDup_cons in H2 as [H2 H3]. apply NoDup_cons in H3 as [H3 _].
  apply elem_of_app in Hx as [Hx|[->|Hx]%elem_of_cons].
  - apply (H1 _ Hx). right. left.
  - apply H2. left.
  - done.
Qed.

Lemma lost_a : a ∉ l ++ r.
Proof.
  pose proof lost_nodup as Hnd. apply NoDup_app in Hnd as (_ & H1 & H2).
  apply NoDup_cons in H2 as [H2 _]. intros [Hin|Hin]%elem_of_app.
  - apply (H1 _ Hin). left.
  - apply H2. by right.
Qed.

Lemma lost_left x : x ∈ l ++ a :: r -> v !! x = w !! x.
Proof. intros Hx. apply (left_others _ _ _ Hv). intros Hb%list_elem_of_singleton. by eapply lost_distinct. Qed.

Lemma lost_not_last : last (l ++ a :: b :: r) <> Some a.
Proof.
  rewrite last_app_cons, last_cons_cons. intros Hl%last_Some_elem_of.
  apply elem_of_cons in Hl as [E|Hl]; [|apply lost_a, elem_of_app; by right].
  apply (lost_distinct a); [|done]. apply elem_of_app. right. left.
Qed.

Lemma lost_predecessor : exists s,
  v !! a = Some (Metadata s) /\ w !! a = Some (Metadata s) /\ MetadataNode.running_ s = true /\
  MetadataNode.nextNodePort_ s <> -1 /\ successor s = Some b /\ MetadataNode.skipToPort_ s = -1.
Proof.
  assert (a ∈ l ++ a :: b :: r) as Ha by (apply elem_of_app; right; left).
  destruct (chain_links _ _ _ Hch Ha) as (i & s & Hi & Hs & Hr & [[_ Hl]|(_ & Hh & y & Hsy & _ & Hy)]);
    [by apply lost_not_last in Hl|].
  assert (i = length l) as ->.
  { eapply NoDup_lookup; [apply lost_nodup|exact Hi|]. by apply list_lookup_middle. }
  exists s. destruct (Hset _ _ Ha Hs) as [_ Hskip].
  rewrite lost_left by (apply elem_of_app; right; left). split_and!; try done.
  - by apply bool_decide_eq_true in Hh.
  - rewrite lookup_app_r in Hy by lia. replace (S (length l) - length l)%nat with 1%nat in Hy by lia.
    injection Hy as ->. done.
Qed.

Lemma lost_next x i y :
  x ∈ l ++ r -> (l ++ a :: b :: r) !! i = Some x -> (l ++ a :: b :: r) !! S i = Some y -> y ∈ l ++ a :: r.
Proof.
  intros Hx Hi Hy. assert (y <> b) as Hyb.
  { intros ->. assert (S i = S (length l)) as [= ->].
    { eapply NoDup_lookup; [apply lost_nodup|exact Hy|].
      rewrite lookup_app_r by lia. by replace (S (length l) - length l)%nat with 1%nat by lia. }
    rewrite list_lookup_middle in Hi by done. injection Hi as E.
    rewrite <- E in Hx. by apply lost_a. }
  apply list_elem_of_lookup_2 in Hy. rewrite elem_of_app, !elem_of_cons in Hy.
  rewrite elem_of_app, elem_of_cons. naive_solver.
Qed.

(** Every other node of the chain is content with its successor, in the world left by
    the loss and in any that differs from it only at [a]. *)
Lemma lost_steady n v' x s :
  (forall y, y <> a -> v' !! y = v !! y) -> v' !! a = Some (Metadata s) -> MetadataNode.running_ s = true ->
  x ∈ l ++ r -> health_check (S n) x v' = Some v'.
Proof.
  intros Hv' Ha Hr Hx.
  assert (x <> a) as Hxa by (intros E; rewrite E in Hx; by apply lost_a).
  assert (x ∈ l ++ a :: r) as Hx' by (apply elem_of_app in Hx; rewrite elem_of_app, elem_of_cons; naive_solver).
  apply (check_steady n w v' (l ++ a :: b :: r)); [done|done| | |].
  - rewrite elem_of_app in Hx. rewrite elem_of_app, !elem_of_cons. naive_solver.
  - by rewrite Hv', lost_left.
  - intros i y Hi Hy. pose proof (lost_next _ _ _ Hx Hi Hy) as Hin.
    destruct (decide (y = a)) as [->|Hya]; [by exists s|].
    rewrite Hv', lost_left by done. apply (chain_running w (l ++ a :: b :: r)); [done|].
    by apply list_elem_of_lookup_2 in Hy.
Qed.

(** The world after the repair: the predecessor of the lost node is the end. *)
Definition cut (x : node) : node :=
  match x with Metadata s => Metadata (MetadataNode.cut_off s) | Storage s => Storage s end.
Definition repaired : world := alter cut a v.

Lemma repaired_at s : v !! a = Some (Metadata s) -> repaired = <[a := Metadata (MetadataNode.cut_off s)]> v.
Proof.
  intros Ha. apply map_eq. intros x. unfold repaired. destruct (decide (x = a)) as [->|Hx].
  - by rewrite lookup_alter_eq, lookup_insert_eq, Ha.
  - by rewrite lookup_alter_ne, lookup_insert_ne.
Qed.

Lemma repaired_others x : x <> a -> repaired !! x = v !! x.
Proof. intros Hx. unfold repaired. by rewrite lookup_alter_ne. Qed.

(** Health checks in any order, each node as often as it likes: what they come to
    depends only on whether the predecessor of the lost node is among them. *)
Lemma lost_checks n order :
  Forall (fun x => x ∈ l ++ a :: r) order ->
  health_checks (S n) order v = Some (if decide (a ∈ order) then repaired else v).
Proof.
  destruct lost_predecessor as (s & Ha & _ & Hr & Hn & Hsucc & Hskip). pose proof (repaired_at _ Ha) as Erep.
  assert (forall x, x ∈ l ++ a :: r -> x <> a -> x ∈ l ++ r) as Hother.
  { intros x. rewrite !elem_of_app, elem_of_cons. naive_solver. }
  assert (forall order, Forall (fun x => x ∈ l ++ a :: r) order ->
    health_checks (S n) order repaired = Some repaired) as Hafter.
  { clear order. intros order. induction 1 as [|x order Hx _ IH]; [done|]. cbn [health_checks].
    assert (repaired !! a = Some (Metadata (MetadataNode.cut_off s))) as Hra by (rewrite Erep; apply lookup_insert_eq).
    assert (health_check (S n) x repaired = Some repaired) as ->; [|exact IH].
    destruct (decide (x = a)) as [->|Hxa]; [by apply (check_last _ _ (MetadataNode.cut_off s))|].
    apply (lost_steady n repaired x (MetadataNode.cut_off s)); [apply repaired_others|done|done|by apply Hother]. }
  intros Hall. induction Hall as [|x order Hx Hall IH].
  { rewrite decide_False by (by apply not_elem_of_nil). done. }
  cbn [health_checks]. destruct (decide (x = a)) as [->|Hxa].
  - rewrite (check_cuts _ _ s); [|done|done|done| | |done].
    + rewrite decide_True by left. rewrite <- Erep. by apply Hafter.
    + rewrite Hsucc. intros [= E]. revert E. apply not_eq_sym, lost_distinct, elem_of_app. right. left.
    + rewrite Hsucc. intros b' [= <-]. apply (left_lost _ _ _ Hv). by left.
  - rewrite (lost_steady n v x s) by (done || by apply Hother). cbn [mbind option_bind]. rewrite IH.
    f_equal. destruct (decide (a ∈ order)).
    + rewrite decide_True by (by right). done.
    + rewrite decide_False by (by intros [->|]%elem_of_cons). done.
Qed.

Lemma repaired_chain : chain repaired (l ++ [a]).
Proof.
  destruct lost_predecessor as (s & Ha & _ & Hr & _).
  eapply (chain_graft w repaired l a (b :: r) []); [done| |apply list_subseteq_nil|
    eapply (chain_last _ _ (MetadataNode.cut_off s)); [|done|]].
  - intros x Hx. rewrite repaired_others by (intros E; rewrite E in Hx; apply lost_a, elem_of_app; by left).
    apply lost_left, elem_of_app. by left.
  - rewrite (repaired_at _ Ha). apply lookup_insert_eq.
  - apply bool_decide_eq_true. simpl. destruct (bool_decide _); auto.
Qed.

(** What was behind the lost node is a chain of its own. *)
Lemma orphaned_chain : r <> [] -> chain repaired r.
Proof.
  intros Hr. apply chain_ext with w.
  - apply (chain_suffix w (l ++ [a; b])); [done|]. by rewrite <- app_assoc.
  - intros x Hx. rewrite repaired_others by (intros E; rewrite E in Hx; apply lost_a, elem_of_app; by right).
    apply lost_left, elem_of_app. right. by right.
Qed.
(** The old tail is as it was. *)
Lemma orphaned_end : r <> [] -> exists t s,
  last (l ++ a :: b :: r) = Some t /\ t ∈ r /\ (t ∉ l ++ [a]) /\ w !! t = Some (Metadata s) /\
  repaired !! t = Some (Metadata s) /\ MetadataNode.running_ s = true /\ MetadataNode.is_last s = true.
Proof.
  intros Hr. destruct (chain_end _ _ Hch) as (t & s & Hl & Hw & Hrun & Hend). exists t, s.
  assert (t ∈ r) as Ht.
  { rewrite last_app_cons, last_cons_cons in Hl. clear -Hl Hr. destruct r as [|y r']; [done|].
    rewrite last_cons_cons in Hl. by apply last_Some_elem_of. }
  assert (t <> a) as Hta by (intros E; rewrite E in Ht; apply lost_a, elem_of_app; by right).
  split_and!; [done|done| |done| |done|done].
  - intros [Hin|Hin%list_elem_of_singleton]%elem_of_app; [|done].
    pose proof lost_nodup as Hnd. apply NoDup_app in Hnd as (_ & Hd & _). apply (Hd t Hin). right. by right.
  - rewrite repaired_others, lost_left; [done| |done]. apply elem_of_app. right. by right.
Qed.

(** Nothing else has changed. *)
Lemma lost_metadata x : x ∈ l ++ a :: b :: r -> exists s, w !! x = Some (Metadata s) /\ MetadataNode.running_ s = true.
Proof. by apply chain_running. Qed.

Lemma repaired_storage x s : w !! x = Some (Storage s) -> repaired !! x = Some (Storage s).
Proof.
  intros Hx. assert (forall y, y ∈ l ++ a :: b :: r -> x <> y) as Hne.
  { intros y Hy E. destruct (lost_metadata y Hy) as (s' & Hs' & _). by rewrite E, Hs' in Hx. }
  rewrite repaired_others by (apply Hne, elem_of_app; right; left).
  rewrite (left_others _ _ _ Hv); [done|]. intros Hb%list_elem_of_singleton. revert Hb. apply Hne, elem_of_app.
  right. right. left.
Qed.

Lemma repaired_serving addr : serving w addr -> serving repaired addr.
Proof. intros (x & s & Hx & Hs & Hr). exists x, s. split_and!; [done|by apply repaired_storage|done]. Qed.

Lemma repaired_has addr chunk : has w addr chunk -> has repaired addr chunk.
Proof. intros (x & s & Hx & Hs & Hr & Hc). exists x, s. split_and!; [done|by apply repaired_storage|done..]. Qed.

Lemma repaired_reaches lost chunk nodes : reaches lost w chunk nodes -> reaches lost repaired chunk nodes.
Proof. intros H. eapply Forall_impl; [exact H|]. intros x [?|?]; [by left|right; by apply repaired_has]. Qed.

Lemma repaired_records x s :
  x ∈ l ++ a :: r -> repaired !! x = Some (Metadata s) ->
  exists s', w !! x = Some (Metadata s') /\ MetadataNode.metadataStore_ s = MetadataNode.metadataStore_ s'.
Proof.
  intros Hx. destruct lost_predecessor as (sa & Ha & Hwa & _). destruct (decide (x = a)) as [E|Hne].
  - rewrite E, (repaired_at _ Ha), lookup_insert_eq. intros [= <-]. by exists sa.
  - rewrite repaired_others, lost_left by done. intros Hs. by exists s.
Qed.

Lemma repaired_settled : settled repaired (l ++ [a]).
Proof.
  intros x s Hx Hs. destruct lost_predecessor as (sa & Ha & Hwa & _ & _ & _ & Hskip).
  assert (forall y, y ∈ l ++ a :: r -> y ∈ l ++ a :: b :: r) as Hsub.
  { intros y. rewrite !elem_of_app, !elem_of_cons. naive_solver. }
  destruct (decide (x = a)) as [E|Hne].
  - rewrite E, (repaired_at _ Ha), lookup_insert_eq in Hs. injection Hs as <-. split; [|done].
    apply MetadataNode.cut_off_wf. apply (Hset a); [|done]. apply elem_of_app. right. left.
  - assert (x ∈ l ++ a :: r) as Hx'.
    { apply elem_of_app in Hx as [Hx|Hx%list_elem_of_singleton]; [|done]. apply elem_of_app. by left. }
    rewrite repaired_others, lost_left in Hs by done. apply (Hset x); [by apply Hsub|done].
Qed.

Lemma repaired_dial x : x = b \/ dial x w = None -> dial x repaired = None.
Proof.
  intros Hx. assert (x <> a) as Hne.
  { intros E. destruct lost_predecessor as (sa & _ & Hwa & Hr & _). destruct Hx as [Hx|Hx].
    - revert E. rewrite Hx. apply not_eq_sym, lost_distinct, elem_of_app. right. left.
    - by rewrite E, (dial_metadata _ _ _ Hwa Hr) in Hx. }
  unfold dial. rewrite repaired_others by done. fold (dial x v).
  destruct (decide (x = b)) as [E|Hb]; [rewrite E; apply (left_lost _ _ _ Hv); by left|].
  unfold dial. rewrite (left_others _ _ _ Hv) by (by intros ?%list_elem_of_singleton).
  by destruct Hx.
Qed.

Lemma repaired_storage_left rg lost : storage_left rg lost w -> storage_left rg lost repaired.
Proof.
  intros [H1 H2 H3 H4]. split; [done| | |done].
  - intros addr [?|?]%H2; [by left|right; by apply repaired_serving].
  - intros x Hx. apply repaired_dial. right. by apply H3.
Qed.
End Lost.

(** ** Properties *)

(** C13. Health checks repair the chain, in whatever order the nodes make them: after the
    loss of one node that is not the head, no check of any node has an effect but that
    of its predecessor, which becomes the end of what is before the lost node; what was
    behind it stays a chain of its own, of which the head of the repaired chain knows
    nothing. *)
Theorem repair_converges w v l r a b order :
  chain w (l ++ a :: b :: r) -> settled w (l ++ a :: b :: r) -> without [b] w v ->
  Forall (fun x => x ∈ l ++ a :: r) order ->
  health_checks 1 order v = Some (if decide (a ∈ order) then alter cut a v else v) /\
  chain (alter cut a v) (l ++ [a]) /\ (r <> [] -> chain (alter cut a v) r).
Proof.
  intros Hch Hset Hv Hall. split_and!.
  - by eapply (lost_checks w v l r a b).
  - by eapply (repaired_chain w v l r a b).
  - by eapply (orphaned_chain w v l r a b).
Qed.

(** The second of three nodes is lost; the third and the first look around, the first
    twice. *)
Lemma repair_converges_witness :
  let v := lose [(localhost, 9002)] (startCluster ∅) in
  health_checks 1 [(localhost, 9003); (localhost, 9001); (localhost, 9001)] v =
    Some (alter cut (localhost, 9001) v) /\
  chain (alter cut (localhost, 9001) v) [(localhost, 9001)] /\
  chain (alter cut (localhost, 9001) v) [(localhost, 9003)].
Proof.
  intros v.
  destruct (repair_converges (startCluster ∅) v [] [(localhost, 9003)] (localhost, 9001) (localhost, 9002)
    [(localhost, 9003); (localhost, 9001); (localhost, 9001)]) as (H1 & H2 & H3).
  - apply (up_chain _ _ _ (startCluster_up ∅ all_down_empty)).
  - apply started_settled, all_down_empty.
  - apply lose_without.
  - apply (bool_decide_unpack (Forall _ _)). by vm_compute.
  - split_and!; [exact H1|exact H2|by apply H3].
Defined.

(** The loss of the tail costs nothing once its predecessor has noticed: in a cluster
    that represents the contents [m], after the tail of the chain is gone and the other
    metadata nodes have made health checks, in any order and among them the tail's
    predecessor, the cluster represents the same contents with a chain that is one node
    shorter; so uploads and downloads go on as the specification says. *)
Theorem tail_loss_is_survived cs c lost pre l a b post w v m n order :
  represents cs c lost pre (l ++ [a; b]) post w m -> settled w (l ++ [a; b]) -> without [b] w v ->
  Forall (fun x => x ∈ l ++ [a]) order -> a ∈ order ->
  exists v', health_checks (S n) order v = Some v' /\ represents cs c lost pre (l ++ [a]) (b :: post) v' m /\
    settled v' (l ++ [a]).
Proof.
  intros [[Hst Hadr Hgone Hch] Hrec Hstor Hchunks] Hset Hv Hall Ha. exists (repaired v a). split.
  { rewrite (lost_checks w v l [] a b) by done. by rewrite decide_True. }
  split; [|by eapply (repaired_settled w v l [])]. split; [split| |done|].
  - by eapply (repaired_storage_left w v l []).
  - by rewrite <- !app_assoc in *.
  - apply Forall_app in Hgone as [H1 H2]. apply Forall_app. split; [|constructor].
    + eapply Forall_impl; [exact H1|]. intros x Hx. eapply (repaired_dial w v l []); try done. by right.
    + eapply (repaired_dial w v l []); try done. by left.
    + eapply Forall_impl; [exact H2|]. intros x Hx. eapply (repaired_dial w v l []); try done. by right.
  - by apply (repaired_chain w v l [] a b).
  - intros x s name Hx Hs. destruct (repaired_records w v l [] a b Hch Hset Hv x s Hx Hs) as (s' & Hs' & ->).
    eapply Hrec; [|exact Hs']. rewrite elem_of_app, !elem_of_cons in *. naive_solver.
  - intros name content chunk Hm Hc. eapply (repaired_reaches w v l []); [done..|]. by eapply Hchunks.
Qed.

(** The last of three nodes is lost. *)
Lemma tail_loss_is_survived_witness :
  exists v', health_checks 1 [(localhost, 9001); (localhost, 9002)] (lose [(localhost, 9003)] (startCluster ∅)) =
      Some v' /\
    represents [] compiled_client [] [] [(localhost, 9001); (localhost, 9002)] [(localhost, 9003)] v' ∅ /\
    settled v' [(localhost, 9001); (localhost, 9002)].
Proof.
  apply (tail_loss_is_survived [] compiled_client [] [] [(localhost, 9001)] (localhost, 9002) (localhost, 9003) []
    (startCluster ∅)).
  - apply started_represents, all_down_empty.
  - apply started_settled, all_down_empty.
  - apply lose_without.
  - apply (bool_decide_unpack (Forall _ _)). by vm_compute.
  - right. left.
Defined.

(** C14. The loss of a node in the middle splits the chain, and an overwritten file comes
    back: in a cluster that represents contents with [old] under a name, after such a
    loss and the repair, an upload of new contents under the name is acknowledged, and
    the download that follows it reports success and writes [old].  The upload goes to
    the head of the repaired chain; the download asks the old tail first, which is still
    the end of its own chain and answers. *)
Theorem overwrite_is_lost cs c lost pre l a b r post w v m order path new old d d' out :
  hashes_tell cs -> Forall sendable cs ->
  represents cs c lost pre (l ++ a :: b :: r) post w m -> settled w (l ++ a :: b :: r) ->
  without [b] w v -> r <> [] -> Forall (fun x => x ∈ l ++ a :: r) order -> a ∈ order ->
  m !! base_name path = Some old -> files d !! path = Some new -> new <> [] -> numberable new ->
  chunks_of new ⊆ cs -> creatable d' out = true ->
  exists v' u, health_checks 1 order v = Some v' /\
    run_client (S (length l)) (uploadFile c path) d v' = Some (Some UploadComplete, d, u) /\
    run_client (S (length l)) (downloadFile c (base_name path) out) d' u =
      Some (Some Reconstructed, FS (<[out := old]> (files d')) (creatable d'), u).
Proof.
  intros Htell Hsend [[Hst Hadr Hgone Hch] Hrec Hstor Hchunks] Hset Hv Hr Hall Ha Hm Hd Hne Hnum Hsub Hout.
  destruct (Hstor _ _ Hm) as [Htok Hbase Hne' Hnum' Hsub']. apply Forall_app in Hgone as [Hpre Hpost].
  assert (forall x, dial x w = None -> dial x (repaired v a) = None) as Hdial.
  { intros x Hx. eapply (repaired_dial w v l r); try done. by right. }
  assert (storage_left (dht_ c) lost (repaired v a)) as Hleft by (by eapply (repaired_storage_left w v l r)).
  destruct (runs_uploads cs (length l) c lost pre (l ++ [a]) (b :: r ++ post) path new d (repaired v a)) as (u & H1 & H2);
    try done.
  { rewrite Hadr. by rewrite <- !app_assoc. }
  { eapply Forall_impl; [exact Hpre|]. exact Hdial. }
  { by eapply (repaired_chain w v l r). }
  { rewrite length_app. simpl. lia. }
  exists (repaired v a), u. split_and!.
  - rewrite (lost_checks w v l r a b) by done. by rewrite decide_True.
  - by apply ran_client.
  - destruct (orphaned_end w v l r a b Hch Hset Hv Hr) as (t & s & Hl & Ht & Hnt & Hw & Hwt & Hrun & Hend).
    pose proof (uploaded_metadata _ _ _ _ _ _ _ _ H2 _ _ Hwt) as Hu. rewrite decide_False in Hu by done.
    rewrite app_assoc in Hadr.
    destruct (addresses_last _ (pre ++ l ++ a :: b :: r) post t Hadr) as (before & addr & after & E & Haddr & Hp).
    { by rewrite last_app, Hl. }
    epose proof (ran_download_from (length l) c before addr after t s path out old lost d' u) as H.
    unfold written in H. rewrite Hout in H.
    destruct (uploaded_storage _ _ _ _ _ _ _ _ H2 _ Hleft) as [Hring _ Hlost Hex]. apply ran_client, H; try done.
    + rewrite (Hrec t _ (base_name path)) by (done || (apply elem_of_app; right; right; by right)).
      by rewrite Hm, <- record_of_base.
    + eapply gone_no_record; [done|]. eapply Forall_impl; [exact Hpost|].
      intros x Hx. by eapply uploaded_dial, Hdial.
    + intros chunk Hc. eapply uploaded_reaches; [done|by apply Hsub'|].
      eapply (repaired_reaches w v l r); [done..|]. by eapply Hchunks.
Qed.

(** One word is replaced by another after the second of three nodes was lost. *)
Lemma overwrite_is_lost_witness :
  let one := bytes_of_string "one" in
  let two := bytes_of_string "two" in
  let d := FS (<["a/f" := one]> {["b/f" := two]}) (fun _ => true) in
  exists w v' u,
    run_client 3 (uploadFile compiled_client "a/f") d (startCluster ∅) = Some (Some UploadComplete, d, w) /\
    health_checks 1 [(localhost, 9001)] (lose [(localhost, 9002)] w) = Some v' /\
    run_client 1 (uploadFile compiled_client "b/f") d v' = Some (Some UploadComplete, d, u) /\
    run_client 1 (downloadFile compiled_client "f" "out") d u =
      Some (Some Reconstructed, FS (<["out" := one]> (files d)) (creatable d), u).
Proof.
  intros one two d. set (cs := chunks_of one ++ chunks_of two).
  assert (hashes_tell cs) as Htell by (apply nodup_tells, (bool_decide_unpack _); by vm_compute).
  assert (Forall sendable cs) as Hsend by (apply Forall_app; split; apply chunks_of_sendable).
  pose proof (startCluster_up ∅ all_down_empty) as Hup. pose proof Hup as [Hr Hs Hms Hch].
  assert (storable cs "f" one) as Hone.
  { split; [done|done|done|by apply (bool_decide_unpack (_ < _)); vm_compute|by apply list_subseteq_app_l]. }
  assert (numberable two) as Htwo by (by apply (bool_decide_unpack (_ < _)); vm_compute).
  assert (chunks_of two ⊆ cs) as Hsub by (by apply list_subseteq_app_r).
  assert (dht_ compiled_client <> []) as Hne by (by vm_compute).
  pose proof (storage_left_all _ _ Hr Hne Hs) as Hleft.
  assert (Forall (fun x => x ∈ [] ++ [(localhost, 9001); (localhost, 9003)]) [(localhost, 9001)]) as Horder.
  { apply (bool_decide_unpack (Forall _ _)). by vm_compute. }
  pose proof Hone as [_ _ Hsome Hnum Hsub1].
  destruct (runs_uploads cs 2 compiled_client [] [] compiled_chain [] "a/f" one d (startCluster ∅)) as (w & H1 & H2);
    [done..|].
  assert (represents cs compiled_client [] [] compiled_chain [] w {["f" := one]}) as Hrep.
  { exact (uploaded_represents cs compiled_client [] [] compiled_chain [] (startCluster ∅) w ∅ "a/f" one
             (started_represents cs ∅ all_down_empty) Hone H2). }
  assert (settled w compiled_chain) as Hset.
  { exact (uploaded_settled _ _ _ _ _ _ _ _ _ Hch (started_settled ∅ all_down_empty) H2). }
  apply ran_client in H1.
  destruct (overwrite_is_lost cs compiled_client [] [] [] (localhost, 9001) (localhost, 9002) [(localhost, 9003)] []
    w (lose [(localhost, 9002)] w) {["f" := one]} [(localhost, 9001)] "b/f" two one d d "out" Htell Hsend Hrep
    Hset (lose_without _ _)) as (v' & u & H3 & H4 & H5).
  - clear. done.
  - exact Horder.
  - clear. left.
  - clear. done.
  - clear. done.
  - clear. done.
  - exact Htwo.
  - exact Hsub.
  - clear. done.
  - exists w, v', u. split; [exact H1|]. split; [exact H3|]. split; [exact H4|exact H5].
Defined.

(** The repair the nodes are built for: when the predecessor of a lost node was told
    whom to skip to, one health check joins the two halves of the chain.  It then goes
    on from the predecessor to the node behind the lost one, which has the predecessor's
    port as its own predecessor; the skip is used up, and no record is touched. *)
Theorem skip_joins_chain w v l r a b c s :
  chain w (l ++ a :: b :: c :: r) -> without [b] w v -> w !! a = Some (Metadata s) ->
  endpoint (MetadataNode.skipToIp_ s) (MetadataNode.skipToPort_ s) = Some c -> MetadataNode.skipToPort_ s <> -1 ->
  in_int (MetadataNode.myPort_ s) ->
  exists v' sa sc, health_check 1 a v = Some v' /\ chain v' (l ++ a :: c :: r) /\
    v' !! a = Some (Metadata sa) /\ v' !! c = Some (Metadata sc) /\
    MetadataNode.skipToPort_ sa = -1 /\ MetadataNode.prevNodePort_ sc = MetadataNode.myPort_ s /\
    MetadataNode.metadataStore_ sa = MetadataNode.metadataStore_ s /\
    (forall x, x <> a -> x <> c -> v' !! x = v !! x).
Proof.
  intros Hch Hv Hs Hc Hskip Hport. pose proof (chain_nodup _ _ Hch) as Hnd.
  assert (chain w (a :: b :: c :: r)) as Hch1 by (by apply (chain_suffix w l)).
  inversion Hch1 as [|? ? ? sa Ha Hra Hla Hna Hb Hnin Hch2]; subst.
  rewrite Hs in Ha. injection Ha as <-.
  assert (chain w (c :: r)) as Hch3 by (by apply (chain_suffix w [b])).
  destruct (chain_head _ _ _ Hch3) as (sc & Hsc & Hrc).
  apply NoDup_app in Hnd as (_ & Hl & Hnd). apply NoDup_cons in Hnd as [Ha Hnd]. apply NoDup_cons in Hnd as [Hbc Hnd].
  apply NoDup_cons in Hnd as [Hcr Hnd].
  assert (forall x, x <> b -> v !! x = w !! x) as Hleft.
  { intros x Hx. apply (left_others _ _ _ Hv). by intros ?%list_elem_of_singleton. }
  apply not_elem_of_cons in Ha as [Hab [Hac Har]%not_elem_of_cons]. apply not_elem_of_cons in Hbc as [Hbc' Hbr].
  exists (<[a := Metadata (MetadataNode.bypassed s)]> (<[c := Metadata (preceded "127.0.0.1" (MetadataNode.myPort_ s) sc)]> v)).
  eexists _, _. split_and!.
  - apply (check_skips 0 a s v) with (s' := sc); try done; rewrite ?Hleft by done; try done.
    + by apply bool_decide_eq_true in Hna.
    + unfold successor. rewrite Hb. congruence.
    + unfold successor. rewrite Hb. intros b' [= <-]. apply (left_lost _ _ _ Hv). by left.
  - apply (chain_graft w _ l a (b :: c :: r)); [done| |by intros x Hx; right|].
    + intros x Hx. specialize (Hl x Hx). apply not_elem_of_cons in Hl as [Hxa [Hxb [Hxc Hxr]%not_elem_of_cons]%not_elem_of_cons].
      rewrite !lookup_insert_ne by done. by apply Hleft.
    + apply (chain_next _ _ _ _ (MetadataNode.bypassed s)); [apply lookup_insert_eq|done|done| |done| |].
      * by apply bool_decide_eq_true.
      * by intros [->|]%elem_of_cons.
      * eapply (chain_preceded w _ _ _ c r sc); [done|done| |].
        { rewrite lookup_insert_ne by done. apply lookup_insert_eq. }
        intros x Hx. rewrite !lookup_insert_ne by (by intros ->). apply Hleft. by intros ->.
  - apply lookup_insert_eq.
  - rewrite lookup_insert_ne by done. apply lookup_insert_eq.
  - done.
  - unfold preceded. simpl. done.
  - done.
  - intros x Hxa Hxc. by rewrite !lookup_insert_ne by done.
Qed.

(** Three nodes; the first was told to skip to the third, the second is lost. *)
Lemma skip_joins_chain_witness :
  let a := MetadataNode.set_skipPort 3 (MetadataNode.set_skipIp "10.0.0.1"
             (MetadataNode.started 1 (MetadataNode.new_node "10.0.0.1" 2))) in
  let b := MetadataNode.started 2 (MetadataNode.new_node "10.0.0.1" 3) in
  let c := MetadataNode.started 3 (MetadataNode.new_node EmptyString (-1)) in
  let w := {[("10.0.0.1", 1) := Metadata a; ("10.0.0.1", 2) := Metadata b; ("10.0.0.1", 3) := Metadata c]} : world in
  exists v', health_check 1 ("10.0.0.1", 1) (lose [("10.0.0.1", 2)] w) = Some v' /\ chain v' [("10.0.0.1", 1); ("10.0.0.1", 3)].
Proof.
  intros a b c w.
  destruct (skip_joins_chain w (lose [("10.0.0.1", 2)] w) [] [] ("10.0.0.1", 1) ("10.0.0.1", 2) ("10.0.0.1", 3) a)
    as (v' & sa & sc & H1 & H2 & _).
  - eapply (chain_next _ _ _ _ a); [by vm_compute|done..| |]; [by apply (bool_decide_unpack (_ ∉ _)); vm_compute|].
    eapply (chain_next _ _ _ _ b); [by vm_compute|done..| |]; [by apply (bool_decide_unpack (_ ∉ _)); vm_compute|].
    by apply (chain_last _ _ c).
  - apply lose_without.
  - by vm_compute.
  - done.
  - done.
  - done.
  - exists v'. split; [exact H1|exact H2].
Defined.
