(* ===== verification/Faults.v ===== *)
(** * The cluster while nodes fail

    Histories in which clients make requests, nodes are lost and metadata nodes check
    their successors.  [tolerates] says which losses the design withstands: of storage
    nodes, any that leave every key one replica; of metadata nodes, those at the two ends
    of the chain, the tail's with the health check of its predecessor before the next
    request.  (What the loss of a node in the middle costs is in [Repair.v].)  The
    theorem: the clients see the same map as if nothing had been lost. *)
From S2P Require Import Prelude IoStream Sha256 Chunks ConsistentHash Wire Proc Client Records Cluster Network Replication.
From S2P Require Import LocalCluster Store Repair.
From S2P Require StorageNode MetadataNode.

#[local] Open Scope Z_scope.

(** ** Histories *)

Inductive incident :=
| Serve (d : fs) (j : job)
| Lose (l : list address)
| Checks (order : list address).

(** The outcomes of the requests, with the clients' files. *)
Fixpoint run_incidents (n : nat) (c : Client) (es : list incident) (w : world)
    : option (list (outcome * fs) * world) :=
  match es with
  | [] => Some ([], w)
  | Serve d j :: es' =>
      '(o, d', w') ← run_client n (job_program c j) d w;
      '(os, w'') ← run_incidents n c es' w';
      Some ((o, d') :: os, w'')
  | Lose l :: es' => run_incidents n c es' (lose l w)
  | Checks order :: es' => w' ← health_checks n order w; run_incidents n c es' w'
  end.

(** The requests alone. *)
Definition served (es : list incident) : list (fs * job) :=
  omap (fun e => match e with Serve d j => Some (d, j) | _ => None end) es.

(** Which nodes are where: the storage nodes that are lost; of the client's metadata nodes,
    in its order, those lost before the chain, the chain, and those lost after it. *)
Record standing := Standing { down : list address; before : list address; links : list address; after : list address }.

Section Tolerates.
Context (cs : list Chunk) (c : Client).

Definition replica_outside (lost : list address) : Prop :=
  forall key, Exists (fun addr => ~ lost_node lost addr) (replicas (dht_ c) key).

Inductive tolerates : standing -> list incident -> standing -> Prop :=
| tolerates_end st : tolerates st [] st
| tolerates_request st d j es st' :
    admissible cs (d, j) -> tolerates st es st' -> tolerates st (Serve d j :: es) st'
| tolerates_checks st order es st' :
    Forall (fun x => x ∈ links st) order -> tolerates st es st' -> tolerates st (Checks order :: es) st'
| tolerates_storage lost pre ms post more es st' :
    Forall (fun a => a ∉ ms) more -> replica_outside (lost ++ more) ->
    tolerates (Standing (lost ++ more) pre ms post) es st' ->
    tolerates (Standing lost pre ms post) (Lose more :: es) st'
| tolerates_head lost pre a b ms post es st' :
    tolerates (Standing lost (pre ++ [a]) (b :: ms) post) es st' ->
    tolerates (Standing lost pre (a :: b :: ms) post) (Lose [a] :: es) st'
| tolerates_tail lost pre l a b post order es st' :
    Forall (fun x => x ∈ l ++ [a]) order -> a ∈ order ->
    tolerates (Standing lost pre (l ++ [a]) (b :: post)) es st' ->
    tolerates (Standing lost pre (l ++ [a; b]) post) (Lose [b] :: Checks order :: es) st'.
End Tolerates.

(** ** Losses *)

Section Losing.
Context (cs : list Chunk) (c : Client) (w : world) (l : list address).

Lemma lose_dial a : dial a w = None -> dial a (lose l w) = None.
Proof.
  intros Hd. destruct (decide (a ∈ l)) as [Ha|Ha]; [by apply lose_gone|]. unfold dial. by rewrite lose_lookup.
Qed.

Lemma lose_chain ms : Forall (fun a => a ∉ l) ms -> chain w ms -> chain (lose l w) ms.
Proof.
  intros Hl Hch. eapply chain_ext; [done|]. intros a Ha. apply lose_lookup. rewrite Forall_forall in Hl. by apply Hl.
Qed.

Lemma lose_settled ms : Forall (fun a => a ∉ l) ms -> settled w ms -> settled (lose l w) ms.
Proof.
  intros Hl Hset a s Ha Hs. rewrite Forall_forall in Hl. rewrite lose_lookup in Hs by by apply Hl. by eapply Hset.
Qed.

(** What is lost is known to be, or is no storage node. *)
Context (lost more : list address) (Hl : forall a, a ∈ l -> a ∈ more \/ exists s, w !! a = Some (Metadata s)).

Lemma lost_more addr : lost_node lost addr -> lost_node (lost ++ more) addr.
Proof. intros (a & H1 & H2). exists a. split; [done|]. apply elem_of_app. by left. Qed.

Lemma lose_storage addr a s :
  target addr = Some a -> w !! a = Some (Storage s) ->
  lost_node (lost ++ more) addr \/ lose l w !! a = Some (Storage s).
Proof.
  intros Ha Hw. destruct (decide (a ∈ l)) as [Hin|Hin]; [|right; by rewrite lose_lookup].
  destruct (Hl a Hin) as [Hm|[s' Hs']]; [|congruence]. left. exists a. split; [done|]. apply elem_of_app. by right.
Qed.

Lemma lose_reaches chunk nodes : reaches lost w chunk nodes -> reaches (lost ++ more) (lose l w) chunk nodes.
Proof.
  intros H. eapply Forall_impl; [exact H|]. intros addr [Ha|(a & s & Ha & Hw & Hr & Hs)]; [left; by apply lost_more|].
  destruct (lose_storage addr a s Ha Hw) as [?|Hw']; [by left|right]. by exists a, s.
Qed.

Lemma lose_storage_left :
  more ⊆ l -> replica_outside c (lost ++ more) -> storage_left (dht_ c) lost w ->
  storage_left (dht_ c) (lost ++ more) (lose l w).
Proof.
  intros Hsub Hrep [H1 H2 H3 H4]. split; [done| | |done].
  - intros addr [Ha|(a & s & Ha & Hw & Hr)]%H2; [left; by apply lost_more|].
    destruct (lose_storage addr a s Ha Hw) as [?|Hw']; [by left|right]. by exists a, s.
  - intros a [Ha|Ha]%elem_of_app; [by apply lose_dial, H3|]. by apply lose_gone, Hsub.
Qed.
End Losing.

(** A loss that leaves the chain [ms'] of the metadata nodes. *)
Lemma lose_represents cs c lost more pre ms post pre' ms' post' w m l :
  represents cs c lost pre ms post w m ->
  (forall a, a ∈ l -> a ∈ more \/ exists s, w !! a = Some (Metadata s)) -> more ⊆ l -> replica_outside c (lost ++ more) ->
  pre ++ ms ++ post = pre' ++ ms' ++ post' -> Forall (fun a => a ∈ l \/ a ∈ pre ++ post) (pre' ++ post') ->
  chain w ms' -> ms' ⊆ ms -> Forall (fun a => a ∉ l) ms' ->
  represents cs c (lost ++ more) pre' ms' post' (lose l w) m.
Proof.
  intros [[Hst Hadr Hgone Hch] Hrec Hstor Hchunks] Hl Hmore Hrep Eadr Hgone' Hch' Hsub Hleft.
  split; [split| |done|].
  - by apply lose_storage_left.
  - by rewrite <- Eadr.
  - rewrite Forall_forall in Hgone. eapply Forall_impl; [exact Hgone'|].
    intros a [Ha|Ha]; [by apply lose_gone|by apply lose_dial, Hgone].
  - by apply lose_chain.
  - intros a s name Ha Hs. rewrite Forall_forall in Hleft. rewrite lose_lookup in Hs by by apply Hleft.
    by apply Hrec with a; [apply Hsub|].
  - intros name content chunk Hm Hc. apply lose_reaches; [done|]. by eapply Hchunks.
Qed.

(** Storage nodes are lost. *)
Lemma represents_storage cs c lost pre ms post w m more :
  represents cs c lost pre ms post w m -> Forall (fun a => a ∉ more) ms -> replica_outside c (lost ++ more) ->
  represents cs c (lost ++ more) pre ms post (lose more w) m.
Proof.
  intros Hrep Hms Hout. eapply lose_represents; [exact Hrep|by left|done|done|done| |apply Hrep|done|done].
  apply Forall_forall. by right.
Qed.

(** The head of the chain is lost: the next node is the head. *)
Lemma represents_head cs c lost pre a b ms post w m :
  represents cs c lost pre (a :: b :: ms) post w m ->
  represents cs c lost (pre ++ [a]) (b :: ms) post (lose [a] w) m /\ Forall (fun x => x ∉ [a]) (b :: ms).
Proof.
  intros Hrep. pose proof (left_chain _ _ _ _ _ _ (rep_left _ _ _ _ _ _ _ _ Hrep)) as Hch.
  pose proof (chain_nodup _ _ Hch) as Hnd. apply NoDup_cons in Hnd as [Ha _].
  assert (Forall (fun x => x ∉ [a]) (b :: ms)) as Hleft.
  { apply Forall_forall. intros x Hx ->%list_elem_of_singleton. done. }
  split; [|done]. rewrite <- (app_nil_r lost) at 1.
  eapply lose_represents; [exact Hrep| |apply list_subseteq_nil| |by rewrite <- (assoc_L (++))| | | |done].
  - intros x ->%list_elem_of_singleton. right. eapply chain_member; [exact Hch|left].
  - rewrite app_nil_r. intros key. apply (stand_replica _ _ _ (left_storage _ _ _ _ _ _ (rep_left _ _ _ _ _ _ _ _ Hrep))).
  - apply Forall_forall. intros x. rewrite !elem_of_app. naive_solver.
  - by apply (chain_suffix _ [a]).
  - set_solver.
Qed.

(** Health checks while every node of the chain is up change nothing. *)
Lemma checks_steady n w ms order :
  chain w ms -> settled w ms -> Forall (fun x => x ∈ ms) order -> health_checks (S n) order w = Some w.
Proof.
  intros Hch Hset. induction 1 as [|x order Hx _ IH]; [done|]. cbn [health_checks].
  rewrite (check_steady n w w ms x); [exact IH|done..|].
  intros i y _ Hy. apply (chain_running w ms); [done|]. by eapply list_elem_of_lookup_2.
Qed.

(** One storage node is lost, and the ring has another. *)
Lemma replica_outside_one c lost x :
  ring_wf (dht_ c) -> (2 <= length (dht_ c))%nat ->
  Forall (fun addr => lost_node lost addr -> addr = x) (getAllNodes (dht_ c)) -> replica_outside c lost.
Proof.
  intros Hr Hlen Hx key. rewrite Forall_forall in Hx. destruct (replica_left (dht_ c) key lost Hr Hlen) as (nodes & E & Hex).
  { intros y z Hy Hz Hly Hlz. by rewrite (Hx y), (Hx z). }
  unfold replicas, replicationFactor. by rewrite E.
Qed.

Lemma incidents_represent cs c n st es st' w m :
  hashes_tell cs -> Forall sendable cs -> tolerates cs c st es st' -> (length (links st) <= S n)%nat ->
  represents cs c (down st) (before st) (links st) (after st) w m -> settled w (links st) ->
  exists w', run_incidents (S n) c es w = Some ((spec_requests (served es) m).1, w') /\
    represents cs c (down st') (before st') (links st') (after st') w' (spec_requests (served es) m).2.
Proof.
  intros Htell Hsend Hes. revert w m. induction Hes as
    [st|st d j es st' Hadm _ IH|st order es st' Hall _ IH|lost pre ms post more es st' Hms Hout _ IH|
     lost pre a b ms post es st' _ IH|lost pre l a b post order es st' Hall Ha _ IH];
    intros w m Hn Hrep Hset; simpl in *.
  - by exists w.
  - pose proof (run_request cs Htell Hsend _ _ _ _ _ n w m d j Hn Hrep Hadm) as H. cbn [spec_requests].
    destruct (spec_request d j m) as [[o d'] m']. destruct H as (w1 & H1 & H2 & H3).
    destruct (IH w1 m' Hn H2) as (w2 & H4 & H5).
    { destruct H3 as [->|(path & content & H3)]; [done|]. eapply uploaded_settled; [|done|exact H3].
      apply (rep_left _ _ _ _ _ _ _ _ Hrep). }
    exists w2. rewrite (ran_client _ _ _ _ _ _ _ H1). simpl. rewrite H4. by destruct (spec_requests _ m').
  - rewrite checks_steady with (ms := links st); [by apply IH|by apply (rep_left _ _ _ _ _ _ _ _ Hrep)|done..].
  - assert (Forall (fun a => a ∉ more) ms) as Hms'.
    { apply Forall_forall. intros x Hx Hm. rewrite Forall_forall in Hms. by eapply Hms. }
    apply IH; [done|by apply represents_storage|by apply lose_settled].
  - destruct (represents_head _ _ _ _ _ _ _ _ _ _ Hrep) as [Hrep' Hleft]. apply IH; [simpl in *; lia|done|].
    apply lose_settled; [done|]. intros x s Hx. apply Hset. by right.
  - destruct (tail_loss_is_survived cs c lost pre l a b post w (lose [b] w) m n order) as (v & H1 & H2 & H3);
      [done|done|apply lose_without|done|done|].
    rewrite H1. apply IH; [|done..]. rewrite !length_app in *. simpl in *. lia.
Qed.

(** ** Properties *)

(** C2. The cluster stays a map from names to contents while nodes fail: from a world that
    represents the map [m], every history of requests, losses and health checks that
    [tolerates] allows comes to an end, each request with the outcome and the client's
    files that the specification gives for the requests alone, as if nothing had been
    lost, and in a world that represents the contents after them.  Any storage nodes may
    be lost that leave every key a replica; the first node of the chain without further ado; the last one when its predecessor makes
    a health check before the next request.  Health checks of nodes whose successors are
    up may fall anywhere. *)
Theorem cluster_survives_losses cs c st es st' w m :
  hashes_tell cs -> Forall sendable cs -> tolerates cs c st es st' ->
  represents cs c (down st) (before st) (links st) (after st) w m -> settled w (links st) ->
  exists w', run_incidents (length (links st)) c es w = Some ((spec_requests (served es) m).1, w') /\
    represents cs c (down st') (before st') (links st') (after st') w' (spec_requests (served es) m).2.
Proof.
  intros Htell Hsend Hes Hrep Hset.
  assert (exists n, length (links st) = S n) as [n Hn].
  { destruct (left_chain _ _ _ _ _ _ (rep_left _ _ _ _ _ _ _ _ Hrep)); by eexists. }
  rewrite Hn. apply (incidents_represent cs c n st es st' w m); [done|done|done|lia|done|done].
Qed.

(** On the cluster of the measurement programs, a storage node, the head and the tail are
    lost between uploads and downloads. *)
Definition sample_incidents (d : fs) : list incident :=
  [Serve d (Upload "a/f"); Lose [(localhost, 8002)]; Serve d (Upload "b/f"); Checks [(localhost, 9003); (localhost, 9001)];
   Lose [(localhost, 9001)]; Serve d (Download "f" "out"); Lose [(localhost, 9003)]; Checks [(localhost, 9002)];
   Serve d (Upload "a/f"); Serve d (Download "f" "out")].

Lemma sample_tolerated cs d :
  admissible cs (d, Upload "a/f") -> admissible cs (d, Upload "b/f") ->
  tolerates cs compiled_client (Standing [] [] compiled_chain []) (sample_incidents d)
    (Standing [(localhost, 8002)] [(localhost, 9001)] [(localhost, 9002)] [(localhost, 9003)]).
Proof.
  intros Ha Hb. assert (ring_wf (dht_ compiled_client)) as Hr by (unfold compiled_client, new_client; simpl; auto with dfs).
  assert (replica_outside compiled_client [(localhost, 8002)]) as Hout.
  { apply (replica_outside_one _ _ "127.0.0.1:8002" Hr); [apply (bool_decide_unpack (_ <= _)%nat); by vm_compute|].
    apply (bool_decide_unpack (Forall _ _)). by vm_compute. }
  unfold sample_incidents, compiled_chain. apply tolerates_request; [done|].
  apply tolerates_storage; [apply (bool_decide_unpack (Forall _ _)); by vm_compute|done|].
  apply tolerates_request; [done|]. apply tolerates_checks; [apply (bool_decide_unpack (Forall _ _)); by vm_compute|].
  apply tolerates_head. apply tolerates_request; [done|].
  apply (tolerates_tail cs compiled_client _ _ [] (localhost, 9002) (localhost, 9003));
    [apply (bool_decide_unpack (Forall _ _)); by vm_compute|left|].
  apply tolerates_request; [done|]. apply tolerates_request; [done|]. apply tolerates_end.
Qed.

Lemma cluster_survives_losses_witness :
  let one := bytes_of_string "one" in
  let two := bytes_of_string "two" in
  let d := FS (<["a/f" := one]> {["b/f" := two]}) (fun _ => true) in
  exists w', run_incidents 3 compiled_client (sample_incidents d) (startCluster ∅) =
    Some ([(Uploaded (Some UploadComplete), d); (Uploaded (Some UploadComplete), d);
           (Downloaded (Some Reconstructed), FS (<["out" := two]> (files d)) (creatable d));
           (Uploaded (Some UploadComplete), d);
           (Downloaded (Some Reconstructed), FS (<["out" := one]> (files d)) (creatable d))], w') /\
    represents (chunks_of one ++ chunks_of two) compiled_client [(localhost, 8002)] [(localhost, 9001)]
      [(localhost, 9002)] [(localhost, 9003)] w' {["f" := one]}.
Proof.
  intros one two d. set (cs := chunks_of one ++ chunks_of two).
  assert (admissible cs (d, Upload "a/f")) as Ha.
  { intros content [= <-] _. split_and!; [by apply (bool_decide_unpack (_ /\ _)); vm_compute|
      by apply (bool_decide_unpack (_ < _)); vm_compute|by apply list_subseteq_app_l]. }
  assert (admissible cs (d, Upload "b/f")) as Hb.
  { intros content [= <-] _. split_and!; [by apply (bool_decide_unpack (_ /\ _)); vm_compute|
      by apply (bool_decide_unpack (_ < _)); vm_compute|by apply list_subseteq_app_r]. }
  destruct (cluster_survives_losses cs compiled_client (Standing [] [] compiled_chain []) (sample_incidents d)
    (Standing [(localhost, 8002)] [(localhost, 9001)] [(localhost, 9002)] [(localhost, 9003)]) (startCluster ∅) ∅)
    as (w' & H1 & H2).
  - apply nodup_tells, (bool_decide_unpack _). by vm_compute.
  - apply Forall_app. split; apply chunks_of_sendable.
  - by apply sample_tolerated.
  - apply started_represents, all_down_empty.
  - apply started_settled, all_down_empty.
  - exists w'. split; [exact H1|exact H2].
Defined.
