(* ===== verification/Schedule.v ===== *)
(** * Executions of the cluster are schedules of the network

    [Cluster.v] runs one program at a time, as an evaluator: [talk] and [deliver] answer
    every call at once.  [Network.v] has single steps that interleave.  Here an execution
    of the first is replayed as steps of the second, in the way a big-step semantics is
    shown to agree with a small-step one.

    [talk_replays] is the simulation: [matched] relates the two configurations, and
    [tidy] says of a program that it holds no mutex when it waits for a message, so that
    a replay never waits for one.  The world of the evaluator lacks the nodes that are
    busy; [framed] says that a part of an execution leaves these alone.  The theorem
    speaks of whole histories: requests of clients, and health checks between them. *)
From S2P Require Import Prelude IoStream Sha256 Chunks ConsistentHash Wire Proc Client Cluster Network.
From S2P Require Import Integrity.
From S2P Require StorageNode MetadataNode Repair.

#[local] Open Scope Z_scope.

(** ** Steps of a program and of a connection *)

Definition link_config : Type := world * locks * link * list link.

Definition link_step (r r' : link_config) : Prop :=
  exists n fail w' h' l' lost, link_do n fail r.1.1.1 r.1.1.2 r.1.2 = Some (w', h', l', lost) /\
    r' = (w', h', l', r.2 ++ lost).

(** A program takes a step, or a handler on its connection does. *)
Definition prog_step {S X A} (c : cell S X) (here : option address) (r r' : acted S X A) : Prop :=
  (exists fail r1,
     act c here fail (a_world r) (a_own r) (a_locks r) (a_prog r) (a_link r) (a_requests r) (a_replies r) = Some r1 /\
     r' = Acted (a_world r1) (a_own r1) (a_locks r1) (a_prog r1) (a_link r1) (a_requests r1) (a_replies r1)
            (a_left r ++ a_left r1)) \/
  (exists l2, link_step (a_world r, a_locks r, a_link r, a_left r) l2 /\
     r' = Acted l2.1.1.1 (a_own r) l2.1.1.2 (a_prog r) l2.1.2 (a_requests r) (a_replies r) l2.2).

Lemma prog_inner {S X A} (c : cell S X) here (p : io S A) x qs rs r1 r2 :
  rtc link_step r1 r2 ->
  rtc (prog_step c here) (Acted r1.1.1.1 x r1.1.1.2 p r1.1.2 qs rs r1.2) (Acted r2.1.1.1 x r2.1.1.2 p r2.1.2 qs rs r2.2).
Proof.
  induction 1 as [r|r1 r2 r3 H _ IH]; [reflexivity|]. eapply rtc_l; [|exact IH]. right. exists r2.
  by destruct r1 as [[[? ?] ?] ?].
Qed.

Lemma link_storage a r1 r2 :
  rtc (prog_step (storage_cell a) (Some a)) r1 r2 ->
  rtc link_step
    (a_world r1, a_locks r1, Link (a_requests r1) (a_replies r1) (SThread a (a_prog r1) (a_link r1)), a_left r1)
    (a_world r2, a_locks r2, Link (a_requests r2) (a_replies r2) (SThread a (a_prog r2) (a_link r2)), a_left r2).
Proof.
  induction 1 as [r|r1 r2 r3 H _ IH]; [reflexivity|]. eapply rtc_l; [|exact IH].
  destruct H as [(fail & r & H & ->)|([[[w h] l] left] & (n & fail & w' & h' & l' & lost & H & E) & ->)].
  - exists O, fail. cbn [link_do thread_do fst snd]. destruct (a_own r1). rewrite H. by do 4 eexists.
  - injection E as -> -> -> ->. exists (S n), fail. cbn [link_do fst snd] in H |- *. rewrite H. by do 4 eexists.
Qed.

Lemma link_metadata a body r1 r2 :
  rtc (prog_step (metadata_cell a) (Some a)) r1 r2 ->
  rtc link_step
    (a_world r1, a_locks r1, Link (a_requests r1) (a_replies r1) (MThread a body (a_prog r1) (a_link r1)), a_left r1)
    (a_world r2, a_locks r2, Link (a_requests r2) (a_replies r2) (MThread a body (a_prog r2) (a_link r2)), a_left r2).
Proof.
  induction 1 as [r|r1 r2 r3 H _ IH]; [reflexivity|]. eapply rtc_l; [|exact IH].
  destruct H as [(fail & r & H & ->)|([[[w h] l] left] & (n & fail & w' & h' & l' & lost & H & E) & ->)].
  - exists O, fail. cbn [link_do thread_do fst snd]. destruct (a_own r1). rewrite H. by do 4 eexists.
  - injection E as -> -> -> ->. exists (S n), fail. cbn [link_do fst snd] in H |- *. rewrite H. by do 4 eexists.
Qed.

(** ** Programs that release what they take *)

(** The mutexes that are held, the last one taken first: a mutex is taken when none is held, but
    for [clientsMutex_], which is also taken inside the others; they are released in reverse order,
    and none is held when a message is awaited, on either connection.  [got] says whether a message
    came from the client.  Only the threads of a node take mutexes. *)
Definition may_take (held : list mutex) (m : mutex) : Prop := held = [] \/ (m = clientsMutex_ /\ m ∉ held).

Fixpoint tidy {S A} (own : Prop) (Q : list mutex -> bool -> A -> Prop) (held : list mutex) (got : bool) (p : io S A)
    : Prop :=
  match p with
  | Ret a => Q held got a
  | Atomic f k => forall s, tidy own Q held got (k s)
  | Acquire m k => own /\ may_take held m /\ tidy own Q (m :: held) got k
  | Release m k => exists held', held = (m :: held') /\ tidy own Q held' got k
  | ServerRecv k => held = [] /\ forall d, tidy own Q [] true (k d)
  | ServerSend _ k | ServerStop k | ServerClose k | Close k => tidy own Q held got k
  | Connect _ _ k | Send _ k => forall b, tidy own Q held got (k b)
  | Recv k => held = [] /\ forall d, tidy own Q held got (k d)
  end.

Lemma tidy_mono {S A} own (Q Q' : list mutex -> bool -> A -> Prop) held got (p : io S A) :
  (forall h g a, Q h g a -> Q' h g a) -> tidy own Q held got p -> tidy own Q' held got p.
Proof. intros HQ. revert held got. induction p; simpl; intros held got; naive_solver. Qed.

Lemma tidy_bind {S A B} own Q held got (p : io S A) (f : A -> io S B) :
  tidy own (fun h g a => tidy own Q h g (f a)) held got p -> tidy own Q held got (p ≫= f).
Proof. unfold mbind, io_mbind. revert held got. induction p; simpl; intros held got; naive_solver. Qed.

(** A turn of a handler: no mutex is left, and it goes round only after a message. *)
Definition turn_over (held : list mutex) (got again : bool)   : Prop := held = [] /\ (again = true -> got = true).

Abbreviation tidy_turn := (tidy True turn_over [] false).

(** ** Simulation *)

(** The world of the evaluator has the nodes that are not busy. *)
Definition agrees (w W : world) : Prop := forall b y, w !! b = Some y -> W !! b = Some y.

(** A handler between two messages: it has ended, or nothing waits to be read. *)
Definition resting {S} (qs : list bytes) (p : io S bool) : Prop := p = Ret false \/ (qs = [] /\ tidy_turn p).

Definition same_handler (a : address) (h : handler) (qs : list bytes) (t : thread) : Prop :=
  match h with
  | HStorage p => exists l, t = SThread a p l /\ resting qs p
  | HMetadata p => exists l, t = MThread a MetadataNode.handleClient p l /\ resting qs p
  | HGone => True
  end.

(** A connection of the evaluator and one of the network.  A program without one may
    still have a link here: its calls fail, as the network may choose. *)
Definition same_conn (c : option conn) (l : link) : Prop :=
  match c with
  | None => True
  | Some (Conn a h ib) => exists qs t, l = Link qs ib t /\ same_handler a h qs t
  end.

Definition same_input (input : option bytes) (qs : list bytes) : Prop :=
  match input with None => qs = [] | Some d => qs = [d] \/ (d = [] /\ qs = []) end.

(** Where the members are found and written. *)
Record cell_at {S X} (c : cell S X) (here : option address) : Prop := {
  look_local : forall W W' x s, (forall a, here = Some a -> W' !! a = W !! a) -> look c W x = Some s -> look c W' x = Some s;
  look_write : forall W x s s', look c W x = Some s ->
    look c (write c s' W x).1 (write c s' W x).2 = Some s';
  write_local : forall W x s b, here <> Some b -> (write c s W x).1 !! b = W !! b
}.

Lemma storage_cell_at a : cell_at (storage_cell a) (Some a).
Proof.
  split; simpl.
  - intros W W' _ s Hw Hs. by rewrite Hw.
  - intros W _ s s' _. by rewrite lookup_insert_eq.
  - intros W _ s b Hb. rewrite lookup_insert_ne; [done|]. intros ->. by apply Hb.
Qed.

Lemma metadata_cell_at a : cell_at (metadata_cell a) (Some a).
Proof.
  split; simpl.
  - intros W W' _ s Hw Hs. by rewrite Hw.
  - intros W _ s s' _. by rewrite lookup_insert_eq.
  - intros W _ s b Hb. rewrite lookup_insert_ne; [done|]. intros ->. by apply Hb.
Qed.

Lemma client_cell_at : cell_at client_cell None.
Proof. by split. Qed.

(** ** The programs of the repository are tidy *)

Ltac tidy_step :=
  first
    [ progress intros
    | progress cbn [tidy reads modify acquire release with_lock server_sendMessage server_sendData server_recvMessage
        server_recvData server_stop server_closeClient client_connect client_sendMessage client_sendData
        client_recvMessage client_recvData client_closes mbind io_mbind io_bind mret io_ret negb]
    | match goal with
      | |- _ /\ _ => split
      | |- turn_over _ _ _ => split
      | |- may_take [] _ => by left
      | |- may_take _ clientsMutex_ => right; split; [done|by rewrite !not_elem_of_cons, elem_of_nil; intuition]
      | |- exists held', _ = held' /\ _ => eexists; split; [reflexivity|]
      | |- exists held', _ :: _ = _ :: held' /\ _ => eexists; split; [reflexivity|]
      | |- context [match ?x with _ => _ end] => destruct x eqn:?
      end
    | done ].

Lemma storage_tidy : tidy_turn StorageNode.handleClient.
Proof.
  unfold StorageNode.handleClient, StorageNode.handleClient_turn, StorageNode.handleStore, StorageNode.handleGet.
  repeat tidy_step.
Qed.

Lemma metadata_tidy : tidy_turn MetadataNode.handleClient.
Proof.
  unfold MetadataNode.handleClient, MetadataNode.handleClient_turn, MetadataNode.handlePut, MetadataNode.handleGet,
    MetadataNode.forwardPut, MetadataNode.not_last, MetadataNode.updatePrev, MetadataNode.updateNext,
    MetadataNode.setSkip, MetadataNode.getStatus, MetadataNode.read_role_name.
  repeat tidy_step.
Qed.

Lemma health_tidy : tidy True (fun held _ _ => held = []) [] false MetadataNode.healthCheck.
Proof.
  unfold MetadataNode.healthCheck, MetadataNode.pingNext, MetadataNode.handleNextNodeFailure,
    MetadataNode.notifyNextOfPredecessor.
  repeat tidy_step.
Qed.

(** A client takes no mutex. *)
Definition lockless {S A} (p : io S A) : Prop := forall got, tidy False (fun held _ _ => held = []) [] got p.

Lemma lockless_ret {S A} (a : A) : lockless (S := S) (mret a).
Proof. by intros got. Qed.

Lemma lockless_bind {S A B} (p : io S A) (f : A -> io S B) :
  lockless p -> (forall a, lockless (f a)) -> lockless (p ≫= f).
Proof. intros Hp Hf got. apply tidy_bind. eapply tidy_mono, Hp. intros h g a ->. apply Hf. Qed.

Lemma lockless_and_then {A B} (p : io fs (option A)) (f : A -> io fs (option B)) :
  lockless p -> (forall a, lockless (f a)) -> lockless (and_then p f).
Proof. intros Hp Hf. apply lockless_bind; [done|]. intros [a|]; [apply Hf|apply lockless_ret]. Qed.

Lemma lockless_with_node {A} addr (failed : A) p : lockless p -> lockless (with_node addr failed p).
Proof.
  intros Hp. unfold with_node. destruct (split_address addr) as [[ip port]|]; [|apply lockless_ret].
  destruct (stoi port) as [z|]; [|apply lockless_ret]. intros got [].
  - apply lockless_bind; [done|]. intros a. apply lockless_ret.
  - by apply lockless_ret.
Qed.

Ltac lockless_exchange := intros got; repeat tidy_step.

Lemma lockless_upload_chunk chunk addr : lockless (uploadChunkToNode chunk addr).
Proof. apply lockless_with_node. lockless_exchange. Qed.

Lemma lockless_download_chunk hash addr : lockless (downloadChunkFromNode hash addr).
Proof. apply lockless_with_node. lockless_exchange. Qed.

Lemma lockless_put addr path chunks root : lockless (putMetadataToNode addr path chunks root).
Proof. apply lockless_with_node. lockless_exchange. Qed.

Lemma lockless_get addr name : lockless (getMetadataFromNode addr name).
Proof. apply lockless_with_node. lockless_exchange. Qed.

Lemma lockless_upload c path : lockless (uploadFile c path).
Proof.
  unfold uploadFile. apply lockless_bind; [by intros got s|]. intros chunks.
  case_bool_decide; [apply lockless_ret|]. destruct (hashAllChunks chunks) as [cs|]; [|apply lockless_ret].
  apply lockless_and_then.
  - induction cs as [|chunk cs IH]; simpl; [apply lockless_ret|]. destruct (getNodesForKey _ _ _) as [nodes|]; [|apply lockless_ret].
    apply lockless_and_then.
    + generalize 0. induction nodes as [|addr nodes IHn]; intros k; simpl; [apply lockless_ret|].
      apply lockless_and_then; [apply lockless_upload_chunk|]. intros ok. apply IHn.
    + intros k. case_bool_decide; [apply lockless_ret|apply IH].
  - intros [i|]; [apply lockless_ret|]. apply lockless_and_then; [|intros ok; apply lockless_ret].
    induction (metadataNodes_ c) as [|addr nodes IH]; simpl; [apply lockless_ret|].
    apply lockless_and_then; [apply lockless_put|]. intros []; [apply lockless_ret|apply IH].
Qed.

Lemma lockless_download c name out : lockless (downloadFile c name out).
Proof.
  unfold downloadFile. apply lockless_and_then.
  - induction (rev (metadataNodes_ c)) as [|addr nodes IH]; simpl; [apply lockless_ret|].
    apply lockless_and_then; [apply lockless_get|]. intros m. destruct (is_found m); [apply lockless_ret|apply IH].
  - intros [m|]; [|apply lockless_ret]. apply lockless_and_then.
    + generalize (chunkHashes m), 0, (@nil Chunk). intros hashes. induction hashes as [|h hashes IH]; intros i cs; simpl;
        [apply lockless_ret|].
      destruct (getNodesForKey _ _ _) as [nodes|]; [|apply lockless_ret]. apply lockless_and_then.
      * induction nodes as [|addr nodes IHn]; simpl; [apply lockless_ret|].
        apply lockless_and_then; [apply lockless_download_chunk|]. intros data. case_bool_decide; [apply IHn|apply lockless_ret].
      * intros data. case_bool_decide; [apply lockless_ret|apply IH].
    + intros [i|chunks]; [apply lockless_ret|]. unfold reconstruct. intros got. repeat tidy_step.
Qed.

Lemma lockless_job c j : lockless (job_program c j).
Proof.
  destruct j; cbn [job_program]; (apply lockless_bind; [|intros r; apply lockless_ret]);
    [apply lockless_upload|apply lockless_download].
Qed.

(** ** The simulation *)

(** Where an execution and its schedule are, side by side. *)
Record matched {S X} (cl : cell S X) (here : option address) (held : list mutex) (got : bool)
    (s : S) (w : world) (c : option conn) (input : option bytes)
    (W : world) (x : X) (h : locks) (l : link) (qs : list bytes) : Prop := {
  m_look : look cl W x = Some s;
  m_world : agrees w W;
  m_busy : forall a : address, here = Some a -> w !! a = None;
  m_conn : same_conn c l;
  m_input : same_input input qs;
  m_got : got = true -> input = None;
  m_own : NoDup held /\ (held <> [] -> is_Some here);
  m_held : forall (a : address) (m : mutex), here = Some a -> h a m = bool_decide (m ∈ held);
  m_free : forall (a : address) (m : mutex), here <> Some a -> is_Some (w !! a) -> h a m = false
}.

(** What a part of an execution leaves of the rest of the system: nothing has changed at
    the nodes that are busy elsewhere, and no mutex is left. *)
Record framed (here : option address) (w w' W W' : world) (h h' : locks) : Prop := {
  f_gone : forall b : address, w' !! b = None <-> w !! b = None;
  f_world : forall b : address, w !! b = None -> here <> Some b -> W' !! b = W !! b;
  f_locks : forall (b : address) (m : mutex), here <> Some b -> h' b m = h b m
}.

Lemma framed_refl here w W h : framed here w w W W h h.
Proof. by split. Qed.

Lemma framed_trans here w1 w2 w3 W1 W2 W3 h1 h2 h3 :
  framed here w1 w2 W1 W2 h1 h2 -> framed here w2 w3 W2 W3 h2 h3 -> framed here w1 w3 W1 W3 h1 h3.
Proof.
  intros [H1 H2 H3] [H4 H5 H6]. split.
  - intros b. by rewrite H4.
  - intros b Hb Hh. rewrite H5 by (done || by apply H1). by apply H2.
  - intros b m Hb. by rewrite H6, H3.
Qed.

(** The claim for one execution: there are steps to a configuration that matches. *)
Definition replayed {S X A} (cl : cell S X) (here : option address) (own : Prop) (Q : list mutex -> bool -> A -> Prop)
    (w : world) (t : talking S A) (W : world) (x : X) (h : locks) (p : io S A) (l : link) (qs rs out : list bytes)
    (left : list link) : Prop :=
  exists W' x' h' l' qs' got' left',
    rtc (prog_step cl here) (Acted W x h p l qs (rs ++ out) left)
      (Acted W' x' h' (prog t) l' qs' (rs ++ answers t) left') /\
    framed here w (others t) W W' h h' /\
    matched cl here [] got' (members t) (others t) (outgoing t) (unread t) W' x' h' l' qs' /\
    tidy own Q [] got' (prog t).

(** One step of the program itself. *)
Lemma replayed_step {S X A} (cl : cell S X) here own Q fail w w1 t W x h (p : io S A) l qs rs out left r out1 :
  act cl here fail W x h p l qs (rs ++ out) = Some r -> a_replies r = rs ++ out1 ->
  framed here w w1 W (a_world r) h (a_locks r) ->
  replayed cl here own Q w1 t (a_world r) (a_own r) (a_locks r) (a_prog r) (a_link r) (a_requests r) rs out1
    (left ++ a_left r) ->
  replayed cl here own Q w t W x h p l qs rs out left.
Proof.
  intros Ha Hrs Hf (W' & x' & h' & l' & qs' & got' & left' & Hsteps & Hf' & Hm & Ht).
  exists W', x', h', l', qs', got', left'. split_and!; [|by eapply framed_trans|done|done].
  eapply rtc_l; [|exact Hsteps]. left. exists fail, r. split; [exact Ha|]. by rewrite <- Hrs.
Qed.

(** Steps of the handlers on its connection. *)
Lemma replayed_inner {S X A} (cl : cell S X) here own Q w w1 t W W1 x h h1 (p : io S A) l l1 qs rs out left left1 :
  rtc link_step (W, h, l, left) (W1, h1, l1, left1) -> framed here w w1 W W1 h h1 ->
  replayed cl here own Q w1 t W1 x h1 p l1 qs rs out left1 ->
  replayed cl here own Q w t W x h p l qs rs out left.
Proof.
  intros Hs Hf (W' & x' & h' & l' & qs' & got' & left' & Hsteps & Hf' & Hm & Ht).
  exists W', x', h', l', qs', got', left'. split_and!; [|by eapply framed_trans|done|done].
  etransitivity; [|exact Hsteps]. exact (prog_inner cl here p x qs (rs ++ out) _ _ Hs).
Qed.

(** A new connection. *)
Lemma dial_accepted b w W c :
  dial b w = Some c -> agrees w W -> exists t, accepted b W = Some t /\ same_conn (Some c) (Link [] [] t).
Proof.
  unfold dial, accepted. intros Hd Hw. destruct (w !! b) as [[s|s]|] eqn:E; [| |done]; rewrite (Hw _ _ E).
  - destruct (StorageNode.running_ s); [|done]. injection Hd as <-. eexists. split; [done|].
    do 2 eexists. split; [done|]. eexists. split; [done|]. right. split; [done|apply storage_tidy].
  - destruct (MetadataNode.running_ s); [|done]. injection Hd as <-. eexists. split; [done|].
    do 2 eexists. split; [done|]. eexists. split; [done|]. right. split; [done|apply metadata_tidy].
Qed.

(** Where an evaluation stops. *)
Lemma talk_stops {S A} dl (p : io S A) s w c i out t :
  talk dl p s w c i out = Some t ->
  (exists a, prog t = Ret a) \/ (exists k, prog t = ServerRecv k /\ unread t = None).
Proof.
  revert s w c i out. induction p; intros s w c i out Ht; simpl in Ht; eauto.
  - injection Ht as <-. left. by eexists.
  - destruct i; [eauto|]. injection Ht as <-. right. by eexists.
  - destruct (endpoint ip port ≫= _); eauto.
  - destruct c as [c|]; eauto. destruct (dl d c w) as [[? ?]|]; [eauto|done].
  - destruct c as [[? ? [|? ?]]|]; eauto. destruct (Cluster.finished _); [eauto|done].
  - destruct c as [c|]; eauto. destruct (dl [] c w) as [[? ?]|]; [eauto|done].
Qed.

Definition talk_replayed (n : nat) : Prop :=
  forall S X A (cl : cell S X) here (own : Prop) (Q : list mutex -> bool -> A -> Prop) (p : io S A) s w c input out t
    W x h l qs rs left held got,
  cell_at cl here -> (own -> is_Some here) -> (forall h g a, Q h g a -> h = []) ->
  talk (deliver n) p s w c input out = Some t ->
  matched cl here held got s w c input W x h l qs -> tidy own Q held got p ->
  replayed cl here own Q w t W x h p l qs rs out left.

(** ** The handler at the other end *)

Section Handler.
Context {S : Type} (wrap : S -> node) (a : address) (cl : cell S unit) (body : io S bool)
  (mk : io S bool -> link -> thread).
Context (Hcl : cell_at cl (Some a)) (Hbody : tidy_turn body).
Context (Hlook : forall W s, look cl W tt = Some s <-> W !! a = Some (wrap s)).
Context (Hlift : forall r1 r2, rtc (prog_step cl (Some a)) r1 r2 ->
  rtc link_step (a_world r1, a_locks r1, Link (a_requests r1) (a_replies r1) (mk (a_prog r1) (a_link r1)), a_left r1)
    (a_world r2, a_locks r2, Link (a_requests r2) (a_replies r2) (mk (a_prog r2) (a_link r2)), a_left r2)).
Context (kind : io S bool -> handler).
Context (Hkind : forall qs p l, resting qs p -> same_handler a (kind p) qs (mk p l)).
Context (Hagain : forall W h qs rs l left,
  link_step (W, h, Link qs rs (mk (Ret true) l), left) (W, h, Link qs rs (mk body l), left)).

(** A message (or the end of the connection) and the handler's answer to it. *)
Lemma handler_replayed n p s w d W h l qs ib t here left :
  talk_replayed n -> w !! a = Some (wrap s) -> agrees w W ->
  (forall b : address, here = Some b -> w !! b = None) ->
  (forall (b : address) (m : mutex), here <> Some b -> is_Some (w !! b) -> h b m = false) ->
  same_input (Some d) qs -> tidy_turn p -> talk (deliver n) p s (delete a w) None (Some d) [] = Some t ->
  exists W' h' l' qs' left',
    rtc link_step (W, h, Link qs ib (mk p l), left)
      (W', h', Link qs' (ib ++ answers t) (mk (again body (prog t)) l'), left') /\
    resting qs' (again body (prog t)) /\
    agrees (<[a := wrap (members t)]> (others t)) W' /\
    framed None w (<[a := wrap (members t)]> (others t)) W W' h h'.
Proof.
  intros Hn Hw HW Hbusy Hfree Hqs Hp Ht.
  assert (forall b y, delete a w !! b = Some y -> w !! b = Some y) as Hdel.
  { intros b y Hb. by apply lookup_delete_Some in Hb as [_ Hb]. }
  assert (here <> Some a) as Hhere by (intros Ha; by rewrite (Hbusy a Ha) in Hw).
  destruct (Hn _ _ _ cl (Some a) True turn_over p s (delete a w) None (Some d) [] t W tt h l qs ib left [] false Hcl)
    as (W' & [] & h' & l' & qs' & got' & left' & Hsteps & [F1 F2 F3] & [M1 M2 _ _ M5 M6 _ M8 _] & Htidy);
    [by eexists|by intros ? ? ? []|exact Ht| |exact Hp|].
  { split; try done.
    - by apply Hlook, HW.
    - intros b y Hb. by apply HW, Hdel.
    - intros b [= <-]. apply lookup_delete_eq.
    - by split; [constructor|].
    - intros b m [= <-]. rewrite bool_decide_eq_false_2 by apply not_elem_of_nil. by apply Hfree.
    - intros b m _ [y Hy%Hdel]. apply Hfree; [|by eexists]. intros Hb. by rewrite (Hbusy b Hb) in Hy. }
  assert (agrees (<[a := wrap (members t)]> (others t)) W' /\
    framed None w (<[a := wrap (members t)]> (others t)) W W' h h') as [Hag Hfr].
  { split; [|split].
    - intros b y. destruct (decide (a = b)) as [<-|Hb]; [rewrite lookup_insert_eq|rewrite lookup_insert_ne by done].
      + intros [= <-]. by apply Hlook.
      + apply M2.
    - intros b. destruct (decide (a = b)) as [<-|Hb]; [by rewrite lookup_insert_eq, Hw|].
      by rewrite lookup_insert_ne, F1, lookup_delete_ne by done.
    - intros b Hb _. assert (a <> b) by congruence. apply F2; [by rewrite lookup_delete_ne|congruence].
    - intros b m _. destruct (decide (a = b)) as [<-|Hb]; [|apply F3; congruence].
      rewrite (M8 a m eq_refl), (Hfree a m); [by rewrite bool_decide_eq_false_2 by apply not_elem_of_nil|done|by eexists]. }
  apply Hlift in Hsteps. cbn [a_world a_locks a_prog a_link a_requests a_replies a_left] in Hsteps.
  rewrite app_nil_r in Hsteps.
  destruct (talk_stops _ _ _ _ _ _ _ _ Ht) as [[again_ E]|(k & E & Eu)]; rewrite E in Hsteps, Htidy |- *.
  - destruct Htidy as [_ Hgot]. destruct again_; simpl.
    + rewrite (M6 (Hgot eq_refl)) in M5. simpl in M5. subst qs'.
      exists W', h', l', [], left'. split_and!; [|by right|done|done].
      etransitivity; [exact Hsteps|]. by apply rtc_once.
    + exists W', h', l', qs', left'. split_and!; [exact Hsteps|by left|done|done].
  - rewrite Eu in M5. simpl in M5. subst qs'. exists W', h', l', [], left'. split_and!; [exact Hsteps| |done|done].
    right. by split.
Qed.

(** The same for a handler that may have ended. *)
Lemma handler_delivered n p s w d W h l qs qs' ib t here left :
  talk_replayed n -> w !! a = Some (wrap s) -> agrees w W ->
  (forall b : address, here = Some b -> w !! b = None) ->
  (forall (b : address) (m : mutex), here <> Some b -> is_Some (w !! b) -> h b m = false) ->
  resting qs p -> qs' = qs ++ [d] \/ (d = [] /\ qs' = qs) ->
  talk (deliver n) p s (delete a w) None (Some d) [] = Some t ->
  exists W' h' l' left',
    rtc link_step (W, h, Link qs' ib (mk p l), left) (W', h', l', left') /\
    same_conn (Some (Conn a (kind (again body (prog t))) (ib ++ answers t))) l' /\
    agrees (<[a := wrap (members t)]> (others t)) W' /\
    framed None w (<[a := wrap (members t)]> (others t)) W W' h h'.
Proof.
  intros Hn Hw HW Hbusy Hfree [->|[-> Hp]] Hqs Ht.
  - injection Ht as <-. exists W, h, (Link qs' ib (mk (Ret false) l)), left.
    cbn [prog again answers members others]. rewrite app_nil_r, insert_back by done.
    split_and!; [reflexivity| |done|apply framed_refl]. do 2 eexists. split; [done|]. apply Hkind. by left.
  - destruct (handler_replayed n p s w d W h l qs' ib t here left)
      as (W' & h' & l' & qs1 & left' & H1 & H2 & H3 & H4); [done..| |done|done|].
    { destruct Hqs as [->|[-> ->]]; [by left|by right]. }
    exists W', h', (Link qs1 (ib ++ answers t) (mk (again body (prog t)) l')), left'.
    split_and!; [done| |done|done]. do 2 eexists. split; [done|]. by apply Hkind.
Qed.
End Handler.

(** A delivery, replayed. *)
Lemma deliver_replayed n d a hd ib w c' w' W h qs qs' t here left :
  talk_replayed n -> deliver (S n) d (Conn a hd ib) w = Some (c', w') -> agrees w W ->
  (forall b : address, here = Some b -> w !! b = None) ->
  (forall (b : address) (m : mutex), here <> Some b -> is_Some (w !! b) -> h b m = false) ->
  same_handler a hd qs t -> qs' = qs ++ [d] \/ (d = [] /\ qs' = qs) ->
  exists W' h' l' left',
    rtc link_step (W, h, Link qs' ib t, left) (W', h', l', left') /\ same_conn (Some c') l' /\
    agrees w' W' /\ framed None w w' W W' h h'.
Proof.
  intros Hn Hd HW Hbusy Hfree Ht Hqs. cbn [deliver peer at_peer inbox] in Hd.
  destruct (w !! a) as [[s|s]|] eqn:Hw, hd as [p|p|];
    try (injection Hd as <- <-; exists W, h, (Link qs' ib t), left;
         split_and!; [reflexivity|by do 2 eexists|done|apply framed_refl]).
  - destruct (talk (deliver n) p s (delete a w) None (Some d) []) as [tk|] eqn:Etalk; [|done]. injection Hd as <- <-.
    destruct Ht as (l0 & -> & Hp).
    eapply (handler_delivered Storage a (storage_cell a) StorageNode.handleClient (SThread a)
      (storage_cell_at a) storage_tidy) with (kind := HStorage); try done.
    + intros W0 s0. simpl. destruct (W0 !! a) as [[]|]; naive_solver.
    + apply link_storage.
    + intros qs0 p0 l1 H. by eexists.
    + intros W0 h0 qs0 rs l1 left0. exists O, false. do 4 eexists. split; [done|]. by rewrite app_nil_r.
  - destruct (talk (deliver n) p s (delete a w) None (Some d) []) as [tk|] eqn:Etalk; [|done]. injection Hd as <- <-.
    destruct Ht as (l0 & -> & Hp).
    eapply (handler_delivered Metadata a (metadata_cell a) MetadataNode.handleClient
      (MThread a MetadataNode.handleClient) (metadata_cell_at a) metadata_tidy) with (kind := HMetadata); try done.
    + intros W0 s0. simpl. destruct (W0 !! a) as [[]|]; naive_solver.
    + apply link_metadata.
    + intros qs0 p0 l1 H. by eexists.
    + intros W0 h0 qs0 rs l1 left0. exists O, false. do 4 eexists. split; [done|]. by rewrite app_nil_r.
Qed.

(** ** All programs *)

Section Matched.
Context {S X : Type} (cl : cell S X) (here : option address) (Hcl : cell_at cl here).

Lemma matched_atomic f held got s w c input W x h l qs :
  matched cl here held got s w c input W x h l qs ->
  matched cl here held got (f s) w c input (write cl (f s) W x).1 (write cl (f s) W x).2 h l qs /\
  framed here w w W (write cl (f s) W x).1 h h.
Proof.
  intros [M1 M2 M3 M4 M5 M6 M7 M8 M9].
  assert (forall b y, w !! b = Some y -> here <> Some b) as Hne by (intros b y Hb Hh; by rewrite (M3 b Hh) in Hb).
  split; split; try done.
  - by eapply look_write.
  - intros b y Hb. rewrite (write_local _ _ Hcl) by (by eapply Hne). by apply M2.
  - intros b _ Hb. by apply (write_local _ _ Hcl).
Qed.

Lemma matched_lock a m b held held' got s w c input W x h l qs :
  here = Some a -> ((m ∉ held) /\ held' = (m :: held) /\ b = true) \/ (held = (m :: held') /\ b = false) ->
  matched cl here held got s w c input W x h l qs ->
  matched cl here held' got s w c input W x (set_lock a m b h) l qs /\ framed here w w W W h (set_lock a m b h).
Proof.
  intros Ha Hb [M1 M2 M3 M4 M5 M6 M7 M8 M9].
  assert (forall (a' : address) m', here <> Some a' -> set_lock a m b h a' m' = h a' m') as Hset.
  { intros a' m' Hne. unfold set_lock. rewrite decide_False; [done|]. intros [-> _]. by apply Hne. }
  split; split; try done.
  - split; [|by eexists]. destruct M7 as [M7 _]. destruct Hb as [(Hm & -> & _)|(-> & _)]; [by constructor|].
    by apply NoDup_cons in M7 as [_ M7].
  - intros a' m' Ha'. rewrite Ha in Ha'. injection Ha' as <-. unfold set_lock. specialize (M8 a m' Ha).
    destruct (decide (a = a /\ m' = m)) as [[_ ->]|Hm].
    + destruct Hb as [(_ & -> & ->)|(-> & ->)]; symmetry; [apply bool_decide_eq_true; left|apply bool_decide_eq_false].
      by apply proj1, NoDup_cons in M7 as [M7 _].
    + rewrite M8. assert (m' <> m) as Hne by naive_solver.
      destruct Hb as [(_ & -> & ->)|(-> & ->)]; apply bool_decide_ext; rewrite elem_of_cons; naive_solver.
  - intros a' m' Hne Hw. rewrite Hset by done. by apply M9.
Qed.

(** A message was taken. *)
Lemma matched_read d got s w c W x h l qs :
  matched cl here [] got s w c (Some d) W x h l qs -> matched cl here [] true s w c None W x h l [].
Proof. intros [M1 M2 M3 M4 M5 M6 M7 M8 M9]. by split. Qed.

Lemma matched_conn c' l' held got s w c input W x h l qs :
  same_conn c' l' -> matched cl here held got s w c input W x h l qs ->
  matched cl here held got s w c' input W x h l' qs.
Proof. intros Hc [M1 M2 M3 M4 M5 M6 M7 M8 M9]. by split. Qed.

(** The handlers on the connection have run. *)
Lemma matched_inner w' W' h' c' l' held got s w c input W x h l qs :
  framed None w w' W W' h h' -> agrees w' W' -> same_conn c' l' ->
  matched cl here held got s w c input W x h l qs ->
  matched cl here held got s w' c' input W' x h' l' qs /\ framed here w w' W W' h h'.
Proof.
  intros [F1 F2 F3] HW Hc [M1 M2 M3 M4 M5 M6 M7 M8 M9]. split; split; try done; eauto.
  - eapply look_local; [done| |done]. intros a Ha. apply F2; [by apply M3|done].
  - intros a Ha. by apply F1, M3.
  - intros a m Ha Hy. rewrite F3 by done. apply M9; [done|].
    destruct (w !! a) as [z|] eqn:Hz; [by eexists|]. apply F1 in Hz. rewrite Hz in Hy. by destruct Hy.
Qed.
End Matched.

(** The claim for one program, from any configuration that matches. *)
Section Calls.
Context {S X A : Type} (n : nat) (cl : cell S X) (here : option address) (own : Prop)
  (Q : list mutex -> bool -> A -> Prop).
Context (Hcl : cell_at cl here) (Hown : own -> is_Some here) (HQ : forall h g a, Q h g a -> h = []).

Definition replays (p : io S A) : Prop :=
  forall s w c input out t W x h l qs rs left held got,
    talk (deliver n) p s w c input out = Some t ->
    matched cl here held got s w c input W x h l qs -> tidy own Q held got p ->
    replayed cl here own Q w t W x h p l qs rs out left.

(** Steps in which neither the members nor the other nodes change. *)
Ltac plain_step fail :=
  eapply (replayed_step _ _ _ _ fail); [reflexivity|reflexivity|apply framed_refl|];
  cbn [a_world a_own a_locks a_prog a_link a_requests a_replies a_left].

Lemma replays_ret a : replays (Ret a).
Proof.
  intros s w c input out t W x h l qs rs left held got [= <-] Hm Hp. simpl in Hp. assert (held = []) as -> by eauto.
  exists W, x, h, l, qs, got, left. split_and!; [reflexivity|apply framed_refl|exact Hm|exact Hp].
Qed.

Lemma replays_atomic f k : (forall s, replays (k s)) -> replays (Atomic f k).
Proof.
  intros IH s w c input out t W x h l qs rs left held got Ht Hm Hp.
  destruct (matched_atomic cl here Hcl f held got s w c input W x h l qs Hm) as [Hm' Hf].
  eapply (replayed_step _ _ _ _ false w w t W x h _ l qs rs out left (Acted _ _ h (k s) l qs (rs ++ out) []));
    [|reflexivity|exact Hf|by eapply IH].
  cbn [act]. rewrite (m_look _ _ _ _ _ _ _ _ _ _ _ _ _ Hm). simpl. by destruct (write cl (f s) W x).
Qed.

Lemma replays_acquire m k : replays k -> replays (Acquire m k).
Proof.
  intros IH s w c input out t W x h l qs rs left held got Ht Hm (Ho & Htake & Hp). destruct (Hown Ho) as [a Ha].
  assert (m ∉ held) as Hnot by (destruct Htake as [->|[_ ?]]; [apply not_elem_of_nil|done]).
  destruct (matched_lock cl here Hcl a m true held (m :: held) got s w c input W x h l qs Ha) as [Hm' Hf]; [by left|done|].
  eapply (replayed_step _ _ _ _ false w w t W x h _ l qs rs out left (Acted W x _ k l qs (rs ++ out) []));
    [|reflexivity|exact Hf|by eapply IH].
  cbn [act]. by rewrite Ha, (m_held _ _ _ _ _ _ _ _ _ _ _ _ _ Hm a m Ha), bool_decide_eq_false_2.
Qed.

Lemma replays_release m k : replays k -> replays (Release m k).
Proof.
  intros IH s w c input out t W x h l qs rs left held got Ht Hm (held' & -> & Hp).
  destruct (proj2 (m_own _ _ _ _ _ _ _ _ _ _ _ _ _ Hm)) as [a Ha]; [done|].
  destruct (matched_lock cl here Hcl a m false (m :: held') held' got s w c input W x h l qs Ha) as [Hm' Hf]; [by right|done|].
  eapply (replayed_step _ _ _ _ false w w t W x h _ l qs rs out left (Acted W x _ k l qs (rs ++ out) []));
    [|reflexivity|exact Hf|by eapply IH].
  cbn [act]. by rewrite Ha.
Qed.

Lemma replays_serverRecv k : (forall d, replays (k d)) -> replays (ServerRecv k).
Proof.
  intros IH s w c [d|] out t W x h l qs rs left held got Ht Hm (-> & Hp); cbn [talk] in Ht.
  - destruct (m_input _ _ _ _ _ _ _ _ _ _ _ _ _ Hm) as [->|[-> ->]]; [plain_step false|plain_step true];
      (eapply IH; [exact Ht|by eapply matched_read|apply Hp]).
  - injection Ht as <-. exists W, x, h, l, qs, got, left.
    split_and!; [reflexivity|apply framed_refl|exact Hm|by split].
Qed.

Lemma replays_serverSend d k : replays k -> replays (ServerSend d k).
Proof.
  intros IH s w c input out t W x h l qs rs left held got Ht Hm Hp.
  eapply (replayed_step _ _ _ _ false) with (out1 := out ++ [d]);
    [reflexivity|by rewrite (assoc_L (++))|apply framed_refl|]. by eapply IH.
Qed.

Lemma replays_quiet k : replays k -> replays (ServerStop k) /\ replays (ServerClose k).
Proof. intros IH. split; intros s w c input out t W x h l qs rs left held got Ht Hm Hp; plain_step false; by eapply IH. Qed.

Lemma replays_connect ip port k : (forall b, replays (k b)) -> replays (Connect ip port k).
Proof.
  intros IH s w c input out t W x h l qs rs left held got Ht Hm Hp. cbn [talk] in Ht.
  destruct (endpoint ip port ≫= _) as [c'|] eqn:Ed.
  - apply bind_Some in Ed as (b & Eb & Ed). destruct (dial_accepted _ w W _ Ed) as (th & Eth & Hc); [apply Hm|].
    eapply (replayed_step _ _ _ _ false); [cbn [act]; rewrite Eb; cbn [mbind option_bind]; rewrite Eth; reflexivity|
      reflexivity|apply framed_refl|].
    eapply IH; [exact Ht|by eapply matched_conn|apply Hp].
  - plain_step true. eapply IH; [exact Ht|by eapply (matched_conn _ _ None)|apply Hp].
Qed.

(** The handlers at the other end of the connection run. *)
Lemma replayed_delivery held got s w c1 w1 input d conn W x h (p : io S A) t qs qs0 qs' ib th rs out left :
  (forall m, n = Datatypes.S m -> talk_replayed m) -> deliver n d conn w = Some (c1, w1) ->
  conn = Conn (peer conn) (at_peer conn) ib -> same_handler (peer conn) (at_peer conn) qs0 th ->
  qs' = qs0 ++ [d] \/ (d = [] /\ qs' = qs0) ->
  matched cl here held got s w (Some conn) input W x h (Link qs0 ib th) qs ->
  (forall W' h' l' left', matched cl here held got s w1 (Some c1) input W' x h' l' qs ->
     replayed cl here own Q w1 t W' x h' p l' qs rs out left') ->
  replayed cl here own Q w t W x h p (Link qs' ib th) qs rs out left.
Proof.
  intros Hn Hd Hconn Hh Hqs Hm Hk. destruct n as [|m]; [done|]. rewrite Hconn in Hd.
  destruct (deliver_replayed m d _ _ ib w c1 w1 W h qs0 qs' th here left (Hn m eq_refl) Hd)
    as (W' & h' & l' & left' & Hsteps & Hc & Hag & Hf); [apply Hm..|done|done|].
  destruct (matched_inner cl here Hcl w1 W' h' (Some c1) l' held got s w (Some conn) input W x h (Link qs0 ib th) qs)
    as [Hm' Hf']; [done..|]. by eapply replayed_inner, Hk.
Qed.

Lemma replays_send d k :
  (forall m, n = Datatypes.S m -> talk_replayed m) -> (forall b, replays (k b)) -> replays (Send d k).
Proof.
  intros Hn IH s w [[a hd ib]|] input out t W x h l qs rs left held got Ht Hm Hp; cbn [talk] in Ht.
  - destruct (deliver n d _ w) as [[c1 w1]|] eqn:Ed; [|done].
    destruct (m_conn _ _ _ _ _ _ _ _ _ _ _ _ _ Hm) as (qs0 & th & -> & Hth).
    plain_step false. eapply replayed_delivery; [done|exact Ed|done|done|by left|exact Hm|].
    intros W' h' l' left' Hm'. eapply IH; [exact Ht|exact Hm'|apply Hp].
  - destruct l as [|qs' rs' th]; plain_step true; (eapply IH; [exact Ht|exact Hm|apply Hp]).
Qed.

Lemma replays_recv k : (forall d, replays (k d)) -> replays (Recv k).
Proof.
  intros IH s w [[a hd [|m ms]]|] input out t W x h l qs rs left held got Ht Hm [_ Hp]; cbn [talk] in Ht.
  - destruct (Cluster.finished hd); [|done].
    destruct l as [|qs' rs' th]; plain_step true; (eapply IH; [exact Ht|exact Hm|apply Hp]).
  - destruct (m_conn _ _ _ _ _ _ _ _ _ _ _ _ _ Hm) as (qs0 & th & -> & Hth).
    plain_step false. eapply IH; [exact Ht| |apply Hp]. eapply matched_conn; [|exact Hm]. by do 2 eexists.
  - destruct l as [|qs' rs' th]; plain_step true; (eapply IH; [exact Ht|exact Hm|apply Hp]).
Qed.

(** The other end reads the end of the connection before it is let go. *)
Lemma replays_close k : (forall m, n = Datatypes.S m -> talk_replayed m) -> replays k -> replays (Close k).
Proof.
  intros Hn IH s w [[a hd ib]|] input out t W x h l qs rs left held got Ht Hm Hp; cbn [talk] in Ht.
  - destruct (deliver n [] _ w) as [[c1 w1]|] eqn:Ed; [|done].
    destruct (m_conn _ _ _ _ _ _ _ _ _ _ _ _ _ Hm) as (qs0 & th & -> & Hth).
    eapply replayed_delivery; [done|exact Ed|done|done|by right|exact Hm|].
    intros W' h' l' left' Hm'. plain_step false. eapply IH; [exact Ht|by eapply (matched_conn _ _ None)|apply Hp].
  - plain_step false. eapply IH; [exact Ht|by eapply (matched_conn _ _ None)|apply Hp].
Qed.

Lemma replays_all p : (forall m, n = Datatypes.S m -> talk_replayed m) -> replays p.
Proof.
  intros Hn. induction p.
  - apply replays_ret.
  - by apply replays_atomic.
  - by apply replays_acquire.
  - by apply replays_release.
  - by apply replays_serverRecv.
  - by apply replays_serverSend.
  - by apply replays_quiet.
  - by apply replays_quiet.
  - by apply replays_connect.
  - by apply replays_send.
  - by apply replays_recv.
  - by apply replays_close.
Qed.
End Calls.

Lemma talk_replays n : talk_replayed n.
Proof.
  induction n as [|n IH]; intros S X A cl here own Q p s w c input out t W x h l qs rs left held got Hcl Hown HQ Ht Hm Hp;
    (eapply replays_all; [done|done|done| |exact Ht|exact Hm|exact Hp]); by intros m [= <-].
Qed.

(** ** Steps of the whole system *)

Definition root_step (r r' : world * locks * root * list link) : Prop :=
  exists n fail w' h' ro lost, root_do n fail r.1.1.1 r.1.1.2 r.1.2 = Some (w', h', ro, lost) /\
    r' = (w', h', ro, r.2 ++ lost).


Lemma orphan_steps r1 r2 :
  rtc link_step r1 r2 -> rtc root_step (r1.1.1, Orphan r1.1.2, r1.2) (r2.1.1, Orphan r2.1.2, r2.2).
Proof.
  induction 1 as [r|r1 r2 r3 (n & fail & w & h & l & lost & H & ->) _ IH]; [reflexivity|]. eapply rtc_l; [|exact IH].
  exists n, fail, w, h, (Orphan l), lost. destruct n; cbn [root_do fst snd]; by rewrite H.
Qed.

(** A client is not served: it has no requests to read. *)
Lemma act_unserved {S X A} (c : cell S X) here fail w x h (p : io S A) l rs r :
  act c here fail w x h p l [] rs = Some r ->
  a_requests r = [] /\ exists rs', act c here fail w x h p l [] [] =
    Some (Acted (a_world r) (a_own r) (a_locks r) (a_prog r) (a_link r) [] rs' (a_left r)).
Proof.
  intros H. destruct p; simpl in H |- *;
    [|destruct (look c w x); simpl in *; [|done]; destruct (write _ _ _ _)|..|
     destruct (endpoint _ _) as [b|]; simpl in *; [destruct (accepted b w)|]| | |];
    repeat match type of H with context [match ?e with _ => _ end] => destruct e end;
    try done; simplify_eq/=; (split; [done|by eexists]).
Qed.

Lemma client_steps cl j d0 r1 r2 :
  rtc (prog_step client_cell None) r1 r2 -> a_requests r1 = [] ->
  rtc root_step (a_world r1, a_locks r1, Running cl j d0 (a_prog r1) (a_own r1) (a_link r1), a_left r1)
    (a_world r2, a_locks r2, Running cl j d0 (a_prog r2) (a_own r2) (a_link r2), a_left r2).
Proof.
  induction 1 as [r|r1 r2 r3 H _ IH]; [reflexivity|]. intros Hr. destruct H as [(fail & r & H & ->)|(l2 & H & ->)].
  - rewrite Hr in H. destruct (act_unserved _ _ _ _ _ _ _ _ _ _ H) as [Hr' (rs' & H')].
    eapply rtc_l; [|by apply IH]. exists O, fail. cbn [root_do fst snd]. rewrite H'. by do 4 eexists.
  - eapply rtc_l; [|by apply IH]. destruct H as (n & fail & w & h & l & lost & H & ->).
    exists (S n), fail. cbn [root_do fst snd] in H |- *. rewrite H. by do 4 eexists.
Qed.

(** Only [Step]s are needed, so no client starts. *)
Lemma root_schedule pre post r1 r2 :
  rtc root_step r1 r2 ->
  exists chs, begun_in chs = [] /\
    net_exec chs (Net r1.1.1.1 r1.1.1.2 (pre ++ r1.1.2 :: post ++ (Orphan <$> r1.2))) =
      Some (Net r2.1.1.1 r2.1.1.2 (pre ++ r2.1.2 :: post ++ (Orphan <$> r2.2))).
Proof.
  induction 1 as [r|r1 r2 r3 (n & fail & w & h & ro & lost & H & ->) _ (chs & Hb & Hchs)]; [by exists []|].
  exists (Step (length pre) n fail :: chs). split; [done|]. rewrite <- Hchs. cbn [net_exec net_do nodes locked roots fst snd].
  rewrite list_lookup_middle by done. simpl. rewrite H. simpl. do 2 f_equal.
  rewrite insert_app_r_alt, Nat.sub_diag by done. simpl. by rewrite fmap_app, <- !(assoc_L (++)), <- app_comm_cons, <- !(assoc_L (++)).
Qed.

(** ** Histories *)

(** What happens in the evaluator, one thing after the other: a client makes a request,
    or a metadata node checks its successor. *)
Inductive happening := Ask (c : Client) (j : job) (d : fs) | Heal (a : address).

(** A request with its outcome and the client's files. *)
Abbreviation report := (Client * job * fs * outcome * fs)%type.

Fixpoint run_history (n : nat) (evs : list happening) (w : world) : option (list report * world) :=
  match evs with
  | [] => Some ([], w)
  | Ask c j d :: evs' =>
      '(o, d', w') ← run_client n (job_program c j) d w;
      '(rs, w'') ← run_history n evs' w';
      Some ((c, j, d, o, d') :: rs, w'')
  | Heal a :: evs' => w' ← Repair.health_check n a w; run_history n evs' w'
  end.

Definition clients_of (evs : list happening) : list (Client * job * fs) :=
  omap (fun e => match e with Ask c j d => Some (c, j, d) | Heal _ => None end) evs.

(** A client that has ended. *)
Definition ended (r : root) : option report :=
  match r with Running c j d0 (Ret o) d _ => Some (c, j, d0, o, d) | _ => None end.

Lemma ended_orphans (ls : list link) : omap ended (Orphan <$> ls) = [].
Proof. by induction ls. Qed.

Lemma omap_begun chs chs' : begun_in (chs ++ chs') = begun_in chs ++ begun_in chs'.
Proof. apply omap_app. Qed.

Lemma net_exec_app chs chs' c : net_exec (chs ++ chs') c = net_exec chs c ≫= net_exec chs'.
Proof. revert c. induction chs as [|ch chs IH]; intros c; simpl; [done|]. by destruct (net_do ch c); simpl. Qed.

(** At the end of a part the two worlds are the same. *)
Lemma framed_world here w w' W W' h h' b :
  framed here w w' W W' h h' -> agrees w' W' -> here <> Some b -> W !! b = w !! b -> W' !! b = w' !! b.
Proof.
  intros [F1 F2 _] Hag Hb HW. destruct (w' !! b) as [y|] eqn:E; [by apply Hag|].
  apply F1 in E. by rewrite F2, HW.
Qed.

Lemma client_scheduled n c j d w o d' w' h rts :
  run_client n (job_program c j) d w = Some (o, d', w') -> (forall a m, h a m = false) ->
  exists chs h' l lost, begun_in chs = [(c, j, d)] /\ (forall a m, h' a m = false) /\
    net_exec chs (Net w h rts) = Some (Net w' h' (rts ++ Running c j d (Ret o) d' l :: (Orphan <$> lost))).
Proof.
  unfold run_client. intros Hrun Hh.
  destruct (talk (deliver n) (job_program c j) d w None None []) as [[p d1 w1 c1 i out]|] eqn:Ht; [|done].
  destruct p; try done. injection Hrun as -> -> ->.
  destruct (talk_replays n fs fs outcome client_cell None False (fun held _ _ => held = []) (job_program c j) d w None None []
    (Talking (Ret o) d' w' c1 i out) w d h Hang [] [] []
    [] false client_cell_at) as (W' & x' & h' & l' & qs' & got' & left' & Hsteps & Hf & Hm & _);
    [done|done|exact Ht| |apply lockless_job|].
  { split; try done; [by intros b y Hb|by split; [constructor|]]. }
  destruct (root_schedule rts [] _ _ (client_steps c j d _ _ Hsteps eq_refl)) as (chs & Hb & Hchs).
  assert (W' = w') as -> by (apply map_eq; intros b; by eapply framed_world; [exact Hf|apply Hm|..]).
  destruct Hm as [[= ->] _ _ _ _ _ _ _ _]. exists (Begin c j d :: chs), h', l', left'. split_and!.
  - simpl. by rewrite Hb.
  - intros a m. by rewrite (f_locks _ _ _ _ _ _ _ Hf).
  - exact Hchs.
Qed.

Lemma check_scheduled n a w w' h rts :
  Repair.health_check n a w = Some w' -> (forall b m, h b m = false) ->
  exists chs h' lost, begun_in chs = [] /\ (forall b m, h' b m = false) /\
    net_exec chs (Net w h rts) = Some (Net w' h' (rts ++ (Orphan <$> lost))).
Proof.
  unfold Repair.health_check. intros Hrun Hh.
  destruct (w !! a) as [[s|s]|] eqn:Ha; try (injection Hrun as <-; exists [], h, []; by rewrite app_nil_r).
  destruct (talk (deliver n) MetadataNode.healthCheck s (delete a w) None None []) as [t|] eqn:Ht; [|done].
  assert (exists b, prog t = Ret b /\ w' = <[a := Metadata (members t)]> (others t)) as (b & Hp & ->).
  { destruct t as [[] ? ? ? ? ?]; try done. injection Hrun as <-. by eexists. }
  destruct (talk_replays n _ _ _ (metadata_cell a) (Some a) True (fun held _ _ => held = []) MetadataNode.healthCheck s
    (delete a w) None None [] t w tt h Hang [] [] [] [] false (metadata_cell_at a))
    as (W' & [] & h' & l' & qs' & got' & left' & Hsteps & Hf & Hm & _);
    [by eexists|by intros ? ? ?|exact Ht| |apply health_tidy|].
  { split; try done.
    - simpl. by rewrite Ha.
    - intros b' y Hy. by apply lookup_delete_Some in Hy as [_ Hy].
    - intros b' [= <-]. apply lookup_delete_eq.
    - by split; [constructor|]. }
  apply (link_metadata a MetadataNode.healthCheck), orphan_steps, (root_schedule rts []) in Hsteps as (chs & Hb & Hchs).
  cbn [a_world a_locks a_prog a_link a_requests a_replies a_left fst snd] in Hchs.
  assert (W' = <[a := Metadata (members t)]> (others t)) as ->.
  { apply map_eq. intros b'. destruct (decide (a = b')) as [<-|Hne].
    - rewrite lookup_insert_eq. pose proof (m_look _ _ _ _ _ _ _ _ _ _ _ _ _ Hm) as Hl. simpl in Hl.
      by destruct (W' !! a) as [[]|]; simplify_eq.
    - rewrite lookup_insert_ne by done. eapply framed_world; [exact Hf|apply Hm|congruence|]. by rewrite lookup_delete_ne. }
  exists (Watch a :: chs), h', (Link qs' (answers t) (MThread a MetadataNode.healthCheck (prog t) l') :: left'). split_and!.
  - done.
  - intros b' m. destruct (decide (a = b')) as [<-|Hne]; [|].
    { rewrite (m_held _ _ _ _ _ _ _ _ _ _ _ _ _ Hm) by done. by rewrite bool_decide_eq_false_2 by apply not_elem_of_nil. }
    rewrite (f_locks _ _ _ _ _ _ _ Hf) by congruence. apply Hh.
  - cbn [net_exec net_do nodes locked roots]. rewrite Ha. exact Hchs.
Qed.

Lemma history_scheduled n evs w rs w' h rts :
  run_history n evs w = Some (rs, w') -> (forall a m, h a m = false) ->
  exists chs c, net_exec chs (Net w h rts) = Some c /\ begun_in chs = clients_of evs /\
    nodes c = w' /\ (forall a m, locked c a m = false) /\ omap ended (roots c) = omap ended rts ++ rs.
Proof.
  revert w rs h rts. induction evs as [|[c j d|a] evs IH]; intros w rs h rts Hrun Hh; simpl in Hrun.
  - injection Hrun as <- <-. exists [], (Net w h rts). by rewrite app_nil_r.
  - apply bind_Some in Hrun as ([[o d'] w1] & H1 & Hrun). apply bind_Some in Hrun as ([rs' w2] & H2 & [= <- <-]).
    destruct (client_scheduled _ _ _ _ _ _ _ _ h rts H1 Hh) as (chs1 & h1 & l & lost & B1 & Hh1 & E1).
    destruct (IH _ _ h1 (rts ++ Running c j d (Ret o) d' l :: (Orphan <$> lost)) H2 Hh1) as (chs2 & c2 & E2 & B2 & N & L & R).
    exists (chs1 ++ chs2), c2. split_and!; [by rewrite net_exec_app, E1|by rewrite omap_begun, B1, B2|done|done|].
    rewrite R, omap_app. simpl. by rewrite ended_orphans, <- (assoc_L (++)).
  - apply bind_Some in Hrun as (w1 & H1 & H2).
    destruct (check_scheduled _ _ _ _ h rts H1 Hh) as (chs1 & h1 & lost & B1 & Hh1 & E1).
    destruct (IH _ _ h1 (rts ++ (Orphan <$> lost)) H2 Hh1) as (chs2 & c2 & E2 & B2 & N & L & R).
    exists (chs1 ++ chs2), c2. split_and!; [by rewrite net_exec_app, E1|by rewrite omap_begun, B1, B2|done|done|].
    by rewrite R, omap_app, ended_orphans, app_nil_r.
Qed.

(** Whatever sequence of requests and health checks the evaluator of [Cluster.v] executes,
    one after the other, the interleaving semantics of [Network.v] has a schedule with
    exactly these clients that comes to the same: the same outcomes and files of the
    clients, in the same order, the same nodes, and no mutex held.  So what is proved of
    every schedule holds of the evaluator, and what the evaluator does can happen. *)
Theorem executions_are_schedules n evs w rs w' :
  run_history n evs w = Some (rs, w') ->
  exists chs c, net_exec chs (start_net w) = Some c /\ begun_in chs = clients_of evs /\
    nodes c = w' /\ (forall a m, locked c a m = false) /\ omap ended (roots c) = rs.
Proof. intros Hrun. by apply (history_scheduled n evs w rs w' (fun _ _ => false) []). Qed.

(** An upload, the health checks of both chain nodes, and a download, on the sample
    cluster. *)
Definition sample_history : list happening :=
  [Ask Sample.client (Upload "dir/f.txt") Sample.disk; Heal ("10.0.0.11", 90); Heal ("10.0.0.12", 91);
   Ask Sample.client (Download "f.txt" "g") Sample.disk].

(** How the clients ended, and what they find under a name. *)
Definition results_of (name : string) (r : list report * world) : list (outcome * option bytes) :=
  (fun '(_, _, _, o, d) => (o, files d !! name)) <$> r.1.

Lemma executions_are_schedules_witness :
  exists rs w', run_history 2 sample_history Sample.cluster = Some (rs, w') /\
    results_of "g" (rs, w') = [(Uploaded (Some UploadComplete), None);
                          (Downloaded (Some Reconstructed), Some (bytes_of_string "some data"))] /\
    exists chs c, net_exec chs (start_net Sample.cluster) = Some c /\ begun_in chs = clients_of sample_history /\
      nodes c = w' /\ (forall a m, locked c a m = false) /\ omap ended (roots c) = rs.
Proof.
  assert (results_of "g" <$> run_history 2 sample_history Sample.cluster =
    Some [(Uploaded (Some UploadComplete), None);
          (Downloaded (Some Reconstructed), Some (bytes_of_string "some data"))]) as H by by vm_compute.
  destruct (run_history 2 sample_history Sample.cluster) as [[rs w']|] eqn:E; [|discriminate H].
  apply Some_inj in H. exists rs, w'. split_and!; [done|exact H|].
  exact (executions_are_schedules 2 sample_history Sample.cluster rs w' E).
Defined.
