(* ===== verification/Mutexes.v ===== *)
(** * The mutexes of the nodes

    In [Network.v] a mutex is a flag that a thread sets and clears.  Here it is shown what
    the threads make of the flags, in every schedule of any number of clients, handlers
    and health checks: a flag is set exactly while one thread holds the mutex, never two;
    and a thread that holds a mutex waits for no message, and for no other mutex but
    [clientsMutex_] of its node, whose holder waits for no mutex at all.  So the mutexes can
    always become free again, as long as answers can be sent.

    A handler may block in [::send] while it holds [clientsMutex_] ([TCPServer::sendData]), and in
    some commands the mutex of the chain or of the store as well: then it is its peer that must read.  Such a
    thread is one that the schedule does not run.

    [tidy] ([Schedule.v]) has the order in which mutexes are taken; [link_holds] collects
    what the threads of a connection hold, and [moves] is what one step does to the
    flags and to this list. *)
From S2P Require Import Prelude IoStream Sha256 Chunks ConsistentHash Wire Proc Client Cluster Network Schedule.
From S2P Require Integrity.
From S2P Require StorageNode MetadataNode.

#[local] Open Scope Z_scope.

(** ** Who holds what *)

(** Mutexes that were taken in a tidy way, the last one first. *)
Fixpoint stack_ok (held : list mutex) : Prop :=
  match held with [] => True | m :: held' => may_take held' m /\ stack_ok held' end.

(** A program that holds [o], and takes and releases mutexes in a tidy way. *)
Definition calm {S A} (own : Prop) (o : list mutex) (p : io S A) : Prop :=
  stack_ok o /\ exists got, tidy own (fun held _ _ => held = []) o got p.

Definition entry (here : option address) (o : list mutex) : list (address * mutex) :=
  match here with Some a => (fun m => (a, m)) <$> o | None => [] end.

(** The mutexes that the threads of a connection hold, one entry per holder. *)
Fixpoint thread_holds (w : world) (t : thread) (hs : list (address * mutex)) : Prop :=
  match t with
  | SThread a p l => (exists s, w !! a = Some (Storage s)) /\
      exists o hs', hs = entry (Some a) o ++ hs' /\ calm True o p /\ link_holds w l hs'
  | MThread a body p l => (exists s, w !! a = Some (Metadata s)) /\ calm True [] body /\
      exists o hs', hs = entry (Some a) o ++ hs' /\ calm True o p /\ link_holds w l hs'
  end
with link_holds (w : world) (l : link) (hs : list (address * mutex)) : Prop :=
  match l with
  | Hang => hs = []
  | Link _ _ t => thread_holds w t hs
  end.

Definition root_holds (w : world) (r : root) (hs : list (address * mutex)) : Prop :=
  match r with
  | Orphan l => link_holds w l hs
  | Running _ _ _ p _ l => calm False [] p /\ link_holds w l hs
  end.

(** The mutexes that are held in a configuration. *)
Definition net_holds (c : net) (hs : list (address * mutex)) : Prop :=
  exists hss, Forall2 (root_holds (nodes c)) (roots c) hss /\ hs = concat hss.

(** Nobody holds a mutex twice, and the flags say which ones are held. *)
Definition exact (h : locks) (hs : list (address * mutex)) : Prop :=
  NoDup hs /\ forall a m, h a m = true <-> (a, m) ∈ hs.

(** ** What a step does to the mutexes *)

Inductive moves (h h' : locks) (hs hs' : list (address * mutex)) : Prop :=
| moves_same : h' = h -> hs' ≡ₚ hs -> moves h h' hs hs'
| moves_take a m : h a m = false -> h' = set_lock a m true h -> hs' ≡ₚ (a, m) :: hs -> moves h h' hs hs'
| moves_free a m : h' = set_lock a m false h -> hs ≡ₚ (a, m) :: hs' -> moves h h' hs hs'.

Lemma moves_proper h h' hs1 hs1' hs2 hs2' :
  hs1 ≡ₚ hs2 -> hs1' ≡ₚ hs2' -> moves h h' hs1 hs1' -> moves h h' hs2 hs2'.
Proof.
  intros H1 H2 [E H|a m Hf E H|a m E H]; rewrite H1, H2 in H;
    [by apply moves_same|by eapply moves_take|by eapply moves_free].
Qed.

Lemma moves_app h h' hs hs' rest : moves h h' hs hs' -> moves h h' (rest ++ hs) (rest ++ hs').
Proof.
  intros [E H|a m Hf E H|a m E H].
  - apply moves_same; [done|]. by rewrite H.
  - apply (moves_take _ _ _ _ a m); [done..|]. by rewrite H, Permutation_middle.
  - apply (moves_free _ _ _ _ a m); [done|]. by rewrite H, Permutation_middle.
Qed.

Lemma set_lock_true a m b h b' k :
  set_lock a m b h b' k = true <-> (if decide ((b', k) = (a, m)) then b = true else h b' k = true).
Proof. unfold set_lock. repeat case_decide; naive_solver. Qed.

Lemma moves_exact h h' hs hs' : moves h h' hs hs' -> exact h hs -> exact h' hs'.
Proof.
  intros Hm [Hnd Hin]. destruct Hm as [-> H|a m Hf -> H|a m -> H].
  - split; [by rewrite H|]. intros a m. by rewrite H.
  - assert ((a, m) ∉ hs) as Hno by (intros Hh%Hin; congruence). split; [rewrite H; by constructor|].
    intros b k. rewrite set_lock_true, H, elem_of_cons. specialize (Hin b k). destruct (decide _); naive_solver.
  - rewrite H in Hnd. apply NoDup_cons in Hnd as [Hno Hnd]. split; [done|]. intros b k.
    specialize (Hin b k). rewrite H, elem_of_cons in Hin. rewrite set_lock_true.
    destruct (decide _) as [[= -> ->]|]; naive_solver.
Qed.

(** ** Worlds whose nodes stay *)

Definition steady (w w' : world) : Prop := forall a,
  ((exists s, w !! a = Some (Storage s)) -> exists s, w' !! a = Some (Storage s)) /\
  ((exists s, w !! a = Some (Metadata s)) -> exists s, w' !! a = Some (Metadata s)).

Lemma steady_refl w : steady w w.
Proof. by split. Qed.

Lemma holds_steady w w' : steady w w' ->
  (forall t hs, thread_holds w t hs -> thread_holds w' t hs) /\ (forall l hs, link_holds w l hs -> link_holds w' l hs).
Proof.
  intros Hw. apply thread_link_ind; simpl.
  - intros a p l IH hs (Ha & o & hs' & -> & Hp & Hl). split; [by apply Hw|]. exists o, hs'. auto.
  - intros a body p l IH hs (Ha & Hb & o & hs' & -> & Hp & Hl). split_and!; [by apply Hw|done|]. exists o, hs'. auto.
  - done.
  - auto.
Qed.

Lemma link_steady w w' l hs : steady w w' -> link_holds w l hs -> link_holds w' l hs.
Proof. intros Hw. by apply holds_steady. Qed.

Lemma root_steady w w' r hs : steady w w' -> root_holds w r hs -> root_holds w' r hs.
Proof. intros Hw. destruct r; simpl; [|intros [? ?]; split; [done|]]; by eapply link_steady. Qed.

Definition writes_steady {S X} (c : cell S X) : Prop :=
  forall w x s s', look c w x = Some s -> steady w (write c s' w x).1.

Lemma storage_steady a : writes_steady (storage_cell a).
Proof.
  intros w [] s s' Hs b. simpl in *. destruct (decide (a = b)) as [<-|Hne].
  - rewrite lookup_insert_eq. destruct (w !! a) as [[]|]; naive_solver.
  - by rewrite lookup_insert_ne.
Qed.

Lemma metadata_steady a : writes_steady (metadata_cell a).
Proof.
  intros w [] s s' Hs b. simpl in *. destruct (decide (a = b)) as [<-|Hne].
  - rewrite lookup_insert_eq. destruct (w !! a) as [[]|]; naive_solver.
  - by rewrite lookup_insert_ne.
Qed.

Lemma client_steady : writes_steady client_cell.
Proof. intros w x s s' _. apply steady_refl. Qed.

(** ** Steps keep the account *)

Lemma turn_calm {S} (body : io S bool) : tidy_turn body -> calm True [] body.
Proof. intros H. split; [done|]. exists false. eapply tidy_mono; [|exact H]. by intros h g a []. Qed.

Lemma accepted_holds w a t : accepted a w = Some t -> thread_holds w t [].
Proof.
  unfold accepted. intros Ht. destruct (w !! a) as [[s|s]|] eqn:E; [| |done].
  - injection Ht as <-. split; [by eexists|].
    exists [], []. split; [done|]. split; [apply turn_calm, storage_tidy|done].
  - injection Ht as <-. split; [by eexists|]. split; [apply turn_calm, metadata_tidy|].
    exists [], []. split; [done|]. split; [apply turn_calm, metadata_tidy|done].
Qed.

Lemma abandoned_holds w l hs :
  link_holds w l hs -> exists hss, Forall2 (link_holds w) (abandoned l) hss /\ concat hss = hs.
Proof.
  intros Hl. destruct l as [|qs rs t]; [exists []; by split|].
  exists [hs]. split; [by repeat constructor|]. simpl. by rewrite app_nil_r.
Qed.

(** The account of a thread's program after a step, with its connection and those it let
    go. *)
Definition keeps_account {S X A : Type} (here : option address) (own : Prop) (o : list mutex) (hs : list (address * mutex))
    (w : world) (h : locks) (r : acted S X A) : Prop :=
  steady w (a_world r) /\ exists o' hs' hss,
    (is_Some here \/ o' = o) /\ calm own o' (a_prog r) /\ link_holds (a_world r) (a_link r) hs' /\
    Forall2 (link_holds (a_world r)) (a_left r) hss /\
    moves h (a_locks r) (entry here o ++ hs) (entry here o' ++ hs' ++ concat hss).

Section Act.
Context {S X A : Type} (c : cell S X) (Hc : writes_steady c) (here : option address) (own : Prop).
Context (Hown : own -> is_Some here).

(** Steps in which no mutex is touched. *)
Lemma account_same o hs w h (x : X) (k : io S A) l qs rs left hs' hss :
  calm own o k -> link_holds w l hs' -> Forall2 (link_holds w) left hss -> hs' ++ concat hss = hs ->
  keeps_account here own o hs w h (Acted w x h k l qs rs left).
Proof.
  intros Hk Hl Hleft <-. split; [apply steady_refl|]. exists o, hs', hss. split_and!; [by right|done..|].
  by apply moves_same.
Qed.

Lemma account_here o hs w h (x : X) (k : io S A) l qs rs :
  calm own o k -> link_holds w l hs -> keeps_account here own o hs w h (Acted w x h k l qs rs []).
Proof. intros Hk Hl. apply account_same with hs []; [done..|by constructor|]. by rewrite app_nil_r. Qed.

Lemma act_account o hs fail w x h (p : io S A) l qs rs r :
  act c here fail w x h p l qs rs = Some r -> calm own o p -> link_holds w l hs -> keeps_account here own o hs w h r.
Proof.
  intros Hact (Hok & got & Hp) Hl. destruct p; cbn [act tidy] in *; try done.
  - apply bind_Some in Hact as (s & Hs & Hr). pose proof (Hc w x s (f s) Hs) as Hw.
    destruct (write c (f s) w x) as [w' x']. injection Hr as <-. split; [done|].
    exists o, hs, []. split; [by right|]. split; [split; [done|exists got; apply Hp]|].
    split_and!; [by eapply link_steady|done|]. simpl. rewrite app_nil_r. by apply moves_same.
  - destruct Hp as (Ho & Htake & Hp). destruct (Hown Ho) as [a Ha]. rewrite Ha in *. destruct (h a m) eqn:Eh; [done|].
    injection Hact as <-. split; [apply steady_refl|].
    exists (m :: o), hs, []. split; [by left|]. split; [split; [by split|by exists got]|]. split_and!; [done|done|].
    simpl. rewrite app_nil_r. by apply (moves_take _ _ _ _ a m).
  - destruct Hp as (o' & -> & Hp). destruct here as [a|]; [|done]. injection Hact as <-. split; [apply steady_refl|].
    exists o', hs, []. split; [by left|]. split; [split; [by destruct Hok|by exists got]|]. split_and!; [done|done|].
    simpl. rewrite app_nil_r. by apply (moves_free _ _ _ _ a m).
  - destruct Hp as [-> Hp].
    destruct fail; [|destruct qs as [|d qs]; [done|]]; injection Hact as <-;
      (apply account_here; [split; [done|exists true; apply Hp]|done]).
  - injection Hact as <-. apply account_here; [split; [done|by exists got]|done].
  - injection Hact as <-. apply account_here; [split; [done|by exists got]|done].
  - injection Hact as <-. apply account_here; [split; [done|by exists got]|done].
  - destruct (abandoned_holds w l hs Hl) as (hss & Hleft & <-). destruct fail.
    + injection Hact as <-. by apply account_same with [] hss; [split; [done|exists got; apply Hp]|..].
    + apply bind_Some in Hact as (a & _ & Hact). apply bind_Some in Hact as (t & Ht & [= <-]).
      apply account_same with [] hss; [split; [done|exists got; apply Hp]|by eapply accepted_holds|done|done].
  - destruct l as [|qs' rs' t]; [|destruct fail]; injection Hact as <-;
      (apply account_here; [split; [done|exists got; apply Hp]|done]).
  - destruct Hp as [-> Hp]. destruct l as [|qs' rs' t]; [|destruct fail; [|destruct rs' as [|d rs']; [done|]]];
      injection Hact as <-; (apply account_here; [split; [done|exists got; apply Hp]|done]).
  - destruct (abandoned_holds w l hs Hl) as (hss & Hleft & <-). injection Hact as <-.
    by apply account_same with [] hss; [split; [done|exists got]|..].
Qed.
End Act.

(** The account of a connection after a step of one of its threads. *)
Definition link_account (hs : list (address * mutex)) (w : world) (h : locks) (r : world * locks * link * list link) : Prop :=
  steady w r.1.1.1 /\ exists hs' hss, link_holds r.1.1.1 r.1.2 hs' /\ Forall2 (link_holds r.1.1.1) r.2 hss /\
    moves h r.1.1.2 hs (hs' ++ concat hss).

Lemma calm_restart {S} (body p p' : io S bool) o :
  calm True [] body -> calm True o p -> restart body p = Some p' -> o = [] /\ calm True [] p'.
Proof. intros Hb (_ & got & Hp). destruct p as [[]| | | | | | | | | | |]; try done. intros [= <-]. by split. Qed.

Lemma restart_account w h hs (l : link) : link_holds w l hs -> link_account hs w h (w, h, l, []).
Proof.
  intros Hl. split; [apply steady_refl|]. exists hs, []. split_and!; [done|constructor|].
  simpl. rewrite app_nil_r. by apply moves_same.
Qed.

Lemma thread_account fail w h qs rs t hs r :
  thread_do fail w h qs rs t = Some r -> thread_holds w t hs -> link_account hs w h r.
Proof.
  destruct t as [a p l|a body p l]; cbn [thread_do thread_holds].
  - intros Hr (Ha & o & hs0 & -> & Hp & Hl).
    destruct (act (storage_cell a) (Some a) fail w tt h p l qs rs) as [ra|] eqn:Eact.
    + injection Hr as <-.
      destruct (act_account _ (storage_steady a) (Some a) True ltac:(by eexists) _ _ _ _ _ _ _ _ _ _ _ Eact Hp Hl)
        as (Hw & o' & hs' & hss & _ & Hp' & Hl' & Hleft & Hm).
      split; [done|]. exists (entry (Some a) o' ++ hs'), hss. split_and!; [|done|by rewrite <- (assoc_L (++))].
      split; [by apply Hw|]. by exists o', hs'.
    + apply bind_Some in Hr as (p' & Hr & [= <-]).
      destruct (calm_restart _ _ _ _ (turn_calm _ storage_tidy) Hp Hr) as [-> Hp'].
      apply restart_account. split; [done|]. by exists [], hs0.
  - intros Hr (Ha & Hb & o & hs0 & -> & Hp & Hl).
    destruct (act (metadata_cell a) (Some a) fail w tt h p l qs rs) as [ra|] eqn:Eact.
    + injection Hr as <-.
      destruct (act_account _ (metadata_steady a) (Some a) True ltac:(by eexists) _ _ _ _ _ _ _ _ _ _ _ Eact Hp Hl)
        as (Hw & o' & hs' & hss & _ & Hp' & Hl' & Hleft & Hm).
      split; [done|]. exists (entry (Some a) o' ++ hs'), hss. split_and!; [|done|by rewrite <- (assoc_L (++))].
      split_and!; [by apply Hw|done|]. by exists o', hs'.
    + apply bind_Some in Hr as (p' & Hr & [= <-]).
      destruct (calm_restart _ _ _ _ Hb Hp Hr) as [-> Hp'].
      apply restart_account. split; [done|]. split; [done|]. by exists [], hs0.
Qed.

Lemma link_do_account n fail w h l hs r :
  link_do n fail w h l = Some r -> link_holds w l hs -> link_account hs w h r.
Proof.
  revert l hs r. induction n as [|n IH]; intros [|qs rs t] hs r Hr Hl; try done; [by eapply thread_account|].
  cbn [link_do] in Hr. destruct t as [a p l|a body p l]; apply bind_Some in Hr as ([[[w' h'] l'] lost] & Hr & [= <-]).
  - destruct Hl as (Ha & o & hs0 & -> & Hp & Hl).
    destruct (IH _ _ _ Hr Hl) as (Hw & hs' & hss & Hl' & Hleft & Hm). split; [done|].
    exists (entry (Some a) o ++ hs'), hss. split_and!; [|done|].
    + split; [by apply Hw|]. by exists o, hs'.
    + rewrite <- (assoc_L (++)). by apply moves_app.
  - destruct Hl as (Ha & Hb & o & hs0 & -> & Hp & Hl).
    destruct (IH _ _ _ Hr Hl) as (Hw & hs' & hss & Hl' & Hleft & Hm). split; [done|].
    exists (entry (Some a) o ++ hs'), hss. split_and!; [|done|].
    + split_and!; [by apply Hw|done|]. by exists o, hs'.
    + rewrite <- (assoc_L (++)). by apply moves_app.
Qed.

Lemma root_do_account n fail w h ro hs w' h' ro' lost :
  root_do n fail w h ro = Some (w', h', ro', lost) -> root_holds w ro hs ->
  steady w w' /\ exists hs' hss, root_holds w' ro' hs' /\ Forall2 (link_holds w') lost hss /\
    moves h h' hs (hs' ++ concat hss).
Proof.
  destruct ro as [l|cl j d0 p d l]; cbn [root_do root_holds].
  - intros Hr Hl. assert (link_do n fail w h l ≫= (fun '(w', h', l', lost) => Some (w', h', Orphan l', lost)) = Some (w', h', ro', lost))
      as (r & Hr' & E)%bind_Some by (by destruct n). clear Hr. destruct r as [[[w1 h1] l1] lost1]. injection E as <- <- <- <-.
    exact (link_do_account _ _ _ _ _ _ _ Hr' Hl).
  - intros Hr [Hp Hl]. destruct n as [|n].
    + apply bind_Some in Hr as (ra & Hr & [= <- <- <- <-]).
      destruct (act_account _ client_steady None False ltac:(done) _ _ _ _ _ _ _ _ _ _ _ Hr Hp Hl)
        as (Hw & o' & hs' & hss & Ho & Hp' & Hl' & Hleft & Hm).
      destruct Ho as [[? ?]| ->]; [done|]. split; [done|]. by exists hs', hss.
    + apply bind_Some in Hr as ([[[w1 h1] l1] lost1] & Hr & [= <- <- <- <-]).
      destruct (link_do_account _ _ _ _ _ _ _ Hr Hl) as (Hw & hs' & hss & Hl' & Hleft & Hm).
      split; [done|]. by exists hs', hss.
Qed.

(** ** Every reachable configuration *)

Lemma step_account ch c c' hs : net_do ch c = Some c' -> net_holds c hs -> exists hs', net_holds c' hs' /\ moves (locked c) (locked c') hs hs'.
Proof.
  intros Hdo (hss & Hroots & ->). destruct ch as [cl j d|a|i n fail]; cbn [net_do] in Hdo.
  - injection Hdo as <-. exists (concat (hss ++ [[]])). split; [|by rewrite concat_app, app_nil_r; apply moves_same].
    exists (hss ++ [[]]). split; [|done]. apply Forall2_app; [done|]. constructor; [|constructor]. split; [|done].
    split; [done|]. exists false. apply lockless_job.
  - destruct (nodes c !! a) as [[s|s]|] eqn:Ea; try done. injection Hdo as <-.
    exists (concat (hss ++ [[]])). split; [|by rewrite concat_app, app_nil_r; apply moves_same].
    exists (hss ++ [[]]). split; [|done]. apply Forall2_app; [done|]. constructor; [|constructor].
    assert (calm True [] MetadataNode.healthCheck) as Hb by (split; [done|]; exists false; apply health_tidy).
    split; [by eexists|]. split; [done|]. by exists [], [].
  - apply bind_Some in Hdo as (ro & Hi & Hdo). apply bind_Some in Hdo as ([[[w' h'] ro'] lost] & Hdo & [= <-]).
    destruct (Forall2_lookup_l _ _ _ _ _ Hroots Hi) as (hs & Hhs & Hro).
    destruct (root_do_account _ _ _ _ _ _ _ _ _ _ Hdo Hro) as (Hw & hs' & hss' & Hro' & Hleft & Hm).
    exists (concat (<[i := hs']> hss ++ hss')). split.
    + exists (<[i := hs']> hss ++ hss'). split; [|done]. apply Forall2_app.
      * apply Forall2_insert; [|done]. eapply Forall2_impl; [exact Hroots|]. intros r x. by apply root_steady.
      * by apply Forall2_fmap_l.
    + cbn [locked]. rewrite concat_app. apply moves_proper with
        ((concat (take i hss) ++ concat (drop (S i) hss)) ++ hs) ((concat (take i hss) ++ concat (drop (S i) hss)) ++ hs' ++ concat hss');
        [| |by apply moves_app].
      * rewrite <- (take_drop_middle hss i hs Hhs) at 3. rewrite concat_app. simpl. solve_Permutation.
      * rewrite insert_take_drop, concat_app by (by eapply lookup_lt_Some). simpl. solve_Permutation.
Qed.

Lemma exec_account chs c c' hs :
  net_exec chs c = Some c' -> net_holds c hs -> exact (locked c) hs -> exists hs', net_holds c' hs' /\ exact (locked c') hs'.
Proof.
  revert c hs. induction chs as [|ch chs IH]; intros c hs Hex Hh He; cbn [net_exec] in Hex.
  { injection Hex as <-. by exists hs. }
  apply bind_Some in Hex as (c1 & Hdo & Hex). destruct (step_account _ _ _ _ Hdo Hh) as (hs1 & Hh1 & Hm).
  by eapply IH; [|exact Hh1|eapply moves_exact].
Qed.

Lemma start_account w : net_holds (start_net w) [] /\ exact (locked (start_net w)) [].
Proof.
  split; [by exists []|]. split; [constructor|]. intros a m. split; [done|]. by intros ?%not_elem_of_nil.
Qed.

(** ** A mutex that is held becomes free *)

(** After steps from [h] to [h'], [m] and [clientsMutex_] of [a] are free and the others as they were. *)
Definition freed (a : address) (m : mutex) (h h' : locks) : Prop :=
  h' a m = false /\ h' a clientsMutex_ = false /\
  forall b k, ~ (b = a /\ (k = m \/ k = clientsMutex_)) -> h' b k = h b k.

Definition frees {S X A : Type} (c : cell S X) (a : address) (m : mutex) (h : locks) (r : acted S X A) : Prop :=
  exists r', rtc (prog_step c (Some a)) r r' /\ freed a m h (a_locks r').

Lemma frees_step {S X A : Type} (c : cell S X) a m h fail w x h0 (p : io S A) l qs rs left r :
  act c (Some a) fail w x h0 p l qs rs = Some r ->
  frees c a m h (Acted (a_world r) (a_own r) (a_locks r) (a_prog r) (a_link r) (a_requests r) (a_replies r) (left ++ a_left r)) ->
  frees c a m h (Acted w x h0 p l qs rs left).
Proof. intros Hact (r' & Hr & E). exists r'. split; [|done]. eapply rtc_l; [|exact Hr]. left. by exists fail, r. Qed.

Lemma freed_set a m b h h' : freed a m (set_lock a clientsMutex_ b h) h' -> freed a m h h'.
Proof.
  intros (H1 & H2 & H3). split_and!; [done|done|]. intros a' k Hk. rewrite H3 by done. unfold set_lock.
  rewrite decide_False; [done|]. intros [-> ->]. apply Hk. by split; [|right].
Qed.

Lemma frees_set {S X A : Type} (c : cell S X) a m b h (r : acted S X A) :
  frees c a m (set_lock a clientsMutex_ b h) r -> frees c a m h r.
Proof. intros (r' & Hr & Hf). exists r'. split; [done|]. by eapply freed_set. Qed.

(** The rest of the program up to the release, every call on a connection failing. *)
Lemma program_releases {S X A : Type} (c : cell S X) a m held got (p : io S A) s w x h l qs rs left :
  cell_at c (Some a) -> tidy True (fun held _ _ => held = []) held got p -> stack_ok held -> m ∈ held ->
  m = clientsMutex_ \/ h a clientsMutex_ = bool_decide (clientsMutex_ ∈ held) -> look c w x = Some s ->
  frees c a m h (Acted w x h p l qs rs left).
Proof.
  intros Hc. revert held got s w x h l qs rs left.
  induction p as [v|f k IH|m' k IH|m' k IH|k IH|d k IH|k IH|k IH|ip port k IH|d k IH|k IH|k IH];
    intros held got s w x h l qs rs left Hp Hok Hm Hh Hs; cbn [tidy] in Hp.
  - subst. by apply not_elem_of_nil in Hm.
  - pose proof (look_write _ _ Hc w x s (f s) Hs) as Hs'. destruct (write c (f s) w x) as [w' x'] eqn:Ew.
    eapply (frees_step _ _ _ _ false); [cbn [act]; rewrite Hs; simpl; by rewrite Ew|]. by eapply IH.
  - destruct Hp as (_ & [->|[-> Hnot]] & Hp); [by apply not_elem_of_nil in Hm|].
    assert (m <> clientsMutex_) as Hne by (intros ->; by apply Hnot). destruct Hh as [?|Hh]; [done|].
    rewrite bool_decide_eq_false_2 in Hh by done.
    eapply (frees_step _ _ _ _ false); [cbn [act]; by rewrite Hh|]. cbn [a_world a_own a_locks a_prog a_link a_requests a_replies].
    apply (frees_set _ _ _ true). eapply IH; [exact Hp| |by right| |exact Hs].
    + by split; [right|].
    + right. unfold set_lock. rewrite decide_True by done. symmetry. apply bool_decide_eq_true. left.
  - destruct Hp as (held' & -> & Hp). destruct Hok as [Htake Hok].
    eapply (frees_step _ _ _ _ false); [reflexivity|]. cbn [a_world a_own a_locks a_prog a_link a_requests a_replies].
    destruct (decide (m = m')) as [<-|Hne].
    + eexists. split; [reflexivity|]. cbn [a_locks]. unfold set_lock. split_and!.
      * by rewrite decide_True.
      * destruct (decide _) as [|Hd]; [done|]. destruct Hh as [->|Hh]; [by destruct Hd|]. rewrite Hh.
        apply bool_decide_eq_false. intros [<-|Hin]%elem_of_cons; [by apply Hd|].
        destruct Htake as [->|[-> _]]; [by apply not_elem_of_nil in Hin|by apply Hd].
      * intros b k' Hk. rewrite decide_False; [done|]. intros [-> ->]. apply Hk. by split; [|left].
    + apply elem_of_cons in Hm as [?|Hm]; [done|]. destruct Htake as [->|[-> Hnot]]; [by apply not_elem_of_nil in Hm|].
      apply (frees_set _ _ _ false). eapply IH; [exact Hp|done|done| |exact Hs]. right. unfold set_lock.
      rewrite decide_True by done. by rewrite bool_decide_eq_false_2.
  - destruct Hp as [-> _]. by apply not_elem_of_nil in Hm.
  - eapply (frees_step _ _ _ _ false); [reflexivity|]. by eapply IH.
  - eapply (frees_step _ _ _ _ false); [reflexivity|]. by eapply IH.
  - eapply (frees_step _ _ _ _ false); [reflexivity|]. by eapply IH.
  - eapply (frees_step _ _ _ _ true); [reflexivity|]. by eapply IH.
  - destruct l as [|qs' rs' t]; (eapply (frees_step _ _ _ _ true); [reflexivity|]; by eapply IH).
  - destruct Hp as [-> _]. by apply not_elem_of_nil in Hm.
  - eapply (frees_step _ _ _ _ false); [reflexivity|]. by eapply IH.
Qed.

(** From a connection.  A mutex that is not [clientsMutex_] is released once that one is free. *)
Definition link_frees (a : address) (m : mutex) (w : world) (h : locks) (l : link) (left : list link) : Prop :=
  exists r, rtc link_step (w, h, l, left) r /\ freed a m h r.1.1.2.

Definition innermost (a : address) (m : mutex) (h : locks) (hs : list (address * mutex)) : Prop :=
  m = clientsMutex_ \/ h a clientsMutex_ = false /\ (a, clientsMutex_) ∉ hs.

Lemma innermost_sub a m h hs hs' : hs' ⊆ hs -> innermost a m h hs -> innermost a m h hs'.
Proof. intros Hsub [?|[? H]]; [by left|right]. split; [done|]. intros ?%Hsub. by apply H. Qed.

Lemma entry_elem (b : address) o (a : address) m : (a, m) ∈ entry (Some b) o -> a = b /\ m ∈ o.
Proof. simpl. by intros (k & [= -> ->] & Hk)%list_elem_of_fmap. Qed.

Lemma innermost_entry a m h o : innermost a m h (entry (Some a) o) ->
  m = clientsMutex_ \/ h a clientsMutex_ = bool_decide (clientsMutex_ ∈ o).
Proof.
  intros [?|[Hh Ho]]; [by left|right]. rewrite Hh. symmetry. apply bool_decide_eq_false. intros Hin. apply Ho.
  simpl. apply list_elem_of_fmap. by exists clientsMutex_.
Qed.

Lemma connection_releases a m :
  (forall t w h qs rs left hs, thread_holds w t hs -> (a, m) ∈ hs -> innermost a m h hs -> link_frees a m w h (Link qs rs t) left) /\
  (forall l w h left hs, link_holds w l hs -> (a, m) ∈ hs -> innermost a m h hs -> link_frees a m w h l left).
Proof.
  apply thread_link_ind; cbn [thread_holds link_holds].
  - intros b p l IH w h qs rs left hs ([s Hs] & o & hs' & -> & (Hok & got & Hp) & Hl) [Hin|Hin]%elem_of_app Hi.
    + apply entry_elem in Hin as [<- Hin]. apply (innermost_sub _ _ _ _ (entry (Some a) o)), innermost_entry in Hi;
        [|by apply list_subseteq_app_l].
      destruct (program_releases (storage_cell a) a m o got p s w tt h l qs rs left (storage_cell_at a) Hp Hok Hin Hi) as (r & Hr & E);
        [simpl; by rewrite Hs|]. exists (a_world r, a_locks r, Link (a_requests r) (a_replies r) (SThread a (a_prog r) (a_link r)), a_left r).
      split; [exact (link_storage a _ _ Hr)|exact E].
    + apply (innermost_sub _ _ _ _ hs') in Hi; [|by apply list_subseteq_app_r].
      destruct (IH w h left hs' Hl Hin Hi) as (r & Hr & E). exists (r.1.1.1, r.1.1.2, Link qs rs (SThread b p r.1.2), r.2). split; [|exact E].
      exact (link_storage b _ _ (prog_inner (storage_cell b) (Some b) p tt qs rs _ _ Hr)).
  - intros b body p l IH w h qs rs left hs ([s Hs] & _ & o & hs' & -> & (Hok & got & Hp) & Hl) [Hin|Hin]%elem_of_app Hi.
    + apply entry_elem in Hin as [<- Hin]. apply (innermost_sub _ _ _ _ (entry (Some a) o)), innermost_entry in Hi;
        [|by apply list_subseteq_app_l].
      destruct (program_releases (metadata_cell a) a m o got p s w tt h l qs rs left (metadata_cell_at a) Hp Hok Hin Hi) as (r & Hr & E);
        [simpl; by rewrite Hs|]. exists (a_world r, a_locks r, Link (a_requests r) (a_replies r) (MThread a body (a_prog r) (a_link r)), a_left r).
      split; [exact (link_metadata a body _ _ Hr)|exact E].
    + apply (innermost_sub _ _ _ _ hs') in Hi; [|by apply list_subseteq_app_r].
      destruct (IH w h left hs' Hl Hin Hi) as (r & Hr & E). exists (r.1.1.1, r.1.1.2, Link qs rs (MThread b body p r.1.2), r.2). split; [|exact E].
      exact (link_metadata b body _ _ (prog_inner (metadata_cell b) (Some b) p tt qs rs _ _ Hr)).
  - by intros w h left hs -> ?%not_elem_of_nil.
  - intros qs rs t IH w h left hs. by apply IH.
Qed.

Lemma root_releases a m w h ro hs :
  root_holds w ro hs -> (a, m) ∈ hs -> innermost a m h hs ->
  exists r, rtc root_step (w, h, ro, []) r /\ freed a m h r.1.1.2.
Proof.
  destruct ro as [l|cl j d0 p d l]; cbn [root_holds]; intros Hro Hin Hi.
  - destruct (proj2 (connection_releases a m) l w h [] hs Hro Hin Hi) as (r & Hr & E).
    exists (r.1.1, Orphan r.1.2, r.2). split; [exact (orphan_steps _ _ Hr)|exact E].
  - destruct Hro as [_ Hl]. destruct (proj2 (connection_releases a m) l w h [] hs Hl Hin Hi) as (r & Hr & E).
    exists (r.1.1.1, r.1.1.2, Running cl j d0 p d r.1.2, r.2). split; [|exact E].
    exact (client_steps cl j d0 _ _ (prog_inner client_cell None p d [] [] _ _ Hr) eq_refl).
Qed.

Lemma net_releases_inner c hs a m :
  net_holds c hs -> (a, m) ∈ hs -> innermost a m (locked c) hs ->
  exists chs c', begun_in chs = [] /\ net_exec chs c = Some c' /\ freed a m (locked c) (locked c').
Proof.
  intros (hss & Hroots & ->) Hin Hi. apply list_elem_of_In, in_concat in Hin as (hs & Hhs & Hin).
  apply list_elem_of_In in Hhs, Hin. apply (innermost_sub _ _ _ _ hs) in Hi.
  2: { intros x Hx. apply list_elem_of_In, in_concat. exists hs. by rewrite <- !list_elem_of_In. }
  apply list_elem_of_lookup in Hhs as [i Hs].
  destruct (Forall2_lookup_r _ _ _ _ _ Hroots Hs) as (ro & Hro & Hh).
  destruct (root_releases a m (nodes c) (locked c) ro hs Hh Hin Hi) as (r & Hr & E).
  destruct (root_schedule (take i (roots c)) (drop (S i) (roots c)) _ _ Hr) as (chs & Hb & Hchs).
  cbn [fst snd fmap list_fmap] in Hchs. rewrite app_nil_r, take_drop_middle in Hchs by done.
  exists chs, (Net r.1.1.1 r.1.1.2 (take i (roots c) ++ r.1.2 :: drop (S i) (roots c) ++ (Orphan <$> r.2))).
  split_and!; [done|by destruct c|exact E].
Qed.

Lemma begun_app chs chs' : begun_in (chs ++ chs') = begun_in chs ++ begun_in chs'.
Proof. apply omap_app. Qed.

(** First [clientsMutex_] of the node, if it is taken, then the mutex. *)
Lemma net_releases c hs a m :
  net_holds c hs -> exact (locked c) hs -> locked c a m = true ->
  exists chs c', begun_in chs = [] /\ net_exec chs c = Some c' /\ freed a m (locked c) (locked c').
Proof.
  intros Hh He Hm. destruct (decide (m = clientsMutex_)) as [->|Hne].
  { eapply net_releases_inner; [done|by apply He|by left]. }
  destruct (locked c a clientsMutex_) eqn:Ec.
  - destruct (net_releases_inner c hs a clientsMutex_ Hh) as (chs1 & c1 & B1 & E1 & (_ & F1 & F2)); [by apply He|by left|].
    destruct (exec_account _ _ _ _ E1 Hh He) as (hs1 & Hh1 & He1).
    assert (locked c1 a m = true) as Hm1 by (rewrite F2; [done|naive_solver]).
    destruct (net_releases_inner c1 hs1 a m Hh1) as (chs2 & c2 & B2 & E2 & (G1 & G2 & G3)).
    { by apply He1. } { right. split; [done|]. intros Hin%He1. congruence. }
    exists (chs1 ++ chs2), c2. split; [by rewrite begun_app, B1, B2|]. split; [by rewrite net_exec_app, E1|].
    split; [done|]. split; [done|].
    intros b k Hk. rewrite G3 by done. apply F2. naive_solver.
  - eapply net_releases_inner; [done|by apply He|]. right. split; [done|]. intros Hin%He. congruence.
Qed.

(** ** Properties *)

(** C6. Mutual exclusion without circular waiting, in every schedule of any clients, handlers and
    health checks, whatever calls the network fails: the mutexes that are taken, those of the
    nodes' data and of their servers' clients, are exactly
    those that threads hold, and none is held by two threads; and from every configuration
    reached, for every mutex that is taken, there is a continuation in which no client
    starts and after which this mutex and [clientsMutex_] of its node are free and all others are
    as they were.  So no set of threads waits for one another for mutexes.  The continuation
    lets holders go on, so it needs the kernel to take what they send: a
    handler that blocks in [::send] because its peer does not read holds [clientsMutex_], and
    sometimes the mutex outside it, until the peer reads or is gone. *)
Theorem mutexes_exclude_and_release admits w c :
  net_reach admits w c ->
  (exists hs, net_holds c hs /\ NoDup hs /\ forall a m, locked c a m = true <-> (a, m) ∈ hs) /\
  (forall a m, locked c a m = true ->
     exists chs c', begun_in chs = [] /\ net_exec chs c = Some c' /\
       locked c' a m = false /\ locked c' a clientsMutex_ = false /\
       forall b k, ~ (b = a /\ (k = m \/ k = clientsMutex_)) -> locked c' b k = locked c b k).
Proof.
  intros (chs & Hex & _). destruct (start_account w) as [Hs He].
  destruct (exec_account _ _ _ _ Hex Hs He) as (hs & Hh & Hnd & Hin). split; [by exists hs|].
  intros a m Ha. by eapply net_releases.
Qed.

(** A client of the sample cluster and the handler that is about to store its chunk. *)
Definition storing : list choice :=
  Begin Integrity.Sample.client (Upload "dir/f.txt") Integrity.Sample.disk :: runs_of [(3, 0, 0); (7, 0, 1); (2, 0, 0); (4, 0, 1)]%nat.

Lemma mutexes_exclude_and_release_witness :
  exists c, net_reach (fun _ _ _ => True) Integrity.Sample.cluster c /\ locked c ("10.0.0.1", 80) storageMutex_ = true /\
    (exists hs, net_holds c hs /\ NoDup hs /\ forall a m, locked c a m = true <-> (a, m) ∈ hs) /\
    exists chs c', begun_in chs = [] /\ net_exec chs c = Some c' /\
      locked c' ("10.0.0.1", 80) storageMutex_ = false.
Proof.
  assert ((fun c => locked c ("10.0.0.1", 80) storageMutex_) <$> net_exec storing (start_net Integrity.Sample.cluster) = Some true)
    as H by by vm_compute.
  destruct (net_exec storing (start_net Integrity.Sample.cluster)) as [c|] eqn:E; [|discriminate H]. apply Some_inj in H.
  assert (net_reach (fun _ _ _ => True) Integrity.Sample.cluster c) as Hc.
  { exact (ex_intro _ storing (conj E (fun _ _ _ _ => I))). }
  exists c. split; [exact Hc|]. split; [exact H|].
  destruct (mutexes_exclude_and_release (fun _ _ _ => True) Integrity.Sample.cluster c Hc) as [H1 H2]. split; [exact H1|].
  destruct (H2 ("10.0.0.1", 80) storageMutex_ H) as (chs & c' & B & E' & F & _).
  exists chs, c'. split; [exact B|]. split; [exact E'|exact F].
Defined.
