(* ===== verification/Totality.v ===== *)
(** * Every request ends

    The evaluator of [Cluster.v] is undefined when a program waits for a message that
    never comes.  Here it is shown when that can happen.  Whatever is in the stores of
    the nodes, whichever of them are up, however they are chained, an upload comes to an
    end; a download does if the name it asks for has a word in it, and otherwise it waits
    for ever at the first metadata node it reaches, which answers nothing to a [GET]
    without a name. *)
From S2P Require Import Prelude IoStream Sha256 Chunks ConsistentHash Wire Proc Client Cluster Network.
From S2P Require StorageNode MetadataNode.

#[local] Open Scope Z_scope.

(** ** Worlds with the same nodes *)

(** What a node is, and for a metadata node whom it takes for its successor. *)
Definition kind (o : option node) : option (option address) :=
  match o with
  | Some (Storage _) => Some None
  | Some (Metadata s) => Some (Some (MetadataNode.nextNodeIp_ s, MetadataNode.nextNodePort_ s))
  | None => None
  end.

Definition alike (w w' : world) : Prop := forall a, kind (w' !! a) = kind (w !! a).

#[export] Instance alike_preorder : PreOrder alike.
Proof. split; [by intros w a|]. intros w1 w2 w3 H1 H2 a. by rewrite H2. Qed.

Lemma alike_insert w a x : kind (Some x) = kind (w !! a) -> alike w (<[a := x]> w).
Proof.
  intros Hx b. destruct (decide (a = b)) as [<-|Hne]; [by rewrite lookup_insert_eq|by rewrite lookup_insert_ne].
Qed.

Lemma alike_back w w' a x : alike (delete a w) w' -> kind (Some x) = kind (w !! a) -> alike w (<[a := x]> w').
Proof.
  intros Hw Hx b. specialize (Hw b). destruct (decide (a = b)) as [<-|Hne]; [by rewrite lookup_insert_eq|].
  rewrite lookup_insert_ne by done. by rewrite lookup_delete_ne in Hw.
Qed.

(** From [a] on, the successors of metadata nodes come to an end within [n] nodes: they do
    not go round in a circle.  One that no address can be made of is refused. *)
Fixpoint chain_ends (n : nat) (w : world) (a : address) : bool :=
  match n with
  | O => false
  | S n' =>
      match kind (w !! a) with
      | Some (Some (ip, port)) =>
          bool_decide (port = -1) || match endpoint ip port with Some b => chain_ends n' w b | None => true end
      | _ => true
      end
  end.

Lemma chain_ends_alike n w w' a : alike w w' -> chain_ends n w' a = chain_ends n w a.
Proof.
  intros Hw. revert a. induction n as [|n IH]; intros a; [done|]. simpl. rewrite (Hw a).
  destruct (kind (w !! a)) as [[[ip port]|]|]; [|done..]. destruct (endpoint ip port); [by rewrite IH|done].
Qed.

(** Also when a node is busy. *)
Lemma chain_ends_delete n w a b : chain_ends n w b = true -> chain_ends n (delete a w) b = true.
Proof.
  revert b. induction n as [|n IH]; intros b; [done|]. simpl. destruct (decide (a = b)) as [<-|Hne].
  - by rewrite lookup_delete_eq.
  - rewrite lookup_delete_ne by done. destruct (kind (w !! b)) as [[[ip port]|]|]; [|done..].
    rewrite !orb_true_iff. destruct (endpoint ip port); naive_solver.
Qed.

Definition next_ends (n : nat) (w : world) (b : string * Z) : bool :=
  match endpoint b.1 b.2 with Some a => chain_ends n w a | None => true end.

(** ** What the handlers answer *)

(** More than an announcement of data. *)
Definition answer_of (xs : list bytes) : Prop := xs <> [] /\ xs <> [bytes_of_string "FOUND"].

(** Not the go-ahead of [STORE]. *)
Definition unready (xs : list bytes) : Prop := bytes_of_string "READY" ∉ xs.

(** After a message the handler has left its loop, or it has answered. *)
Definition responds {S} (p : io S bool) (xs : list bytes) : Prop := p = Ret false \/ answer_of xs.

(** A storage node in the middle of [STORE], or one that has left. *)
Definition prompt (p : io StorageNode.StorageNode bool) : Prop := forall dl s w d, exists t,
  talk dl p s w None (Some d) [] = Some t /\ others t = w /\
  (prog t = Ret true \/ prog t = Ret false) /\ responds (prog t) (answers t).

Lemma prompt_left : prompt (Ret false).
Proof. intros dl s w d. eexists. split; [reflexivity|]. split_and!; [done|by right|by left]. Qed.

Lemma answer_one m : m <> "FOUND" -> answer_of [bytes_of_string m].
Proof. intros Hm. split; [done|]. intros [= E%(f_equal string_of_bytes)]. by rewrite !string_bytes_id in E. Qed.

Lemma storage_answers dl s w d : exists t,
  talk dl StorageNode.handleClient s w None (Some d) [] = Some t /\ others t = w /\
  (prog t = Ret true \/ prompt (prog t)) /\ responds (prog t) (answers t).
Proof.
  unfold StorageNode.handleClient, StorageNode.handleClient_turn.
  cbn [reads mbind io_mbind io_bind talk]. destruct (StorageNode.running_ s); cbn -[bytes_of_string].
  2: { eexists. split; [reflexivity|]. split_and!; [done|right; apply prompt_left|by left]. }
  case_bool_decide; cbn -[bytes_of_string].
  { eexists. split; [reflexivity|]. split_and!; [done|right; apply prompt_left|by left]. }
  destruct (extract_string _) as [o iss]. case_bool_decide; [|case_bool_decide; [|case_bool_decide]]; cbn -[bytes_of_string].
  - unfold StorageNode.handleStore. destruct (extract_string iss) as [[hash|] iss']; cbn -[bytes_of_string].
    + eexists. split; [reflexivity|]. split_and!; [done| |right; by apply answer_one]. right. intros dl' s' w' data.
      cbn -[bytes_of_string]. case_bool_decide; cbn -[bytes_of_string]; (eexists; split; [reflexivity|]).
      * split_and!; [done|by right|by left].
      * split_and!; [done|by left|right; by apply answer_one].
    + eexists. split; [reflexivity|]. split_and!; [done|by left|right; by apply answer_one].
  - unfold StorageNode.handleGet. destruct (extract_string iss) as [[hash|] iss']; cbn -[bytes_of_string].
    + case_bool_decide; cbn -[bytes_of_string]; (eexists; split; [reflexivity|]); (split_and!; [done|by left|right]).
      * by apply answer_one.
      * done.
    + eexists. split; [reflexivity|]. split_and!; [done|by left|right; by apply answer_one].
  - eexists. split; [reflexivity|]. split_and!; [done|right; apply prompt_left|by left].
  - eexists. split; [reflexivity|]. split_and!; [done|by left|right; by apply answer_one].
Qed.

(** ** Messages on a connection *)

(** The handler is between two messages. *)
Definition handler_ok (w : world) (a : address) (h : handler) : Prop :=
  match h, kind (w !! a) with
  | HStorage p, Some None => p = StorageNode.handleClient \/ prompt p
  | HMetadata p, Some (Some _) => p = MetadataNode.handleClient \/ p = Ret false
  | _, _ => False
  end.

(** What a metadata node answers: everything clients send but a [GET] without a name. *)
Definition asks_well (d : bytes) : Prop :=
  let '(o, iss) := extract_string (istringstream (string_of_bytes d)) in
  o = Some "PUT" \/ o = Some "STORE" \/ o = Some "GET" /\ is_Some (extract_string iss).1.

Definition delivers (n : nat) : Prop := forall d a h ib w,
  chain_ends n w a = true -> handler_ok w a h -> d = [] \/ asks_well d \/ kind (w !! a) = Some None ->
  exists h' xs w', deliver n d (Conn a h ib) w = Some (Conn a h' (ib ++ xs), w') /\ alike w w' /\
    handler_ok w' a h' /\ (Cluster.finished h' = true \/ answer_of xs) /\ (kind (w !! a) = Some None \/ unready xs).

Lemma handler_ok_alike w w' a h : alike w w' -> handler_ok w a h -> handler_ok w' a h.
Proof. intros Hw. unfold handler_ok. by rewrite (Hw a). Qed.

Lemma dial_ok w a c : dial a w = Some c -> exists h, c = Conn a h [] /\ handler_ok w a h.
Proof.
  unfold dial, handler_ok. destruct (w !! a) as [[s|s]|]; [| |done].
  - destruct (StorageNode.running_ s); [|done]. intros [= <-]. eexists. split; [done|]. by left.
  - destruct (MetadataNode.running_ s); [|done]. intros [= <-]. eexists. split; [done|]. by left.
Qed.

(** A program ends with its connection closed, and members in [R]. *)
Definition ends {S A : Type} (n : nat) (R : S -> Prop) (p : io S A) (s : S) (w : world) (c : option conn)
    (out : list bytes) : Prop :=
  exists a s' w', talk (deliver n) p s w c None out = Some (Talking (Ret a) s' w' None None out) /\ alike w w' /\ R s'.

Section Calls.
Context {S A : Type} (n : nat) (Hn : delivers n) (R : S -> Prop) (s : S) (w : world) (out : list bytes).

Lemma ends_connect ip port (k : bool -> io S A) :
  ends n R (k false) s w None out ->
  (forall a h, endpoint ip port = Some a -> handler_ok w a h -> ends n R (k true) s w (Some (Conn a h [])) out) ->
  ends n R (Connect ip port k) s w None out.
Proof.
  intros Hf Ht. unfold ends. cbn [talk]. destruct (endpoint ip port) as [a|] eqn:Ea; [|exact Hf]. simpl.
  destruct (dial a w) as [c|] eqn:Ed; [|exact Hf]. destruct (dial_ok _ _ _ Ed) as (h & -> & Hh). exact (Ht a h eq_refl Hh).
Qed.

Lemma ends_send d a h ib (k : bool -> io S A) :
  chain_ends n w a = true -> handler_ok w a h -> asks_well d \/ kind (w !! a) = Some None ->
  (forall h' xs w', alike w w' -> handler_ok w' a h' -> Cluster.finished h' = true \/ answer_of xs ->
     kind (w !! a) = Some None \/ unready xs -> ends n R (k true) s w' (Some (Conn a h' (ib ++ xs))) out) ->
  ends n R (Send d k) s w (Some (Conn a h ib)) out.
Proof.
  intros Hend Hh Hd Hk. destruct (Hn d a h ib w Hend Hh) as (h' & xs & w' & E & Hw & Hh' & Hx & Hu); [by right|].
  destruct (Hk h' xs w' Hw Hh' Hx Hu) as (r & s' & w'' & H & Hw' & HR). exists r, s', w''.
  cbn [talk]. rewrite E. split_and!; [exact H|by etransitivity|done].
Qed.

Lemma ends_close a h ib (k : io S A) :
  chain_ends n w a = true -> handler_ok w a h -> (forall w', alike w w' -> ends n R k s w' None out) -> ends n R (Close k) s w (Some (Conn a h ib)) out.
Proof.
  intros Hend Hh Hk. destruct (Hn [] a h ib w Hend Hh) as (h' & xs & w' & E & Hw & _); [by left|].
  destruct (Hk w' Hw) as (r & s' & w'' & H & Hw' & HR). exists r, s', w''.
  cbn [talk]. rewrite E. split_and!; [exact H|by etransitivity|done].
Qed.

Lemma ends_recv a h xs (k : bytes -> io S A) :
  Cluster.finished h = true \/ xs <> [] ->
  (forall r xs', xs = r :: xs' \/ Cluster.finished h = true /\ r = [] /\ xs' = [] ->
     ends n R (k r) s w (Some (Conn a h xs')) out) ->
  ends n R (Recv k) s w (Some (Conn a h xs)) out.
Proof.
  intros Hx Hk. unfold ends. cbn [talk]. destruct xs as [|r xs]; [|apply Hk; by left].
  destruct Hx as [Hf|[]]; [|done]. rewrite Hf. apply Hk. by right.
Qed.
End Calls.

(** One message, its answer, and the end of the connection. *)
Definition ask {S A : Type} (d : bytes) (failed : A) (f : bytes -> A) : io S A :=
  Send d (fun ok => if negb ok then Close (Ret failed) else Recv (fun r => Close (Ret (f r)))).

Lemma ends_ask {S A : Type} n (R : S -> Prop) (s : S) w d (failed : A) f a h out :
  delivers n -> R s -> chain_ends n w a = true -> handler_ok w a h -> asks_well d \/ kind (w !! a) = Some None ->
  ends n R (ask d failed f) s w (Some (Conn a h [])) out.
Proof.
  intros Hn HR Hend Hh Hd. apply ends_send; [done..|]. intros h' xs w' Hw Hh' Hx _. cbn [negb app].
  apply ends_recv; [destruct Hx as [?|[? _]]; auto|]. intros r xs' _.
  apply ends_close; [done|by rewrite (chain_ends_alike _ _ _ _ Hw)|done|]. intros w'' Hw'. by eexists _, _, _.
Qed.

(** ** A metadata node *)

Lemma ends_ret {S A : Type} n (R : S -> Prop) (a : A) (s : S) w out : R s -> ends n R (Ret a) s w None out.
Proof. intros HR. by exists a, s, w. Qed.

Lemma ends_atomic {S A : Type} n (R : S -> Prop) f (k : S -> io S A) s w c out :
  ends n R (k s) (f s) w c out -> ends n R (Atomic f k) s w c out.
Proof. done. Qed.

Section Metadata.
Context (n : nat) (Hn : delivers n).

(** The node at the end of a connection, whose members keep their successor. *)
Abbreviation next s := (MetadataNode.nextNodeIp_ s, MetadataNode.nextNodePort_ s).

Lemma ends_forward command s w :
  asks_well (bytes_of_string command) -> next_ends n w (next s) = true ->
  ends n (fun s' => next s' = next s) (MetadataNode.forwardPut command) s w None [].
Proof.
  intros Hc Hend. unfold MetadataNode.forwardPut. cbn [reads client_connect mbind io_mbind io_bind].
  do 2 apply ends_atomic. apply ends_connect; [by apply ends_ret|]. intros a h Ha Hh.
  unfold next_ends in Hend. cbn [fst snd] in Hend. rewrite Ha in Hend.
  cbn [negb client_sendMessage client_closes client_recvMessage mbind io_mbind io_bind mret io_ret].
  apply (ends_ask n (fun s' => next s' = next s) _ w (bytes_of_string command) false (fun r => bool_decide (string_of_bytes r = "ACK"))); auto.
Qed.

(** What an answer to a message is. *)
Definition turn_ends (t : talking MetadataNode.MetadataNode bool) (s : MetadataNode.MetadataNode) (w : world) : Prop :=
  alike w (others t) /\ next (members t) = next s /\ (prog t = Ret true \/ prog t = Ret false) /\ responds (prog t) (answers t) /\ unready (answers t).

Definition says (xs : list bytes) : Prop := answer_of xs /\ unready xs.

Lemma says_one m : m <> "FOUND" -> m <> "READY" -> says [bytes_of_string m].
Proof.
  intros H1 H2. split; [by apply answer_one|]. intros E%list_elem_of_singleton%(f_equal string_of_bytes).
  rewrite !string_bytes_id in E. by apply H2.
Qed.

Lemma turn_says s s' w w' xs :
  alike w w' -> next s' = next s -> says xs -> turn_ends (Talking (Ret true) s' w' None None xs) s w.
Proof. intros Hw Hs [H1 H2]. split_and!; [done|done|by left|by right|done]. Qed.

Lemma turn_leaves s w u : turn_ends (Talking (Ret false) s w None u []) s w.
Proof. split_and!; [done|done|by right|by left|apply not_elem_of_nil]. Qed.

Lemma says_found meta : says [bytes_of_string (found_message meta)].
Proof. by apply says_one. Qed.

Lemma metadata_put command s w :
  asks_well (bytes_of_string command) -> MetadataNode.nextNodePort_ s = -1 \/ next_ends n w (next s) = true ->
  exists s' w' xs, talk (deliver n) (MetadataNode.handlePut command) s w None None [] =
    Some (Talking (Ret tt) s' w' None None xs) /\ alike w w' /\ next s' = next s /\ says xs.
Proof.
  intros Hc Hend. unfold MetadataNode.handlePut. destruct (parse_put command) as [meta|].
  2: { eexists _, _, _. split; [reflexivity|]. split_and!; [done|done|by apply says_one]. }
  rewrite talk_bind. cbn [with_lock acquire release modify mbind io_mbind io_bind talk mret io_ret].
  rewrite talk_bind. set (s1 := MetadataNode.set_store _ s).
  assert (exists b, talk (deliver n)
      (b ← MetadataNode.not_last; if b : bool then port ← reads MetadataNode.nextNodePort_; mret (bool_decide (port <> -1)) else mret false)
      s1 w None None [] = Some (Talking (Ret b) s1 w None None []) /\ (b = true -> MetadataNode.nextNodePort_ s <> -1))
    as (b & -> & Hb).
  { unfold MetadataNode.not_last. cbn [reads mbind io_mbind io_bind talk].
    repeat (case_bool_decide; cbn [reads mbind io_mbind io_bind talk mret io_ret]); by eexists. }
  rewrite talk_bind. destruct b.
  - destruct (ends_forward command s1 w Hc) as (ok & s' & w' & -> & Hw & Hs).
    { destruct Hend as [E|E]; [by apply Hb in E|exact E]. }
    eexists _, _, _. split; [reflexivity|]. split_and!; [done|exact Hs|]. destruct ok; by apply says_one.
  - eexists _, _, _. split; [reflexivity|]. split_and!; [done|done|by apply says_one].
Qed.

Lemma metadata_get name s w : exists xs, talk (deliver n) (MetadataNode.handleGet name) s w None None [] =
    Some (Talking (Ret tt) s w None None xs) /\ says xs.
Proof.
  unfold MetadataNode.handleGet, MetadataNode.not_last. cbn [reads mbind io_mbind io_bind talk].
  repeat (case_bool_decide; cbn [reads mbind io_mbind io_bind talk mret io_ret server_sendMessage acquire release server_sendData with_lock]);
    try (eexists _; split; [reflexivity|by apply says_one]);
    destruct (_ !! name); cbn [reads mbind io_mbind io_bind talk mret io_ret server_sendMessage acquire release server_sendData with_lock];
    eexists _; (split; [reflexivity|(apply says_found || by apply says_one)]).
Qed.

Lemma metadata_answers s w d :
  MetadataNode.nextNodePort_ s = -1 \/ next_ends n w (next s) = true -> d = [] \/ asks_well d ->
  exists t, talk (deliver n) MetadataNode.handleClient s w None (Some d) [] = Some t /\ turn_ends t s w.
Proof.
  intros Hend Hd. unfold MetadataNode.handleClient, MetadataNode.handleClient_turn.
  cbn [reads mbind io_mbind io_bind talk]. destruct (MetadataNode.running_ s).
  2: { eexists. split; [reflexivity|]. apply turn_leaves. }
  cbn [negb server_recvMessage mbind io_mbind io_bind talk with_lock acquire release mret io_ret]. case_bool_decide as He.
  { eexists. split; [reflexivity|]. apply turn_leaves. }
  destruct Hd as [->|Hd]; [done|]. pose proof Hd as Hask. unfold asks_well in Hd.
  destruct (extract_string _) as [o iss]. destruct Hd as [->|[->|[-> [name Ename]]]]; cbn [default from_option id].
  - rewrite bool_decide_eq_true_2 by done. rewrite <- (bytes_string_id d) in Hask.
    destruct (metadata_put _ s w Hask Hend) as (s' & w' & xs & E & Hw & Hs & Hx).
    change (io_bind ?f (?p ≫= ?g)) with ((p ≫= g) ≫= f). rewrite !talk_bind, E.
    eexists. split; [reflexivity|]. by apply turn_says.
  - rewrite !bool_decide_eq_false_2 by done. eexists. split; [reflexivity|]. apply turn_says; [done|done|by apply says_one].
  - rewrite bool_decide_eq_false_2, bool_decide_eq_true_2, Ename by done.
    destruct (metadata_get name s w) as (xs & E & Hx).
    change (io_bind ?f (?p ≫= ?g)) with ((p ≫= g) ≫= f). rewrite !talk_bind, E.
    eexists. split; [reflexivity|]. by apply turn_says.
Qed.
End Metadata.

(** ** Every delivery *)

Lemma responds_finished {S} (mk : io S bool -> handler) (body p : io S bool) xs :
  (forall b : bool, Cluster.finished (mk (Ret b)) = true) -> responds p xs ->
  Cluster.finished (mk (again body p)) = true \/ answer_of xs.
Proof. intros Hmk [->|?]; [left; apply Hmk|by right]. Qed.

Lemma delivers_next n : delivers n -> delivers (S n).
Proof.
  intros Hn d a h ib w Hend Hh Hd. unfold handler_ok in Hh. simpl in Hend.
  destruct (w !! a) as [[s|s]|] eqn:Hw, h as [p|p|]; try done; cbn [deliver peer at_peer inbox]; rewrite Hw.
  - assert (exists t, talk (deliver n) p s (delete a w) None (Some d) [] = Some t /\ others t = delete a w /\
      (prog t = Ret true \/ prompt (prog t)) /\ responds (prog t) (answers t)) as (t & -> & Ho & Hp & Hr).
    { destruct Hh as [->|Hp]; [apply storage_answers|]. destruct (Hp (deliver n) s (delete a w) d) as (t & E & Ho & [Hp'|Hp'] & Hr).
      - exists t. split_and!; [done|done|by left|done].
      - exists t. split_and!; [done|done|right; rewrite Hp'; apply prompt_left|done]. }
    assert (alike w (<[a := Storage (members t)]> (others t))) as Hal.
    { rewrite Ho. apply alike_back; [done|by rewrite Hw]. }
    eexists _, _, _. split; [reflexivity|]. split_and!; [done| |by apply (responds_finished HStorage)|by left].
    unfold handler_ok. rewrite lookup_insert_eq. simpl. destruct Hp as [->|Hp]; [by left|].
    destruct (prog t) as [[]| | | | | | | | | | |]; simpl; auto.
  - assert (exists t, talk (deliver n) p s (delete a w) None (Some d) [] = Some t /\ turn_ends t s (delete a w))
      as (t & -> & Hal & Hs & Hp & Hr & Hu).
    { destruct Hh as [->| ->]; [|eexists; split; [reflexivity|]; apply turn_leaves].
      apply metadata_answers; [done| |destruct Hd as [?|[?|?]]; [by left|by right|done]].
      simpl in Hend. apply orb_true_iff in Hend as [E%bool_decide_eq_true|E]; [by left|right].
      unfold next_ends. cbn [fst snd]. destruct (endpoint _ _); [by apply chain_ends_delete|done]. }
    assert (alike w (<[a := Metadata (members t)]> (others t))) as Hal'.
    { apply alike_back; [done|]. rewrite Hw. simpl. by rewrite Hs. }
    eexists _, _, _. split; [reflexivity|]. split_and!; [done| |by apply (responds_finished HMetadata)|by right].
    unfold handler_ok. rewrite lookup_insert_eq. simpl. destruct Hp as [-> | ->]; [by left|by right].
Qed.

Lemma delivers_all n : delivers n.
Proof.
  induction n as [|n IH]; [|by apply delivers_next]. by intros d a h ib w Hend.
Qed.

(** ** What clients send *)

Lemma asks_command op s :
  token op -> op = "PUT" \/ op = "STORE" \/ op = "GET" /\ IoStream.words s <> [] ->
  asks_well (bytes_of_string (op +:+ String " " s)).
Proof.
  intros Ht Hop. unfold asks_well, istringstream. rewrite string_bytes_id, read_word by done.
  destruct Hop as [->|[->|[-> Hw]]]; [by left|by right; left|right; right]. split; [done|].
  rewrite extract_string_space. pose proof (extract_string_words (istringstream s) (clean_new s)) as H. simpl in H.
  destruct (IoStream.words s) as [|x l]; [done|]. destruct H as (i & E & _). unfold istringstream in E. rewrite E. by eexists.
Qed.

Lemma asks_store h : asks_well (bytes_of_string ("STORE " +:+ h)).
Proof. exact (asks_command "STORE" h ltac:(done) (or_intror (or_introl eq_refl))). Qed.

Lemma asks_put m : asks_well (bytes_of_string (put_command m)).
Proof. exact (asks_command "PUT" _ ltac:(done) (or_introl eq_refl)). Qed.

(** A name of which [operator>>] reads nothing: empty, or white space only. *)
Definition nameless (name : string) : bool := bool_decide (IoStream.words name = []).

Lemma asks_get name : IoStream.words name <> [] -> asks_well (bytes_of_string ("GET " +:+ name)).
Proof. intros Hw. exact (asks_command "GET" name ltac:(done) (or_intror (or_intror (conj eq_refl Hw)))). Qed.

(** ** The client *)

Section Client.
Context (n : nat) (w0 : world) (Hends : forall a, chain_ends n w0 a = true).

(** A part of the client that comes to its end, from any state of these nodes. *)
Definition total {A : Type} (p : io fs A) : Prop := forall d w, alike w0 w -> ends n (fun _ => True) p d w None [].

Lemma total_ret {A : Type} (a : A) : total (mret a).
Proof. intros d w _. by apply ends_ret. Qed.

Lemma ends_then {S A B : Type} (p : io S A) (f : A -> io S B) s w c out :
  ends n (fun _ => True) p s w c out ->
  (forall a s' w', alike w w' -> ends n (fun _ => True) (f a) s' w' None out) -> ends n (fun _ => True) (p ≫= f) s w c out.
Proof.
  intros (a & s' & w' & E & Hw & _) Hf. destruct (Hf a s' w' Hw) as (b & s'' & w'' & E' & Hw' & _).
  exists b, s'', w''. rewrite talk_bind, E. split_and!; [exact E'|by etransitivity|done].
Qed.

Lemma total_bind {A B : Type} (p : io fs A) (f : A -> io fs B) : total p -> (forall a, total (f a)) -> total (p ≫= f).
Proof. intros Hp Hf d w Hw. apply ends_then; [by apply Hp|]. intros a d' w' Hw'. apply Hf. by etransitivity. Qed.

Lemma total_and_then {A B : Type} (p : io fs (option A)) (f : A -> io fs (option B)) :
  total p -> (forall a, total (f a)) -> total (and_then p f).
Proof. intros Hp Hf. apply total_bind; [done|]. intros [a|]; [apply Hf|apply total_ret]. Qed.

Lemma total_with_node {A : Type} addr (failed : A) p :
  (forall a d w h, target addr = Some a -> alike w0 w -> handler_ok w a h ->
     ends n (fun _ => True) p d w (Some (Conn a h [])) []) ->
  total (with_node addr failed p).
Proof.
  intros Hp d w Hw. unfold with_node. unfold target, address_of in Hp.
  destruct (split_address addr) as [[ip port]|]; [|by apply total_ret]. simpl in Hp.
  destruct (stoi port) as [z|]; [|by apply total_ret].
  unfold client_connect, mbind, io_mbind. cbn [io_bind]. apply ends_connect; [by apply ends_ret|]. intros a h Ha Hh.
  cbn [negb]. apply (ends_then p); [by apply Hp|]. clear a h Ha Hh. intros a d' w' _. by apply ends_ret.
Qed.

Lemma alike_ends w a : alike w0 w -> chain_ends n w a = true.
Proof. intros Hw. by rewrite (chain_ends_alike _ _ _ _ Hw). Qed.

Lemma total_upload_chunk chunk addr : total (uploadChunkToNode chunk addr).
Proof.
  apply total_with_node. intros a d w h _ Hw Hh.
  cbn [client_sendMessage client_closes client_recvMessage client_sendData mbind io_mbind io_bind].
  apply ends_send; [apply delivers_all|by apply alike_ends|done|left; apply asks_store|].
  intros h' xs w' Hw' Hh' Hx Hu. assert (alike w0 w') as Hw1 by by etransitivity. cbn [negb app mbind io_mbind io_bind].
  apply ends_recv; [destruct Hx as [?|[? _]]; auto|]. intros r xs' Hr.
  case_bool_decide as Hready; cbn [mbind io_mbind io_bind].
  { apply ends_close; [apply delivers_all|by apply alike_ends|done|]. intros w'' _. by apply ends_ret. }
  assert (kind (w' !! a) = Some None) as Hk.
  { destruct Hu as [Hk|Hu]; [by rewrite (Hw' a)|]. exfalso.
    destruct Hr as [->|(_ & -> & _)]; [|done]. apply Hu. rewrite <- Hready, bytes_string_id. left. }
  apply ends_send; [apply delivers_all|by apply alike_ends|done|by right|].
  intros h2 xs2 w2 Hw2 Hh2 Hx2 _. cbn [negb mbind io_mbind io_bind].
  apply ends_recv.
  { destruct Hx2 as [?|[? _]]; [by left|right]. by destruct xs'. }
  intros r2 xs3 _. apply ends_close; [apply delivers_all|apply alike_ends; by etransitivity|done|]. intros w3 _. by apply ends_ret.
Qed.

Lemma total_download_chunk hash addr :
  (forall a, target addr = Some a -> kind (w0 !! a) = None \/ kind (w0 !! a) = Some None) -> total (downloadChunkFromNode hash addr).
Proof.
  intros Hst. apply total_with_node. intros a d w h Ha Hw Hh.
  assert (kind (w !! a) = Some None) as Hk.
  { specialize (Hst a Ha). rewrite <- (Hw a) in Hst. unfold handler_ok in Hh.
    destruct (kind (w !! a)) as [[b|]|]; [by destruct Hst|done|by destruct h]. }
  cbn [client_sendMessage client_closes client_recvMessage client_recvData mbind io_mbind io_bind].
  apply ends_send; [apply delivers_all|by apply alike_ends|done|by right|].
  intros h' xs w' Hw' Hh' Hx _. assert (alike w0 w') as Hw1 by by etransitivity. cbn [negb app mbind io_mbind io_bind].
  apply ends_recv; [destruct Hx as [?|[? _]]; auto|]. intros r xs' Hr.
  case_bool_decide as Hfound; cbn [mbind io_mbind io_bind].
  - apply ends_recv.
    + destruct Hx as [?|[_ Hx]]; [by left|]. destruct Hr as [->|(Hf & _)]; [right|by left].
      intros ->. apply Hx. by rewrite <- Hfound, bytes_string_id.
    + intros r2 xs2 _. apply ends_close; [apply delivers_all|by apply alike_ends|done|]. intros w'' _. by apply ends_ret.
  - apply ends_close; [apply delivers_all|by apply alike_ends|done|]. intros w'' _. by apply ends_ret.
Qed.

Lemma total_put addr path chunks root : total (putMetadataToNode addr path chunks root).
Proof.
  apply total_with_node. intros a d w h _ Hw Hh. cbn [reads mbind io_mbind io_bind]. apply ends_atomic.
  apply (ends_ask n (fun _ => True) d w (bytes_of_string (put_command _)) false (fun r => bool_decide (string_of_bytes r = "ACK")));
    [apply delivers_all|done|by apply alike_ends|done|left; apply asks_put].
Qed.

Lemma total_get addr name : IoStream.words name <> [] -> total (getMetadataFromNode addr name).
Proof.
  intros Hname. apply total_with_node. intros a d w h _ Hw Hh.
  apply (ends_ask n (fun _ => True) d w (bytes_of_string ("GET " +:+ name)) no_metadata (fun r => parse_found name (string_of_bytes r)));
    [apply delivers_all|done|by apply alike_ends|done|left; by apply asks_get].
Qed.
(** ** Whole requests *)

Lemma total_upload_to_nodes chunk nodes k : total (upload_to_nodes chunk nodes k).
Proof.
  revert k. induction nodes as [|addr nodes IH]; intros k; simpl; [apply total_ret|].
  apply total_and_then; [apply total_upload_chunk|]. intros ok. apply IH.
Qed.

Lemma total_upload_chunks r chunks : total (upload_chunks r chunks).
Proof.
  induction chunks as [|chunk chunks IH]; simpl; [apply total_ret|].
  destruct (getNodesForKey _ _ _) as [nodes|]; [|apply total_ret].
  apply total_and_then; [apply total_upload_to_nodes|]. intros k. case_bool_decide; [apply total_ret|apply IH].
Qed.

Lemma total_upload_metadata nodes path chunks root : total (upload_metadata nodes path chunks root).
Proof.
  induction nodes as [|addr nodes IH]; simpl; [apply total_ret|].
  apply total_and_then; [apply total_put|]. intros []; [apply total_ret|apply IH].
Qed.

Lemma total_upload c path : total (uploadFile c path).
Proof.
  unfold uploadFile. apply total_bind; [intros d w _; by apply ends_atomic, ends_ret|]. intros chunks.
  case_bool_decide; [apply total_ret|]. destruct (hashAllChunks chunks) as [cs|]; [|apply total_ret].
  apply total_and_then; [apply total_upload_chunks|]. intros [i|]; [apply total_ret|].
  apply total_and_then; [apply total_upload_metadata|]. intros ok. apply total_ret.
Qed.

Lemma total_find nodes name : IoStream.words name <> [] -> total (find_metadata nodes name).
Proof.
  intros Hname. induction nodes as [|addr nodes IH]; simpl; [apply total_ret|].
  apply total_and_then; [by apply total_get|]. intros m. destruct (is_found m); [apply total_ret|apply IH].
Qed.

(** No metadata node is taken for a storage node. *)
Definition apart (nodes : list string) : Prop :=
  forall addr a, addr ∈ nodes -> target addr = Some a -> kind (w0 !! a) = None \/ kind (w0 !! a) = Some None.

Lemma total_download_from hash nodes : apart nodes -> total (download_from_nodes hash nodes).
Proof.
  induction nodes as [|addr nodes IH]; simpl; intros Hap; [apply total_ret|].
  apply total_and_then; [apply total_download_chunk; intros a; apply Hap; left|].
  intros data. case_bool_decide; [apply IH|apply total_ret]. intros x a Hx. apply Hap. by right.
Qed.

Lemma total_download_chunks r i hashes chunks :
  ring_wf r -> apart (getAllNodes r) -> total (download_chunks r i hashes chunks).
Proof.
  intros Hr Hap. revert i chunks. induction hashes as [|h hashes IH]; intros i chunks; simpl; [apply total_ret|].
  destruct (getNodesForKey_wf r h 2 Hr) as (nodes & -> & _ & _ & _ & Hin). apply total_and_then.
  - apply total_download_from. intros x a Hx. by apply Hap, Hin.
  - intros data. case_bool_decide; [apply total_ret|apply IH].
Qed.

Lemma total_download c name out :
  IoStream.words name <> [] -> ring_wf (dht_ c) -> apart (getAllNodes (dht_ c)) -> total (downloadFile c name out).
Proof.
  intros Hname Hr Hap. unfold downloadFile. apply total_and_then; [by apply total_find|]. intros [m|]; [|apply total_ret].
  apply total_and_then; [by apply total_download_chunks|]. intros [i|chunks]; [apply total_ret|].
  intros d w _. unfold reconstruct. apply ends_atomic. destruct (reconstructFile d chunks out) as [[[] ?]|]; by apply ends_ret.
Qed.
End Client.

(** ** A [GET] without a name *)

Lemma nameless_get dl s w name :
  MetadataNode.running_ s = true -> IoStream.words name = [] ->
  talk dl MetadataNode.handleClient s w None (Some (bytes_of_string ("GET " +:+ name))) [] =
    Some (Talking (Ret true) s w None None []).
Proof.
  intros Hr Hname. unfold MetadataNode.handleClient, MetadataNode.handleClient_turn.
  cbn [reads mbind io_mbind io_bind talk]. rewrite Hr.
  cbn [negb server_recvMessage mbind io_mbind io_bind talk with_lock acquire release mret io_ret]. rewrite string_bytes_id, bool_decide_eq_false_2 by done.
  change ("GET " +:+ name) with ("GET" +:+ String " " name). unfold istringstream. rewrite read_word by done.
  cbn [default from_option id]. rewrite bool_decide_eq_false_2, bool_decide_eq_true_2, extract_string_space by done.
  pose proof (extract_string_words (istringstream name) (clean_new name)) as H. cbn [istringstream rest] in H.
  rewrite Hname in H. destruct H as (i & E & _). unfold istringstream in E. by rewrite E.
Qed.

(** ** Properties *)

(** C7. Every request ends, in whatever state the nodes are: from any world in which the
    successors of metadata nodes do not go round in a circle, whatever the nodes store,
    whichever of them are stopped or missing, and whatever they are asked to be, an upload
    of any file comes to an end with an outcome, and so does a download of a name with at
    least one word by a client that takes no metadata node for a storage node.  The same
    nodes with the same successors are there afterwards. *)
Theorem requests_end ss ms j d w n :
  (0 < n)%nat -> map_Forall (fun a _ => chain_ends n w a = true) w ->
  match j with
  | Upload _ => True
  | Download name _ => nameless name = false /\
      forall addr a s, addr ∈ ss -> target addr = Some a -> w !! a <> Some (Metadata s)
  end ->
  exists o d' w', run_client n (job_program (new_client ss ms) j) d w = Some (o, d', w') /\ alike w w'.
Proof.
  intros Hn Hall Hj. assert (forall a, chain_ends n w a = true) as Hends.
  { intros a. destruct (w !! a) as [x|] eqn:Hw; [by apply (Hall a x)|]. destruct n; [lia|]. simpl. by rewrite Hw. }
  assert (total n w (job_program (new_client ss ms) j)) as Htot.
  { destruct j as [path|name out]; cbn [job_program]; (apply total_bind; [|intros r; apply total_ret]).
    - by apply total_upload.
    - destruct Hj as [Hname%bool_decide_eq_false Hap]. apply total_download; [done|done|apply new_client_wf|].
      intros addr a Haddr%new_client_nodes Ha. destruct (w !! a) as [[s|s]|] eqn:Hw; [by right| |by left].
      by apply Hap with (s := s) in Ha. }
  destruct (Htot d w (reflexivity w)) as (o & d' & w' & E & Hw & _). exists o, d', w'. split; [|done].
  unfold run_client. by rewrite E.
Qed.

(** In a cluster out of order: one storage node is stopped and the other address of the
    uploader's ring is a metadata node's; the first metadata node takes the second for its
    successor, and that one the stopped storage node. *)
Lemma requests_end_witness :
  let m1 := MetadataNode.started 90 (MetadataNode.new_node "10.0.0.12" 91) in
  let m2 := MetadataNode.started 91 (MetadataNode.new_node "10.0.0.1" 80) in
  let w := {[("10.0.0.1", 80) := Storage (StorageNode.MkStorage ∅ false); ("10.0.0.11", 90) := Metadata m1;
             ("10.0.0.12", 91) := Metadata m2]} : world in
  let c := new_client ["10.0.0.1:80"; "10.0.0.11:90"] ["10.0.0.11:90"; "10.0.0.12:91"] in
  let d := FS {["f" := bytes_of_string "some data"]} (fun _ => true) in
  (exists o d' w', run_client 3 (job_program c (Upload "f")) d w = Some (o, d', w') /\ alike w w') /\
  (exists o d' w', run_client 3 (job_program (new_client ["10.0.0.1:80"] ["10.0.0.11:90"; "10.0.0.12:91"]) (Download "f" "g")) d w =
     Some (o, d', w') /\ alike w w').
Proof.
  intros m1 m2 w c d. assert (0 < 3)%nat as Hn by lia.
  assert (map_Forall (fun a _ => chain_ends 3 w a = true) w) as Hends by (apply (bool_decide_unpack _); by vm_compute). split.
  - exact (requests_end ["10.0.0.1:80"; "10.0.0.11:90"] ["10.0.0.11:90"; "10.0.0.12:91"] (Upload "f") d w 3 Hn Hends I).
  - apply (requests_end ["10.0.0.1:80"] ["10.0.0.11:90"; "10.0.0.12:91"] (Download "f" "g") d w 3 Hn Hends). split; [done|].
    intros addr a s ->%list_elem_of_singleton Ha. vm_compute in Ha. injection Ha as <-. by vm_compute.
Defined.

(** C8. A download of a name without a word waits for ever: if the last metadata node of the
    client's list is up, it gets [GET] and no name, and goes on to its next message without
    an answer, while the client waits for one; no timeout ends this.  So with an empty name,
    or one of blanks, [downloadFile] does not return. *)
Theorem nameless_download_waits c name out d w addrs addr a s n :
  nameless name = true -> metadataNodes_ c = addrs ++ [addr] -> target addr = Some a ->
  w !! a = Some (Metadata s) -> MetadataNode.running_ s = true ->
  run_client n (job_program c (Download name out)) d w = None.
Proof.
  intros Hname%bool_decide_eq_true Hc Ha Hw Hr.
  assert (talk (deliver n) (getMetadataFromNode addr name) d w None None [] = None) as H.
  { unfold getMetadataFromNode. rewrite (with_node_connected _ _ _ _ _ _ _ _ Ha (dial_metadata _ _ _ Hw Hr)).
    cbn [client_sendMessage client_recvMessage mbind io_mbind io_bind talk]. destruct n as [|n]; [done|].
    by rewrite (deliver_metadata _ _ _ _ _ _ _ Hw), (nameless_get _ _ _ _ Hr Hname). }
  unfold run_client. cbn [job_program]. unfold downloadFile, and_then. rewrite Hc, rev_unit. cbn [find_metadata].
  unfold and_then. by rewrite !talk_bind, H.
Qed.

(** A name that is one blank. *)
Lemma nameless_download_waits_witness :
  let tail := MetadataNode.started 91 (MetadataNode.new_node EmptyString (-1)) in
  let w := {[("10.0.0.12", 91) := Metadata tail]} : world in
  run_client 5 (job_program (new_client ["10.0.0.1:80"] ["10.0.0.11:90"; "10.0.0.12:91"]) (Download " " "out")) (FS ∅ (fun _ => true)) w = None.
Proof.
  intros tail w. apply (nameless_download_waits _ " " "out" _ w ["10.0.0.11:90"] "10.0.0.12:91" ("10.0.0.12", 91) tail 5); done.
Defined.
