(* ===== verification/Performance.v ===== *)
(** * The measurement programs: [apps/main_performance_evaluation.cpp] and
    [apps/main_performance_experiments.cpp]

    Both start a cluster inside their own process and run clients against it.  The
    starting of nodes changes the world of [Cluster.v]; the clients and the killing of
    nodes are programs of [Proc.v].  The random bytes and the readings of the clock are
    arguments.  The text of both report files is modelled, with the doubles of
    [Doubles.v]; the output to the console is not, and neither are the sleeps.

    [TCPClient::sendData] sends with flags 0, and no program handles [SIGPIPE]: a send on a
    connection that its peer has reset ends the process.  The experiments are modelled with it:
    which of the sends that fail raise the signal is an argument.  A call that waits for ever is not
    modelled here; the answers of the network are a list.

    The theorems: every test of the evaluation finds its file again, and an upload of less
    than a millisecond has the throughput [inf]; every line that the experiments write has a success
    rate of 100 whatever the cluster does, and latencies of 0 when nothing answers. *)
From S2P Require Import Prelude IoStream Doubles Sha256 Chunks ConsistentHash Wire Proc Client Records Apps Cluster Replication.
From S2P Require Import LocalCluster.
From S2P Require StorageNode MetadataNode.

#[local] Open Scope Z_scope.

(** [size] bytes drawn one after the other; no size of the programs is negative. *)
Definition random_data (dis : nat -> Byte.byte) (size : Z) : bytes := dis <$> seq 0 (Z.to_nat size).

Definition createDummyFile (dis : nat -> Byte.byte) (filepath : string) (size : Z) : io fs unit :=
  write_file filepath (random_data dis size).

(** ** The evaluation *)

Definition TEST_DIR : string := "test_data".

(** The results of the two calls are what they print. *)
Definition runTest (dis : nat -> Byte.byte) (client : Client) (filename : string) (sizeBytes : Z)
    : io fs (option (upload_result * download_result)) :=
  let filepath := TEST_DIR +:+ "/" +:+ filename in
  createDummyFile dis filepath sizeBytes;;
  and_then (uploadFile client filepath) (fun up =>
    let downloadPath := TEST_DIR +:+ "/downloaded_" +:+ filename in
    and_then (downloadFile client filename downloadPath) (fun down =>
      remove_file downloadPath;;
      mret (Some (up, down)))).

(** The three tests of [main], on a cluster that was started. *)
Definition evaluation_tests (dis1 dis2 dis3 : nat -> Byte.byte)
    : io fs (option (list (upload_result * download_result))) :=
  let client := new_client storageNodes metadataNodes in
  and_then (runTest dis1 client "small_file.dat" (100 * 1024)) (fun r1 =>
    and_then (runTest dis2 client "medium_file.dat" (5 * 1024 * 1024)) (fun r2 =>
      and_then (runTest dis3 client "large_file.dat" (20 * 1024 * 1024)) (fun r3 =>
        mret (Some [r1; r2; r3])))).

(** *** The report of the evaluation *)

(** A line of a report. *)
Definition line (s : string) : string := s +:+ String (ascii_of_nat 10) EmptyString.

(** The readings of the clock in a test: around the two calls, and inside them. *)
Record test_clock := TestClock {
  around_upload : Z * Z; in_upload : upload_clock; around_download : Z * Z; in_download : download_clock
}.

Definition throughput (sizeBytes latency : Z) : double :=
  double_div (double_div (double_div (double_of sizeBytes) (double_of 1024)) (double_of 1024))
    (double_div (double_of latency) (double_of 1000)).

(** What [runTest] writes, and the members of the client after it; the client is the same
    in all tests. *)
Definition test_report (filename : string) (sizeBytes : Z) (t : test_clock) (r : upload_result * download_result)
    (m : durations) : string * durations :=
  let m := upload_durations r.1 (in_upload t) m in
  let uploadLatency := milliseconds (around_upload t).1 (around_upload t).2 in
  let downloadLatency := milliseconds (around_download t).1 (around_download t).2 in
  (line ("Test Case: " +:+ filename) +:+ line "-------------------------------" +:+
   line ("File Size: " +:+ to_string sizeBytes +:+ " bytes") +:+
   line ("Total Upload Latency: " +:+ to_string uploadLatency +:+ " ms") +:+
   line ("Upload Throughput: " +:+ write_fixed2 (throughput sizeBytes uploadLatency) +:+ " MB/s") +:+
   line ("Chunk Upload Latency: " +:+ to_string (lastChunkUploadDuration m) +:+ " ms") +:+
   line ("Metadata Chain Latency: " +:+ to_string (lastMetadataUploadDuration m) +:+ " ms") +:+
   line ("Total Download Latency: " +:+ to_string downloadLatency +:+ " ms") +:+
   line ("Download Throughput: " +:+ write_fixed2 (throughput sizeBytes downloadLatency) +:+ " MB/s") +:+ line EmptyString,
   download_durations r.2 (in_download t) m).

Definition evaluation_files : list (string * Z) :=
  [("small_file.dat", 100 * 1024); ("medium_file.dat", 5 * 1024 * 1024); ("large_file.dat", 20 * 1024 * 1024)].

(** One after the other, with the client's members. *)
Fixpoint test_reports (tests : list (string * Z)) (clocks : nat -> test_clock) (rs : list (upload_result * download_result))
    (m : durations) : string :=
  match tests, rs with
  | (filename, size) :: tests', r :: rs' =>
      let '(text, m') := test_report filename size (clocks O) r m in
      text +:+ test_reports tests' (fun i => clocks (S i)) rs' m'
  | _, _ => EmptyString
  end.

Definition evaluation_report (clocks : nat -> test_clock) (rs : list (upload_result * download_result)) : string :=
  line "Performance Evaluation Results" +:+ line "==============================" +:+ line EmptyString +:+
  test_reports evaluation_files clocks rs no_durations.

(** ** The experiments *)

(** The body of the [try] block of thread [i]; [None] is an exception. *)
Definition worker (data : bytes) (i : Z) : io fs (option (upload_result * download_result)) :=
  let fname := "perf_test_" +:+ to_string i +:+ ".bin" in
  write_file fname data;;
  let c := new_client storageNodes metadataNodes in
  and_then (uploadFile c fname) (fun up =>
    let outName := "perf_out_" +:+ to_string i +:+ ".bin" in
    and_then (downloadFile c fname outName) (fun down =>
      remove_file fname;;
      remove_file outName;;
      mret (Some (up, down)))).

(** The members [lastTotalUploadDuration] and [lastTotalDownloadDuration] of the thread's
    client. *)
Definition latencies (r : upload_result * download_result) (t : upload_clock * download_clock) : Z * Z :=
  let m := upload_durations r.1 t.1 no_durations in
  (lastTotalUploadDuration m, lastTotalDownloadDuration (download_durations r.2 t.2 m)).

Record ExperimentResult := Result { avgUpload : double; avgDownload : double; successRate : double }.

Definition average (l : list Z) : double :=
  if bool_decide (l = []) then double_of 0
  else double_div (foldl (fun sum x => double_add sum (double_of x)) (double_of 0) l) (double_of (zlen l)).

(** What the threads left: the durations of those that ended normally. *)
Definition experiment_result (clientCount : Z) (ended : list (option (Z * Z))) : ExperimentResult :=
  let done := omap id ended in
  Result (average (fst <$> done)) (average (snd <$> done))
    (if bool_decide (0 < clientCount)
     then double_div (double_mul (double_of 100) (double_of (zlen done))) (double_of clientCount) else double_of 0).

(** Thread [i] with the answers the network gives it and the times it reads; the threads
    use different files. *)
Definition worker_outcome (data : bytes) (d : fs) (net : Z -> list answer) (clock : Z -> upload_clock * download_clock)
    (i : Z) : option (Z * Z) :=
  let '((o, _, _), _) := run (worker data i) d (net i) in
  (fun r => latencies r (clock i)) <$> o.

Definition runWorkload (dis : nat -> Byte.byte) (clientCount fileSize : Z) (d : fs)
    (net : Z -> list answer) (clock : Z -> upload_clock * download_clock) : ExperimentResult :=
  let data := random_data dis fileSize in
  experiment_result clientCount (worker_outcome data d net clock <$> seqZ 0 clientCount).

(** One line of the report, and the report. *)
Record row := Row { experiment : string; variable : string; value : Z; result : ExperimentResult }.

Definition csv_row (r : row) : string :=
  line (experiment r +:+ "," +:+ variable r +:+ "," +:+ to_string (value r) +:+ "," +:+
        write_general (avgUpload (result r)) +:+ "," +:+ write_general (avgDownload (result r)) +:+ "," +:+
        write_general (successRate (result r))).

Definition results_csv (rows : list row) : string :=
  line "Experiment,Variable,Value,AvgUploadLatency,AvgDownloadLatency,SuccessRate" +:+
  foldr String.append EmptyString (csv_row <$> rows).

(** What an experiment meets: the random bytes, the disk, the answers of the network to
    each thread and to [stopCluster], the times the threads read, and whether [SIGPIPE] is raised when a
    send of the thread or of [stopCluster] fails. *)
Record conditions := Conditions {
  bytes_drawn : nat -> Byte.byte;
  disk : fs;
  network : Z -> list answer;
  stop_network : list answer;
  times : Z -> upload_clock * download_clock;
  raises : Z -> bool;
  stop_raises : bool
}.

(** A send has failed and raised the signal. *)
Definition signalled (raises : bool) (tr : list event) : bool :=
  raises && existsb (fun e => match e with SentTo _ false => true | _ => false end) tr.

(** The signal ends the process with all its threads: in the workload, or in [stopCluster]. *)
Definition killed_in_workload (e : conditions) (clients size : Z) : bool :=
  existsb (fun i => signalled (raises e i) (run (worker (random_data (bytes_drawn e) size) i) (disk e) (network e i)).2)
    (seqZ 0 clients).

Definition killed_in_stop (e : conditions) : bool :=
  signalled (stop_raises e) (run (stopCluster 2) (disk e) (stop_network e)).2.

(** The body of both loops: start, measure, report, stop; the result if it was reported, and whether the
    process was ended.  What the nodes that [startCluster] starts make of the requests is in the
    answers. *)
Definition experiment_run (e : conditions) (clients size : Z) : option ExperimentResult * bool :=
  if killed_in_workload e clients size then (None, true)
  else (Some (runWorkload (bytes_drawn e) clients size (disk e) (network e) (times e)), killed_in_stop e).

Fixpoint experiment_series (name var : string) (setup : Z -> Z * Z) (values : list Z)
    (env : nat -> conditions) : list row * bool :=
  match values with
  | [] => ([], false)
  | v :: values' =>
      match experiment_run (env O) (setup v).1 (setup v).2 with
      | (None, _) => ([], true)
      | (Some r, true) => ([Row name var v r], true)
      | (Some r, false) =>
          let '(rows, killed) := experiment_series name var setup values' (fun i => env (S i)) in
          (Row name var v r :: rows, killed)
      end
  end.

Definition clientCounts : list Z := [1; 5; 10; 20; 50].
Definition fileSizes : list Z := [10 * 1024; 100 * 1024; 1024 * 1024; 10 * 1024 * 1024].

(** What is in the file when the process is ended: each line is flushed, and the header with the first. *)
Definition flushed (rows : list row) : string :=
  match rows with [] => EmptyString | _ => results_csv rows end.

(** The exit code, [None] when [SIGPIPE] ended the process, and the content of [results.csv];
    [writer] says whether the file could be opened. *)
Definition main_performance_experiments (writer : bool) (env : nat -> conditions) : option Z * string :=
  if negb writer then (Some 1, EmptyString) else
  let fileSize := 100 * 1024 in
  let '(rows1, killed) := experiment_series "Scalability" "Clients" (fun clients => (clients, fileSize)) clientCounts env in
  if killed : bool then (None, flushed rows1) else
  let '(rows2, killed) := experiment_series "Throughput" "FileSize" (fun size => (1, size)) fileSizes
                            (fun i => env (length clientCounts + i)%nat) in
  if killed : bool then (None, flushed (rows1 ++ rows2)) else (Some 0, results_csv (rows1 ++ rows2)).

(** The main of the evaluation, on the machine [w]: its exit code, the content of
    [performance_evaluation.txt] and what the tests print; [None] in it is an exception of
    the client, which ends the program. *)
Definition main_performance_evaluation (writer : bool) (dis1 dis2 dis3 : nat -> Byte.byte) (clocks : nat -> test_clock)
    (n : nat) (d : fs) (w : world)
    : option (option (Z * string * list (upload_result * download_result)) * fs * world) :=
  if negb writer then Some (Some (1, EmptyString, []), d, w) else
  '(r, d', w') ← run_client n (evaluation_tests dis1 dis2 dis3) d (startCluster w);
  let o := match r with Some rs => Some (0, evaluation_report clocks rs, rs) | None => None end in
  Some (o, d', w').

(** ** Programs that always come to an end without an exception *)

(** The next call of the client. *)
Ltac next_call :=
  cbn [client_connect client_sendMessage client_sendData client_recvMessage client_recvData client_closes
       reads modify mbind io_mbind io_bind mret io_ret ends negb].

Section Returns.
Context (good : bytes -> Prop) (Hgood : forall d, good d -> zlen d <= INT_MAX).

Abbreviation returns Q p := (ends good (fun o => exists a, o = Some a /\ Q a) p).

Lemma returns_ret {A} (a : A) (Q : A -> Prop) : Q a -> returns Q (mret (M := io fs) (Some a)).
Proof. intros Ha. by exists a. Qed.

Lemma returns_and_then {A B} (p : io fs (option A)) (f : A -> io fs (option B)) (Q : A -> Prop) (Q' : B -> Prop) :
  returns Q p -> (forall a, Q a -> returns Q' (f a)) -> returns Q' (and_then p f).
Proof.
  intros Hp Hf. unfold and_then. apply ends_bind. eapply ends_mono; [|exact Hp].
  intros o (a & -> & Ha). by apply Hf.
Qed.

Lemma returns_with_node {A} addr (failed : A) (p : io fs A) (Q : A -> Prop) :
  is_Some (address_of addr) -> Q failed -> ends good Q p -> returns Q (with_node addr failed p).
Proof.
  intros [[ip port] Ha] Hf Hp. rewrite (with_node_address _ _ _ _ _ Ha). cbn [client_connect mbind io_mbind io_bind].
  intros [].
  - change (io_bind ?f ?p) with (p ≫= f). apply ends_bind. eapply ends_mono; [|exact Hp].
    intros a Hq. by exists a.
  - by exists failed.
Qed.

Section Client_.
Context (c : Client) (Hring : ring_wf (dht_ c))
        (Hstorage : forall addr, addr ∈ getAllNodes (dht_ c) -> is_Some (address_of addr))
        (Hmetadata : forall addr, addr ∈ metadataNodes_ c -> is_Some (address_of addr)).

Lemma getNodesForKey_known key k :
  exists nodes, getNodesForKey (dht_ c) key k = Some nodes /\
    forall addr, addr ∈ nodes -> is_Some (address_of addr).
Proof.
  destruct (getNodesForKey_wf (dht_ c) key k Hring) as (nodes & E & _ & _ & _ & Hin).
  exists nodes. split; [done|]. intros addr Ha. apply Hstorage. by apply Hin.
Qed.

Lemma uploadChunk_returns chunk addr :
  is_Some (address_of addr) -> returns (fun _ => True) (uploadChunkToNode chunk addr).
Proof.
  intros Ha. apply returns_with_node; [done..|].
  next_call. intros []; [|done]. next_call. intros r Hr. case_bool_decide; [done|]. next_call. by intros [].
Qed.

Lemma upload_to_nodes_returns chunk nodes k :
  (forall addr, addr ∈ nodes -> is_Some (address_of addr)) ->
  returns (fun _ => True) (upload_to_nodes chunk nodes k).
Proof.
  revert k. induction nodes as [|addr nodes IH]; intros k Hin; [by apply returns_ret|].
  cbn [upload_to_nodes]. eapply returns_and_then; [apply uploadChunk_returns, Hin; left|].
  intros ok _. apply IH. intros. apply Hin. by right.
Qed.

Lemma upload_chunks_returns chunks : returns (fun _ => True) (upload_chunks (dht_ c) chunks).
Proof.
  induction chunks as [|chunk chunks IH]; [by apply returns_ret|]. cbn [upload_chunks].
  destruct (getNodesForKey_known (c_hash chunk) replicationFactor) as (nodes & -> & Hin).
  eapply returns_and_then; [by apply upload_to_nodes_returns|]. intros n _.
  case_bool_decide; [by apply returns_ret|done].
Qed.

Lemma upload_metadata_returns nodes path chunks root :
  (forall addr, addr ∈ nodes -> is_Some (address_of addr)) ->
  returns (fun _ => True) (upload_metadata nodes path chunks root).
Proof.
  induction nodes as [|addr nodes IH]; intros Hin; [by apply returns_ret|]. cbn [upload_metadata].
  eapply returns_and_then.
  - apply (returns_with_node _ _ _ (fun _ => True)); [apply Hin; left|done|]. next_call. intros d. by intros [].
  - intros [] _; [by apply returns_ret|]. apply IH. intros. apply Hin. by right.
Qed.

Lemma uploadFile_returns path : returns (fun _ => True) (uploadFile c path).
Proof.
  unfold uploadFile. next_call. intros d.
  destruct (bool_decide _); [by apply returns_ret|]. rewrite hashAllChunks_wf by apply split_sizes. cbv zeta.
  eapply returns_and_then; [apply upload_chunks_returns|]. intros [i|] _; [by apply returns_ret|].
  eapply returns_and_then; [by apply upload_metadata_returns|]. intros ok _. by apply returns_ret.
Qed.

Lemma find_metadata_returns nodes name :
  (forall addr, addr ∈ nodes -> is_Some (address_of addr)) ->
  returns (fun _ => True) (find_metadata nodes name).
Proof.
  induction nodes as [|addr nodes IH]; intros Hin; [by apply returns_ret|]. cbn [find_metadata].
  eapply returns_and_then.
  - apply (returns_with_node _ _ _ (fun _ => True)); [apply Hin; left|done|]. next_call. by intros [].
  - intros m _. destruct (is_found m); [by apply returns_ret|]. apply IH. intros. apply Hin. by right.
Qed.

Lemma downloadChunk_returns hash addr :
  is_Some (address_of addr) -> returns (fun data => zlen data <= INT_MAX) (downloadChunkFromNode hash addr).
Proof.
  intros Ha. apply returns_with_node; [done|done|]. next_call. intros []; [|done].
  next_call. intros r Hr. case_bool_decide; [|done]. next_call. intros data Hd. by apply Hgood.
Qed.

Lemma download_from_nodes_returns hash nodes :
  (forall addr, addr ∈ nodes -> is_Some (address_of addr)) ->
  returns (fun data => zlen data <= INT_MAX) (download_from_nodes hash nodes).
Proof.
  induction nodes as [|addr nodes IH]; intros Hin; [by apply returns_ret|]. cbn [download_from_nodes].
  eapply returns_and_then; [apply downloadChunk_returns, Hin; left|]. intros data Hd.
  case_bool_decide; [apply IH; intros; apply Hin; by right|by apply returns_ret].
Qed.

Lemma download_chunks_returns i hashes chunks :
  Forall chunk_wf chunks ->
  returns (fun r => forall cs, r = inr cs -> Forall chunk_wf cs) (download_chunks (dht_ c) i hashes chunks).
Proof.
  revert i chunks. induction hashes as [|hash hashes IH]; intros i chunks Hwf.
  { apply returns_ret. by intros cs [= <-]. }
  cbn [download_chunks]. destruct (getNodesForKey_known hash 2) as (nodes & -> & Hin).
  eapply returns_and_then; [by apply download_from_nodes_returns|]. intros data Hd.
  case_bool_decide; [by apply returns_ret|]. apply IH, Forall_app. split; [done|]. apply Forall_singleton.
  unfold chunk_wf. cbn [c_size c_data]. apply i32_small. pose proof (zlen_nonneg data).
  unfold in_int, INT_MIN, INT_MAX in *. lia.
Qed.

Lemma downloadFile_returns name out : returns (fun _ => True) (downloadFile c name out).
Proof.
  unfold downloadFile. eapply returns_and_then.
  { apply find_metadata_returns. intros addr. rewrite list_elem_of_In, <- in_rev, <- list_elem_of_In. auto. }
  intros [m|] _; [|by apply returns_ret]. eapply returns_and_then; [by apply download_chunks_returns|].
  intros [i|cs] Hcs; [by apply returns_ret|]. unfold reconstruct. cbn [ends]. intros d.
  destruct (reconstructFile_total d cs out (Hcs cs eq_refl)) as [[[] d'] ->]; by apply returns_ret.
Qed.
End Client_.
End Returns.

(** ** The compiled client *)

Lemma compiled_addresses addr :
  addr ∈ storageNodes ++ metadataNodes -> is_Some (address_of addr).
Proof.
  assert (Forall (fun a => is_Some (address_of a)) (storageNodes ++ metadataNodes)) as Hall.
  { apply (bool_decide_unpack _). by vm_compute. }
  rewrite Forall_forall in Hall. apply Hall.
Qed.

Definition small (d : bytes) : Prop := zlen d <= INT_MAX.

Lemma worker_returns data i :
  ends small (fun o => exists u, o = Some u /\ True) (worker data i).
Proof.
  assert (forall addr, addr ∈ getAllNodes (dht_ (new_client storageNodes metadataNodes)) -> is_Some (address_of addr)) as Hs.
  { intros addr Hin%new_client_nodes. apply compiled_addresses. set_solver. }
  assert (forall addr, addr ∈ metadataNodes_ (new_client storageNodes metadataNodes) -> is_Some (address_of addr)) as Hm.
  { intros addr Hin. apply compiled_addresses, elem_of_app. by right. }
  unfold worker, write_file. next_call. intros _.
  eapply returns_and_then; [apply uploadFile_returns; [apply new_client_wf|done|done]|]. intros up _.
  eapply returns_and_then; [apply downloadFile_returns; [done|apply new_client_wf|done|done]|]. intros down _.
  unfold remove_file. next_call. intros _ _. by exists (up, down).
Qed.

Lemma worker_outcome_done data d net clock i :
  Forall (fun a => small (msg_of a)) (net i) -> is_Some (worker_outcome data d net clock i).
Proof.
  intros Hnet. pose proof (ends_run small _ (worker data i) d (net i) ltac:(done) Hnet (worker_returns data i)) as H.
  unfold worker_outcome. destruct (run _ d (net i)) as [[[o ?] ?] ?]. destruct H as (r & -> & _). by eexists.
Qed.

(** ** A test in the cluster *)

(** The files after a test. *)
Definition tested (filename : string) (data : bytes) (d : fs) : fs :=
  FS (delete (TEST_DIR +:+ "/downloaded_" +:+ filename)
        (<[TEST_DIR +:+ "/downloaded_" +:+ filename := data]>
           (<[TEST_DIR +:+ "/" +:+ filename := data]> (files d)))) (creatable d).

Lemma ran_runTest n dis c ms filename size d w :
  cluster_up c w ms -> (2 <= length (dht_ c))%nat -> (length ms <= S n)%nat ->
  0 < size <= INT_MAX -> token filename -> no_slash filename = true ->
  (forall path, creatable d path = true) -> hashes_tell (chunks_of (random_data dis size)) ->
  exists w', ran (S n) (runTest dis c filename size) d w
      (Some (UploadComplete, Reconstructed)) (tested filename (random_data dis size) d) w' /\
    cluster_up c w' ms.
Proof.
  intros Hup Hlen Hn Hsize Htok Hslash Hcr Htell. set (data := random_data dis size) in *.
  set (path := TEST_DIR +:+ "/" +:+ filename).
  assert (base_name path = filename) as Hbase by by apply (base_name_in TEST_DIR).
  assert (zlen data = size) as Hz.
  { unfold data, random_data, zlen. rewrite length_fmap, length_seq. lia. }
  assert (data <> []) as Hne by (intros E; rewrite E in Hz; unfold zlen in Hz; simpl in Hz; lia).
  assert (numberable data) as Hnum.
  { unfold numberable. rewrite Hz. apply Z.div_lt_upper_bound; [apply CHUNK_SIZE_pos|].
    unfold CHUNK_SIZE, INT_MAX in *. lia. }
  set (d1 := FS (<[path := data]> (files d)) (creatable d)).
  destruct (runs_uploadFile n c ms path data d1 w) as (w' & Hu & Hk & Hup');
    [apply lookup_insert_eq|done|done|by rewrite Hbase|done| |done|done|].
  { intros E. rewrite E in Hlen. simpl in Hlen. lia. }
  exists w'. split; [|done].
  assert (exists t, last ms = Some t) as [t Ht].
  { destruct (chain_end _ _ (up_chain _ _ _ Hup)) as (t & _ & Ht & _). by exists t. }
  unfold runTest. eapply (ran_bind _ _ _ _ _ tt d1 w).
  { unfold createDummyFile, write_file, ran. cbn [modify talk]. fold path data. by rewrite Hcr. }
  pose proof (ran_downloadFile n c ms path (TEST_DIR +:+ "/downloaded_" +:+ filename) data [] d1 w' w' t) as Hdl.
  rewrite Hbase in Hdl.
  cbv beta zeta. fold path. eapply ran_and_then; [exact Hu|]. eapply ran_and_then.
  - apply Hdl; [apply without_nil|done|done|done|apply Hup|done|apply Hup|done|apply one_lost_nil|done|apply not_elem_of_nil|by apply Hcr].
  - done.
Qed.

(** All three tests of the evaluation pass, one after the other. *)
Lemma evaluation_passes dis1 dis2 dis3 clocks d w :
  all_down w ->
  (forall path, creatable d path = true) ->
  hashes_tell (chunks_of (random_data dis1 (100 * 1024))) ->
  hashes_tell (chunks_of (random_data dis2 (5 * 1024 * 1024))) ->
  hashes_tell (chunks_of (random_data dis3 (20 * 1024 * 1024))) ->
  let rs := replicate 3 (UploadComplete, Reconstructed) in
  exists d' w', main_performance_evaluation true dis1 dis2 dis3 clocks 3 d w =
    Some (Some (0, evaluation_report clocks rs, rs), d', w').
Proof.
  intros Hw Hcr H1 H2 H3 rs. pose proof (startCluster_up w Hw) as Hup.
  assert (2 <= length (dht_ compiled_client))%nat as Hlen by (apply (bool_decide_unpack _); by vm_compute).
  assert (forall f, f ∈ ["small_file.dat"; "medium_file.dat"; "large_file.dat"] -> token f /\ no_slash f = true) as Hf.
  { apply Forall_forall, (bool_decide_unpack _). by vm_compute. }
  assert (forall n dis f size d w, f ∈ ["small_file.dat"; "medium_file.dat"; "large_file.dat"] ->
    0 < size <= INT_MAX -> cluster_up compiled_client w compiled_chain -> (forall path, creatable d path = true) ->
    hashes_tell (chunks_of (random_data dis size)) -> (3 <= S n)%nat ->
    exists w', ran (S n) (runTest dis compiled_client f size) d w (Some (UploadComplete, Reconstructed))
                 (tested f (random_data dis size) d) w' /\ cluster_up compiled_client w' compiled_chain) as Htest.
  { intros n dis f size d0 w0 [Ht Hs]%Hf Hsize Hw0 Hc Htell Hn. by eapply ran_runTest. }
  destruct (Htest 2%nat dis1 "small_file.dat" (100 * 1024) d (startCluster w)) as (w1 & Hr1 & Hup1);
    [left|by split|exact Hup|exact Hcr|exact H1|done|].
  set (d1 := tested "small_file.dat" _ d) in Hr1.
  destruct (Htest 2%nat dis2 "medium_file.dat" (5 * 1024 * 1024) d1 w1) as (w2 & Hr2 & Hup2);
    [right; left|by split|exact Hup1|exact Hcr|exact H2|done|].
  set (d2 := tested "medium_file.dat" _ d1) in Hr2.
  destruct (Htest 2%nat dis3 "large_file.dat" (20 * 1024 * 1024) d2 w2) as (w3 & Hr3 & Hup3);
    [right; right; left|by split|exact Hup2|exact Hcr|exact H3|done|].
  exists (tested "large_file.dat" (random_data dis3 (20 * 1024 * 1024)) d2), w3.
  assert (ran 3 (evaluation_tests dis1 dis2 dis3) d (startCluster w)
    (Some (replicate 3 (UploadComplete, Reconstructed))) (tested "large_file.dat" (random_data dis3 (20 * 1024 * 1024)) d2)
    w3) as Hr%ran_client.
  { eapply ran_and_then; [exact Hr1|]. eapply ran_and_then; [exact Hr2|]. eapply ran_and_then; [exact Hr3|]. reflexivity. }
  unfold main_performance_evaluation. cbn [negb]. by rewrite Hr.
Qed.

(** ** Experiments *)

(** The quotient of equal counts is a hundred, in doubles. *)
Definition rate_exact (n : Z) : Prop :=
  0 < n /\ write_general (double_div (double_mul (double_of 100) (double_of n)) (double_of n)) = "100".

Lemma rates_exact : Forall rate_exact clientCounts.
Proof. repeat constructor; by vm_compute. Qed.

Lemma omap_all {A B : Type} (f : A -> option B) (l : list A) :
  (forall x, x ∈ l -> is_Some (f x)) -> exists l', f <$> l = Some <$> l' /\ length l' = length l.
Proof.
  induction l as [|x l IH]; intros Hl; [by exists []|].
  destruct IH as (l' & E & Hlen); [by intros y Hy; apply Hl; right|]. destruct (Hl x) as [y Hy]; [by left|].
  exists (y :: l'). rewrite !fmap_cons, Hy, E. split; [done|]. simpl. by rewrite Hlen.
Qed.

Lemma omap_id_some {A : Type} (l : list A) : omap id (Some <$> l) = l.
Proof. induction l; simpl; by f_equal. Qed.

(** Every client counts as a success, because the failures of [uploadFile] and
    [downloadFile] are not exceptions and their outcomes are not looked at. *)
Lemma success_rate_blind dis clientCount fileSize d net clock :
  rate_exact clientCount -> (forall i, Forall (fun a => small (msg_of a)) (net i)) ->
  write_general (successRate (runWorkload dis clientCount fileSize d net clock)) = "100".
Proof.
  intros [Hc Hrate] Hnet. unfold runWorkload. set (data := random_data dis fileSize).
  destruct (omap_all (worker_outcome data d net clock) (seqZ 0 clientCount)) as (l & E & Hlen).
  { intros i _. by apply worker_outcome_done. }
  rewrite E. clear E.
  unfold experiment_result. rewrite omap_id_some. cbn [successRate]. rewrite bool_decide_eq_true_2 by done.
  assert (zlen l = clientCount) as ->; [|done]. unfold zlen. rewrite Hlen, length_seqZ. lia.
Qed.

Definition small_answers (e : conditions) : Prop := forall i, Forall (fun a => small (msg_of a)) (network e i).

Lemma runWorkload_blind e clients size :
  small_answers e -> rate_exact clients ->
  write_general (successRate (runWorkload (bytes_drawn e) clients size (disk e) (network e) (times e))) = "100".
Proof. intros He Hc. by apply success_rate_blind. Qed.

(** A line of [results.csv] with a success rate of 100. *)
Definition blind_line (name var : string) (v : Z) (latency : string * string) : string :=
  line (name +:+ "," +:+ var +:+ "," +:+ to_string v +:+ "," +:+ latency.1 +:+ "," +:+ latency.2 +:+ ",100").

Definition written (r : ExperimentResult) : string * string := (write_general (avgUpload r), write_general (avgDownload r)).

(** No send raises a signal. *)
Definition undisturbed (e : conditions) : Prop := (forall i, raises e i = false) /\ stop_raises e = false.

Lemma undisturbed_runs e clients size : undisturbed e ->
  experiment_run e clients size = (Some (runWorkload (bytes_drawn e) clients size (disk e) (network e) (times e)), false).
Proof.
  intros [Hr Hs]. unfold experiment_run, killed_in_workload, killed_in_stop, signalled. rewrite Hs.
  enough (existsb (fun i => raises e i && existsb (fun ev => match ev with SentTo _ false => true | _ => false end)
    (run (worker (random_data (bytes_drawn e) size) i) (disk e) (network e i)).2) (seqZ 0 clients) = false) as -> by done.
  apply not_true_iff_false. intros (i & _ & Hi)%existsb_exists. by rewrite Hr in Hi.
Qed.

(** What the series writes: a line for each of the first values, for all of them unless the
    process is ended. *)
Lemma experiment_series_ends name var setup values env :
  (forall i, small_answers (env i)) -> Forall (fun v => rate_exact (setup v).1) values ->
  exists rows killed k, experiment_series name var setup values env = (rows, killed) /\
    rows = imap (fun i v => let e := env i in
      Row name var v (runWorkload (bytes_drawn e) (setup v).1 (setup v).2 (disk e) (network e) (times e))) (take k values) /\
    csv_row <$> rows = (fun r => blind_line name var (value r) (written (result r))) <$> rows /\
    (k <= length values)%nat /\ (killed = false -> k = length values) /\ ((forall i, undisturbed (env i)) -> killed = false).
Proof.
  intros He Hv. revert env He. induction Hv as [|v values Hr Hv IH]; intros env He.
  { exists [], false, O. by split_and!. }
  pose proof (runWorkload_blind (env O) (setup v).1 (setup v).2 (He O) Hr) as Hrate.
  set (r := runWorkload _ _ _ _ _ _) in Hrate.
  assert (csv_row (Row name var v r) = blind_line name var v (written r)) as Hline.
  { unfold csv_row, blind_line, written. cbn [experiment variable value result fst snd]. by rewrite Hrate. }
  destruct (IH (fun i => env (S i)) (fun i => He (S i))) as (rows & killed & k & Hrows & Hrow & Hl & Hk & Hall & Hun).
  assert ((forall i, undisturbed (env i)) -> experiment_run (env O) (setup v).1 (setup v).2 = (Some r, false)) as Hgo.
  { intros Hu. by apply undisturbed_runs. }
  cbn [experiment_series]. unfold experiment_run in *. fold r in Hgo |- *.
  destruct (killed_in_workload _ _ _); [|destruct (killed_in_stop _)].
  - exists [], true, O. split_and!; [done|done|done|simpl; lia|done|by intros Hu%Hgo].
  - exists [Row name var v r], true, 1%nat. split_and!; [done|done|by rewrite fmap_cons, Hline|simpl; lia|done|by intros Hu%Hgo].
  - exists (Row name var v r :: rows), killed, (S k). rewrite Hrows. split_and!; [done|by rewrite Hrow| |simpl; lia| |].
    + by rewrite !fmap_cons, Hl, Hline.
    + intros ->. simpl. by rewrite Hall.
    + intros Hu. apply Hun. intros i. apply Hu.
Qed.

(** The rows as lines. *)
Lemma series_lines name var (f : nat -> Z -> ExperimentResult) values rows :
  rows = imap (fun i v => Row name var v (f i v)) values ->
  csv_row <$> rows = (fun r => blind_line name var (value r) (written (result r))) <$> rows ->
  csv_row <$> rows = zip_with (blind_line name var) values (written ∘ result <$> rows).
Proof.
  intros -> ->. revert f. induction values as [|v values IH]; intros f; [done|]. simpl. f_equal. apply (IH (fun i => f (S i))).
Qed.

Lemma zip_with_take {A B C : Type} (g : A -> B -> C) k l l' :
  (length l' <= k)%nat -> zip_with g (take k l) l' = zip_with g l l'.
Proof.
  revert l l'. induction k as [|k IH]; intros [|x l] [|y l'] Hk; simpl in *; try done; [lia|]. f_equal. apply IH. lia.
Qed.

Lemma series_prefix name var (f : nat -> Z -> ExperimentResult) values k rows :
  rows = imap (fun i v => Row name var v (f i v)) (take k values) ->
  csv_row <$> rows = (fun r => blind_line name var (value r) (written (result r))) <$> rows ->
  csv_row <$> rows = zip_with (blind_line name var) values (written ∘ result <$> rows).
Proof.
  intros Hr Hl. rewrite (series_lines _ _ f (take k values)) by done. apply zip_with_take.
  rewrite length_fmap, Hr, length_imap, length_take. lia.
Qed.

(** *** When nothing answers *)

Lemma run_and_then_1 {A B : Type} (p : io fs (option A)) (f : A -> io fs (option B)) d l a d' l' :
  (run p d l).1 = (Some a, d', l') -> (run (and_then p f) d l).1 = (run (f a) d' l').1.
Proof.
  intros H. rewrite run_and_then. destruct (run p d l) as [[[o d1] l1] tr]. simpl in H. simplify_eq.
  by destruct (run (f a) d' l').
Qed.

Lemma dead_node {A : Type} addr (failed : A) p d :
  is_Some (address_of addr) -> (run (with_node addr failed p) d []).1 = (Some failed, d, []).
Proof.
  intros [[ip port] Ha]. rewrite run_with_node, Ha. unfold address_of in Ha. by destruct (split_address addr).
Qed.

Section Dead.
Context (c : Client) (Hring : ring_wf (dht_ c))
        (Hstorage : forall addr, addr ∈ getAllNodes (dht_ c) -> is_Some (address_of addr))
        (Hmetadata : forall addr, addr ∈ metadataNodes_ c -> is_Some (address_of addr)).

Lemma dead_upload path d :
  exists r, (run (uploadFile c path) d []).1 = (Some r, d, []) /\ (r = EmptyOrMissing \/ exists i, r = ChunkFailed i).
Proof.
  unfold uploadFile. cbn [reads mbind io_mbind io_bind run]. destruct (bool_decide (splitFileIntoChunks d path = [])) eqn:Hne.
  { eexists. split; [done|by left]. }
  rewrite hashAllChunks_wf by apply split_sizes. cbv zeta. apply bool_decide_eq_false in Hne.
  destruct (splitFileIntoChunks d path) as [|ch chunks]; [done|]. exists (ChunkFailed (c_index ch)).
  split; [|right; by eexists]. rewrite fmap_cons.
  match goal with |- context [run ?p d []] => set (q := p) end.
  assert (forall nodes k chunk, (forall addr, addr ∈ nodes -> is_Some (address_of addr)) ->
    (run (upload_to_nodes chunk nodes k) d []).1 = (Some k, d, [])) as Hto.
  { intros nodes k chunk. revert k. induction nodes as [|addr nodes IH]; intros k Hin; [done|]. cbn [upload_to_nodes].
    rewrite (run_and_then_1 _ _ _ _ false d []); [|apply dead_node, Hin; left]. apply IH. intros x Hx. apply Hin. by right. }
  assert ((run q d []).1 = (Some (ChunkFailed (c_index ch)), d, [])) as Hq.
  { subst q. rewrite (run_and_then_1 _ _ _ _ (Some (c_index ch)) d []); [done|]. cbn [upload_chunks].
    edestruct (getNodesForKey_known c Hring Hstorage) as (nodes & E & Hin). unfold replicationFactor. rewrite E.
    by rewrite (run_and_then_1 _ _ _ _ 0 d []) by by apply Hto. }
  destruct (run q d []) as [x tr]. simpl in Hq. by subst x.
Qed.

Lemma dead_download name out d : (run (downloadFile c name out) d []).1 = (Some NotInMetadata, d, []).
Proof.
  unfold downloadFile. assert ((run (find_metadata (rev (metadataNodes_ c)) name) d []).1 = (Some None, d, [])) as H.
  { assert (forall addr, addr ∈ rev (metadataNodes_ c) -> is_Some (address_of addr)) as Hin.
    { intros addr. rewrite list_elem_of_In, <- in_rev, <- list_elem_of_In. auto. }
    induction (rev (metadataNodes_ c)) as [|addr nodes IH]; [done|]. cbn [find_metadata].
    rewrite (run_and_then_1 _ _ _ _ no_metadata d []); [|apply dead_node, Hin; left]. apply IH. intros x Hx. apply Hin. by right. }
  by rewrite (run_and_then_1 _ _ _ _ _ _ _ H).
Qed.
End Dead.

Lemma worker_dead data d net clock i : net i = [] -> worker_outcome data d net clock i = Some (0, 0).
Proof.
  intros Hnet. unfold worker_outcome. rewrite Hnet.
  assert (forall addr, addr ∈ getAllNodes (dht_ compiled_client) -> is_Some (address_of addr)) as Hs.
  { intros addr Hin%new_client_nodes. apply compiled_addresses. set_solver. }
  assert (forall addr, addr ∈ metadataNodes_ compiled_client -> is_Some (address_of addr)) as Hm.
  { intros addr Hin. apply compiled_addresses, elem_of_app. by right. }
  assert (exists r d', (run (worker data i) d []).1 = (Some (r, NotInMetadata), d', []) /\
    (r = EmptyOrMissing \/ exists i, r = ChunkFailed i)) as (r & d' & H & Hr).
  { unfold worker, write_file. cbn [modify mbind io_mbind io_bind run mret io_ret].
    change (new_client storageNodes metadataNodes) with compiled_client.
    generalize (if creatable d ("perf_test_" +:+ to_string i +:+ ".bin")
      then FS (<["perf_test_" +:+ to_string i +:+ ".bin" := data]> (files d)) (creatable d) else d). intros d0.
    destruct (dead_upload compiled_client (new_client_wf _ _) Hs ("perf_test_" +:+ to_string i +:+ ".bin") d0) as (r & Hu & Hr).
    eexists r, _. split; [|exact Hr].
    rewrite (run_and_then_1 _ _ _ _ _ _ _ Hu), (run_and_then_1 _ _ _ _ _ _ _ (dead_download compiled_client Hm _ _ d0)). reflexivity. }
  destruct (run (worker data i) d []) as [[[o d1] l1] tr]. simpl in H. simplify_eq.
  by destruct Hr as [->|[j ->]].
Qed.

(** The line of an experiment without answers. *)
Lemma dead_line name var v dis clients size d net clock :
  (forall i, net i = []) -> clients ∈ clientCounts ->
  csv_row (Row name var v (runWorkload dis clients size d net clock)) = blind_line name var v ("0", "0").
Proof.
  intros Hnet Hc.
  assert (runWorkload dis clients size d net clock =
    experiment_result clients (replicate (Z.to_nat clients) (Some (0, 0)))) as ->.
  { unfold runWorkload. f_equal. transitivity (replicate (length (seqZ 0 clients)) (Some (0, 0)));
      [|by rewrite length_seqZ].
    generalize (seqZ 0 clients). intros l. induction l as [|i l IH]; [done|].
    rewrite fmap_cons, worker_dead, IH by done. done. }
  assert (Forall (fun n => let r := experiment_result n (replicate (Z.to_nat n) (Some (0, 0))) in
    (written r, write_general (successRate r)) = ("0", "0", "100")) clientCounts) as H.
  { repeat constructor; by vm_compute. }
  rewrite Forall_forall in H. specialize (H _ Hc). revert H. generalize (experiment_result clients (replicate (Z.to_nat clients) (Some (0, 0)))).
  intros r. unfold csv_row, blind_line, written. cbn [experiment variable value result fst snd]. by intros [= -> -> ->].
Qed.

(** The settings use these numbers of clients only. *)
Lemma setups_known :
  Forall (fun v => (v, 100 * 1024).1 ∈ clientCounts) clientCounts /\ Forall (fun v => (1, v).1 ∈ clientCounts) fileSizes.
Proof. split; apply (bool_decide_unpack _); by vm_compute. Qed.

Lemma series_dead name var (setup : Z -> Z * Z) values env rows :
  (forall i j, network (env i) j = []) -> Forall (fun v => (setup v).1 ∈ clientCounts) values ->
  rows = imap (fun i v => let e := env i in
    Row name var v (runWorkload (bytes_drawn e) (setup v).1 (setup v).2 (disk e) (network e) (times e))) values ->
  csv_row <$> rows = (fun v => blind_line name var v ("0", "0")) <$> values.
Proof.
  intros Hnet Hv ->. revert env Hnet. induction Hv as [|v values Hin Hv IH]; intros env Hnet; [done|].
  rewrite imap_cons, !fmap_cons. cbv beta zeta. rewrite dead_line by (by apply Hnet || by apply Hin).
  f_equal. apply (IH (fun i => env (S i))). intros i. apply Hnet.
Qed.

(** ** Properties *)



(** A test file that is uploaded in less than a millisecond has an infinite throughput:
    the report says so for each of the three files, whatever the outcome of the call. *)
Theorem fast_upload_is_infinite filename size t r m :
  (filename, size) ∈ evaluation_files ->
  milliseconds (around_upload t).1 (around_upload t).2 = 0 ->
  exists before after, (test_report filename size t r m).1 =
    before +:+ line "Total Upload Latency: 0 ms" +:+ line "Upload Throughput: inf MB/s" +:+ after.
Proof.
  intros Hin Ht. unfold test_report. rewrite Ht.
  assert (Forall (fun f => write_fixed2 (throughput f.2 0) = "inf") evaluation_files) as H.
  { repeat constructor; by vm_compute. }
  rewrite Forall_forall in H. specialize (H _ Hin). cbn [snd] in H. rewrite H. cbn [fst].
  eexists (line _ +:+ line _ +:+ line _), _. rewrite !string_app_assoc. reflexivity.
Qed.

Lemma fast_upload_is_infinite_witness :
  exists before after, (test_report "small_file.dat" 102400
      (TestClock (5, 999999) (UploadClock 0 0 0 0 0 0) (0, 0) (DownloadClock 0 0)) (EmptyOrMissing, NotInMetadata) no_durations).1 =
    before +:+ line "Total Upload Latency: 0 ms" +:+ line "Upload Throughput: inf MB/s" +:+ after.
Proof. apply (fast_upload_is_infinite "small_file.dat" 102400); [left|vm_compute; reflexivity]. Defined.

(** A test of the evaluation finds its file again: on a running cluster of any
    shape with two storage nodes in its ring, [runTest] creates the file of random
    bytes, uploads and downloads it with success and removes the copy; the file it
    created is the only one that is new, and the cluster runs on, ready for the next
    test.  No two chunks of the file may collide under SHA-256. *)
Theorem runTest_passes dis c ms filename size d w :
  cluster_up c w ms -> (2 <= length (dht_ c))%nat -> 0 < size <= INT_MAX ->
  token filename -> no_slash filename = true -> (forall path, creatable d path = true) ->
  hashes_tell (chunks_of (random_data dis size)) ->
  files d !! (TEST_DIR +:+ "/downloaded_" +:+ filename) = None ->
  exists w', run_client (length ms) (runTest dis c filename size) d w =
      Some (Some (UploadComplete, Reconstructed),
            FS (<[TEST_DIR +:+ "/" +:+ filename := random_data dis size]> (files d)) (creatable d), w') /\
    cluster_up c w' ms.
Proof.
  intros Hup Hlen Hsize Htok Hslash Hcr Htell Hnew.
  assert (exists n, length ms = S n) as [n Hn].
  { pose proof (up_chain _ _ _ Hup) as Hch. destruct ms; [inversion Hch|by eexists]. }
  destruct (ran_runTest n dis c ms filename size d w) as (w' & Hr & Hup'); [done|done|lia|done|done|done|done|done|].
  exists w'. split; [|done]. rewrite Hn. apply ran_client in Hr as ->. do 3 f_equal. unfold tested. f_equal.
  rewrite delete_insert_eq, delete_insert_ne.
  - by rewrite delete_id.
  - unfold TEST_DIR. simpl. intros [= E]. apply (f_equal String.length) in E. simpl in E. lia.
Qed.

(** The evaluation's own cluster, and nine bytes. *)
Lemma runTest_passes_witness :
  exists w', run_client 3 (runTest (fun _ => Byte.x41) compiled_client "f" 9) (FS ∅ (fun _ => true)) (startCluster ∅) =
      Some (Some (UploadComplete, Reconstructed),
            FS {["test_data/f" := bytes_of_string "AAAAAAAAA"]} (fun _ => true), w') /\
    cluster_up compiled_client w' compiled_chain.
Proof.
  apply (runTest_passes (fun _ => Byte.x41) compiled_client compiled_chain "f" 9).
  - apply startCluster_up, all_down_empty.
  - apply (bool_decide_unpack (_ <= _)%nat). by vm_compute.
  - by split.
  - apply (bool_decide_unpack (_ /\ _)). by vm_compute.
  - done.
  - done.
  - assert (length (chunks_of (random_data (fun _ => Byte.x41) 9)) = 1%nat) as Hl by by vm_compute.
    destruct (chunks_of _) as [|x [|]]; try done. by intros y z ->%list_elem_of_singleton ->%list_elem_of_singleton.
  - done.
Defined.

