(* ===== verification/SystemTests.v ===== *)
(** * The system tests: [apps/main_system_tests.cpp]

    Each test starts the cluster, runs clients against it, compares the content
    identifiers of a file and of its downloaded copy, and kills the nodes.  The verdict
    a test prints is its result here; the nodes are started as in [LocalCluster.v], where
    [pause] stands for the sleep at the end of a test: which ports of the killed nodes are free
    by then is the kernel's choice, and an argument.  The ten clients of the second test run in threads of
    their own; here they run one after the other, in any order ([Overlap.v] is about
    their interleavings).

    The theorems: the whole program passes on every machine on which nothing else
    listens on its ports, and on which the ports of killed nodes are free again after each test; if
    those of the metadata nodes are not, all clients of the second test fail.  And a client of the second test that reports no failure did
    download what it had uploaded, whatever the network did. *)
From S2P Require Import Prelude IoStream Sha256 Chunks ConsistentHash Wire Proc Client Records Apps Cluster Replication.
From S2P Require Import LocalCluster.
From S2P Require StorageNode MetadataNode.

#[local] Open Scope Z_scope.

(** [computeCID] of a file on the client's disk; [None] is undefined behaviour. *)
Definition cid (path : string) : io fs (option string) := reads (fun d => computeCID d path).

(** The comparison all three tests end with. *)
Definition same_cid (path out : string) : io fs (option bool) :=
  and_then (cid path) (fun originalCID =>
    and_then (cid out) (fun downloadedCID => mret (Some (bool_decide (originalCID = downloadedCID))))).

(** On a cluster that was started. *)
Definition testStorageFailure : io fs (option bool) :=
  let client := new_client storageNodes metadataNodes in
  let filename := "test_storage_fail.txt" in
  write_file filename (bytes_of_string "Data that should survive storage node failure.");;
  and_then (uploadFile client filename) (fun _ =>
    killNode 8001;;
    let outFilename := "test_storage_fail_out.txt" in
    and_then (downloadFile client filename outFilename) (fun _ =>
      and_then (same_cid filename outFilename) (fun pass =>
        kill_all [8002; 9001; 9002; 9003];;
        remove_file filename;;
        remove_file outFilename;;
        mret (Some pass)))).

(** Client [i] of the second test, up to the comparison: whether it finds no integrity
    failure. *)
Definition concurrent_check (i : Z) : io fs (option bool) :=
  let fname := "concurrent_" +:+ to_string i +:+ ".txt" in
  write_file fname (bytes_of_string ("Concurrent data " +:+ to_string i));;
  let c := new_client storageNodes metadataNodes in
  and_then (uploadFile c fname) (fun _ =>
    let outName := "concurrent_out_" +:+ to_string i +:+ ".txt" in
    and_then (downloadFile c fname outName) (fun _ => same_cid fname outName)).

Definition concurrent_client (i : Z) : io fs (option bool) :=
  and_then (concurrent_check i) (fun pass =>
    remove_file ("concurrent_" +:+ to_string i +:+ ".txt");;
    remove_file ("concurrent_out_" +:+ to_string i +:+ ".txt");;
    mret (Some pass)).

(** The ten threads when none starts before another has ended, in the order they run: the
    failures.  An exception in a thread is one. *)
Fixpoint concurrent_threads (order : list Z) (failures : list Z) : io fs (list Z) :=
  match order with
  | [] => mret failures
  | i :: order' =>
      o ← concurrent_client i;
      concurrent_threads order' (if bool_decide (o = Some true) then failures else failures ++ [i])
  end.

Definition clientCount : Z := 10.

Definition testConcurrentClients (order : list Z) : io fs (option (list Z)) :=
  failures ← concurrent_threads order [];
  kill_all [8001; 8002; 9001; 9002; 9003];;
  mret (Some failures).

(** The loop over the files: [None] for a file that is skipped. *)
Fixpoint test_files (client : Client) (files_ : list string) : io fs (option (list (option bool))) :=
  match files_ with
  | [] => mret (Some [])
  | filename :: files' =>
      check ← reads (fun d => bool_decide (is_Some (files d !! filename)));
      if negb check then and_then (test_files client files') (fun r => mret (Some (None :: r))) else
      and_then (uploadFile client filename) (fun _ =>
        let outFilename := "restored_" +:+ filename in
        and_then (downloadFile client filename outFilename) (fun _ =>
          and_then (same_cid filename outFilename) (fun pass =>
            remove_file outFilename;;
            and_then (test_files client files') (fun r => mret (Some (Some pass :: r))))))
  end.

Definition testBinaryFiles : io fs (option (list (option bool))) :=
  and_then (test_files (new_client storageNodes metadataNodes) ["test_image.jpg"; "test_pdf.pdf"]) (fun r =>
    kill_all [8001; 8002; 9001; 9002; 9003];;
    mret (Some r)).

(** What the three tests print. *)
Record test_report := Report { storage : bool; failures : list Z; binary : list (option bool) }.

(** The exit code, and the report when no test threw an exception.  Each test starts
    the cluster; [freed1] and [freed2] are the ports that are free again after the sleep at the
    end of the first and of the second test.  [None] is a call that waits for ever. *)
Definition main_system_tests (n : nat) (freed1 freed2 : address -> bool) (order : list Z) (d : fs) (w : world)
    : option (Z * option test_report * fs * world) :=
  '(o1, d1, w1) ← run_client n testStorageFailure d (startCluster w);
  match o1 with
  | None => Some (1, None, d1, w1)
  | Some pass =>
      '(o2, d2, w2) ← run_client n (testConcurrentClients order) d1 (startCluster (pause freed1 w1));
      match o2 with
      | None => Some (1, None, d2, w2)
      | Some fails =>
          '(o3, d3, w3) ← run_client n testBinaryFiles d2 (startCluster (pause freed2 w2));
          match o3 with
          | None => Some (1, None, d3, w3)
          | Some files_ => Some (0, Some (Report pass fails files_), d3, w3)
          end
      end
  end.

(** Every node of the cluster has been killed, and no other one was started there. *)
Definition all_stopped (w : world) : Prop :=
  forall port, port ∈ cluster_ports 2 -> is_Some (w !! (localhost, port)) /\ down (localhost, port) w.

Definition frees (freed : address -> bool) : Prop := forall port, port ∈ cluster_ports 2 -> freed (localhost, port) = true.

Lemma all_stopped_freed (freed : address -> bool) (w : world) : all_stopped w -> frees freed -> all_down (pause freed w).
Proof. intros Hw Hf port Hp. apply pause_freed; [by apply Hw|by apply Hf]. Qed.

(** A cluster that is up has a node at each port. *)
Lemma up_present w port : cluster_up compiled_client w compiled_chain -> port ∈ cluster_ports 2 -> is_Some (w !! (localhost, port)).
Proof.
  intros [_ Hs _ Hch] Hp. assert (port ∈ [8001; 8002; 9001; 9002; 9003]) as Hin by done.
  assert (forall addr a, addr ∈ getAllNodes (dht_ compiled_client) -> target addr = Some a -> is_Some (w !! a)) as Hst.
  { intros addr a Hin' Ha. destruct (Hs _ Hin') as (a' & x & Ha' & Hx & _). assert (a = a') as -> by congruence. by eexists. }
  assert (forall a, a ∈ compiled_chain -> is_Some (w !! a)) as Hmt.
  { intros a Ha. destruct (chain_member _ _ _ Hch Ha) as [x Hx]. by eexists. }
  assert (getAllNodes (dht_ compiled_client) = ["127.0.0.1:8001"; "127.0.0.1:8002"]) as E by by vm_compute.
  rewrite E in Hst. clear Hp. rewrite !elem_of_cons, elem_of_nil in Hin.
  destruct Hin as [->|[->|[->|[->|[->|[]]]]]].
  - by apply (Hst "127.0.0.1:8001"); [left|vm_compute].
  - by apply (Hst "127.0.0.1:8002"); [right; left|vm_compute].
  - apply Hmt. left.
  - apply Hmt. right. left.
  - apply Hmt. do 2 right. left.
Qed.

(** ** The comparison *)

Lemma ran_same_cid n path out d w content :
  files d !! path = Some content -> files d !! out = Some content -> numberable content ->
  ran n (same_cid path out) d w (Some true) d w.
Proof.
  intros H1 H2 Hnum. unfold ran, same_cid, and_then, cid. cbn [reads mbind io_mbind io_bind talk].
  rewrite (computeCID_eq _ _ _ H1 Hnum). cbn [io_bind talk].
  rewrite (computeCID_eq _ _ _ H2 Hnum). cbn [io_bind talk]. by rewrite bool_decide_eq_true_2.
Qed.

Section Compiled.
Context (n : nat) (Hn : (2 <= n)%nat).

Lemma compiled_ring : (2 <= length (dht_ compiled_client))%nat /\ dht_ compiled_client <> [].
Proof. split; [apply (bool_decide_unpack _); by vm_compute|done]. Qed.

(** An upload and a download of a file by the compiled client, with at most one storage
    node gone in between. *)
Lemma ran_upload path content d w :
  cluster_up compiled_client w compiled_chain -> files d !! path = Some content -> content <> [] ->
  numberable content -> token path -> no_slash path = true -> hashes_tell (chunks_of content) ->
  exists w', ran (S n) (uploadFile compiled_client path) d w (Some UploadComplete) d w' /\
    kept compiled_client compiled_chain path content w' /\ cluster_up compiled_client w' compiled_chain.
Proof.
  intros Hup Hd Hne Hnum Htok Hs Htell.
  apply (runs_uploadFile n compiled_client compiled_chain path content d w);
    [done|done|done|by rewrite base_name_plain|done|apply compiled_ring|done|simpl; lia].
Qed.

Lemma ran_download path out content d w v lost :
  without lost w v -> kept compiled_client compiled_chain path content w -> content <> [] -> numberable content ->
  token path -> no_slash path = true -> one_lost (dht_ compiled_client) lost -> (localhost, 9003) ∉ lost ->
  creatable d out = true ->
  ran (S n) (downloadFile compiled_client path out) d v (Some Reconstructed)
    (FS (<[out := content]> (files d)) (creatable d)) v.
Proof.
  intros Hv Hk Hne Hnum Htok Hs Hone Ht Hc.
  pose proof (ran_downloadFile n compiled_client compiled_chain path out content lost d w v (localhost, 9003) Hv) as H.
  rewrite base_name_plain in H by done.
  apply H; [done|done|done|apply new_client_wf|apply compiled_ring|by vm_compute|done|done|done|done|done].
Qed.
End Compiled.

(** A storage node was killed. *)
Lemma without_killed w port : without [(localhost, port)] w (alter stopped (localhost, port) w).
Proof.
  split.
  - intros a Ha. apply lookup_alter_ne. intros <-. by apply Ha, list_elem_of_singleton.
  - intros a ->%list_elem_of_singleton. apply dial_not_running, down_alter. by left.
Qed.

Lemma one_lost_8001 : one_lost (dht_ compiled_client) [(localhost, 8001)].
Proof.
  assert (forall x, x ∈ getAllNodes (dht_ compiled_client) -> lost_node [(localhost, 8001)] x -> x = "127.0.0.1:8001") as H.
  { assert (getAllNodes (dht_ compiled_client) = ["127.0.0.1:8001"; "127.0.0.1:8002"]) as -> by by vm_compute.
    intros x. rewrite !elem_of_cons, elem_of_nil. intros [->|[->|[]]]; [done|].
    intros (a & Ha & ->%list_elem_of_singleton). by vm_compute in Ha. }
  intros x y Hx Hy Hlx Hly. by rewrite (H x), (H y).
Qed.

(** Chunks of a file of one chunk. *)
Lemma one_chunk_tells content : length (chunks_of content) = 1%nat -> hashes_tell (chunks_of content).
Proof.
  destruct (chunks_of content) as [|x [|]]; try done.
  by intros _ y z ->%list_elem_of_singleton ->%list_elem_of_singleton.
Qed.

Definition survivor : bytes := bytes_of_string "Data that should survive storage node failure.".

Lemma survivor_facts :
  survivor <> [] /\ numberable survivor /\ hashes_tell (chunks_of survivor).
Proof.
  split_and!; [done|apply (bool_decide_unpack (_ < _)); by vm_compute|]. apply one_chunk_tells. by vm_compute.
Qed.

(** The first test, with what it leaves. *)
Lemma ran_testStorageFailure d w :
  all_down w -> (forall path, creatable d path = true) ->
  exists w', ran 3 testStorageFailure d (startCluster w) (Some true)
    (FS (delete "test_storage_fail_out.txt" (delete "test_storage_fail.txt"
          (<["test_storage_fail_out.txt" := survivor]> (<["test_storage_fail.txt" := survivor]> (files d)))))
       (creatable d))
    (stop_all [8002; 9001; 9002; 9003] (alter stopped (localhost, 8001) w')) /\
    cluster_up compiled_client w' compiled_chain.
Proof.
  intros Hw Hcr. destruct survivor_facts as (Hne & Hnum & Htell).
  pose proof (startCluster_up w Hw) as Hup.
  assert (token "test_storage_fail.txt") as Htok by (apply (bool_decide_unpack (_ /\ _)); by vm_compute).
  set (d1 := FS (<["test_storage_fail.txt" := survivor]> (files d)) (creatable d)).
  destruct (ran_upload 2 (le_n 2) "test_storage_fail.txt" survivor d1 (startCluster w)) as (w' & Hu & Hk & Hup');
    [done|apply lookup_insert_eq|done|done|done|done|done|].
  exists w'. split; [|done]. unfold testStorageFailure. eapply (ran_bind _ _ _ _ _ tt d1).
  { unfold write_file, ran. cbn [modify talk]. by rewrite Hcr. }
  cbv beta zeta. eapply ran_and_then; [exact Hu|]. eapply ran_bind; [by apply ran_killNode|].
  eapply ran_and_then.
  { eapply (ran_download 2 _ _ survivor d1 w' _ [(localhost, 8001)]);
      [apply without_killed|done|done|done|done|done|apply one_lost_8001| |by apply Hcr].
    apply (bool_decide_unpack (_ ∉ _)). by vm_compute. }
  eapply ran_and_then.
  { apply (ran_same_cid _ _ _ _ _ survivor); [|apply lookup_insert_eq|done]. simpl.
    rewrite lookup_insert_ne by done. apply lookup_insert_eq. }
  eapply ran_bind; [by apply ran_kill_all; repeat constructor|]. reflexivity.
Qed.

(** ** A client of the second test *)

Lemma same_cid_sound path out d l :
  let '((o, d', _), _) := run (same_cid path out) d l in
  d' = d /\ (all_numberable d -> o = Some true ->
    forall content, files d !! path = Some content -> content <> [] ->
    exists got, files d !! out = Some got /\ (got = content \/ collide (hashed content) (hashed got))).
Proof.
  unfold same_cid, and_then, cid. cbn [reads mbind io_mbind io_bind run].
  destruct (computeCID d path) as [cid1|] eqn:E1; cbn [mret io_ret io_bind run]; [|done].
  destruct (computeCID d out) as [cid2|] eqn:E2; cbn [mret io_ret io_bind run]; [|done].
  split; [done|]. intros Hnum [= ->%bool_decide_eq_true] content Hc Hne.
  destruct (computeCID_path d path Hnum) as (c1 & E1' & H1). rewrite E1 in E1'. injection E1' as <-.
  destruct (computeCID_path d out Hnum) as (c2 & E2' & H2). rewrite E2 in E2'. injection E2' as <-.
  destruct (proj1 H2) as (got & Hg & Hgne); [apply H1; by exists content|]. exists got. split; [done|].
  destruct (computeCID_sound d path out content got Hc Hg (Hnum _ _ Hc) (Hnum _ _ Hg)); [congruence|auto..].
Qed.

(** Whatever the network answers: a client that finds no failure has the same content in
    both files, up to a collision. *)
Lemma concurrent_check_sound i d l :
  let '((o, d', _), _) := run (concurrent_check i) d l in
  all_numberable d' -> o = Some true ->
  forall content, files d' !! ("concurrent_" +:+ to_string i +:+ ".txt") = Some content -> content <> [] ->
  exists got, files d' !! ("concurrent_out_" +:+ to_string i +:+ ".txt") = Some got /\
    (got = content \/ collide (hashed content) (hashed got)).
Proof.
  unfold concurrent_check. rewrite run_bind. destruct (run (write_file _ _) d l) as [[[[] d1] l1] tr1].
  cbv zeta. rewrite run_and_then. destruct (run (uploadFile _ _) d1 l1) as [[[[u|] d2] l2] tr2]; [|done].
  rewrite run_and_then. destruct (run (downloadFile _ _ _) d2 l2) as [[[[r|] d3] l3] tr3]; [|done].
  pose proof (same_cid_sound ("concurrent_" +:+ to_string i +:+ ".txt")
                ("concurrent_out_" +:+ to_string i +:+ ".txt") d3 l3) as H.
  destruct (run (same_cid _ _) d3 l3) as [[[o d4] l4] tr4]. destruct H as [-> H]. exact H.
Qed.

(** Client [i] on a running cluster, when no other runs. *)
Abbreviation thread_file i := ("concurrent_" +:+ to_string i +:+ ".txt").
Abbreviation thread_out i := ("concurrent_out_" +:+ to_string i +:+ ".txt").
Abbreviation thread_data i := (bytes_of_string ("Concurrent data " +:+ to_string i)).

Definition image_files : list string := ["test_image.jpg"; "test_pdf.pdf"].

Lemma thread_facts i : i ∈ seqZ 0 clientCount ->
  (token (thread_file i) /\ no_slash (thread_file i) = true /\ thread_out i <> thread_file i) /\
  ((thread_file i ∉ image_files) /\ (thread_out i ∉ image_files)) /\
  numberable (thread_data i) /\ length (pieces (read_fuel (thread_data i)) (thread_data i)) = 1%nat.
Proof.
  revert i. apply Forall_forall. apply Forall_and; split; [apply (bool_decide_unpack _); by vm_compute|].
  apply Forall_and; split; [apply (bool_decide_unpack _); by vm_compute|].
  apply Forall_and; split; [|apply (bool_decide_unpack _); by vm_compute].
  unfold numberable. apply (bool_decide_unpack _). by vm_compute.
Qed.

Lemma thread_testable i : i ∈ seqZ 0 clientCount ->
  thread_data i <> [] /\ numberable (thread_data i) /\ hashes_tell (chunks_of (thread_data i)).
Proof.
  intros Hi. destruct (thread_facts i Hi) as (_ & _ & Hnum & Hlen). split_and!; [done|done|].
  apply one_chunk_tells. rewrite <- Hlen, <- (chunks_of_data (thread_data i)). by rewrite length_fmap.
Qed.

Lemma ran_concurrent_client i d w :
  i ∈ seqZ 0 clientCount -> cluster_up compiled_client w compiled_chain -> (forall path, creatable d path = true) ->
  exists w', ran 3 (concurrent_client i) d w (Some true)
      (FS (delete (thread_out i) (delete (thread_file i)
            (<[thread_out i := thread_data i]> (<[thread_file i := thread_data i]> (files d))))) (creatable d)) w' /\
    cluster_up compiled_client w' compiled_chain.
Proof.
  intros Hi Hup Hcr. destruct (thread_facts i Hi) as ((Htok & Hs & Hneq) & _).
  destruct (thread_testable i Hi) as (Hne & Hnum & Htell).
  set (d1 := FS (<[thread_file i := thread_data i]> (files d)) (creatable d)).
  destruct (ran_upload 2 (le_n 2) (thread_file i) (thread_data i) d1 w) as (w' & Hu & Hk & Hup');
    [done|apply lookup_insert_eq|done|done|done|done|done|].
  exists w'. split; [|done]. unfold concurrent_client, concurrent_check. eapply ran_and_then.
  - eapply (ran_bind _ _ _ _ _ tt d1). { unfold write_file, ran. cbn [modify talk]. by rewrite Hcr. }
    cbv beta zeta. eapply ran_and_then; [exact Hu|]. eapply ran_and_then.
    { eapply (ran_download 2 _ _ (thread_data i) d1 w' w' []);
        [apply without_nil|done|done|done|done|done|apply one_lost_nil|apply not_elem_of_nil|by apply Hcr]. }
    apply (ran_same_cid _ _ _ _ _ (thread_data i)); [|apply lookup_insert_eq|done]. simpl.
    rewrite lookup_insert_ne by done. apply lookup_insert_eq.
  - reflexivity.
Qed.

(** All of them, one after the other in any order. *)
Lemma ran_concurrent_threads order d w :
  (forall i, i ∈ order -> i ∈ seqZ 0 clientCount) -> cluster_up compiled_client w compiled_chain ->
  (forall path, creatable d path = true) ->
  exists d' w', ran 3 (concurrent_threads order []) d w [] d' w' /\ creatable d' = creatable d /\
    (forall f, f ∈ image_files -> files d' !! f = files d !! f) /\ cluster_up compiled_client w' compiled_chain.
Proof.
  revert d w. induction order as [|i order IH]; intros d w Hin Hup Hcr; [by exists d, w|].
  destruct (ran_concurrent_client i d w) as (w1 & H1 & Hup1); [apply Hin; by left|done|done|].
  destruct (thread_facts i) as (_ & (Hf & Ho) & _); [apply Hin; by left|].
  match type of H1 with ran _ _ _ _ _ ?d1 _ => destruct (IH d1 w1) as (d' & w' & H2 & Hc & Hfiles & Hup2) end;
    [by intros j Hj; apply Hin; right|done|done|].
  exists d', w'. split_and!; [|done| |done].
  - eapply ran_bind; [exact H1|]. exact H2.
  - intros f Hf'. rewrite (Hfiles f Hf'). cbn [files].
    by rewrite !lookup_delete_ne, !lookup_insert_ne by (by intros <-).
Qed.

(** ** The files of the third test *)

(** A file the test can be run on: no two of its chunks collide under SHA-256. *)
Definition testable (content : bytes) : Prop :=
  content <> [] /\ numberable content /\ hashes_tell (chunks_of content).

Definition verdicts (files_ : list string) (d : fs) : list (option bool) :=
  (fun f => (fun _ => true) <$> files d !! f) <$> files_.

Lemma ran_test_files names d w :
  cluster_up compiled_client w compiled_chain -> (forall path, creatable d path = true) ->
  (forall f, f ∈ names -> token f /\ no_slash f = true) ->
  (forall f g, f ∈ names -> g ∈ names -> "restored_" +:+ f <> g) ->
  (forall f content, f ∈ names -> files d !! f = Some content -> testable content) ->
  exists d' w', ran 3 (test_files compiled_client names) d w (Some (verdicts names d)) d' w'.
Proof.
  revert d w. induction names as [|f names IH]; intros d w Hup Hcr Htok Hres Htest; [by exists d, w|].
  destruct (Htok f ltac:(left)) as [Hf Hs]. cbn [test_files verdicts fmap list_fmap].
  destruct (files d !! f) as [content|] eqn:Ef.
  - destruct (Htest f content ltac:(left) Ef) as (Hne & Hnum & Htell).
    destruct (ran_upload 2 (le_n 2) f content d w) as (w1 & Hu & Hk & Hup1); [done..|].
    set (out := "restored_" +:+ f). set (d1 := FS (<[out := content]> (files d)) (creatable d)).
    set (d2 := FS (delete out (files d1)) (creatable d)).
    assert (forall g, g ∈ f :: names -> files d2 !! g = files d !! g) as Hkeep.
    { intros g Hg. assert (out <> g) as Hog by (by apply Hres; [left|]). simpl.
      by rewrite lookup_delete_ne, lookup_insert_ne. }
    destruct (IH d2 w1) as (d' & w' & Hrest); [done|done| | | |].
    { intros g Hg. apply Htok. by right. } { intros g h Hg Hh. apply Hres; by right. }
    { intros g c Hg. rewrite Hkeep by (by right). apply Htest. by right. }
    exists d', w'. eapply (ran_bind _ _ _ _ _ true d w).
    { unfold ran. cbn [reads talk]. by rewrite Ef, bool_decide_eq_true_2. }
    cbn [negb]. eapply ran_and_then; [exact Hu|]. cbv zeta. eapply ran_and_then.
    { apply (ran_download 2 f out content d w1 w1 []);
        [apply without_nil|done|done|done|done|done|apply one_lost_nil|apply not_elem_of_nil|done]. }
    fold d1. eapply ran_and_then.
    { apply (ran_same_cid _ _ _ _ _ content); [|apply lookup_insert_eq|done].
      unfold d1. cbn [files]. rewrite lookup_insert_ne; [done|]. by apply Hres; left. }
    eapply (ran_bind _ _ _ _ _ tt d2); [done|]. eapply ran_and_then; [exact Hrest|].
    assert (verdicts names d2 = verdicts names d) as ->; [|done].
    unfold verdicts. apply list_fmap_ext. intros i g Hg. f_equal. apply Hkeep. right.
    by eapply list_elem_of_lookup_2.
  - destruct (IH d w) as (d' & w' & Hrest); [done|done| | | |].
    { intros g Hg. apply Htok. by right. } { intros g h Hg Hh. apply Hres; by right. }
    { intros g c Hg. apply Htest. by right. }
    exists d', w'. eapply (ran_bind _ _ _ _ _ false d w).
    { unfold ran. cbn [reads talk]. by rewrite Ef. }
    cbn [negb]. by eapply ran_and_then; [exact Hrest|].
Qed.

(** ** The tests *)

(** The shipped test of storage failure passes, from any directory and whatever a
    previous run has left of its nodes: the file is uploaded, the first storage node is
    killed, the file is downloaded from what is left and the content identifiers agree;
    at the end every node has been stopped, the test's files are gone and all others
    are as they were. *)
Theorem storage_failure_test_passes d w :
  all_down w -> (forall path, creatable d path = true) ->
  exists d' w', run_client 3 testStorageFailure d (startCluster w) = Some (Some true, d', w') /\
    all_stopped w' /\ creatable d' = creatable d /\
    (forall p, files d' !! p = if bool_decide (p ∈ ["test_storage_fail.txt"; "test_storage_fail_out.txt"])
                               then None else files d !! p).
Proof.
  intros Hw Hcr. destruct (ran_testStorageFailure d w Hw Hcr) as (w' & Hr & Hup). eexists _, _. split; [by apply ran_client|].
  split_and!; [|done|].
  - intros port Hp. split; [by apply stop_all_in, lookup_alter_is_Some, up_present|]. apply stop_all_down. destruct (decide (port = 8001)) as [->|Hne].
    + right. apply down_alter. by left.
    + left. exists port. split; [|done]. vm_compute in Hp |- *. set_solver.
  - intros p. cbn [files]. case_bool_decide as Hin.
    + rewrite !elem_of_cons, elem_of_nil in Hin. destruct Hin as [->|[->|[]]].
      * rewrite lookup_delete_ne by done. apply lookup_delete_eq.
      * apply lookup_delete_eq.
    + rewrite !elem_of_cons in Hin.
      rewrite !lookup_delete_ne, !lookup_insert_ne by (intros <-; tauto). done.
Qed.

Lemma storage_failure_test_passes_witness :
  exists d' w', run_client 3 testStorageFailure (FS ∅ (fun _ => true)) (startCluster ∅) = Some (Some true, d', w').
Proof.
  destruct (storage_failure_test_passes (FS ∅ (fun _ => true)) ∅) as (d' & w' & H & _);
    [apply all_down_empty|done|]. exists d', w'. exact H.
Defined.

(** The shipped test of binary files reports success for each of its two files that
    is there, and skips the other one, for any non-empty content whose chunks do not
    collide. *)
Theorem binary_files_test_passes d w :
  all_down w -> (forall path, creatable d path = true) ->
  (forall f content, f ∈ ["test_image.jpg"; "test_pdf.pdf"] -> files d !! f = Some content -> testable content) ->
  exists d' w', run_client 3 testBinaryFiles d (startCluster w) =
    Some (Some (verdicts ["test_image.jpg"; "test_pdf.pdf"] d), d', w').
Proof.
  intros Hw Hcr Htest.
  destruct (ran_test_files ["test_image.jpg"; "test_pdf.pdf"] d (startCluster w)) as (d' & w' & Hr);
    [by apply startCluster_up|done| | |done|].
  - apply Forall_forall, (bool_decide_unpack _). by vm_compute.
  - intros f g. rewrite !elem_of_cons, !elem_of_nil. by intros [->|[->|[]]] [->|[->|[]]].
  - eexists _, _. apply ran_client. unfold testBinaryFiles. eapply ran_and_then; [exact Hr|].
    eapply ran_bind; [by apply ran_kill_all; repeat constructor|]. reflexivity.
Qed.

(** Only the first file is there. *)
Lemma binary_files_test_passes_witness :
  exists d' w', run_client 3 testBinaryFiles
      (FS {["test_image.jpg" := bytes_of_string "JPEG"]} (fun _ => true)) (startCluster ∅) =
    Some (Some [Some true; None], d', w').
Proof.
  assert (verdicts ["test_image.jpg"; "test_pdf.pdf"] (FS {["test_image.jpg" := bytes_of_string "JPEG"]} (fun _ => true)) =
    [Some true; None]) as <- by by vm_compute.
  apply (binary_files_test_passes (FS {["test_image.jpg" := bytes_of_string "JPEG"]} (fun _ => true)) ∅).
  - apply all_down_empty.
  - done.
  - intros f content _. cbn [files]. intros [_ <-]%lookup_singleton_Some. split_and!; [done| |].
    + apply (bool_decide_unpack (_ < _)). by vm_compute.
    + apply one_chunk_tells. by vm_compute.
Defined.

(** The second test finds no failure when its threads do not overlap. *)
Lemma concurrent_test_passes order d w :
  (forall i, i ∈ order -> i ∈ seqZ 0 clientCount) -> all_down w -> (forall path, creatable d path = true) ->
  exists d' w', run_client 3 (testConcurrentClients order) d (startCluster w) = Some (Some [], d', w') /\
    all_stopped w' /\ creatable d' = creatable d /\ (forall f, f ∈ image_files -> files d' !! f = files d !! f).
Proof.
  intros Hin Hw Hcr.
  destruct (ran_concurrent_threads order d (startCluster w) Hin (startCluster_up w Hw) Hcr) as (d' & w' & Hr & Hc & Hf & Hup).
  exists d', (stop_all [8001; 8002; 9001; 9002; 9003] w'). split_and!; [|  |done|done].
  - apply ran_client. unfold testConcurrentClients. eapply ran_bind; [exact Hr|].
    eapply ran_bind; [by apply ran_kill_all; repeat constructor|]. reflexivity.
  - intros port Hp. split; [by apply stop_all_in, up_present|]. apply stop_all_down. left. by exists port.
Qed.

(** ** Without metadata nodes *)

(** What a client of [c] finds when no metadata node runs: a storage node serves or refuses. *)
Record headless (c : Client) (w : world) : Prop := {
  headless_ring : ring_wf (dht_ c);
  headless_storage : forall addr, addr ∈ getAllNodes (dht_ c) ->
    serving w addr \/ exists a, target addr = Some a /\ dial a w = None;
  headless_metadata : exists ms, mapM target (metadataNodes_ c) = Some ms /\ Forall (fun a => dial a w = None) ms
}.

Lemma headless_grown cs c w w' : grown cs w w' -> headless c w -> headless c w'.
Proof.
  intros Hg [H1 H2 (ms & H3 & H4)]. split; [done| |].
  - intros addr [Hs|(a & Ha & Hd)]%H2; [left; by eapply grown_serving|right].
    exists a. split; [done|by eapply grown_dial].
  - exists ms. split; [done|]. eapply Forall_impl; [exact H4|]. intros a. by eapply grown_dial.
Qed.

(** Storing chunks comes to an end, with or without success. *)
Lemma runs_upload_chunks_headless cs n c l d w :
  hashes_tell cs -> Forall sendable cs -> headless c w -> (forall x, x ∈ l -> x ∈ cs) ->
  exists r w', runs (S n) (upload_chunks (dht_ c) l) d w (Some r) w' /\ grown cs w w'.
Proof.
  intros Htell Hsend. revert w. induction l as [|x l IH]; intros w Hw Hl; [by exists None, w|].
  destruct (getNodesForKey_wf (dht_ c) (c_hash x) replicationFactor (headless_ring _ _ Hw)) as (nodes & E & _ & _ & _ & Hin).
  set (lost := filter (fun a => dial a w = None) (omap target nodes) : list address).
  destruct (runs_upload_to_nodes cs Htell Hsend n x nodes lost 0 d w) as (k & w1 & H1 & Hg1 & _ & Hk & _).
  { apply Hl. left. }
  { apply Forall_forall. intros addr Ha. destruct (headless_storage _ _ Hw addr) as [?|(a & Hta & Hd)]; [by apply Hin|by right|].
    left. exists a. split; [done|]. apply list_elem_of_filter. split; [done|]. apply list_elem_of_omap. by exists addr. }
  { intros a Ha. by apply list_elem_of_filter in Ha as [? _]. }
  cbn [upload_chunks]. rewrite E. destruct (decide (k = 0)) as [->|Hk0].
  - eexists (Some _), w1. split; [|done]. eapply runs_and_then; [exact H1|]. reflexivity.
  - destruct (IH w1) as (r & w2 & H2 & Hg2); [by eapply headless_grown|by intros y Hy; apply Hl; right|].
    exists r, w2. split; [|by etransitivity]. eapply runs_and_then; [exact H1|]. cbv beta.
    by rewrite bool_decide_eq_false_2.
Qed.

Lemma runs_upload_headless n c path content d w :
  files d !! path = Some content -> content <> [] -> numberable content -> hashes_tell (chunks_of content) ->
  headless c w ->
  exists r w', runs (S n) (uploadFile c path) d w (Some r) w' /\ headless c w'.
Proof.
  intros Hd Hne Hnum Htell Hw.
  destruct (runs_upload_chunks_headless (chunks_of content) n c (chunks_of content) d w Htell
              (chunks_of_sendable content) Hw ltac:(done)) as (r & w1 & H1 & Hg).
  pose proof (headless_grown _ _ _ _ Hg Hw) as Hw1.
  assert (exists r, runs (S n) (uploadFile c path) d w (Some r) w1) as [r' H]; [|by exists r', w1].
  destruct (headless_metadata _ _ Hw1) as (ms & Hms & Hdown).
  pose proof (runs_upload_skips (S n) path (chunks_of content) (computeRootHash (c_hash <$> chunks_of content)) d w1
    (Some false) w1 (metadataNodes_ c) ms [] Hms Hdown ltac:(done)) as Hm. rewrite app_nil_r in Hm.
  exists (match r with Some i => ChunkFailed i | None => MetadataFailed end).
  unfold uploadFile, runs. cbn [reads mbind io_mbind io_bind talk].
  rewrite bool_decide_eq_false_2 by (by eapply split_not_empty). rewrite (upload_hashes _ _ _ Hd Hnum).
  eapply runs_and_then; [exact H1|]. destruct r as [i|]; [reflexivity|]. by eapply runs_and_then.
Qed.

Lemma runs_download_headless n c name out d w :
  token name -> headless c w -> runs (S n) (downloadFile c name out) d w (Some NotInMetadata) w.
Proof.
  intros Ht Hw. destruct (headless_metadata _ _ Hw) as (ms & Hms & Hdown).
  unfold downloadFile. eapply (runs_and_then _ _ _ _ _ None); [|reflexivity].
  rewrite <- (app_nil_r (rev _)). apply runs_find_skips; [|done|reflexivity]. apply Forall_rev.
  apply mapM_Some in Hms. revert Hdown. induction Hms as [|addr a l ms Ha _ IH]; intros Hdown; [constructor|].
  apply Forall_cons in Hdown as [Hd Hdown]. constructor; [|by apply IH]. exists a. split; [done|by left].
Qed.

Lemma root_hash_nonempty hashes : computeRootHash hashes <> EmptyString.
Proof. rewrite computeRootHash_eq. apply sha256_token. Qed.

(** The comparison of a file with one that is not there. *)
Lemma ran_same_cid_missing n path out d w content :
  files d !! path = Some content -> content <> [] -> numberable content -> files d !! out = None ->
  ran n (same_cid path out) d w (Some false) d w.
Proof.
  intros H1 Hne Hnum H2. unfold ran, same_cid, and_then, cid. cbn [reads mbind io_mbind io_bind talk].
  rewrite (computeCID_eq _ _ _ H1 Hnum), (bool_decide_eq_false_2 _ Hne). cbn [io_bind talk].
  assert (computeCID d out = Some EmptyString) as ->.
  { unfold computeCID, splitFileIntoChunks. by rewrite H2. }
  generalize (root_hash_nonempty (sha256 <$> pieces (read_fuel content) content)).
  generalize (computeRootHash (sha256 <$> pieces (read_fuel content) content)). intros root Hroot.
  cbn [io_bind talk mret io_ret]. by rewrite bool_decide_eq_false_2 by congruence.
Qed.

Lemma file_not_out i j : i ∈ seqZ 0 clientCount -> j ∈ seqZ 0 clientCount -> thread_file i <> thread_out j.
Proof.
  assert (Forall (fun i => Forall (fun j => thread_file i <> thread_out j) (seqZ 0 clientCount)) (seqZ 0 clientCount)) as H
    by (apply (bool_decide_unpack _); by vm_compute).
  intros Hi Hj. rewrite Forall_forall in H. specialize (H i Hi). rewrite Forall_forall in H. by apply H.
Qed.

(** No client has left a copy from another run. *)
Definition no_copies (d : fs) : Prop := forall i, i ∈ seqZ 0 clientCount -> files d !! thread_out i = None.

Lemma ran_concurrent_client_headless i d w :
  i ∈ seqZ 0 clientCount -> headless compiled_client w -> (forall path, creatable d path = true) -> no_copies d ->
  exists d' w', ran 3 (concurrent_client i) d w (Some false) d' w' /\ headless compiled_client w' /\
    creatable d' = creatable d /\ no_copies d'.
Proof.
  intros Hi Hw Hcr Hno. destruct (thread_facts i Hi) as ((Htok & Hs & Hneq) & _).
  destruct (thread_testable i Hi) as (Hne & Hnum & Htell).
  set (d1 := FS (<[thread_file i := thread_data i]> (files d)) (creatable d)).
  assert (no_copies d1) as Hno1.
  { intros j Hj. simpl. rewrite lookup_insert_ne by by apply file_not_out. by apply Hno. }
  destruct (runs_upload_headless 2 compiled_client (thread_file i) (thread_data i) d1 w) as (r & w' & Hu & Hw');
    [apply lookup_insert_eq|done..|].
  exists (FS (delete (thread_out i) (delete (thread_file i) (files d1))) (creatable d)), w'.
  split_and!; [|done|done|].
  - unfold concurrent_client, concurrent_check. eapply ran_and_then.
    + eapply (ran_bind _ _ _ _ _ tt d1). { unfold write_file, ran. cbn [modify talk]. by rewrite Hcr. }
      cbv beta zeta. eapply ran_and_then; [exact Hu|]. eapply ran_and_then; [by apply runs_download_headless|].
      eapply ran_same_cid_missing; [apply lookup_insert_eq|done|done|by apply Hno1].
    + reflexivity.
  - intros j Hj. apply lookup_delete_None. right. apply lookup_delete_None. right. by apply Hno1.
Qed.

Lemma ran_concurrent_threads_headless order failures d w :
  (forall i, i ∈ order -> i ∈ seqZ 0 clientCount) -> headless compiled_client w ->
  (forall path, creatable d path = true) -> no_copies d ->
  exists d' w', ran 3 (concurrent_threads order failures) d w (failures ++ order) d' w'.
Proof.
  revert failures d w. induction order as [|i order IH]; intros failures d w Hin Hw Hcr Hno.
  { exists d, w. by rewrite app_nil_r. }
  destruct (ran_concurrent_client_headless i d w) as (d1 & w1 & H1 & Hw1 & Hc & Hno1); [apply Hin; by left|done..|].
  destruct (IH (failures ++ [i]) d1 w1) as (d' & w' & H2); [by intros j Hj; apply Hin; right|done|by rewrite Hc|done|].
  exists d', w'. eapply ran_bind; [exact H1|]. by rewrite <- app_assoc in H2.
Qed.

(** Every client of the second test reports a failure. *)
Lemma concurrent_test_headless order d w :
  (forall i, i ∈ order -> i ∈ seqZ 0 clientCount) -> headless compiled_client w ->
  (forall path, creatable d path = true) -> no_copies d ->
  exists d' w', run_client 3 (testConcurrentClients order) d w = Some (Some order, d', w').
Proof.
  intros Hin Hw Hcr Hno.
  destruct (ran_concurrent_threads_headless order [] d w Hin Hw Hcr Hno) as (d' & w' & Hr).
  eexists d', _. apply ran_client. unfold testConcurrentClients. eapply ran_bind; [exact Hr|].
  eapply ran_bind; [by apply ran_kill_all; repeat constructor|]. reflexivity.
Qed.

(** The cluster that is started when the ports of its metadata nodes are still taken by
    stopped nodes. *)
Lemma startCluster_headless (freed : address -> bool) (w : world) :
  all_stopped w -> (forall port, port ∈ [9001; 9002; 9003] -> freed (localhost, port) = false) ->
  headless compiled_client (startCluster (pause freed w)).
Proof.
  intros Hw Hf. change (startCluster (pause freed w)) with (startCluster_of 2 (pause freed w)). rewrite startCluster_all.
  assert (forall port x, port ∈ cluster_ports 2 -> pause freed w !! (localhost, port) = Some x ->
            dial (localhost, port) (start_all (cluster_nodes 2) (pause freed w)) = None) as Hdial.
  { intros port x Hp Hx. apply dial_not_running. intros y Hy. rewrite (start_all_taken _ _ _ _ Hx) in Hy.
    injection Hy as <-. rewrite pause_lookup in Hx. destruct (w !! (localhost, port)) as [y|] eqn:Ey; [|done].
    destruct (is_running y || _); [|done]. injection Hx as <-. by apply (proj2 (Hw _ Hp)). }
  assert (forall i, i = 1 \/ i = 2 -> let addr := localhost +:+ ":800" +:+ to_string i in
    serving (start_all (cluster_nodes 2) (pause freed w)) addr \/
    exists a, target addr = Some a /\ dial a (start_all (cluster_nodes 2) (pause freed w)) = None) as Hs.
  { intros i Hi addr. assert (target addr = Some (localhost, 8000 + i)) as Ha by (destruct Hi as [-> | ->]; by vm_compute).
    assert (8000 + i ∈ cluster_ports 2 /\ ((localhost, 8000 + i), Storage (StorageNode.set_running true StorageNode.new_node))
              ∈ cluster_nodes 2) as [Hp Hn].
    { destruct Hi as [-> | ->]; (split; [apply (bool_decide_unpack _); by vm_compute|]); [left|right; left]. }
    destruct (pause freed w !! (localhost, 8000 + i)) as [x|] eqn:Ex; [right|left]; eexists.
    - split; [exact Ha|by eapply Hdial].
    - eexists. split_and!; [exact Ha|by eapply start_all_lookup; [apply cluster_nodes_NoDup|..]|done]. }
  split.
  - apply new_client_wf.
  - intros addr Hin%new_client_nodes. unfold storageNodes in Hin. rewrite !elem_of_cons, elem_of_nil in Hin.
    destruct Hin as [->|[->|[]]]; [apply (Hs 1); by left|apply (Hs 2); by right].
  - exists compiled_chain. split; [by vm_compute|].
    assert (forall port, port ∈ [9001; 9002; 9003] -> dial (localhost, port) (start_all (cluster_nodes 2) (pause freed w)) = None) as Hm.
    { intros port Hp. assert (port ∈ cluster_ports 2) as Hp2 by (change (port ∈ [8001; 8002; 9001; 9002; 9003]); by do 2 right).
      destruct (proj1 (Hw _ Hp2)) as [x Hx]. apply (Hdial _ x Hp2). by rewrite pause_kept by by apply Hf. }
    repeat constructor; apply Hm; set_solver.
Qed.

(** ** Properties *)


