(* ===== verification/Threads.v ===== *)
(** * The threads of one program, on one disk

    The clients of [Network.v] have a disk each.  The threads of one program share a disk:
    a [process] is a network and, beside its roots, the threads of a program, which take
    their steps on the one [p_disk].

    [confined own p] says that the program [p] only looks at, and only changes, the files in
    [own].  The theorem is non-interference: when every thread is confined to files of its
    own, what a thread does is a run of its program alone, on the disk as it was at the
    start, against some answers of the network; so what the other files say of such runs
    holds of threads that overlap.  The rule behind it, [process_rule], is the one that
    [Overlap.v] uses for the contracts of [Network.v]. *)
From S2P Require Import Prelude IoStream Sha256 Chunks ConsistentHash Wire Proc Client Cluster Network.
From S2P Require Import LocalCluster.
From S2P Require StorageNode MetadataNode.

#[local] Open Scope Z_scope.

(** ** The machine *)

Record process (A : Type) := Process { p_net : net; p_disk : fs; p_threads : list (io fs A * link) }.
Arguments Process {A}.
Arguments p_net {A}.
Arguments p_disk {A}.
Arguments p_threads {A}.

(** A step of the network outside of the program, or of the thread [n] connections below
    thread [i] of the program. *)
Inductive move :=
| Outside (ch : choice)
| Turn (i n : nat) (fail : bool).

Definition process_do {A : Type} (m : move) (c : process A) : option (process A) :=
  match m with
  | Outside ch => c' ← net_do ch (p_net c); Some (Process c' (p_disk c) (p_threads c))
  | Turn i n fail =>
      let s := p_net c in
      '(p, l) ← p_threads c !! i;
      match n with
      | O =>
          r ← act client_cell None fail (nodes s) (p_disk c) (locked s) p l [] [];
          Some (Process (Net (a_world r) (a_locks r) (roots s ++ (Orphan <$> a_left r))) (a_own r)
                  (<[i := (a_prog r, a_link r)]> (p_threads c)))
      | S n' =>
          '(w', h', l', lost) ← link_do n' fail (nodes s) (locked s) l;
          Some (Process (Net w' h' (roots s ++ (Orphan <$> lost))) (p_disk c) (<[i := (p, l')]> (p_threads c)))
      end
  end.

Fixpoint process_exec {A : Type} (ms : list move) (c : process A) : option (process A) :=
  match ms with
  | [] => Some c
  | m :: ms' => c' ← process_do m c; process_exec ms' c'
  end.

(** Schedules in which no call of the program, and none of a node, fails. *)
Definition calm_move {A : Type} (m : move) (c : process A) : bool :=
  match m with
  | Outside ch => calm ch (p_net c)
  | Turn i n true =>
      match n, p_threads c !! i with
      | S n', Some (_, l) => reads_at n' l
      | _, _ => false
      end
  | Turn _ _ false => true
  end.

Fixpoint calm_exec {A : Type} (ms : list move) (c : process A) : bool :=
  match ms with
  | [] => true
  | m :: ms' => calm_move m c && match process_do m c with Some c' => calm_exec ms' c' | None => true end
  end.

Definition start_process {A : Type} (s : net) (d : fs) (ps : list (io fs A)) : process A :=
  Process s d ((fun p => (p, Hang)) <$> ps).

(** Schedules for examples: in [(k, i, n)] the thread [n] connections below thread [i] takes
    [k] steps in which nothing fails. *)
Definition turns_of (l : list (nat * nat * nat)) : list move :=
  concat ((fun '(k, i, n) => replicate k (Turn i n false)) <$> l).

Lemma turns_inside l ch : ~ Outside ch ∈ turns_of l.
Proof.
  unfold turns_of. rewrite list_elem_of_In, in_concat.
  intros (x & ([[k i] n] & -> & _)%list_elem_of_In%list_elem_of_fmap & [E _]%list_elem_of_In%elem_of_replicate). discriminate E.
Qed.

(** ** Programs that are confined to some files *)

Definition agree (own : string -> Prop) (d d' : fs) : Prop :=
  forall f, own f -> files d !! f = files d' !! f /\ creatable d f = creatable d' f.

(** [d'] is [d] up to the files in [own]. *)
Definition only (own : string -> Prop) (d d' : fs) : Prop :=
  creatable d' = creatable d /\ forall f, ~ own f -> files d' !! f = files d !! f.

#[export] Instance agree_equivalence own : Equivalence (agree own).
Proof.
  split.
  - done.
  - intros d d' H f Hf. by destruct (H f Hf).
  - intros d1 d2 d3 H H' f Hf. destruct (H f Hf), (H' f Hf). split; congruence.
Qed.

#[export] Instance only_preorder own : PreOrder (only own).
Proof.
  split; [done|]. intros d1 d2 d3 [C H] [C' H']. split; [congruence|]. intros f Hf. rewrite H' by done. by apply H.
Qed.

Lemma only_mono (own own' : string -> Prop) d d' : (forall f, own f -> own' f) -> only own d d' -> only own' d d'.
Proof. intros Hsub [C H]. split; [done|]. intros f Hf. apply H. auto. Qed.

(** Two threads with different files do not see each other. *)
Lemma only_agree own own' d d' : (forall f, own f -> own' f -> False) -> only own d d' -> agree own' d d'.
Proof. intros Hdis [C H] f Hf. rewrite C. split; [|done]. symmetry. apply H. intros Ho. by eapply Hdis. Qed.

Fixpoint confined {A : Type} (own : string -> Prop) (p : io fs A) : Prop :=
  match p with
  | Ret _ => True
  | Atomic f k =>
      (forall d, only own d (f d)) /\ (forall d d', agree own d d' -> agree own (f d) (f d') /\ k d = k d') /\
      forall d, confined own (k d)
  | Acquire _ k | Release _ k | ServerSend _ k | ServerStop k | ServerClose k | Close k => confined own k
  | ServerRecv k | Recv k => forall d, confined own (k d)
  | Connect _ _ k | Send _ k => forall b, confined own (k b)
  end.

(** ** The programs of the client are confined *)

Section Local.
Context (own : string -> Prop).

Lemma confined_bind {A B : Type} (p : io fs A) (f : A -> io fs B) :
  confined own p -> (forall a, confined own (f a)) -> confined own (p ≫= f).
Proof.
  intros Hp Hf. unfold mbind, io_mbind. induction p as [a|g k IH| | | | | | | | | |]; simpl in *; auto.
  destruct Hp as (H1 & H2 & H3). split_and!; [done| |auto].
  intros d d' Hd. destruct (H2 d d' Hd) as [? ->]. by split.
Qed.

Lemma confined_and_then {A B : Type} (p : io fs (option A)) (f : A -> io fs (option B)) :
  confined own p -> (forall a, confined own (f a)) -> confined own (and_then p f).
Proof. intros Hp Hf. apply confined_bind; [done|]. intros [a|]; [apply Hf|done]. Qed.

Lemma confined_with_node {A : Type} addr (failed : A) p : confined own p -> confined own (with_node addr failed p).
Proof.
  intros Hp. unfold with_node. repeat case_match; try done. intros []; [|done]. cbn [negb]. by apply confined_bind.
Qed.

Lemma confined_reads {A : Type} (g : fs -> A) : (forall d d', agree own d d' -> g d = g d') -> confined own (reads g).
Proof.
  intros Hg. split_and!; [intros d; apply only_preorder| |done].
  intros d d' Hd. split; [done|]. by rewrite (Hg d d' Hd).
Qed.

(** Programs that do not use the disk at all. *)
Ltac confined_calls :=
  repeat first [exact I | progress (cbn; intros) | case_match | case_bool_decide].

Lemma confined_upload_chunk chunk addr : confined own (uploadChunkToNode chunk addr).
Proof. apply confined_with_node. confined_calls. Qed.

Lemma confined_download_chunk hash addr : confined own (downloadChunkFromNode hash addr).
Proof. apply confined_with_node. confined_calls. Qed.

Lemma confined_get_metadata addr name : confined own (getMetadataFromNode addr name).
Proof. apply confined_with_node. confined_calls. Qed.

Lemma confined_put_metadata addr path chunks root : own path -> confined own (putMetadataToNode addr path chunks root).
Proof.
  intros Hown. apply confined_with_node, confined_bind; [|confined_calls]. apply confined_reads.
  intros d d' Hd. unfold getFileSize. by destruct (Hd _ Hown) as [-> _].
Qed.

Lemma confined_upload_to_nodes chunk nodes k : confined own (upload_to_nodes chunk nodes k).
Proof.
  revert k. induction nodes as [|addr nodes IH]; intros k; [done|].
  apply confined_and_then; [apply confined_upload_chunk|]. intros ok. apply IH.
Qed.

Lemma confined_upload_chunks r chunks : confined own (upload_chunks r chunks).
Proof.
  induction chunks as [|chunk chunks IH]; [done|]. cbn [upload_chunks]. case_match; [|done].
  apply confined_and_then; [apply confined_upload_to_nodes|]. intros k. by case_bool_decide.
Qed.

Lemma confined_upload_metadata nodes path chunks root : own path -> confined own (upload_metadata nodes path chunks root).
Proof.
  intros Hown. induction nodes as [|addr nodes IH]; [done|].
  apply confined_and_then; [by apply confined_put_metadata|]. by intros [].
Qed.

Lemma confined_uploadFile c path : own path -> confined own (uploadFile c path).
Proof.
  intros Hown. unfold uploadFile. apply confined_bind.
  - apply confined_reads. intros d d' Hd. unfold splitFileIntoChunks. by destruct (Hd _ Hown) as [-> _].
  - intros chunks. case_bool_decide; [done|]. case_match; [|done].
    apply confined_and_then; [apply confined_upload_chunks|]. intros [i|]; [done|].
    apply confined_and_then; [by apply confined_upload_metadata|done].
Qed.

Lemma confined_find_metadata nodes name : confined own (find_metadata nodes name).
Proof.
  induction nodes as [|addr nodes IH]; [done|]. apply confined_and_then; [apply confined_get_metadata|].
  intros m. by destruct (is_found m).
Qed.

Lemma confined_download_from_nodes hash nodes : confined own (download_from_nodes hash nodes).
Proof.
  induction nodes as [|addr nodes IH]; [done|]. apply confined_and_then; [apply confined_download_chunk|].
  intros data. by case_bool_decide.
Qed.

Lemma confined_download_chunks r i hashes chunks : confined own (download_chunks r i hashes chunks).
Proof.
  revert i chunks. induction hashes as [|hash hashes IH]; intros i chunks; [done|].
  cbn [download_chunks]. case_match; [|done]. apply confined_and_then; [apply confined_download_from_nodes|].
  intros data. case_bool_decide; [done|apply IH].
Qed.

(** A file that is created, and one that is removed. *)
Lemma agree_insert d d' f x :
  agree own d d' -> agree own (FS (<[f := x]> (files d)) (creatable d)) (FS (<[f := x]> (files d')) (creatable d')).
Proof.
  intros Hd g Hg. cbn [files creatable]. destruct (Hd g Hg) as [H ->]. split; [|done].
  destruct (decide (g = f)) as [->|Hne]; [by rewrite !lookup_insert_eq|by rewrite !lookup_insert_ne].
Qed.

Lemma only_insert d f x : own f -> only own d (FS (<[f := x]> (files d)) (creatable d)).
Proof. intros Hf. split; [done|]. intros g Hg. cbn [files]. rewrite lookup_insert_ne; [done|]. by intros ->. Qed.

Lemma confined_reconstruct chunks out : own out -> confined own (reconstruct chunks out).
Proof.
  intros Hown. unfold reconstruct, reconstructFile, write_sorted. split_and!.
  - intros d. repeat case_match; simplify_eq; try reflexivity. by apply only_insert.
  - intros d d' Hd. destruct (Hd out Hown) as [_ <-].
    repeat case_match; simplify_eq; try (by split). split; [by apply agree_insert|done].
  - intros d. by repeat case_match.
Qed.

Lemma confined_downloadFile c name out : own out -> confined own (downloadFile c name out).
Proof.
  intros Hown. apply confined_and_then; [apply confined_find_metadata|]. intros [m|]; [|done].
  apply confined_and_then; [apply confined_download_chunks|]. intros [i|chunks]; [done|by apply confined_reconstruct].
Qed.

Lemma confined_write_file path data : own path -> confined own (write_file path data).
Proof.
  intros Hown. split_and!; [| |done].
  - intros d. case_match; [by apply only_insert|reflexivity].
  - intros d d' Hd. destruct (Hd _ Hown) as [_ <-]. split; [|done]. case_match; [by apply agree_insert|done].
Qed.

Lemma confined_remove_file path : own path -> confined own (remove_file path).
Proof.
  intros Hown. split_and!; [| |done].
  - intros d. split; [done|]. intros f Hf. cbn [files]. rewrite lookup_delete_ne; [done|]. by intros ->.
  - intros d d' Hd. split; [|done]. intros f Hf. cbn [files creatable]. destruct (Hd f Hf) as [H ->]. split; [|done].
    destruct (decide (f = path)) as [->|Hne]; [by rewrite !lookup_delete_eq|by rewrite !lookup_delete_ne].
Qed.
End Local.

(** ** One step of a thread *)

(** A step that leaves the disk alone. *)
Ltac disk_unused view := simplify_eq; exists view; cbn; split_and!; first [reflexivity | assumption | solve [auto]].

(** The thread takes the step it would take on any disk that has the same files of its own. *)
Lemma act_local {A : Type} own fail w d h (p : io fs A) l r view :
  act client_cell None fail w d h p l [] [] = Some r -> confined own p -> agree own view d ->
  exists view',
    act client_cell None fail w view h p l [] [] =
      Some (Acted (a_world r) view' (a_locks r) (a_prog r) (a_link r) (a_requests r) (a_replies r) (a_left r)) /\
    agree own view' (a_own r) /\ confined own (a_prog r) /\ only own d (a_own r).
Proof.
  intros Hr Hp Hv. destruct p; simpl in *; try done.
  - injection Hr as <-. destruct Hp as (H1 & H2 & H3). destruct (H2 _ _ Hv) as [Hf ->].
    exists (f view). split_and!; [done|exact Hf|apply H3|apply H1].
  - destruct fail; disk_unused view.
  - disk_unused view.
  - disk_unused view.
  - disk_unused view.
  - destruct fail; [|destruct (endpoint _ _) as [b|]; simpl in *; [destruct (accepted b w) as [t|]; simpl in *|]]; disk_unused view.
  - destruct l; [|destruct fail]; disk_unused view.
  - destruct l as [|qs [|]]; [|destruct fail..]; disk_unused view.
  - disk_unused view.
Qed.

(** The step is one of the program alone, with the answer it got. *)
Lemma act_run {A : Type} fail w d h (p : io fs A) l r :
  act client_cell None fail w d h p l [] [] = Some r ->
  exists ans, forall rest, (run p d (ans ++ rest)).1 = (run (a_prog r) (a_own r) rest).1.
Proof.
  intros Hr. destruct p; simpl in *; try done.
  - simplify_eq. by exists [].
  - destruct fail; simplify_eq. by exists [Msg []].
  - simplify_eq. by exists [].
  - simplify_eq. by exists [].
  - simplify_eq. by exists [].
  - destruct fail; [|destruct (endpoint _ _) as [b|]; simpl in *; [destruct (accepted b w) as [t|]; simpl in *|]]; simplify_eq; first [by exists [Ok false] | by exists [Ok true]].
  - destruct l; [|destruct fail]; simplify_eq; first [by exists [Ok false] | by exists [Ok true]].
  - destruct l as [|qs [|m ms]]; [|destruct fail..]; simplify_eq; first [by exists [Msg []] | by exists [Msg m]].
  - simplify_eq. by exists [].
Qed.

(** ** The rule *)

(** [I] is what holds of a thread with a disk to itself, [J] of the network, and [le] how
    the nodes may evolve.  When the steps keep them, they hold in every configuration of
    the process, of some disk that has the same files of the thread's own. *)
Section Rule.
Context {A : Type} (own : nat -> string -> Prop) (Hdis : forall i j f, i <> j -> own i f -> own j f -> False).
Context (J : net -> Prop) (I : world -> nat -> fs -> io fs A -> link -> Prop) (le : world -> world -> Prop).
Context (admits : choice -> Prop) (quiet : bool).
Context (Hle : forall w w' i d p l, le w w' -> I w i d p l -> I w' i d p l)
        (Hout : forall ch s s', admits ch -> (quiet = true -> calm ch s = true) -> net_do ch s = Some s' -> J s -> J s' /\ le (nodes s) (nodes s'))
        (Hact : forall i fail s d p l r,
           act client_cell None fail (nodes s) d (locked s) p l [] [] = Some r -> (fail = true -> quiet = false) ->
           J s -> I (nodes s) i d p l ->
           J (Net (a_world r) (a_locks r) (roots s ++ (Orphan <$> a_left r))) /\ le (nodes s) (a_world r) /\
           I (a_world r) i (a_own r) (a_prog r) (a_link r))
        (Hlink : forall i n fail s d p l w' h' l' lost,
           link_do n fail (nodes s) (locked s) l = Some (w', h', l', lost) ->
           (fail = true -> quiet = true -> reads_at n l = true) -> J s -> I (nodes s) i d p l ->
           J (Net w' h' (roots s ++ (Orphan <$> lost))) /\ le (nodes s) w' /\ I w' i d p l').

Record threads_ok (d0 : fs) (k : nat) (c : process A) : Prop := {
  ok_net : J (p_net c);
  ok_disk : only (fun f => exists i, (i < k)%nat /\ own i f) d0 (p_disk c);
  ok_count : length (p_threads c) = k;
  ok_thread : forall i p l, p_threads c !! i = Some (p, l) -> confined (own i) p /\
    exists view, agree (own i) view (p_disk c) /\ I (nodes (p_net c)) i view p l
}.

Lemma process_do_ok d0 k m c c' :
  process_do m c = Some c' -> (forall ch, m = Outside ch -> admits ch) -> (quiet = true -> calm_move m c = true) ->
  threads_ok d0 k c -> threads_ok d0 k c'.
Proof.
  intros Hdo Hadm Hcalm [Hnet Hdisk Hcount Hth]. destruct m as [ch|i n fail]; simpl in Hdo.
  - destruct (net_do ch (p_net c)) as [s'|] eqn:E; simplify_eq/=.
    destruct (Hout ch _ _ (Hadm ch eq_refl) Hcalm E Hnet) as [HJ Hw]. split; cbn [p_net p_disk p_threads]; [done..|].
    intros i p l Hi. destruct (Hth i p l Hi) as (Hp & view & Hv & HI). split; [done|]. exists view. split; [done|by eapply Hle].
  - destruct (p_threads c !! i) as [[p l]|] eqn:Ei; [|done]. cbn [mbind option_bind] in Hdo.
    destruct (Hth i p l Ei) as (Hp & view & Hv & HI). pose proof (lookup_lt_Some _ _ _ Ei) as Hi. destruct n as [|n].
    + destruct (act _ _ _ _ _ _ _ _ _ _) as [r|] eqn:Er; simplify_eq/=.
      destruct (act_local _ _ _ _ _ _ _ _ _ Er Hp Hv) as (view' & Er' & Hv' & Hp' & Ho).
      assert (fail = true -> quiet = false) as Hst.
      { intros ->. destruct quiet; [|done]. by discriminate (Hcalm eq_refl). }
      destruct (Hact _ _ _ _ _ _ _ Er' Hst Hnet HI) as (HJ & Hw & HI'). split; cbn [p_net p_disk p_threads].
      * done.
      * etransitivity; [exact Hdisk|]. eapply only_mono; [|exact Ho]. eauto.
      * by rewrite length_insert.
      * intros j q m [(<- & Hq & _)|[Hne Hj]]%list_lookup_insert_Some.
        { simplify_eq. split; [done|]. by exists view'. }
        destruct (Hth j q m Hj) as (Hq & v & Hv2 & HI2). split; [done|]. exists v. split; [|by eapply Hle].
        etransitivity; [exact Hv2|]. eapply only_agree, Ho. intros f. by apply Hdis.
    + destruct (link_do _ _ _ _ _) as [[[[w' h'] l'] lost]|] eqn:El; simplify_eq/=.
      assert (fail = true -> quiet = true -> reads_at n l = true) as Hst.
      { intros -> Hquiet. specialize (Hcalm Hquiet). simpl in Hcalm. by rewrite Ei in Hcalm. }
      destruct (Hlink _ _ _ _ _ _ _ _ _ _ _ El Hst Hnet HI) as (HJ & Hw & HI').
      split; cbn [p_net p_disk p_threads]; [done|done|by rewrite length_insert|].
      intros j q m [(<- & Hq & _)|[Hne Hj]]%list_lookup_insert_Some.
      * simplify_eq. split; [done|]. by exists view.
      * destruct (Hth j q m Hj) as (Hq & v & Hv2 & HI2). split; [done|]. exists v. split; [done|by eapply Hle].
Qed.

Lemma process_rule s d0 ps ms c :
  J s -> (forall i p, ps !! i = Some p -> confined (own i) p /\ I (nodes s) i d0 p Hang) ->
  (forall ch, Outside ch ∈ ms -> admits ch) -> (quiet = true -> calm_exec ms (start_process s d0 ps) = true) ->
  process_exec ms (start_process s d0 ps) = Some c -> threads_ok d0 (length ps) c.
Proof.
  intros HJ Hps. assert (threads_ok d0 (length ps) (start_process s d0 ps)) as H0.
  { unfold start_process. split; cbn [p_net p_disk p_threads]; [done|reflexivity|by rewrite length_fmap|].
    intros i p l Hi. apply list_lookup_fmap_Some in Hi as (q & [= -> ->] & Hq). destruct (Hps _ _ Hq). split; [done|]. by exists d0. }
  revert H0. generalize (start_process s d0 ps). induction ms as [|m ms IH]; intros c0 H0 Hadm Hcalm He; simpl in He, Hcalm.
  - by simplify_eq.
  - destruct (process_do m c0) as [c1|] eqn:E; [|done]. apply (IH c1); [|intros ch Hin; apply Hadm; by right| |done].
    + eapply process_do_ok; [exact E| | |done].
      * intros ch ->. apply Hadm. left.
      * intros Hq. specialize (Hcalm Hq). by apply andb_true_iff in Hcalm as [? _].
    + intros Hq. specialize (Hcalm Hq). by apply andb_true_iff in Hcalm as [_ ?].
Qed.
End Rule.

(** ** Threads under the contracts of [Network.v] *)

Section Contracts.
Context `{Contract}.
Context (Hstorage : forall a, storage_body_ok a StorageNode.handleClient)
        (Hmetadata : forall a, metadata_body_ok a MetadataNode.handleClient).
Context (w0 : world) (admits : Client -> job -> fs -> Prop)
        (post : Client -> job -> fs -> world -> fs -> outcome -> Prop).
Context (Hwatch : forall a, metadata_body_ok a MetadataNode.healthCheck)
        (Hpost : forall cl j d w w' d' r, world_le w w' -> post cl j d w d' r -> post cl j d w' d' r)
        (Hquiet : forall a n, w0 !! a = Some n -> honest n [])
        (Hclient : forall cl j d w s, admits cl j d -> world_le w0 w -> world_ok w ->
           safe client_cell None (fun w d' _ _ r => post cl j d w d' r) w d s None (job_program cl j)).

Lemma net_do_le ch c c' :
  net_do ch c = Some c' -> (reliable = true -> calm ch c = true) -> net_ok w0 post c ->
  world_le (nodes c) (nodes c').
Proof.
  intros Hdo Hcalm [_ Hok Hroots]. destruct ch as [cl j d|a|i n fail]; simpl in Hdo.
  - by simplify_eq.
  - destruct (nodes c !! a) as [[m|m]|]; by simplify_eq.
  - destruct (roots c !! i) as [r|] eqn:Ei; [|done]. simpl in Hdo.
    destruct (root_do n fail (nodes c) (locked c) r) as [[[[w' h'] r'] lost]|] eqn:Er; simplify_eq/=.
    by destruct (root_do_ok Hstorage Hmetadata _ Hpost _ _ _ _ _ _ _ _ _ Er (calm_steady _ _ _ _ _ Hcalm Ei) Hok (Forall_lookup_1 _ _ _ _ Hroots Ei)).
Qed.

Lemma net_ok_moved w' h' lost c :
  net_ok w0 post c -> world_le (nodes c) w' -> world_ok w' -> Forall (orphan_ok w') lost ->
  net_ok w0 post (Net w' h' (roots c ++ (Orphan <$> lost))).
Proof.
  intros [Hfrom _ Hroots] Hle Hok Hlost. split; simpl; [by etransitivity|done|]. apply Forall_app. split.
  - eapply Forall_impl; [exact Hroots|]. intros r. by apply root_ok_le.
  - apply Forall_fmap. exact Hlost.
Qed.

Context {A : Type} (own : nat -> string -> Prop) (tpost : nat -> world -> fs -> A -> Prop).
Context (Hdis : forall i j f, i <> j -> own i f -> own j f -> False)
        (Htpost : forall i w w' d a, world_le w w' -> tpost i w d a -> tpost i w' d a).

(** Programs that keep the contract, each on a disk of its own, keep it as threads on one. *)
Lemma process_sound (d0 : fs) (ps : list (io fs A)) (ms : list move) (c : process A) (i : nat) (a : A) (l : link) :
  world_ok w0 ->
  (forall i p, ps !! i = Some p -> confined (own i) p /\
    exists s : session, safe client_cell None (fun w d _ _ a => tpost i w d a) w0 d0 s None p) ->
  (forall cl j d, Outside (Begin cl j d) ∈ ms -> admits cl j d) ->
  (reliable = true -> calm_exec ms (start_process (start_net w0) d0 ps) = true) ->
  process_exec ms (start_process (start_net w0) d0 ps) = Some c -> p_threads c !! i = Some (Ret a, l) ->
  exists view, agree (own i) view (p_disk c) /\ tpost i (nodes (p_net c)) view a.
Proof.
  intros Hok Hps Hadm Hcalm He Hi.
  assert (threads_ok own (net_ok w0 post)
    (fun w i d p l => exists s o, safe client_cell None (fun w d _ _ a => tpost i w d a) w d s o p /\ link_ok w o l)
    d0 (length ps) c) as [_ _ _ Hth].
  { apply (process_rule own Hdis _ _ world_le (fun ch => forall cl j d, ch = Begin cl j d -> admits cl j d) reliable) with (start_net w0) ms.
    - intros w w' j d p l' Hle (s & o & Hs & Hl). exists s, o. split; [|by eapply link_ok_le].
      eapply safe_le; [|done|done]. intros w1 w2 d1 s1 o1 r1 Hw. by apply Htpost.
    - intros ch s s' Hch Hq Hdo Hs. split; [by eapply (net_do_ok Hstorage Hmetadata)|by eapply net_do_le].
    - intros j fail s d p l' r Hr Hq Hs (t & o & Hp & Hl).
      assert (steady fail (is_read p)) as Hst by (intros -> Hrel; by rewrite Hq in Hrel).
      destruct (act_ok Hstorage Hmetadata _ _ _ _ _ _ _ _ _ _ _ t o [] [] _ Hr Hst (ok_world _ _ _ Hs) Hp Hl eq_refl)
        as (Hle & Hok' & Hlost & t' & o' & Hp' & Hl' & _).
      split_and!; [by apply net_ok_moved|done|by exists t', o'].
    - intros j n fail s d p l' w' h' l2 lost Hdo Hq Hs (t & o & Hp & Hl).
      destruct (link_do_ok Hstorage Hmetadata _ _ _ _ _ _ _ _ _ _ Hdo Hq (ok_world _ _ _ Hs) Hl) as (Hle & Hok' & Hlost & Hl').
      split_and!; [by apply net_ok_moved|done|]. exists t, o. split; [|done].
      eapply safe_le; [|done|done]. intros w1 w2 d1 s1 o1 r1 Hw. by apply Htpost.
    - split; simpl; [reflexivity|done|constructor].
    - intros j p Hj. destruct (Hps j p Hj) as (Hl & s & Hs). split; [done|]. by exists s, None.
    - intros ch Hin cl j d ->. by apply Hadm.
    - exact Hcalm.
    - exact He. }
  destruct (Hth i _ l Hi) as (_ & view & Hv & s & o & Hs & _). by exists view.
Qed.
End Contracts.

(** ** A thread does what its program does alone *)

Definition alone {A : Type} (ps : list (io fs A)) (d0 : fs) (_ : world) (i : nat) (d : fs) (p : io fs A) (_ : link) : Prop :=
  exists p0 ans, ps !! i = Some p0 /\ forall rest, (run p0 d0 (ans ++ rest)).1 = (run p d rest).1.

Lemma process_alone {A : Type} (own : nat -> string -> Prop) (ps : list (io fs A)) s d0 ms c :
  (forall i j f, i <> j -> own i f -> own j f -> False) ->
  (forall i p, ps !! i = Some p -> confined (own i) p) ->
  process_exec ms (start_process s d0 ps) = Some c ->
  threads_ok own (fun _ => True) (alone ps d0) d0 (length ps) c.
Proof.
  intros Hdis Hlocal He. apply (process_rule own Hdis _ _ (fun _ _ => True) (fun _ => True) false) with s ms; try done.
  - intros i fail s1 d p l r Hr _ _ (p0 & ans & Hp & Hrun). split_and!; [done|done|].
    destruct (act_run _ _ _ _ _ _ _ Hr) as (more & Hmore). exists p0, (ans ++ more). split; [done|].
    intros rest. by rewrite <- app_assoc, Hrun, Hmore.
  - intros i p Hp. split; [by apply Hlocal|]. by exists p, [].
Qed.

(** ** Properties *)

(** Threads with files of their own do not disturb each other: in every configuration
    that any schedule of a program's threads on one disk reaches, beside anything else the
    network and its nodes do, the result of a thread that has ended is that of its program
    run alone on the disk as it was at the start, against some answers of the network, and
    its files on the shared disk are those this run leaves; and no file but the threads'
    has changed. *)
Theorem threads_run_alone {A : Type} (own : nat -> string -> Prop) (ps : list (io fs A)) s d0 ms c :
  (forall i j f, i <> j -> own i f -> own j f -> False) ->
  (forall i p, ps !! i = Some p -> confined (own i) p) ->
  process_exec ms (start_process s d0 ps) = Some c ->
  only (fun f => exists i, (i < length ps)%nat /\ own i f) d0 (p_disk c) /\
  forall i a l, p_threads c !! i = Some (Ret a, l) ->
    exists p ans d, ps !! i = Some p /\ (run p d0 ans).1 = (a, d, []) /\ agree (own i) d (p_disk c).
Proof.
  intros Hdis Hlocal He. destruct (process_alone own ps s d0 ms c Hdis Hlocal He) as [_ Hdisk _ Hth].
  split; [done|]. intros i a l Hi. destruct (Hth i _ l Hi) as (_ & view & Hv & p0 & ans & Hp & Hrun).
  exists p0, ans, view. split_and!; [done| |done]. rewrite <- (app_nil_r ans), Hrun. done.
Qed.
