(* ===== verification/Overlap.v ===== *)
(** * Threads that overlap: the second system test and the experiments

    [SystemTests.v] runs the threads of [testConcurrentClients] one after the other.  Here
    they are the threads of one process ([Threads.v]) on a freshly started cluster, and
    take their steps in any order, beside failing calls, health checks, handlers and the
    clients of other programs that handle the same files.  The threads of the experiments
    of [Performance.v] are treated in the same way.

    The theorems: whenever a thread of the test has made its comparison, the verdict is
    right - no failure exactly when its output file holds its own data, and otherwise there
    is no output file at all; when all have ended without an exception the disk is as it
    was before the test; and [runWorkload], which is told what the network answers to each
    thread, gives the result of every interleaving of the threads for some such answers. *)
From S2P Require Import Prelude IoStream Doubles Sha256 Chunks ConsistentHash Wire Proc Client Records Cluster Network Sessions Integrity.
From S2P Require Import Apps LocalCluster Performance SystemTests Threads.
From S2P Require StorageNode MetadataNode.

#[local] Open Scope Z_scope.

(** What a client may be started for: the file of a thread, with its data. *)
Definition thread_job (cl : Client) (j : job) (d : fs) : Prop :=
  cl = compiled_client /\ exists i, i ∈ seqZ 0 clientCount /\ files d !! thread_file i = Some (thread_data i) /\
    (j = Upload (thread_file i) \/ j = Download (thread_file i) (thread_out i)).

(** The threads, and the files of thread [i]. *)
Definition threads : list (io fs (option bool)) := concurrent_check <$> seqZ 0 clientCount.

Definition whole_threads : list (io fs (option bool)) := concurrent_client <$> seqZ 0 clientCount.

Definition thread_files (i : Z) (f : string) : Prop :=
  i ∈ seqZ 0 clientCount /\ (f = thread_file i \/ f = thread_out i).

Definition own (i : nat) : string -> Prop := thread_files (Z.of_nat i).

(** What a verdict means. *)
Definition verdict_left (i : Z) (d : fs) (o : option bool) : Prop :=
  match o with
  | Some true => files d !! thread_out i = Some (thread_data i)
  | Some false => files d !! thread_out i = None
  | None => True
  end.

(** ** The cluster that was started *)

Lemma started_nodes a n : startCluster ∅ !! a = Some n -> (a, n) ∈ cluster_nodes 2.
Proof.
  change (startCluster ∅) with (startCluster_of 2 ∅). rewrite startCluster_all. intros Hn.
  destruct (decide (a ∈ (cluster_nodes 2).*1)) as [([b x] & -> & Hin)%list_elem_of_fmap|Hno].
  - rewrite (start_all_lookup _ _ _ _ (cluster_nodes_NoDup 2 ltac:(done)) Hin) in Hn by apply lookup_empty.
    by injection Hn as <-.
  - by rewrite start_all_others in Hn.
Qed.

Lemma started_fresh : fresh (startCluster ∅).
Proof.
  intros a n Hn%started_nodes. revert Hn. apply (Forall_forall (fun x => fresh_node x.1 x.2) (cluster_nodes 2)).
  unfold cluster_nodes. apply Forall_app. split; [repeat constructor; done|]. repeat constructor; done.
Qed.

Lemma started_wired : wired (startCluster ∅) compiled_client.
Proof.
  assert (Forall (fun x => x.1.2 < 9000 <-> is_storage x.2) (cluster_nodes 2)) as Hkind.
  { repeat constructor; simpl; lia. }
  rewrite Forall_forall in Hkind. split.
  - apply new_client_wf.
  - intros addr a n Hin%new_client_nodes Ha Hn%started_nodes. apply (Hkind _ Hn).
    assert (target <$> storageNodes = [Some (localhost, 8001); Some (localhost, 8002)]) as E by by vm_compute.
    apply (list_elem_of_fmap_2 target) in Hin. rewrite Ha, E, !elem_of_cons, elem_of_nil in Hin. simpl.
    destruct Hin as [[= ->]|[[= ->]|[]]]; simpl; lia.
  - intros addr a n Hin Ha Hn%started_nodes Hst. apply (Hkind _ Hn) in Hst. change (addr ∈ metadataNodes) in Hin.
    assert (target <$> metadataNodes = [Some (localhost, 9001); Some (localhost, 9002); Some (localhost, 9003)])
      as E by by vm_compute.
    apply (list_elem_of_fmap_2 target) in Hin. rewrite Ha, E, !elem_of_cons, elem_of_nil in Hin. simpl in Hst.
    destruct Hin as [[= ->]|[[= ->]|[[= ->]|[]]]]; simpl in Hst; lia.
Qed.

(** ** The files of the threads *)

Lemma thread_names i j f : thread_files i f -> thread_files j f -> i = j.
Proof.
  intros [Hi Hf] [Hj Hg].
  assert (Forall (fun i => Forall (fun j => i = j \/ thread_file i <> thread_file j /\ thread_file i <> thread_out j /\
    thread_out i <> thread_file j /\ thread_out i <> thread_out j) (seqZ 0 clientCount)) (seqZ 0 clientCount)) as H.
  { apply (bool_decide_unpack _). by vm_compute. }
  rewrite Forall_forall in H. specialize (H i Hi). rewrite Forall_forall in H. specialize (H j Hj).
  clear Hi Hj. destruct H as [?|(H1 & H2 & H3 & H4)]; [done|]. destruct Hf as [->| ->], Hg; congruence.
Qed.

Lemma own_disjoint i j f : i <> j -> own i f -> own j f -> False.
Proof. intros Hne Hi Hj. pose proof (thread_names _ _ _ Hi Hj). lia. Qed.

Lemma thread_at {A : Type} (prog : Z -> io fs A) i p :
  (prog <$> seqZ 0 clientCount) !! i = Some p -> p = prog (Z.of_nat i) /\ Z.of_nat i ∈ seqZ 0 clientCount.
Proof.
  intros (k & -> & Hk)%list_lookup_fmap_Some. pose proof (list_elem_of_lookup_2 _ _ _ Hk) as Hin.
  apply lookup_seqZ in Hk as [Hk _]. rewrite Z.add_0_l in Hk. by subst k.
Qed.

Lemma own_files i : Z.of_nat i ∈ seqZ 0 clientCount -> own i (thread_file (Z.of_nat i)) /\ own i (thread_out (Z.of_nat i)).
Proof. intros Hi. split; (split; [exact Hi|]); auto. Qed.

(** No two of the files have the same digest. *)
Lemma thread_digests i j :
  i ∈ seqZ 0 clientCount -> j ∈ seqZ 0 clientCount -> sha256 (thread_data i) = sha256 (thread_data j) -> i = j.
Proof.
  intros Hi Hj E. assert (NoDup ((fun k => sha256 (thread_data k)) <$> seqZ 0 clientCount)) as Hnd.
  { apply (bool_decide_unpack _). by vm_compute. }
  apply list_elem_of_lookup in Hi as [k Hk], Hj as [l Hl].
  assert (k = l) as ->; [|congruence].
  eapply (NoDup_lookup _ _ _ (sha256 (thread_data i)) Hnd); rewrite list_lookup_fmap, ?Hk, ?Hl; simpl; by rewrite ?E.
Qed.

Lemma thread_jobs_honest cl j d : thread_job cl j d -> honest_job j d.
Proof.
  intros (-> & i & Hi & Hd & Hj). destruct (thread_facts i Hi) as ((Htok & Hs & _) & _ & Hnum & _).
  destruct Hj as [->| ->]; [|done]. split; [by rewrite base_name_plain|]. intros content. rewrite Hd. by intros [= <-].
Qed.

Lemma threads_given path content :
  given thread_job path content -> exists i, i ∈ seqZ 0 clientCount /\ path = thread_file i /\ content = thread_data i.
Proof.
  intros (cl & d & (_ & i & Hi & Hd' & [[= ->]|?]) & Hd); [|done].
  exists i. split_and!; [done|done|]. rewrite Hd' in Hd. by injection Hd.
Qed.

Lemma threads_tell : chunks_tell thread_job.
Proof.
  assert (forall x, Sessions.is_chunk (Uploads := uploads thread_job) x -> exists i, i ∈ seqZ 0 clientCount /\ x = thread_data i) as H.
  { intros x (path & content & (i & Hi & -> & ->)%threads_given & Hx). exists i. split; [done|].
    destruct (thread_facts i Hi) as (_ & _ & _ & Hlen). pose proof (pieces_file (thread_data i)) as E.
    destruct (pieces _ _) as [|y [|]]; try done. apply list_elem_of_singleton in Hx as ->.
    simpl in E. by rewrite app_nil_r in E. }
  intros x y (i & Hi & ->)%H (j & Hj & ->)%H E. by rewrite (thread_digests i j Hi Hj E).
Qed.

(** The download of a thread, when it succeeds. *)
Lemma thread_downloads i d d' :
  i ∈ seqZ 0 clientCount -> download_left thread_job (thread_file i) (thread_out i) d d' ->
  d' = FS (<[thread_out i := thread_data i]> (files d)) (creatable d).
Proof.
  intros Hi (path & content & datas & Hg & Hname & Hsame & ->).
  rewrite (same_digests_same _ _ _ _ threads_tell Hg Hsame). destruct (threads_given path content Hg) as (j & Hj & -> & ->).
  destruct (thread_facts j Hj) as ((_ & Hsj & _) & _). rewrite (base_name_plain _ Hsj) in Hname.
  rewrite (thread_names j i (thread_file j)); [done| |]; split; auto.
Qed.

(** ** A thread keeps the contract *)

Abbreviation csafe := (safe (H := node_contract (U := uploads thread_job)) client_cell None).

(** The comparison of a file with another, or with none. *)
Lemma same_cid_safe i d w (s : session_state) :
  i ∈ seqZ 0 clientCount -> files d !! thread_file i = Some (thread_data i) ->
  (files d !! thread_out i = None \/ files d !! thread_out i = Some (thread_data i)) ->
  csafe (fun _ d _ _ o => verdict_left i d o) w d s None (same_cid (thread_file i) (thread_out i)).
Proof.
  intros Hi Hd Ho. destruct (thread_testable i Hi) as (Hne & Hnum & _).
  unfold same_cid, and_then, cid. cbn [reads mbind io_mbind io_bind].
  apply client_step. intros w1 _ _. rewrite (computeCID_eq _ _ _ Hd Hnum), (bool_decide_eq_false_2 _ Hne).
  cbn [mret io_ret io_bind]. apply client_step. intros w2 _ _. destruct Ho as [Ho|Ho].
  - assert (computeCID d (thread_out i) = Some EmptyString) as ->.
    { unfold computeCID, splitFileIntoChunks. by rewrite Ho. }
    cbn [mret io_ret io_bind safe]. generalize (root_hash_nonempty (sha256 <$> pieces (read_fuel (thread_data i)) (thread_data i))).
    generalize (computeRootHash (sha256 <$> pieces (read_fuel (thread_data i)) (thread_data i))). intros root Hroot.
    rewrite bool_decide_eq_false_2; [exact Ho|congruence].
  - rewrite (computeCID_eq _ _ _ Ho Hnum), (bool_decide_eq_false_2 _ Hne).
    cbn [mret io_ret io_bind safe]. by rewrite bool_decide_eq_true_2.
Qed.

Lemma concurrent_check_safe i d w (s : session_state) :
  i ∈ seqZ 0 clientCount -> creatable d (thread_file i) = true -> files d !! thread_out i = None ->
  world_le (H := node_contract (U := uploads thread_job)) (startCluster ∅) w ->
  csafe (fun _ d _ _ o => verdict_left i d o) w d s None (concurrent_check i).
Proof.
  intros Hi Hcr Ho Hle. destruct (thread_facts i Hi) as ((Htok & _ & Hneq) & _).
  unfold concurrent_check, write_file. cbn [modify mbind io_mbind io_bind]. apply client_step. rewrite Hcr.
  set (d1 := FS (<[thread_file i := thread_data i]> (files d)) (creatable d)). intros w1 Hle1 _.
  assert (files d1 !! thread_file i = Some (thread_data i)) as Hd1 by apply lookup_insert_eq.
  assert (files d1 !! thread_out i = None) as Ho1.
  { unfold d1. cbn [files]. by rewrite lookup_insert_ne. }
  clearbody d1. cbn [mret io_ret io_bind]. change (new_client storageNodes metadataNodes) with compiled_client.
  unfold and_then at 1. apply safe_bind. eapply safe_mono; [|eapply (uploadFile_safe thread_job thread_jobs_honest)].
  2: apply started_wired. 2: by etransitivity.
  2: { split; [done|]. exists i. auto. }
  intros w2 d2 s2 o2 [u|] Hle2 (-> & -> & _); [|done].
  unfold and_then at 1. apply safe_bind. eapply safe_mono; [|eapply (downloadFile_safe thread_job thread_jobs_honest)].
  2: apply started_wired. 2: by do 2 (etransitivity; [eassumption|]).
  intros w3 d3 s3 o3 [r|] Hle3 (-> & Hno & Hyes); [|done].
  assert (Some r = Some Reconstructed \/ Some r <> Some Reconstructed) as [E|E] by (destruct r; auto).
  - rewrite (thread_downloads i _ _ Hi (Hyes E Htok)). apply same_cid_safe; cbn [files]; [done| |].
    + by rewrite lookup_insert_ne.
    + right. apply lookup_insert_eq.
  - rewrite (Hno E). apply same_cid_safe; auto.
Qed.

(** ** The threads are confined *)

Lemma concurrent_check_local i :
  Z.of_nat i ∈ seqZ 0 clientCount -> confined (own i) (concurrent_check (Z.of_nat i)).
Proof.
  intros Hi. destruct (own_files i Hi) as [Hf Ho]. unfold concurrent_check.
  apply confined_bind; [by apply confined_write_file|]. intros _.
  apply confined_and_then; [by apply confined_uploadFile|]. intros _.
  apply confined_and_then; [by apply confined_downloadFile|]. intros _.
  unfold same_cid, cid. apply confined_and_then; [|intros c1; apply confined_and_then; [|done]].
  - apply confined_reads. intros d d' Hd. unfold computeCID, splitFileIntoChunks. by destruct (Hd _ Hf) as [-> _].
  - apply confined_reads. intros d d' Hd. unfold computeCID, splitFileIntoChunks. by destruct (Hd _ Ho) as [-> _].
Qed.

Lemma concurrent_client_local i :
  Z.of_nat i ∈ seqZ 0 clientCount -> confined (own i) (concurrent_client (Z.of_nat i)).
Proof.
  intros Hi. destruct (own_files i Hi) as [Hf Ho]. apply confined_and_then; [by apply concurrent_check_local|]. intros pass.
  apply confined_bind; [by apply confined_remove_file|]. intros _. apply confined_bind; [by apply confined_remove_file|done].
Qed.

Lemma threads_local i p : threads !! i = Some p -> confined (own i) p.
Proof. intros [-> Hi]%thread_at. by apply concurrent_check_local. Qed.

Lemma whole_threads_local i p : whole_threads !! i = Some p -> confined (own i) p.
Proof. intros [-> Hi]%thread_at. by apply concurrent_client_local. Qed.

(** A thread that ends without an exception has removed its files. *)
Lemma concurrent_client_cleans i d ans b d' l' :
  (run (concurrent_client i) d ans).1 = (Some b, d', l') ->
  files d' !! thread_file i = None /\ files d' !! thread_out i = None.
Proof.
  unfold concurrent_client. rewrite run_and_then.
  destruct (run (concurrent_check i) d ans) as [[[[pass|] d1] l1] tr]; [|done].
  unfold remove_file. cbn. intros [= _ <- _]. cbn [files]. split; [|apply lookup_delete_eq].
  destruct (decide (thread_file i = thread_out i)) as [->|Hne]; [apply lookup_delete_eq|].
  rewrite lookup_delete_ne by done. apply lookup_delete_eq.
Qed.

(** ** The threads of the performance experiments *)

Section Workers.
Context (data : bytes) (n : Z) (Hn : n <= INT_MAX).

Abbreviation work_file i := ("perf_test_" +:+ to_string i +:+ ".bin").
Abbreviation work_out i := ("perf_out_" +:+ to_string i +:+ ".bin").

Definition work_files (i : nat) (f : string) : Prop :=
  Z.of_nat i ∈ seqZ 0 n /\ (f = work_file (Z.of_nat i) \/ f = work_out (Z.of_nat i)).

Lemma bytes_of_string_app a b : bytes_of_string (a +:+ b) = bytes_of_string a ++ bytes_of_string b.
Proof.
  induction a as [|c a IH]; [done|].
  change (byte_of_ascii c :: bytes_of_string (a +:+ b) = byte_of_ascii c :: bytes_of_string a ++ bytes_of_string b).
  by rewrite IH.
Qed.

Lemma numbered_names i j (suffix : string) :
  i ∈ seqZ 0 n -> j ∈ seqZ 0 n -> to_string i +:+ suffix = to_string j +:+ suffix -> i = j.
Proof.
  intros Hi%elem_of_seqZ Hj%elem_of_seqZ E. apply (f_equal bytes_of_string) in E. rewrite !bytes_of_string_app in E.
  apply app_inv_tail, (f_equal string_of_bytes) in E. rewrite !string_bytes_id in E.
  apply (f_equal stoi) in E. rewrite !stoi_to_string in E by (unfold in_int, INT_MIN, INT_MAX in *; lia). congruence.
Qed.

Lemma work_files_disjoint i j f : i <> j -> work_files i f -> work_files j f -> False.
Proof.
  intros Hne [Hi Hf] [Hj Hg]. destruct Hf as [->| ->], Hg as [E|E]; try discriminate E;
    simpl in E; simplify_eq; apply numbered_names in E; try done; lia.
Qed.

Lemma worker_local i p : (worker data <$> seqZ 0 n) !! i = Some p -> confined (work_files i) p.
Proof.
  intros (k & -> & Hk)%list_lookup_fmap_Some. pose proof (list_elem_of_lookup_2 _ _ _ Hk) as Hin.
  apply lookup_seqZ in Hk as [-> Hi]. rewrite Z.add_0_l in *.
  assert (work_files i (work_file (Z.of_nat i)) /\ work_files i (work_out (Z.of_nat i))) as [Hf Ho].
  { split; (split; [exact Hin|]); auto. }
  unfold worker. apply confined_bind; [by apply confined_write_file|]. intros ?.
  apply confined_and_then; [by apply confined_uploadFile|]. intros ?.
  apply confined_and_then; [by apply confined_downloadFile|]. intros ?.
  apply confined_bind; [by apply confined_remove_file|]. intros _. apply confined_bind; [by apply confined_remove_file|done].
Qed.
End Workers.

(** What the threads of an experiment have left, with the times they read. *)
Definition measured (clock : Z -> upload_clock * download_clock)
    (ths : list (io fs (option (upload_result * download_result)) * link)) : list (option (Z * Z)) :=
  imap (fun i t => match t.1 with Ret (Some r) => Some (latencies r (clock (Z.of_nat i))) | _ => None end) ths.

Lemma finite_choice {A : Type} (P : nat -> A -> Prop) (k : nat) :
  inhabited A -> (forall i, (i < k)%nat -> exists a, P i a) -> exists g, forall i, (i < k)%nat -> P i (g i).
Proof.
  intros [a0]. induction k as [|k IH]; intros H; [exists (fun _ => a0); lia|].
  destruct IH as [g Hg]; [auto|]. destruct (H k) as [a Ha]; [lia|].
  exists (fun i => if decide (i = k) then a else g i). intros i Hi. case_decide; [by subst|]. apply Hg. lia.
Qed.

(** ** Properties *)

(** C9. The ten clients of the second system test may overlap on their one disk: in every
    configuration that any schedule of their steps on a freshly started cluster reaches,
    with calls failing, handlers and health checks in any order, and clients of other
    programs that handle the same files, a thread that has come to its verdict is right:
    it finds no failure exactly when its output file holds its own data, and it finds one
    only when its download left no file. *)
Theorem overlapping_threads_agree ms d0 c i o l :
  (forall i, i ∈ seqZ 0 clientCount -> creatable d0 (thread_file i) = true /\ files d0 !! thread_out i = None) ->
  (forall cl j d, Outside (Begin cl j d) ∈ ms -> thread_job cl j d) ->
  process_exec ms (start_process (start_net (startCluster ∅)) d0 threads) = Some c ->
  p_threads c !! i = Some (Ret o, l) -> verdict_left (Z.of_nat i) (p_disk c) o.
Proof.
  intros Hd0 Hout He Hi.
  destruct (process_sound storage_handler_ok metadata_handler_ok (startCluster ∅) thread_job (finished thread_job)
    health_check_ok (finished_le thread_job) (fun a n _ => honest_nil n)
    (fun cl j d w s Hb Hle _ => job_safe thread_job thread_jobs_honest (startCluster ∅) cl j d w s
       (match Hb with conj E _ => eq_ind_r (wired (startCluster ∅)) started_wired E end) Hb Hle)
    own (fun i _ d o => verdict_left (Z.of_nat i) d o) own_disjoint (fun _ _ _ _ _ _ H => H)
    d0 threads ms c i o l (fresh_ok _ started_fresh)) as (view & Hv & Hleft); [|done..|].
  - intros j p Hp. split; [by apply threads_local|]. apply thread_at in Hp as [-> Hj].
    exists SIdle. destruct (Hd0 _ Hj). apply concurrent_check_safe; [done..|reflexivity].
  - assert (Z.of_nat i ∈ seqZ 0 clientCount) as Hin.
    { destruct (process_alone own threads _ d0 ms c own_disjoint threads_local He) as [_ _ _ Hth].
      destruct (Hth _ _ _ Hi) as (_ & _ & _ & p0 & _ & Hp & _). by apply thread_at in Hp as [_ ?]. }
    destruct (Hv _ (proj2 (own_files i Hin))) as [E _]. destruct o as [[]|]; simpl in *; congruence.
Qed.

(** Threads 3 and 4: the first has stored its chunk on one node when the second starts; it
    goes on when the upload of the second is done, and compares. *)
Definition overlapping : list move :=
  turns_of [(1, 3, 0); (2, 3, 0); (1, 3, 1); (1, 3, 0); (6, 3, 1); (2, 3, 0); (11, 3, 1); (3, 3, 0); (1, 3, 1);
            (1, 3, 0); (6, 3, 1); (2, 3, 0); (10, 3, 1); (1, 4, 0); (2, 4, 0); (1, 4, 1); (1, 4, 0); (6, 4, 1);
            (2, 4, 0); (11, 4, 1); (3, 4, 0); (1, 4, 1); (1, 4, 0); (6, 4, 1); (2, 4, 0); (11, 4, 1); (3, 4, 0);
            (1, 4, 1); (2, 4, 0); (12, 4, 1); (1, 4, 2); (1, 4, 1); (12, 4, 2); (1, 4, 3); (1, 4, 2);
            (12, 4, 3); (7, 4, 2); (7, 4, 1); (2, 4, 0); (1, 3, 1); (3, 3, 0); (1, 3, 1); (2, 3, 0); (12, 3, 1);
            (1, 3, 2); (1, 3, 1); (12, 3, 2); (1, 3, 3); (1, 3, 2); (12, 3, 3); (7, 3, 2); (7, 3, 1); (2, 3, 0);
            (1, 3, 0); (1, 3, 1); (1, 3, 0); (12, 3, 1); (3, 3, 0); (1, 3, 1); (1, 3, 0); (14, 3, 1); (4, 3, 0);
            (2, 3, 0)]%nat.

Definition empty_disk : fs := FS ∅ (fun _ => true).

Lemma overlapping_threads_agree_witness :
  exists c l, process_exec overlapping (start_process (start_net (startCluster ∅)) empty_disk threads) = Some c /\
    p_threads c !! 3%nat = Some (Ret (Some true), l) /\ files (p_disk c) !! thread_out 3 = Some (thread_data 3).
Proof.
  assert ((fun c => p_threads c !! 3%nat) <$>
    process_exec overlapping (start_process (start_net (startCluster ∅)) empty_disk threads) =
    Some (Some (Ret (Some true), Hang))) as (c & He & Hi)%fmap_Some by (vm_compute; reflexivity).
  exists c, Hang. split; [exact He|]. split; [exact (eq_sym Hi)|].
  apply (overlapping_threads_agree overlapping empty_disk c 3 (Some true) Hang).
  - intros i _. split; [reflexivity|apply lookup_empty].
  - intros cl j d Hin. destruct (turns_inside _ _ Hin).
  - exact He.
  - exact (eq_sym Hi).
Defined.

(** The second system test leaves nothing behind: when all ten threads have ended without
    an exception, in any schedule on one disk and whatever the network did, the disk is as
    it was before, if none of their files was on it. *)
Theorem overlapping_threads_clean_up ms s d0 c :
  (forall i f, thread_files i f -> files d0 !! f = None) ->
  process_exec ms (start_process s d0 whole_threads) = Some c ->
  (forall i p l, p_threads c !! i = Some (p, l) -> exists pass, p = Ret (Some pass)) -> p_disk c = d0.
Proof.
  intros Hd0 He Hend.
  destruct (process_alone own whole_threads s d0 ms c own_disjoint whole_threads_local He) as [_ [Hcr Hdisk] Hcount Hth].
  assert (forall i f, thread_files i f -> files (p_disk c) !! f = None) as Hgone.
  { intros i f Hf. pose proof Hf as [Hi _]. pose proof Hi as Hz. apply elem_of_seqZ in Hz.
    destruct (lookup_lt_is_Some_2 (p_threads c) (Z.to_nat i)) as [[p l] Hp].
    { rewrite Hcount. unfold whole_threads. rewrite length_fmap, length_seqZ. unfold clientCount in *. lia. }
    destruct (Hend _ _ _ Hp) as [pass ->]. destruct (Hth _ _ _ Hp) as (_ & view & Hv & p0 & ans & Hp0 & Hrun).
    apply thread_at in Hp0 as [-> _]. specialize (Hrun []). rewrite app_nil_r in Hrun.
    rewrite Z2Nat.id in Hrun by lia. apply concurrent_client_cleans in Hrun as [H1 H2].
    destruct (Hv f) as [<- _]. { unfold own. by rewrite Z2Nat.id by lia. }
    by destruct Hf as [_ [->| ->]]. }
  destruct c as [n [fs1 cr1] ths], d0 as [fs0 cr0]. cbn in *. subst cr1. f_equal. apply map_eq. intros f.
  destruct (decide (Exists (fun i => f = thread_file i \/ f = thread_out i) (seqZ 0 clientCount))) as [Hyes|Hno].
  - apply Exists_exists in Hyes as (i & Hi & Hf). assert (thread_files i f) as Hown by by split.
    by rewrite (Hgone i f Hown), (Hd0 i f Hown).
  - apply Hdisk. intros (i & Hi & Hin & Hf). apply Hno, Exists_exists. by exists (Z.of_nat i).
Qed.

(** No file can be created and no call succeeds; the threads take turns. *)
Definition round_robin (k rounds : nat) : list move :=
  concat (replicate rounds ((fun i => Turn i O true) <$> seq O k)).

Lemma round_robin_inside k rounds ch : ~ Outside ch ∈ round_robin k rounds.
Proof.
  unfold round_robin. rewrite list_elem_of_In, in_concat.
  intros (x & [-> _]%list_elem_of_In%elem_of_replicate & (i & E & _)%list_elem_of_In%list_elem_of_fmap). discriminate E.
Qed.

Lemma overlapping_threads_clean_up_witness :
  let full_disk := FS {["notes" := bytes_of_string "mine"]} (fun _ => false) in
  exists c, process_exec (round_robin 10 9) (start_process (start_net ∅) full_disk whole_threads) = Some c /\
    p_disk c = full_disk.
Proof.
  intros d0.
  assert (p_threads <$> process_exec (round_robin 10 9) (start_process (start_net ∅) d0 whole_threads) =
    Some (replicate 10 (Ret (Some true), Hang))) as (c & He & Ht)%fmap_Some by (vm_compute; reflexivity).
  exists c. split; [exact He|].
  apply (overlapping_threads_clean_up (round_robin 10 9) (start_net ∅) d0 c).
  - intros i f [Hi Hf].
    assert (Forall (fun i => "notes" <> thread_file i /\ "notes" <> thread_out i) (seqZ 0 clientCount)) as H.
    { clear. apply (bool_decide_unpack _). vm_compute. exact I. }
    rewrite Forall_forall in H. destruct (H i Hi) as [H1 H2]. clear -Hf H1 H2.
    apply lookup_singleton_ne. intros <-. by destruct Hf.
  - exact He.
  - intros i p l Hi. rewrite <- Ht in Hi. apply lookup_replicate in Hi as [[= -> ->] _]. by exists true.
Defined.

(** What [runWorkload] is told of the network is no restriction: for every experiment whose
    threads run on one disk, in any schedule and beside anything else the network does,
    there are answers with which [runWorkload] gives the result that the threads have
    measured when all of them have ended. *)
Theorem workload_of_threads dis n size d s ms c clock :
  0 <= n <= INT_MAX ->
  process_exec ms (start_process s d (worker (random_data dis size) <$> seqZ 0 n)) = Some c ->
  (forall i p l, p_threads c !! i = Some (p, l) -> exists o, p = Ret o) ->
  exists net, runWorkload dis n size d net clock = experiment_result n (measured clock (p_threads c)).
Proof.
  intros Hn He Hend. set (data := random_data dis size) in *.
  destruct (process_alone (work_files n) _ s d ms c (work_files_disjoint n (proj2 Hn)) (worker_local data n) He)
    as [_ _ Hcount Hth].
  rewrite length_fmap, length_seqZ in Hcount.
  destruct (finite_choice (fun i ans => forall o l, p_threads c !! i = Some (Ret o, l) ->
      exists d', (run (worker data (Z.of_nat i)) d ans).1 = (o, d', [])) (Z.to_nat n)) as [g Hg]; [exact (inhabits [])| |].
  { intros i Hi. destruct (lookup_lt_is_Some_2 (p_threads c) i ltac:(lia)) as [[p l] Hp].
    destruct (Hend _ _ _ Hp) as [o ->]. destruct (Hth _ _ _ Hp) as (_ & view & _ & p0 & ans & Hp0 & Hrun).
    apply list_lookup_fmap_Some in Hp0 as (k & -> & Hk). apply lookup_seqZ in Hk as [-> _]. rewrite Z.add_0_l in Hrun.
    exists ans. intros o' l' Hp'. rewrite Hp in Hp'. injection Hp' as <- <-. exists view.
    rewrite <- (app_nil_r ans), Hrun. done. }
  exists (fun z => g (Z.to_nat z)). unfold runWorkload. fold data. f_equal. apply list_eq. intros i. unfold measured.
  rewrite list_lookup_fmap, list_lookup_imap. destruct (decide (i < Z.to_nat n)%nat) as [Hi|Hi].
  - rewrite lookup_seqZ_lt by lia. destruct (lookup_lt_is_Some_2 (p_threads c) i ltac:(lia)) as [[p l] Hp].
    destruct (Hend _ _ _ Hp) as [o ->]. destruct (Hg i Hi o l Hp) as [d' Hrun]. rewrite Hp. simpl. f_equal.
    unfold worker_outcome. rewrite Z.add_0_l, Nat2Z.id.
    destruct (run (worker data (Z.of_nat i)) d (g i)) as [[[o' d1] l1] tr]. cbn in Hrun. simplify_eq. by destruct o.
  - rewrite lookup_seqZ_ge by lia. by rewrite (proj2 (lookup_ge_None (p_threads c) i)) by lia.
Qed.

(** No call of two threads succeeds, and the times they read are not used. *)
Lemma workload_of_threads_witness :
  exists c, process_exec (round_robin 2 7) (start_process (start_net ∅) empty_disk
      (worker (random_data (fun _ => Byte.x00) 0) <$> seqZ 0 2)) = Some c /\
    exists net, runWorkload (fun _ => Byte.x00) 2 0 empty_disk net (fun i => (UploadClock i 0 0 0 0 7, DownloadClock i 9)) =
      Result (double_of 0) (double_of 0) (double_of 100).
Proof.
  assert (p_threads <$> process_exec (round_robin 2 7) (start_process (start_net ∅) empty_disk
      (worker (random_data (fun _ => Byte.x00) 0) <$> seqZ 0 2)) =
      Some (replicate 2 (Ret (Some (EmptyOrMissing, NotInMetadata)), Hang)))
    as (c & He & Ht)%fmap_Some by (vm_compute; reflexivity).
  exists c. split; [exact He|].
  assert (experiment_result 2 (measured (fun i => (UploadClock i 0 0 0 0 7, DownloadClock i 9)) (p_threads c)) =
    Result (double_of 0) (double_of 0) (double_of 100)) as <-.
  { rewrite <- Ht. vm_compute. reflexivity. }
  apply (workload_of_threads (fun _ => Byte.x00) 2 0 empty_disk (start_net ∅) (round_robin 2 7) c
    (fun i => (UploadClock i 0 0 0 0 7, DownloadClock i 9))).
  - clear. unfold INT_MAX. lia.
  - exact He.
  - intros i p l Hi. rewrite <- Ht in Hi. apply lookup_replicate in Hi as [[= -> ->] _].
    by exists (Some (EmptyOrMissing, NotInMetadata)).
Defined.
