(* ===== verification/Calm.v ===== *)
(** * Programs with threads when no call fails

    [Overlap.v] says what is right whatever the network does.  Here no call of a client or
    of a node fails ([calm_exec]), and the contract of [Reliable.v] holds: clients that
    upload a file and download it again on any chain of living nodes, the threads of
    [testConcurrentClients] and the threads of an experiment have succeeded when they come
    to their end, however their steps overlap and whenever the nodes check each other. *)
From S2P Require Import Prelude IoStream Doubles Sha256 Chunks ConsistentHash Wire Proc Client Records Cluster Network Sessions Integrity Reliable.
From S2P Require Import Apps Replication LocalCluster Performance SystemTests Threads Overlap.
From S2P Require StorageNode MetadataNode.

#[local] Open Scope Z_scope.

(** ** Clients of any cluster *)

(** What a program of the repository does with a file: it uploads it, and downloads it
    again under its name. *)
Definition up_and_down (c : Client) (path out : string) : io fs (option (upload_result * download_result)) :=
  and_then (uploadFile c path) (fun up =>
    and_then (downloadFile c (base_name path) out) (fun down => mret (Some (up, down)))).

Definition job_files (jobs : list (Client * string * string)) (i : nat) (f : string) : Prop :=
  exists c path out, jobs !! i = Some (c, path, out) /\ (f = path \/ f = out).

Lemma up_and_down_local (jobs : list (Client * string * string)) i (c : Client) (path out : string) :
  jobs !! i = Some (c, path, out) -> confined (job_files jobs i) (up_and_down c path out).
Proof.
  intros Hi. apply confined_and_then.
  { apply confined_uploadFile. exists c, path, out. auto. }
  intros up. apply confined_and_then; [|done]. apply confined_downloadFile. exists c, path, out. auto.
Qed.

Lemma up_and_down_sure {T : Setting} (Hset : setting_ok) (c : Client) (head tail : address) (path out : string)
    (content : bytes) (d : fs) (w : world) (s : session_state) :
  knows_cluster c head tail -> given_file path content -> files d !! path = Some content -> creatable d out = true ->
  safe (H := sure_contract) client_cell None
    (fun _ d' _ _ r => r = Some (UploadComplete, Reconstructed) /\ files d' !! out = Some content)
    w d s None (up_and_down c path out).
Proof.
  intros Hc Hg Hd Ho. unfold up_and_down.
  eapply sure_and_then; [by eapply uploadFile_sure|]. intros w1 s1 u Hle1 [-> Hup].
  unfold and_then. apply safe_bind. eapply safe_mono; [|by eapply downloadFile_sure].
  intros w2 d2 s2 o r Hle2 (-> & -> & ->). split; [done|apply lookup_insert_eq].
Qed.

(** ** The cluster of the programs of [apps/] *)

(** Two storage nodes and a chain of three, on which given files are handled. *)
#[local] Instance cluster_setting (given : string -> bytes -> Prop) : Setting := {
  given_file := given;
  successor a :=
    if bool_decide (a = (localhost, 9001)) then Some (localhost, 9002)
    else if bool_decide (a = (localhost, 9002)) then Some (localhost, 9003) else None;
  metadata_at a := bool_decide (9000 <= a.2)
}.

Lemma cluster_chain given (a b : address) :
  successor (Setting := cluster_setting given) a = Some b ->
  metadata_at (Setting := cluster_setting given) b = true.
Proof. unfold successor, cluster_setting. do 2 (case_bool_decide; [by intros [= <-]; vm_compute|]). done. Qed.

Lemma cluster_sure given : world_ok (H := sure_contract (T := cluster_setting given)) (startCluster ∅).
Proof.
  intros a n Hn%started_nodes. revert Hn. apply (Forall_forall (fun x => node_sure (T := cluster_setting given) x.1 x.2) (cluster_nodes 2)).
  unfold cluster_nodes. apply Forall_app. split; repeat constructor; try done; simpl; by intros f r ?%lookup_empty_Some.
Qed.

Lemma cluster_client given : knows_cluster (T := cluster_setting given) compiled_client (localhost, 9001) (localhost, 9003).
Proof.
  split.
  - apply new_client_wf.
  - apply compiled_ring.
  - intros addr Hin%new_client_nodes.
    assert (Forall (fun addr => exists a : address, target addr = Some a /\ a.2 < 9000) storageNodes) as H.
    { repeat constructor; eexists; (split; [by vm_compute|done]). }
    rewrite Forall_forall in H. destruct (H _ Hin) as (a & Ha & Hlt). exists a. split; [done|].
    simpl. rewrite bool_decide_eq_false. lia.
  - by exists "127.0.0.1:9001", ["127.0.0.1:9002"; "127.0.0.1:9003"].
  - by exists "127.0.0.1:9003", ["127.0.0.1:9002"; "127.0.0.1:9001"].
  - done.
  - done.
  - by do 2 (eapply rtc_l; [reflexivity|]).
Qed.

(** *** The files of the second system test *)

Definition test_given (path : string) (content : bytes) : Prop :=
  exists i, i ∈ seqZ 0 clientCount /\ path = thread_file i /\ content = thread_data i.

Abbreviation test_setting := (cluster_setting test_given).

Lemma test_chunk x : is_chunk (Uploads := file_uploads (T := test_setting)) x -> exists i, i ∈ seqZ 0 clientCount /\ x = thread_data i.
Proof.
  intros (path & content & (i & Hi & -> & ->) & Hx). exists i. split; [done|].
  destruct (thread_facts i Hi) as (_ & _ & _ & Hlen). pose proof (pieces_file (thread_data i)) as E.
  destruct (pieces _ _) as [|y [|]]; try done. apply list_elem_of_singleton in Hx as ->.
  simpl in E. by rewrite app_nil_r in E.
Qed.

Lemma test_setting_ok : setting_ok (T := test_setting).
Proof.
  split.
  - intros path content (i & Hi & -> & ->). destruct (thread_facts i Hi) as ((Htok & Hs & _) & _).
    destruct (thread_testable i Hi) as (Hne & Hnum & _). by rewrite base_name_plain.
  - intros path content path' content' (i & Hi & -> & ->) (j & Hj & -> & ->) E.
    destruct (thread_facts i Hi) as ((_ & Hsi & _) & _), (thread_facts j Hj) as ((_ & Hsj & _) & _).
    rewrite !base_name_plain in E by done. rewrite (thread_names i j (thread_file i)); [done| |]; split; auto.
  - intros x y (i & Hi & ->)%test_chunk (j & Hj & ->)%test_chunk E. by rewrite (thread_digests i j Hi Hj E).
  - apply cluster_chain.
Qed.

(** ** A thread *)

Abbreviation tsafe := (safe (H := sure_contract (T := test_setting)) client_cell None).

Lemma same_cid_sure (path out : string) (content : bytes) (d : fs) (w : world) (s : session_state) :
  files d !! path = Some content -> files d !! out = Some content -> numberable content ->
  tsafe (sure d (fun _ same => same = true)) w d s None (same_cid path out).
Proof.
  intros H1 H2 Hnum. unfold same_cid, and_then, cid. cbn [reads mbind io_mbind io_bind].
  apply client_step. intros w1 _ _. rewrite (computeCID_eq _ _ _ H1 Hnum).
  cbn [mret io_ret io_bind]. apply client_step. intros w2 _ _. rewrite (computeCID_eq _ _ _ H2 Hnum).
  cbn [mret io_ret io_bind]. split; [done|split; [done|]]. eexists. split; [done|]. by rewrite bool_decide_eq_true_2.
Qed.

(** The files a thread needs can be created. *)
Definition room (d : fs) (i : Z) : Prop := creatable d (thread_file i) = true /\ creatable d (thread_out i) = true.

Lemma concurrent_check_sure (i : Z) (d : fs) (w : world) (s : session_state) :
  i ∈ seqZ 0 clientCount -> room d i ->
  tsafe (fun _ d' _ o r => o = None /\ r = Some true) w d s None (concurrent_check i).
Proof.
  intros Hi [Hf Ho]. destruct (thread_facts i Hi) as ((_ & Hs & Hne) & _). destruct (thread_testable i Hi) as (_ & Hnum & _).
  assert (test_given (thread_file i) (thread_data i)) as Hg by by exists i.
  unfold concurrent_check, write_file. cbn [modify mbind io_mbind io_bind]. apply client_step. rewrite Hf.
  set (d1 := FS (<[thread_file i := thread_data i]> (files d)) (creatable d)). intros w1 _ _.
  assert (files d1 !! thread_file i = Some (thread_data i)) as Hd1 by apply lookup_insert_eq.
  assert (creatable d1 (thread_out i) = true) as Ho1 by done. clearbody d1.
  cbn [mret io_ret io_bind]. change (new_client storageNodes metadataNodes) with compiled_client.
  eapply sure_and_then; [apply (uploadFile_sure test_setting_ok _ _ _ (cluster_client test_given) _ (thread_data i)); done|].
  intros w2 s2 u Hle2 [-> Hup]. unfold and_then at 1. apply safe_bind. cbv zeta.
  pose proof (downloadFile_sure test_setting_ok _ _ _ (cluster_client test_given) _ _ _ d1 w2 s2 Hg Ho1 Hup) as Hdown.
  rewrite base_name_plain in Hdown by done. eapply safe_mono; [|exact Hdown].
  intros w3 d3 s3 o3 r Hle3 (-> & -> & ->). eapply safe_mono; [|apply (same_cid_sure _ _ (thread_data i))].
  - intros w4 d4 s4 o4 r Hle4 (-> & -> & x & -> & ->). done.
  - cbn [files]. by rewrite lookup_insert_ne.
  - apply lookup_insert_eq.
  - done.
Qed.

Lemma concurrent_client_sure (i : Z) (d : fs) (w : world) (s : session_state) :
  i ∈ seqZ 0 clientCount -> room d i ->
  tsafe (fun _ _ _ _ r => r = Some true) w d s None (concurrent_client i).
Proof.
  intros Hi Hr. unfold concurrent_client, and_then. apply safe_bind.
  eapply safe_mono; [|by apply concurrent_check_sure]. intros w1 d1 s1 o r Hle (-> & ->).
  unfold remove_file. cbn [modify mbind io_mbind io_bind]. apply client_step. intros w2 _ _.
  cbn [mret io_ret io_bind]. by apply client_step.
Qed.

(** ** The threads of the experiments *)

Abbreviation work_file i := ("perf_test_" +:+ to_string i +:+ ".bin").
Abbreviation work_out i := ("perf_out_" +:+ to_string i +:+ ".bin").

Definition work_given (data : bytes) (n : Z) (path : string) (content : bytes) : Prop :=
  exists i, i ∈ seqZ 0 n /\ path = work_file i /\ content = data.

(** Every thread uploads the same bytes; they can be cut and no two chunks collide. *)
Record uploadable (data : bytes) : Prop := {
  data_some : data <> [];
  data_numberable : numberable data;
  data_tells : hashes_tell (chunks_of data)
}.

Lemma to_string_slashless z : no_slash (to_string z) = true.
Proof.
  assert (forall a, is_digit a = true -> negb (bool_decide (a = "/"%char \/ a = "\"%char)) = true) as H.
  { intros a. destruct a as [[] [] [] [] [] [] [] []]; done. }
  unfold no_slash, to_string. case_bool_decide.
  - destruct (digits_spec (- z) ltac:(lia)) as (_ & Hd & _). cbn [str_all]. rewrite (str_all_impl _ _ _ H Hd). done.
  - destruct (digits_spec z ltac:(lia)) as (_ & Hd & _). by apply (str_all_impl _ _ _ H).
Qed.

Lemma work_file_name i : token (work_file i) /\ base_name (work_file i) = work_file i.
Proof.
  split.
  - apply token_app; [done|]. rewrite str_all_app. destruct (to_string_token i) as [_ ->]. done.
  - apply base_name_plain. unfold no_slash. rewrite !str_all_app.
    pose proof (to_string_slashless i) as H. unfold no_slash in H. rewrite H. done.
Qed.

Section Experiment.
Context (data : bytes) (n : Z) (Hdata : uploadable data).

Abbreviation work_setting := (cluster_setting (work_given data n)).

Lemma work_setting_ok : setting_ok (T := work_setting).
Proof.
  assert (forall x, is_chunk (Uploads := file_uploads (T := work_setting)) x ->
    exists ch, ch ∈ chunks_of data /\ c_data ch = x) as Hchunk.
  { intros x (path & content & (i & _ & _ & ->) & Hx). rewrite <- chunks_of_data in Hx.
    apply list_elem_of_fmap in Hx as (ch & -> & Hch). by exists ch. }
  split.
  - intros path content (i & _ & -> & ->). destruct (work_file_name i) as [Htok ->].
    split_and!; [done|by apply data_numberable|by apply data_some].
  - by intros path content path' content' (i & _ & _ & ->) (j & _ & _ & ->) _.
  - intros x y (ch & Hch & <-)%Hchunk (ch' & Hch' & <-)%Hchunk E. apply (data_tells _ Hdata); [done|done|].
    by rewrite (chunks_of_hash _ _ Hch), (chunks_of_hash _ _ Hch').
  - apply cluster_chain.
Qed.

Lemma worker_sure (i : Z) (d : fs) (w : world) (s : session_state) :
  i ∈ seqZ 0 n -> creatable d (work_file i) = true -> creatable d (work_out i) = true ->
  safe (H := sure_contract (T := work_setting)) client_cell None
    (fun _ _ _ _ r => r = Some (UploadComplete, Reconstructed)) w d s None (worker data i).
Proof.
  intros Hi Hf Ho. assert (work_given data n (work_file i) data) as Hg by by exists i.
  unfold worker, write_file. cbn [modify mbind io_mbind io_bind]. apply client_step. rewrite Hf.
  set (d1 := FS (<[work_file i := data]> (files d)) (creatable d)). intros w1 _ _.
  assert (files d1 !! work_file i = Some data) as Hd1 by apply lookup_insert_eq.
  assert (creatable d1 (work_out i) = true) as Ho1 by done. clearbody d1.
  cbn [mret io_ret io_bind]. change (new_client storageNodes metadataNodes) with compiled_client.
  eapply sure_and_then; [apply (uploadFile_sure work_setting_ok _ _ _ (cluster_client _) _ data); done|].
  intros w2 s2 u Hle2 [-> Hup]. unfold and_then at 1. apply safe_bind. cbv zeta.
  pose proof (downloadFile_sure work_setting_ok _ _ _ (cluster_client _) _ _ _ d1 w2 s2 Hg Ho1 Hup) as Hdown.
  rewrite (proj2 (work_file_name i)) in Hdown. eapply safe_mono; [|exact Hdown].
  intros w3 d3 s3 o3 r Hle3 (-> & -> & _). unfold remove_file. cbn [modify mbind io_mbind io_bind].
  apply client_step. intros w4 _ _. cbn [mret io_ret io_bind]. by apply client_step.
Qed.
End Experiment.

(** A schedule without a failing step is calm. *)
Lemma turns_calm {A : Type} (l : list (nat * nat * nat)) (c : process A) : calm_exec (turns_of l) c = true.
Proof.
  assert (forall ms, Forall (fun m => exists i n, m = Turn i n false) ms -> forall c : process A, calm_exec ms c = true) as H.
  { induction 1 as [|m ms (i & n & ->) _ IH]; intros c'; [done|]. cbn [calm_exec calm_move andb].
    destruct (process_do _ c'); [apply IH|done]. }
  apply H, Forall_forall. intros m. unfold turns_of. rewrite list_elem_of_In, in_concat.
  intros (x & ([[k i] n] & -> & _)%list_elem_of_In%list_elem_of_fmap & [-> _]%list_elem_of_In%elem_of_replicate).
  by exists i, n.
Qed.

(** ** Properties *)

(** C5. Without failing calls the system does what it is for: on any cluster whose nodes are
    alive and form a chain, however the steps of any number of clients, of the handlers
    and of the health checks overlap, a client that has come to the end of uploading a
    file and downloading it again has been told that both succeeded, and its output file
    is the file.  The system knows a file by its base name only, and a later upload replaces an
    earlier one; so two given files with the same base name, in different directories, must have the
    same content ([files_agree] in [setting_ok]), or a client could read back the other one's.  The
    base names have one word, the files are not empty and can be numbered, and no two of their
    chunks collide; every client has paths of its own and is given the chain from its
    head to its tail. *)
Theorem calm_clients_succeed {T : Setting} (jobs : list (Client * string * string)) w0 d0 (head tail : address) ms c i cl path out content o l :
  setting_ok -> (forall a n, w0 !! a = Some n -> node_sure a n) ->
  (forall i j f, i <> j -> job_files jobs i f -> job_files jobs j f -> False) ->
  (forall i cl path out, jobs !! i = Some (cl, path, out) ->
     knows_cluster cl head tail /\ creatable d0 out = true /\
     exists content, given_file path content /\ files d0 !! path = Some content) ->
  (forall cl j d, ~ Outside (Begin cl j d) ∈ ms) ->
  let start := start_process (start_net w0) d0 ((fun '(cl, path, out) => up_and_down cl path out) <$> jobs) in
  calm_exec ms start = true -> process_exec ms start = Some c ->
  jobs !! i = Some (cl, path, out) -> files d0 !! path = Some content -> p_threads c !! i = Some (Ret o, l) ->
  o = Some (UploadComplete, Reconstructed) /\ files (p_disk c) !! out = Some content.
Proof.
  intros Hset Hw0 Hdis Hjobs Hout start Hcalm He Hj Hd Hi. subst start.
  destruct (process_sound sure_storage_handler (sure_metadata_handler Hset) w0 (fun _ _ _ => False)
    (fun _ _ _ _ _ _ => True) (sure_health_check Hset) (fun _ _ _ _ _ _ _ _ H => H) (fun a n _ => sure_nothing n)
    (fun cl j d w s Hb _ _ => match Hb with end) (job_files jobs)
    (fun i _ d o => forall cl path out content, jobs !! i = Some (cl, path, out) -> files d0 !! path = Some content ->
       o = Some (UploadComplete, Reconstructed) /\ files d !! out = Some content) Hdis (fun _ _ _ _ _ _ H => H)
    d0 ((fun '(cl, path, out) => up_and_down cl path out) <$> jobs) ms c i o l Hw0) as (view & Hv & Hpost); [|done..|].
  - intros j p ([[cl' path'] out'] & -> & Hj')%list_lookup_fmap_Some. split; [by apply up_and_down_local|].
    destruct (Hjobs _ _ _ _ Hj') as (Hc & Ho & content' & Hg & Hd'). exists SIdle.
    eapply safe_mono; [|by eapply up_and_down_sure]. intros w d s o' r _ [-> Hf] cl2 path2 out2 content2 Hj2 Hd2.
    simplify_eq. done.
  - destruct (Hpost _ _ _ _ Hj Hd) as [-> Hf]. split; [done|]. rewrite <- Hf. symmetry.
    apply Hv. exists cl, path, out. auto.
Qed.

(** Two clients that have written the files of threads 0 and 1: the second starts and ends
    its upload while the first is between its two copies of a chunk. *)
Definition sample_jobs : list (Client * string * string) :=
  (fun i => (compiled_client, thread_file i, thread_out i)) <$> [0; 1].

Definition sample_disk : fs :=
  FS {[thread_file 0 := thread_data 0; thread_file 1 := thread_data 1]} (fun _ => true).

Definition sample_turns : list move :=
  turns_of [(2, 0, 0); (1, 0, 1); (1, 0, 0); (6, 0, 1); (2, 0, 0); (11, 0, 1); (3, 0, 0); (1, 0, 1); (1, 0, 0);
            (6, 0, 1); (2, 0, 0); (10, 0, 1); (2, 1, 0); (1, 1, 1); (1, 1, 0); (6, 1, 1); (2, 1, 0); (11, 1, 1);
            (3, 1, 0); (1, 1, 1); (1, 1, 0); (6, 1, 1); (2, 1, 0); (11, 1, 1); (3, 1, 0); (1, 1, 1); (2, 1, 0);
            (12, 1, 1); (1, 1, 2); (1, 1, 1); (12, 1, 2); (1, 1, 3); (1, 1, 2); (12, 1, 3); (7, 1, 2);
            (7, 1, 1); (2, 1, 0); (1, 0, 1); (3, 0, 0); (1, 0, 1); (2, 0, 0); (12, 0, 1); (1, 0, 2); (1, 0, 1);
            (12, 0, 2); (1, 0, 3); (1, 0, 2); (12, 0, 3); (7, 0, 2); (7, 0, 1); (2, 0, 0); (1, 0, 0); (1, 0, 1);
            (1, 0, 0); (12, 0, 1); (3, 0, 0); (1, 0, 1); (1, 0, 0); (14, 0, 1); (4, 0, 0)]%nat.

Lemma sample_lookup i cl path out :
  sample_jobs !! i = Some (cl, path, out) ->
  cl = compiled_client /\ Z.of_nat i ∈ seqZ 0 clientCount /\ path = thread_file (Z.of_nat i) /\ out = thread_out (Z.of_nat i) /\
  files sample_disk !! path = Some (thread_data (Z.of_nat i)).
Proof.
  intros Hi. destruct i as [|[|i]]; [| |discriminate Hi]; injection Hi as <- <- <-;
    (split; [reflexivity|split; [apply elem_of_seqZ; unfold clientCount; lia|split_and!; by vm_compute]]).
Qed.

Lemma calm_clients_succeed_witness :
  exists c l, process_exec sample_turns (start_process (start_net (startCluster ∅)) sample_disk
      ((fun '(cl, path, out) => up_and_down cl path out) <$> sample_jobs)) = Some c /\
    p_threads c !! 0%nat = Some (Ret (Some (UploadComplete, Reconstructed)), l) /\
    files (p_disk c) !! thread_out 0 = Some (thread_data 0).
Proof.
  assert (exists o, (fun c => p_threads c !! 0%nat) <$>
    process_exec sample_turns (start_process (start_net (startCluster ∅)) sample_disk
      ((fun '(cl, path, out) => up_and_down cl path out) <$> sample_jobs)) = Some (Some (Ret o, Hang)))
    as (o & (c & He & Hi)%fmap_Some) by (eexists; vm_compute; reflexivity).
  exists c, Hang. split; [exact He|]. rewrite <- Hi.
  destruct (calm_clients_succeed (T := test_setting) sample_jobs (startCluster ∅) sample_disk (localhost, 9001) (localhost, 9003)
    sample_turns c 0 compiled_client (thread_file 0) (thread_out 0) (thread_data 0) o Hang) as [E Hf].
  - exact test_setting_ok.
  - exact (cluster_sure test_given).
  - intros i j f Hij (c1 & p1 & o1 & (_ & Hi1 & -> & -> & _)%sample_lookup & Hf1)
      (c2 & p2 & o2 & (_ & Hi2 & -> & -> & _)%sample_lookup & Hf2).
    exact (own_disjoint i j f Hij (conj Hi1 Hf1) (conj Hi2 Hf2)).
  - intros i cl path out (-> & Hin & -> & -> & Hd)%sample_lookup. split; [exact (cluster_client test_given)|split; [reflexivity|]].
    eexists. split; [|exact Hd]. exists (Z.of_nat i). split; [exact Hin|split; reflexivity].
  - intros cl j d Hin. destruct (turns_inside _ _ Hin).
  - apply turns_calm.
  - exact He.
  - reflexivity.
  - vm_compute. reflexivity.
  - exact (eq_sym Hi).
  - split; [by rewrite E|exact Hf].
Defined.

(** C10. The second system test passes in every schedule in which no call fails: on a freshly
    started cluster, however the steps of its ten threads, of the handlers they are
    served by and of the nodes' health checks are ordered, a thread that has come to its
    end has found no failure and thrown no exception, if its two files can be created. *)
Theorem calm_threads_pass ms d0 c i o l :
  (forall j, j ∈ seqZ 0 clientCount -> room d0 j) ->
  (forall cl j d, ~ Outside (Begin cl j d) ∈ ms) ->
  calm_exec ms (start_process (start_net (startCluster ∅)) d0 whole_threads) = true ->
  process_exec ms (start_process (start_net (startCluster ∅)) d0 whole_threads) = Some c ->
  p_threads c !! i = Some (Ret o, l) -> o = Some true.
Proof.
  intros Hd0 Hout Hcalm He Hi.
  destruct (process_sound sure_storage_handler (sure_metadata_handler test_setting_ok) (startCluster ∅) (fun _ _ _ => False)
    (fun _ _ _ _ _ _ => True) (sure_health_check test_setting_ok) (fun _ _ _ _ _ _ _ _ H => H) (fun a n _ => sure_nothing n)
    (fun cl j d w s Hb _ _ => match Hb with end)
    own (fun _ _ _ o => o = Some true) own_disjoint (fun _ _ _ _ _ _ H => H)
    d0 whole_threads ms c i o l (cluster_sure test_given)) as (view & _ & Hpass); [|done..|done].
  intros j p Hp. split; [by apply whole_threads_local|]. apply thread_at in Hp as [-> Hj].
  exists SIdle. apply concurrent_client_sure; auto.
Qed.

(** Threads 3 and 4 of [Overlap.v], up to where the first has removed its files. *)
Lemma calm_threads_pass_witness :
  exists c l, process_exec (overlapping ++ turns_of [(2, 3, 0)]%nat)
      (start_process (start_net (startCluster ∅)) empty_disk whole_threads) = Some c /\
    p_threads c !! 3%nat = Some (Ret (Some true), l).
Proof.
  assert (exists o, (fun c => p_threads c !! 3%nat) <$>
    process_exec (overlapping ++ turns_of [(2, 3, 0)]%nat)
      (start_process (start_net (startCluster ∅)) empty_disk whole_threads) = Some (Some (Ret o, Hang)))
    as (o & (c & He & Hi)%fmap_Some) by (eexists; vm_compute; reflexivity).
  unfold overlapping, turns_of in He. rewrite <- concat_app, <- fmap_app in He.
  exists c, Hang. split; [unfold overlapping, turns_of; rewrite <- concat_app, <- fmap_app; exact He|].
  rewrite <- Hi. do 3 f_equal.
  refine (calm_threads_pass (turns_of _) empty_disk c 3 o Hang _ _ _ He (eq_sym Hi)).
  - intros j _. split; reflexivity.
  - intros cl j d Hin. destruct (turns_inside _ _ Hin).
  - apply turns_calm.
Defined.

(** C11. An experiment in which no call fails measures what it claims to: on a freshly started
    cluster, in every such schedule of its threads on one disk, when all of them have
    ended the averages are over the durations of complete uploads and downloads, one of
    each per thread, if their files can be created.  Compare [experiments_report_success],
    where the failures of the calls go unseen. *)
Theorem calm_workload_measures dis n size ms d0 c clock :
  let data := random_data dis size in
  let start := start_process (start_net (startCluster ∅)) d0 (worker data <$> seqZ 0 n) in
  0 <= n <= INT_MAX -> uploadable data ->
  (forall i, i ∈ seqZ 0 n -> creatable d0 (work_file i) = true /\ creatable d0 (work_out i) = true) ->
  (forall cl j d, ~ Outside (Begin cl j d) ∈ ms) ->
  calm_exec ms start = true -> process_exec ms start = Some c ->
  (forall i p l, p_threads c !! i = Some (p, l) -> exists o, p = Ret o) ->
  experiment_result n (measured clock (p_threads c)) =
    experiment_result n ((fun i => Some (milliseconds (upload_start (clock i).1) (upload_end (clock i).1),
                                         milliseconds (download_start (clock i).2) (download_end (clock i).2))) <$> seqZ 0 n).
Proof.
  intros data start [Hn0 Hn] Hdata Hd0 Hout Hcalm He Hend. subst start.
  pose proof (work_setting_ok data n Hdata) as Hset.
  assert (forall i o l, p_threads c !! i = Some (Ret o, l) -> o = Some (UploadComplete, Reconstructed)) as Hres.
  { intros i o l Hi.
    destruct (process_sound (H := sure_contract (T := cluster_setting (work_given data n))) sure_storage_handler
      (sure_metadata_handler Hset) (startCluster ∅) (fun _ _ _ => False)
      (fun _ _ _ _ _ _ => True) (sure_health_check Hset) (fun _ _ _ _ _ _ _ _ H => H) (fun a n _ => sure_nothing n)
      (fun cl j d w s Hb _ _ => match Hb with end)
      (work_files n) (fun _ _ _ o => o = Some (UploadComplete, Reconstructed)) (work_files_disjoint n Hn) (fun _ _ _ _ _ _ H => H)
      d0 (worker data <$> seqZ 0 n) ms c i o l (cluster_sure _)) as (view & _ & Hpass); [|done..|done].
    intros j p Hp. split; [by eapply worker_local|]. apply list_lookup_fmap_Some in Hp as (k & -> & Hk%list_elem_of_lookup_2).
    exists SIdle. destruct (Hd0 k Hk). by apply (worker_sure data n Hdata). }
  destruct (process_alone (work_files n) _ _ d0 ms c (work_files_disjoint n Hn) (worker_local data n) He) as [_ _ Hcount _].
  rewrite length_fmap, length_seqZ in Hcount. f_equal. apply list_eq. intros i. unfold measured.
  rewrite list_lookup_imap, list_lookup_fmap. destruct (decide (i < Z.to_nat n)%nat) as [Hi|Hi].
  - rewrite lookup_seqZ_lt by lia. destruct (lookup_lt_is_Some_2 (p_threads c) i ltac:(lia)) as [[p l] Hp].
    destruct (Hend _ _ _ Hp) as [o ->]. rewrite Hp. simpl. by rewrite (Hres _ _ _ Hp), Z.add_0_l.
  - rewrite lookup_seqZ_ge by lia. by rewrite (proj2 (lookup_ge_None (p_threads c) i)) by lia.
Qed.

(** One thread with three bytes, which takes two and four milliseconds. *)
Definition worker_turns : list move :=
  turns_of [(3, 0, 0); (1, 0, 1); (1, 0, 0); (6, 0, 1); (2, 0, 0); (11, 0, 1); (3, 0, 0); (1, 0, 1); (1, 0, 0);
            (6, 0, 1); (2, 0, 0); (11, 0, 1); (3, 0, 0); (1, 0, 1); (2, 0, 0); (12, 0, 1); (1, 0, 2); (1, 0, 1);
            (12, 0, 2); (1, 0, 3); (1, 0, 2); (12, 0, 3); (7, 0, 2); (7, 0, 1); (2, 0, 0); (1, 0, 0); (1, 0, 1);
            (1, 0, 0); (12, 0, 1); (3, 0, 0); (1, 0, 1); (1, 0, 0); (14, 0, 1); (6, 0, 0)]%nat.

Lemma calm_workload_measures_witness :
  exists c, process_exec worker_turns (start_process (start_net (startCluster ∅)) empty_disk
      (worker (random_data (fun _ => Byte.x41) 3) <$> seqZ 0 1)) = Some c /\
    experiment_result 1 (measured (fun _ => (UploadClock 0 0 0 0 0 2000000, DownloadClock 0 4999999)) (p_threads c)) =
      Result (double_of 2) (double_of 4) (double_of 100).
Proof.
  assert (exists o, p_threads <$> process_exec worker_turns (start_process (start_net (startCluster ∅)) empty_disk
      (worker (random_data (fun _ => Byte.x41) 3) <$> seqZ 0 1)) = Some [(Ret o, Hang)])
    as (o & (c & He & Ht)%fmap_Some) by (eexists; vm_compute; reflexivity).
  exists c. split; [exact He|].
  rewrite (calm_workload_measures (fun _ => Byte.x41) 1 3 worker_turns empty_disk c
    (fun _ => (UploadClock 0 0 0 0 0 2000000, DownloadClock 0 4999999))).
  - vm_compute. reflexivity.
  - clear. unfold INT_MAX. lia.
  - clear. split; [discriminate| |].
    + apply (bool_decide_unpack (_ < _)). vm_compute. exact I.
    + apply one_chunk_tells. vm_compute. reflexivity.
  - intros i _. split; reflexivity.
  - intros cl j d Hin. destruct (turns_inside _ _ Hin).
  - apply turns_calm.
  - exact He.
  - intros i p l Hi. rewrite <- Ht in Hi. destruct i as [|i]; [|discriminate Hi]. injection Hi as <- <-. exists o. reflexivity.
Defined.
